(* ===== verification/_CoqProject ===== *)
-Q . S2P
Prelude.v
Maps.v
Bytes.v
Utf8.v
Floats.v
Values.v
Aliases.v
Codec.v
Ir.v
IrTermination.v
Borsh.v
BorshProps.v
Compile.v
CompileProps.v
Labels.v
Interface.v
Builder.v
CompileStable.v
BuilderProps.v
Programs.v
ProgramsProps.v
Precompiles.v
PrecompilesProps.v
ErrorsBase.v
ErrorsCatalog.v
Errors.v
ErrorsProps.v
Fuzzing.v
FuzzingProps.v
CallTrace.v
CallTraceProps.v
Coverage.v
CoverageProps.v
GenTypes.v
GenTypesProps.v
Stdio.v
Hex.v
MpServer.v
MpWorker.v
MpSystem.v
MpTyping.v
MpProps.v
MpRun.v
PytestPlugin.v
PytestPluginProps.v
Cli.v
GenIdl.v
GenIdlProps.v
GenEmit.v
GenEmitProps.v
GenModule.v
GenModuleProps.v
GenBuilders.v
GenInstructions.v
Json.v
JsonProps.v
GenRun.v
GenRunProps.v
Regex.v
GenSource.v
GenErrors.v
CoverageText.v
CoverageNative.v
CoverageNativeProps.v
Trace.v
TraceProps.v
Imports.v
ImportsProps.v
Debug.v
Units.v
