(* ===== verification/Prelude.v ===== *)
(** * wake.sol: a verification library

    wake.sol is a Python harness for testing Solana programs.  Generated
    modules describe a program's types, instructions, events and errors; the
    harness encodes and decodes them with Borsh, builds instructions, runs
    transactions in a native SVM, turns failures into exceptions of specific
    classes, renders call traces, and drives stateful fuzz tests, in one process
    or in several.  The modules are generated from IDL files, and a command line
    and a pytest plugin tie the parts together.  This library models the Python
    under [src/python/wake_sol], and the native coverage recorder and call-tree
    builder, as executable definitions and proves what makes each part correct.
    Property ids (C1, C2, ...) are in the comments of the theorems.

    ** The parts and the files that model them

    - Shared: [Prelude] (exceptions as values of [res], automation), [Maps]
      (merging finite maps item by item), [Bytes]
      (bytes and fixed-width integers), [Utf8] (strings as code points and
      their encoding), [Floats] (IEEE bit patterns), [Values] (the Python values
      the codec handles, dicts as ordered association lists, the native [Pubkey]
      as the class [Native] with its documented laws [NativeLaws]).
    - The codec, [_codec/]: [Aliases] ([aliases.py]), [Codec] ([codec.py]: the
      cursor, depth guard, modes), [Ir] ([ir.py]: one [read] and one [write] per
      node class; struct and enum nodes are references into a heap of node
      contents, as the code shares and fills them), [IrTermination] (the fuel of
      [read] and [write] and why it suffices), [Compile] ([ir.py],
      [carriers.py]: [compile_type] and [compile_field] in a monad whose type
      cache survives exceptions), [CompileStable] (a compiled node reads the same
      in every later state).
    - [Borsh]: the abstract specification, the Borsh format as a relation
      between types, values and bytes; [BorshProps] and [CompileProps]: the
      refinement, round-trip, safety and termination theorems.
    - [Labels] ([_labels.py]), [Interface] ([_interface.py]: the registry of
      program interfaces, discriminator dispatch, events, return data).
    - [Builder] and [BuilderProps] ([_codec/builder.py], [_codec/meta.py]):
      name mangling, instruction data, account metas, the decoders registered
      for generated modules.
    - [Programs] and [ProgramsProps] ([_programs/]): Modules [System], [Token],
      [Ata] with every builder and decoder.
    - [Precompiles] and [PrecompilesProps] ([_precompiles.py], [ed25519.py],
      [secp256k1.py], [secp256r1.py]): claims, references between instructions
      and the offset tables the runtime reads; the curves are the class
      [Curves] with [CurvesLaws].
    - [ErrorsBase], [ErrorsCatalog], [Errors], [ErrorsProps]
      ([_errors_base.py], [_errors_catalog/], [_errors.py]): the class
      hierarchy, the 196 bundled classes, registration and resolution,
      [must_fail] and [may_fail] over an arbitrary body.
    - [Fuzzing] and [FuzzingProps] ([fuzzing.py]): the engine over an arbitrary
      world and arbitrary user code; failures carry the state reached.
    - [CallTrace] and [CallTraceProps] ([call_trace.py]): rendering, up to the
      tree handed to the rich library.
    - [Trace] and [TraceProps] ([src/trace.rs], [extract_error] of [src/lib.rs]):
      the call tree rebuilt from the runtime's flat lists and log lines, and the
      program behind a custom error; base64 is the class [Base64].
    - [Coverage], [CoverageProps], [CoverageText] ([coverage.py]): the LCOV
      format, the merging of reports, the roots with their cache, the sidecar,
      the summary; [CoverageNative] and [CoverageNativeProps] ([src/coverage.rs]
      and the wrappers of [coverage.py]): counting, the resolution of counts to
      lines, the report and its texts; the ELF and DWARF readers, the digest and
      the file system are the class [Env].
    - The generator, [_gen/]: [GenTypes] and [GenTypesProps] ([types.py]: IDL type
      nodes and their annotations), [GenIdl] and [GenIdlProps] ([idl.py]),
      [GenEmit] and [GenEmitProps] ([emit.py], [wellknown.py]: the text of a
      module), [GenRun] and [GenRunProps] ([run.py]: discovery, module names, the
      package, its writing as single file-system steps, [--check]), [GenSource]
      ([source.py]), [GenErrors] ([errors_catalog.py]).  [GenModule] says what a
      generated module does when it is imported and its builders are called,
      starting from its text; [GenModuleProps] (types), [GenBuilders] (the text of
      the methods) and [GenInstructions] (calls and their decoding) prove it
      against the IDL.
    - [Imports] and [ImportsProps] ([__init__.py] and the top level of every
      module): what each module binds and imports, run by a model of the import
      system.
    - The parallel runner: [Stdio] ([_tee.py] and the redirections of a worker),
      [MpServer] ([_mp_server.py], [_mp_serial.py]; pytest and pickle are the
      class [Pytest] with the laws [PytestLaws]), [MpWorker] ([_mp_worker.py]),
      [MpSystem] (both with the queue and the pipes, as a transition system with a
      scheduler), [MpTyping] (the protocol of a worker), [MpProps] and [MpRun]
      (the theorems).
    - [PytestPlugin] and [PytestPluginProps] ([_pytest_plugin.py] and the live
      exporter of [coverage.py]), [Cli] ([cli.py]), [Debug] ([_debug.py]), [Units]
      ([_units.py]).
    - Standard library used by these: [Hex] ([bytes.hex]), [Json] and [JsonProps]
      ([json]), [Regex] ([re]).

    The command line starts the server ([Cli.test] gives the arguments of
    [MpServer.spawn_worker]); each worker runs the plugin's hooks
    ([PytestPlugin]) and puts its reports, statistics ([Fuzzing]), coverage
    ([Coverage]) and crash logs on the queue.  A generated module imports
    [_codec], is compiled by [Compile] and registers itself in [Interface] and
    [Errors].

    ** What the theorems show

    - Codec: [decode] accepts exactly the Borsh encodings (at most 64 composite
      types deep) and re-encoding is byte exact; typed values round-trip; on any
      input [decode] returns or raises [BorshError] within the buffer; encoding
      and compiling terminate, on cyclic types too; a successful compile lowers
      every class field by field; a failed one leaves a stale cache entry.
    - Building and decoding: dispatch is longest prefix; what a builder sends is
      what the registered interface decodes, for generated and builtin programs;
      account slots stay aligned; the precompile data gives the runtime exactly
      the claims, inline or referenced.
    - Errors: resolution as a function of the history of registrations,
      isolation between programs, independence of import order, no fall-through
      for builtin programs, coherence of the catalogs and their agreement with
      the tables they are generated from, the exact behaviour of the context
      managers.
    - Fuzzing: accounting of every pick, caps, the schedule of invariants as an
      equivalence with a reference engine, aggregation across workers.
    - Traces: the tree built from the lists and the lines of a transaction, given
      as calls with their outputs, is that transaction ([run_seen]); a custom
      code is resolved against the program it came from; a message that starts
      with a marker word breaks both (a bug).  The renderer shows an error where
      it originated, and a failure is always visible.
    - Coverage: the text format round-trips; merging sums line by line and is
      refused exactly on conflicting builds; the sidecar round-trips; the roots
      asked for confine the report.
      In the recorder a count is the number of executions, saturated; a line has
      the count of its busiest run; rows stay within the roots and the crate; the
      report does not depend on the order of a hash map; what is written reads
      back.  A debug build registered after a report is ignored (a bug).
    - Generator: the annotation emitted for an IDL type compiles to the wire
      layout of that type; a module imports what it uses and encodes with the
      layouts of its instructions; the package has one module per program, is
      written without ever showing a mixture, and is in sync right after.  A
      generated module implements its IDL: its classes have the wire format of
      the IDL's types, a builder call gives the instruction the IDL describes, and
      the decoder it registers gives the arguments back; the side conditions on
      names ([idl_fits]) are those under which Python binds what the text means,
      and an account called [data] shows why they are needed.
    - Package: any module can be imported first in spite of the import cycles,
      registrations happen once, public names are bound to the right objects, and
      the imports of a generated module resolve.
    - Parallel runs: whatever the schedule and whatever the tests do, a run ends
      and no acknowledgement is lost; the server then holds exactly what the
      workers sent, each in its order; the tests are distributed without loss;
      merged coverage counts the last snapshot of each worker once.
    - Command line and plugin: each worker gets its own seed and the server the
      arguments that are not the plugin's; the seed printed reproduces a test;
      a fuzz failure leaves exactly one crash log; the debugger opens once.
    - Units: amounts of at most 28 digits convert exactly or are refused.

    ** Bounds and fuel

    Recursion over types that may be cyclic carries fuel: [read] the decode
    depth limit, [write] the size of the value, [compile_type] the number of
    classes, [min_wire_size] the number of nodes.  [IrTermination] and
    [CompileProps] prove that the exhausted case [OutOfFuel] is never returned.
    [Json.loads] has twice the length of the text plus two ([loads_terminates]
    proves it enough), the account groups of an IDL the depth of the document
    ([flatten_returns]), the collapsing of underscores in a slug its length (each
    round shortens it), and a repetition in a pattern the length of the text left
    (each turn consumes a character).  Imports nest at most twelve deep
    ([package_loads]; [import_module_mono] shows that a deeper limit changes
    nothing).  The run of the parallel system has a
    measure that every step decreases, proved in [MpProps].
    Integers are [Z] with their width written out where the code packs them.

    ** Not modelled

    The native extension (Rust) other than the coverage recorder and the call-tree
    builder: the operations the Python calls are parameters with their documented laws; sha256, a
    parameter; parsing of options (click, argparse), terminal output (rich) and
    the interactive session (ipdb), which libraries do; the equality, hash and
    repr of the carriers and keys, which no modelled code uses.
    pytest itself is an interface: what tests, users and signals do is an
    arbitrary sequence of hooks.  Messages of exceptions keep their fixed text; the
    interpolated values are kept only where code reads them.  Annotations
    arrive resolved, as [typing.get_type_hints] returns them.  Letter case and
    [repr] in generated text are those of ASCII. *)

From stdpp Require Import base decidable option list gmap strings sorting numbers.
From Stdlib Require Import ZArith Lia.
From Stdlib Require Import Strings.Byte.

#[global] Open Scope Z_scope.
#[global] Set Default Proof Using "Type".

(** ** Automation of the development

    [wake] collects the lemmas that close the routine cases (ranges of bytes,
    lengths of encodings), [wake_simpl] the rewriting rules. *)
Create HintDb wake discriminated.
Create Rewrite HintDb wake_simpl.

Ltac wsimpl := autorewrite with wake_simpl in *.
Ltac wauto := wsimpl; eauto with wake lia.

(** Case analysis on the discriminee of the first [match] or [if] in a
    hypothesis or the goal, keeping the equation. *)
Ltac break_match_hyp H :=
  match type of H with
  | context [match ?x with _ => _ end] =>
      lazymatch x with
      | context [match _ with _ => _ end] => fail
      | _ => destruct x eqn:?
      end
  end.
Ltac break_match_goal :=
  match goal with
  | |- context [match ?x with _ => _ end] =>
      lazymatch x with
      | context [match _ with _ => _ end] => fail
      | _ => destruct x eqn:?
      end
  end.

(** Boolean comparisons turned into propositions everywhere. *)
Ltac zify_bools :=
  repeat match goal with
  | H : (_ <? _)%Z = true |- _ => apply Z.ltb_lt in H
  | H : (_ <? _)%Z = false |- _ => apply Z.ltb_ge in H
  | H : (_ <=? _)%Z = true |- _ => apply Z.leb_le in H
  | H : (_ <=? _)%Z = false |- _ => apply Z.leb_gt in H
  | H : (_ =? _)%Z = true |- _ => apply Z.eqb_eq in H
  | H : (_ =? _)%Z = false |- _ => apply Z.eqb_neq in H
  | H : (_ && _) = true |- _ => apply andb_true_iff in H; destruct H
  | H : (_ || _) = false |- _ => apply orb_false_iff in H; destruct H
  | H : negb _ = true |- _ => apply negb_true_iff in H
  | H : negb _ = false |- _ => apply negb_false_iff in H
  end.

(** ** Exceptions and fallible code

    A Python function that may raise returns [res A].  An exception keeps what
    the handlers of the code can observe: its class and, for [BorshError], the
    byte offset and the breadcrumb path; for the others the fixed text of the
    message (interpolated values are dropped, no handler reads them). *)
Inductive path_elem :=
  | PField (name : string)
  | PIndex (i : nat).

#[global] Instance path_elem_eq_dec : EqDecision path_elem.
Proof. solve_decision. Defined.

(** What a [BorshError] says, with the interpolated values. *)
Inductive borsh_msg :=
  | NeedBytes (n remaining : Z)
  | DepthExceeded
  | TrailingBytes (consumed total : Z)
  | ExpectedInt
  | IntOutOfRange (value : Z) (bits : Z)
  | NaNFloat
  | BadBoolByte (b : Z)
  | BoolMustBe01
  | LengthExceedsRemaining (n remaining : Z)
  | LengthExceedsFloor (n remaining min_elem : Z)
  | InvalidUtf8
  | ExpectedStr
  | FixedBytesLength (got : Z) (want : Z)
  | BadOptionTag (tag : Z)
  | ExpectedOpt
  | ArrayLength (got : Z) (want : Z)
  | EnumTagOutOfRange (tag : Z) (cls : string)
  | EnumTagNoVariant (tag : Z) (cls : string)
  | NotAVariant (cls : string)
  | DiscriminatorMismatch.

Inductive exn :=
  | BorshError (m : borsh_msg) (offset : Z) (path : list path_elem)
  | GenError (m : string)
  | RefuseToDecode (reason : string)
  | ReturnDataError (m : string)
  | ValueError (m : string)
  | TypeError (m : string)
  | AttributeError (name : string)
  | KeyError (k : string)
  | IndexError
  | OverflowError
  | UnicodeEncodeError
  | StructError
  | RuntimeError (m : string)
  | AssertionError (m : string)
  | OutOfFuel.   (** not a Python exception: the model's own recursion bound *)

#[global] Instance borsh_msg_eq_dec : EqDecision borsh_msg.
Proof. solve_decision. Defined.
#[global] Instance exn_eq_dec : EqDecision exn.
Proof. solve_decision. Defined.

Inductive res (A : Type) :=
  | Ok (a : A)
  | Raise (e : exn).
Arguments Ok {A} _.
Arguments Raise {A} _.

#[global] Instance res_ret : MRet res := fun A a => Ok a.
#[global] Instance res_bind : MBind res := fun A B f m =>
  match m with Ok a => f a | Raise e => Raise e end.
#[global] Instance res_fmap : FMap res := fun A B f m =>
  match m with Ok a => Ok (f a) | Raise e => Raise e end.

#[global] Instance res_eq_dec {A} `{EqDecision A} : EqDecision (res A).
Proof. solve_decision. Defined.

(** [True] when the computation returned, i.e. did not exhaust the fuel. *)
Definition returns {A} (m : res A) : Prop := m <> Raise OutOfFuel.

Lemma bind_Ok_inv {A B} (m : res A) (f : A -> res B) b :
  m ≫= f = Ok b -> exists a, m = Ok a /\ f a = Ok b.
Proof. destruct m; simpl; [eauto | discriminate]. Qed.

Lemma fmap_Ok_inv {A B} (m : res A) (f : A -> B) b :
  f <$> m = Ok b -> exists a, m = Ok a /\ f a = b.
Proof. destruct m; simpl; [intros [= <-]; eauto | discriminate]. Qed.

Lemma returns_bind {A B} (m : res A) (f : A -> res B) :
  returns m -> (forall a, m = Ok a -> returns (f a)) -> returns (m ≫= f).
Proof.
  destruct m as [a|e]; intros Hm Hf; [by apply Hf|].
  intros [= ->]. by apply Hm.
Qed.

Lemma returns_fmap {A B} (m : res A) (f : A -> B) :
  returns m -> returns (f <$> m).
Proof.
  destruct m as [a|e]; intros Hm; [discriminate|].
  intros [= ->]. by apply Hm.
Qed.

Lemma returns_Ok {A} (a : A) : returns (Ok a).
Proof. discriminate. Qed.

Lemma returns_Raise {A} e : e <> OutOfFuel -> returns (@Raise A e).
Proof. unfold returns. congruence. Qed.

#[export] Hint Resolve returns_Ok returns_fmap : wake.
#[export] Hint Extern 1 (returns (Raise _)) => (apply returns_Raise; discriminate) : wake.

(** Inversion of every monadic success hypothesis in the context. *)
Ltac inv_ok :=
  repeat match goal with
  | H : mbind _ _ = Ok _ |- _ =>
      let a := fresh "a" in let E := fresh "E" in
      apply bind_Ok_inv in H; destruct H as [a [E H]]
  | H : fmap _ _ = Ok _ |- _ =>
      let a := fresh "a" in let E := fresh "E" in
      apply fmap_Ok_inv in H; destruct H as [a [E H]]
  | H : Ok _ = Ok _ |- _ => injection H; clear H; intros; subst
  | H : mret _ = Ok _ |- _ => injection H; clear H; intros; subst
  | H : Raise _ = Ok _ |- _ => discriminate H
  end.

(** [xs] traversed from the left with the first exception winning: the
    evaluation order of a Python list comprehension. *)
Fixpoint mapM_res {A B} (f : A -> res B) (xs : list A) : res (list B) :=
  match xs with
  | [] => Ok []
  | x :: xs => y ← f x; ys ← mapM_res f xs; Ok (y :: ys)
  end.

Lemma mapM_res_Ok {A B} (f : A -> res B) xs ys :
  mapM_res f xs = Ok ys <-> Forall2 (fun x y => f x = Ok y) xs ys.
Proof.
  revert ys; induction xs as [|x xs IH]; intros ys; simpl; split; intros H.
  - injection H as <-. constructor.
  - inversion H; subst. reflexivity.
  - inv_ok. constructor; [done|]. by apply IH.
  - inversion H as [|? y ? ys' Hy Hys]; subst. rewrite Hy; simpl.
    apply IH in Hys. rewrite Hys. reflexivity.
Qed.

Lemma mapM_res_length {A B} (f : A -> res B) xs ys :
  mapM_res f xs = Ok ys -> length ys = length xs.
Proof. intros H%mapM_res_Ok. symmetry. by eapply Forall2_length. Qed.
