(* ===== verification/Maps.v ===== *)
(** * Merging finite maps item by item

    The loop [for k, v in src.items(): dst[k] = g(dst.get(k, z), v)], which the
    statistics and the coverage reports use at every level. *)

From Stdlib Require Import ZArith Lia.
From stdpp Require Import base decidable option list gmap numbers.
From S2P Require Import Prelude.

Section MergeInto.
Context {K : Type} `{Countable K} {A : Type} (g : A -> A -> A) (z : A).

Definition add_item (m : gmap K A) (kv : K * A) : gmap K A :=
  <[kv.1 := g (default z (m !! kv.1)) kv.2]> m.

Definition merge_into (dst src : gmap K A) : gmap K A := foldl add_item dst (map_to_list src).

Lemma add_items_lookup l m k :
  NoDup l.*1 ->
  foldl add_item m l !! k =
  match (list_to_map l : gmap K A) !! k with Some v => Some (g (default z (m !! k)) v) | None => m !! k end.
Proof.
  revert m. induction l as [|[k' v] l IH]; intros m Hn; simpl; [by rewrite lookup_empty|].
  apply list.NoDup_cons in Hn as [Hk Hn]. rewrite IH by done. unfold add_item. simpl.
  destruct (decide (k = k')) as [->|Hkk].
  - rewrite !lookup_insert_eq. by rewrite not_elem_of_list_to_map_1.
  - by rewrite !lookup_insert_ne by done.
Qed.

Lemma merge_into_lookup dst src k :
  merge_into dst src !! k =
  match src !! k with Some v => Some (g (default z (dst !! k)) v) | None => dst !! k end.
Proof.
  unfold merge_into. rewrite add_items_lookup by apply NoDup_fst_map_to_list.
  by rewrite list_to_map_to_list.
Qed.

Lemma merge_into_swap (Hg : forall x a b, g (g x a) b = g (g x b) a) d a b :
  merge_into (merge_into d a) b = merge_into (merge_into d b) a.
Proof using Type.
  apply map_eq. intros k. rewrite !merge_into_lookup.
  destruct (a !! k), (b !! k); simpl; f_equal; auto.
Qed.

(** A measure of the items that adds up is summed at each key. *)
Lemma merge_into_sum (h : A -> Z) dst src k :
  (forall a b, h (g a b) = (h a + h b)%Z) -> h z = 0%Z ->
  h (default z (merge_into dst src !! k)) = (h (default z (dst !! k)) + h (default z (src !! k)))%Z.
Proof using Type.
  intros Hh Hz. rewrite merge_into_lookup. destruct (src !! k); simpl; [apply Hh|]. lia.
Qed.

(** Adding items with distinct keys into an empty map gives the map of the
    items. *)
Lemma add_items_fresh l :
  (forall x, g z x = x) -> NoDup l.*1 -> foldl add_item ∅ l = list_to_map l.
Proof using Type.
  intros Hg Hn. apply map_eq. intros k. rewrite add_items_lookup by done. rewrite lookup_empty.
  simpl. destruct (list_to_map l !! k); [by rewrite Hg|done].
Qed.
End MergeInto.

(** A map listed by its keys, in any order. *)
Lemma list_to_map_keys `{Countable K} {A} (z : A) (m : gmap K A) ks :
  Permutation ks (map_to_list m).*1 ->
  list_to_map ((fun k => (k, default z (m !! k))) <$> ks) = m.
Proof.
  intros Hp. assert (Hn : NoDup ((fun k => (k, default z (m !! k))) <$> ks).*1).
  { rewrite <-list_fmap_compose, (list_fmap_ext _ id) by done. rewrite list_fmap_id, Hp. apply NoDup_fst_map_to_list. }
  apply map_eq. intros k. destruct (m !! k) as [v|] eqn:E.
  - apply elem_of_list_to_map_1; [done|]. apply list_elem_of_fmap. exists k. rewrite E. split; [done|].
    rewrite Hp. apply list_elem_of_fmap. exists (k, v). by rewrite elem_of_map_to_list.
  - apply not_elem_of_list_to_map_1. rewrite <-list_fmap_compose, (list_fmap_ext _ id), list_fmap_id, Hp by done.
    intros ([k' v] & -> & Hv)%list_elem_of_fmap. apply elem_of_map_to_list in Hv. simpl in E. congruence.
Qed.
