(* ===== verification/Bytes.v ===== *)
(** * Bytes and machine integers

    The bytes the codec works on and Python's [int.to_bytes] /
    [int.from_bytes] (little endian, signed or not) with their
    [OverflowError], and the fixed-width [struct] formats built on them. *)

From stdpp Require Import base decidable option list gmap strings sorting numbers.
From Stdlib Require Import ZArith Lia.
From Stdlib Require Import Strings.Byte.
From S2P Require Import Prelude.

Abbreviation bytes := (list byte).

#[global] Instance byte_eq_dec : EqDecision byte := Byte.byte_eq_dec.

Definition Z_of_byte (b : byte) : Z := Z.of_N (Byte.to_N b).

Definition byte_of_Z (z : Z) : byte :=
  match Byte.of_N (Z.to_N (z mod 256)) with Some b => b | None => x00 end.

Lemma Z_of_byte_range b : 0 <= Z_of_byte b < 256.
Proof. unfold Z_of_byte. pose proof (Byte.to_N_bounded b). lia. Qed.

Lemma byte_of_Z_of_byte b : byte_of_Z (Z_of_byte b) = b.
Proof.
  unfold byte_of_Z. rewrite Z.mod_small by apply Z_of_byte_range.
  unfold Z_of_byte. by rewrite N2Z.id, Byte.of_to_N.
Qed.

Lemma Z_of_byte_of_Z z : Z_of_byte (byte_of_Z z) = z mod 256.
Proof.
  unfold byte_of_Z. pose proof (Z.mod_pos_bound z 256 eq_refl).
  destruct (Byte.of_N (Z.to_N (z mod 256))) as [b|] eqn:E.
  - apply Byte.to_of_N in E. unfold Z_of_byte. lia.
  - apply Byte.of_N_None_iff in E. lia.
Qed.

Lemma Z_of_byte_inj b1 b2 : Z_of_byte b1 = Z_of_byte b2 -> b1 = b2.
Proof. intros H. rewrite <-(byte_of_Z_of_byte b1), H. apply byte_of_Z_of_byte. Qed.

#[export] Hint Resolve Z_of_byte_range : wake.
#[export] Hint Rewrite byte_of_Z_of_byte Z_of_byte_of_Z : wake_simpl.

(** ** Little-endian integers *)

(** The [n] low bytes of [z], least significant first (two's complement). *)
Fixpoint le_bytes (n : nat) (z : Z) : bytes :=
  match n with
  | O => []
  | S n => byte_of_Z z :: le_bytes n (z / 256)
  end.

(** The unsigned value of a little-endian byte string. *)
Fixpoint le_value (bs : bytes) : Z :=
  match bs with
  | [] => 0
  | b :: bs => Z_of_byte b + 256 * le_value bs
  end.

Lemma length_le_bytes n z : length (le_bytes n z) = n.
Proof. revert z; induction n; simpl; auto. Qed.
#[export] Hint Rewrite length_le_bytes : wake_simpl.

Lemma le_value_range bs : 0 <= le_value bs < 256 ^ Z.of_nat (length bs).
Proof.
  induction bs as [|b bs IH]; simpl length; [simpl; lia|].
  rewrite Nat2Z.inj_succ, Z.pow_succ_r by lia. simpl.
  pose proof (Z_of_byte_range b). lia.
Qed.

Lemma le_value_le_bytes n z : le_value (le_bytes n z) = z mod 256 ^ Z.of_nat n.
Proof.
  revert z; induction n as [|n IH]; intros z.
  - simpl. by rewrite Z.mod_1_r.
  - rewrite Nat2Z.inj_succ, Z.pow_succ_r by lia. simpl le_bytes. simpl le_value.
    rewrite IH, Z_of_byte_of_Z.
    rewrite (Z.rem_mul_r z 256 (256 ^ Z.of_nat n)) by lia. lia.
Qed.

Lemma le_bytes_le_value bs : le_bytes (length bs) (le_value bs) = bs.
Proof.
  induction bs as [|b bs IH]; simpl; [done|].
  pose proof (Z_of_byte_range b).
  replace ((Z_of_byte b + 256 * le_value bs) / 256) with (le_value bs)
    by (rewrite Z.mul_comm, Z.div_add, Z.div_small by lia; lia).
  rewrite IH. f_equal. apply Z_of_byte_inj.
  rewrite Z_of_byte_of_Z, Z.mul_comm, Z.mod_add, Z.mod_small by lia. done.
Qed.

Lemma le_value_inj bs1 bs2 :
  length bs1 = length bs2 -> le_value bs1 = le_value bs2 -> bs1 = bs2.
Proof.
  intros Hl Hv. rewrite <-(le_bytes_le_value bs1), Hl, Hv. apply le_bytes_le_value.
Qed.

Lemma le_bytes_mod n z : le_bytes n (z mod 256 ^ Z.of_nat n) = le_bytes n z.
Proof.
  apply le_value_inj; wsimpl; [done|].
  rewrite !le_value_le_bytes. by rewrite Z.mod_mod by lia.
Qed.

(** ** [int.to_bytes] and [int.from_bytes] *)

Definition int_min (n : nat) (signed : bool) : Z :=
  if signed then - (256 ^ Z.of_nat n / 2) else 0.
Definition int_max (n : nat) (signed : bool) : Z :=
  if signed then 256 ^ Z.of_nat n / 2 - 1 else 256 ^ Z.of_nat n - 1.
Definition int_fits (n : nat) (signed : bool) (z : Z) : bool :=
  (int_min n signed <=? z) && (z <=? int_max n signed).

(** [z.to_bytes(n, "little", signed=signed)]; [None] is [OverflowError]. *)
Definition to_bytes (n : nat) (signed : bool) (z : Z) : option bytes :=
  if int_fits n signed z then Some (le_bytes n z) else None.

(** [int.from_bytes(bs, "little", signed=signed)]. *)
Definition from_bytes (signed : bool) (bs : bytes) : Z :=
  let u := le_value bs in
  let m := 256 ^ Z.of_nat (length bs) in
  if signed && (m / 2 <=? u) then u - m else u.

Lemma pow256_pos n : 0 < 256 ^ Z.of_nat n.
Proof. apply Z.pow_pos_nonneg; lia. Qed.

Lemma pow256_even n : n <> O -> 256 ^ Z.of_nat n = 2 * (256 ^ Z.of_nat n / 2).
Proof.
  intros Hn. destruct n as [|n]; [done|].
  rewrite Nat2Z.inj_succ, Z.pow_succ_r by lia.
  replace (256 * 256 ^ Z.of_nat n) with ((128 * 256 ^ Z.of_nat n) * 2) by lia.
  rewrite Z.div_mul by lia. lia.
Qed.

(** Every value that fits survives the round trip. *)
Lemma from_to_bytes n signed z bs :
  to_bytes n signed z = Some bs -> n <> O -> from_bytes signed bs = z.
Proof.
  unfold to_bytes, int_fits, int_min, int_max, from_bytes. intros H Hn.
  destruct ((_ <=? z) && (z <=? _)) eqn:Hf; [|discriminate]. injection H as <-.
  zify_bools. rewrite le_value_le_bytes, length_le_bytes.
  pose proof (pow256_even n Hn). pose proof (pow256_pos n).
  set (m := 256 ^ Z.of_nat n) in *.
  destruct signed; simpl in *.
  - destruct (Z_lt_le_dec z 0).
    + replace (z mod m) with (z + 1 * m)
        by (symmetry; rewrite <-(Z.mod_add z 1) by lia; apply Z.mod_small; lia).
      destruct (m / 2 <=? z + 1 * m) eqn:E; zify_bools; lia.
    + rewrite Z.mod_small by lia. destruct (m / 2 <=? z) eqn:E; zify_bools; lia.
  - apply Z.mod_small. lia.
Qed.

(** Every byte string is the encoding of the value it decodes to. *)
Lemma to_from_bytes signed bs :
  bs <> [] -> to_bytes (length bs) signed (from_bytes signed bs) = Some bs.
Proof.
  intros Hbs. unfold to_bytes, int_fits, int_min, int_max, from_bytes.
  pose proof (le_value_range bs). pose proof (pow256_even (length bs)) as He.
  destruct bs as [|b bs']; [done|]. specialize (He ltac:(done)).
  set (l := b :: bs') in *. set (m := 256 ^ Z.of_nat (length l)) in *.
  assert (Hle : le_bytes (length l) (le_value l - m) = l).
  { rewrite <-le_bytes_mod. fold m.
    replace (le_value l - m) with (le_value l + (-1) * m) by lia.
    rewrite Z.mod_add, Z.mod_small by lia. apply le_bytes_le_value. }
  clearbody m l.
  assert (Hin : forall lo hi z, lo <= z <= hi -> (lo <=? z) && (z <=? hi) = true)
    by (intros; apply andb_true_iff; rewrite !Z.leb_le; lia).
  destruct signed; simpl andb.
  - destruct (m / 2 <=? le_value l) eqn:E; zify_bools; rewrite Hin by lia.
    + by rewrite Hle.
    + by rewrite le_bytes_le_value.
  - rewrite Hin by lia. by rewrite le_bytes_le_value.
Qed.

Lemma to_bytes_length n signed z bs : to_bytes n signed z = Some bs -> length bs = n.
Proof. unfold to_bytes. destruct int_fits; [|done]. intros [= <-]. apply length_le_bytes. Qed.

Lemma from_bytes_fits n signed bs :
  length bs = n -> n <> O -> int_fits n signed (from_bytes signed bs) = true.
Proof.
  intros <- Hn. destruct bs as [|b bs]; [done|].
  pose proof (to_from_bytes signed (b :: bs) ltac:(done)) as H.
  unfold to_bytes in H. by destruct int_fits.
Qed.

(** [struct.pack("<Q"/"<I"/"<H"/"<B", z)]: an unsigned [n]-byte field;
    [struct.error] when the value does not fit. *)
Definition pack_u (n : nat) (z : Z) : res bytes :=
  match to_bytes n false z with Some bs => Ok bs | None => Raise StructError end.

(** [struct.unpack_from] of one unsigned [n]-byte field at [off];
    [struct.error] when the buffer is too short. *)
Definition unpack_u (n : nat) (d : bytes) (off : nat) : res Z :=
  if (off + n <=? length d)%nat then Ok (le_value (take n (drop off d))) else Raise StructError.

(** [d[i:j]] on a byte string. *)
Definition slice (d : bytes) (i j : nat) : bytes := take (j - i) (drop i d).

Lemma pack_u_Ok n z bs :
  pack_u n z = Ok bs <-> 0 <= z < 256 ^ Z.of_nat n /\ bs = le_bytes n z.
Proof.
  unfold pack_u, to_bytes, int_fits, int_min, int_max.
  destruct ((0 <=? z) && _) eqn:E; split.
  - intros [= <-]. zify_bools. split; [lia|done].
  - intros [_ ->]. done.
  - discriminate.
  - intros [H _]. apply andb_false_iff in E as [E|E]; zify_bools; lia.
Qed.

Lemma unpack_u_app n z pre post :
  0 <= z < 256 ^ Z.of_nat n ->
  unpack_u n (pre ++ le_bytes n z ++ post) (length pre) = Ok z.
Proof.
  intros Hz. unfold unpack_u. rewrite !length_app, length_le_bytes.
  destruct (Nat.leb_spec (length pre + n) (length pre + (n + length post))); [|lia].
  rewrite drop_app_length, take_app_le, take_ge by (rewrite length_le_bytes; lia).
  rewrite le_value_le_bytes, Z.mod_small by lia. done.
Qed.
