(* ===== verification/Utf8.v ===== *)
(** * Python strings and strict UTF-8

    A Python [str] is a list of code points ([ustr]); lone surrogates are
    legal in a [str] and have no UTF-8 encoding.  [utf8_encode] and
    [utf8_decode] are [str.encode("utf-8")] and [bytes.decode("utf-8")] in
    strict mode: overlong forms, surrogates, code points past U+10FFFF and
    truncated sequences are refused. *)

From stdpp Require Import base decidable option list gmap strings sorting numbers.
From Stdlib Require Import ZArith Lia.
From Stdlib Require Import Strings.Byte.
From S2P Require Import Prelude.
From S2P Require Import Bytes.

Abbreviation ustr := (list Z).

(** A Unicode scalar value: a code point that is not a surrogate. *)
Definition scalar (c : Z) : bool :=
  (0 <=? c) && (c <=? 0x10FFFF) && negb ((0xD800 <=? c) && (c <=? 0xDFFF)).

Definition utf8_char (c : Z) : bytes :=
  if c <? 0x80 then [byte_of_Z c]
  else if c <? 0x800 then [byte_of_Z (0xC0 + c / 64); byte_of_Z (0x80 + c mod 64)]
  else if c <? 0x10000 then
    [byte_of_Z (0xE0 + c / 4096); byte_of_Z (0x80 + (c / 64) mod 64); byte_of_Z (0x80 + c mod 64)]
  else
    [byte_of_Z (0xF0 + c / 262144); byte_of_Z (0x80 + (c / 4096) mod 64);
     byte_of_Z (0x80 + (c / 64) mod 64); byte_of_Z (0x80 + c mod 64)].

(** [None] is [UnicodeEncodeError]. *)
Fixpoint utf8_encode (s : ustr) : option bytes :=
  match s with
  | [] => Some []
  | c :: s => if scalar c then app (utf8_char c) <$> utf8_encode s else None
  end.

(** A continuation byte's payload. *)
Definition cont (b : byte) : option Z :=
  let x := Z_of_byte b in if (0x80 <=? x) && (x <? 0xC0) then Some (x - 0x80) else None.

(** The first character of a byte string and the bytes after it; [None] is
    [UnicodeDecodeError]. *)
Definition utf8_next (bs : bytes) : option (Z * bytes) :=
  match bs with
  | [] => None
  | b0 :: r0 =>
    let x0 := Z_of_byte b0 in
    if x0 <? 0x80 then Some (x0, r0)
    else match r0 with
    | [] => None
    | b1 :: r1 =>
      y1 ← cont b1;
      if (0xC0 <=? x0) && (x0 <? 0xE0) then
        let c := (x0 - 0xC0) * 64 + y1 in
        if 0x80 <=? c then Some (c, r1) else None
      else match r1 with
      | [] => None
      | b2 :: r2 =>
        y2 ← cont b2;
        if (0xE0 <=? x0) && (x0 <? 0xF0) then
          let c := (x0 - 0xE0) * 4096 + y1 * 64 + y2 in
          if (0x800 <=? c) && scalar c then Some (c, r2) else None
        else match r2 with
        | [] => None
        | b3 :: r3 =>
          y3 ← cont b3;
          if (0xF0 <=? x0) && (x0 <? 0xF8) then
            let c := (x0 - 0xF0) * 262144 + y1 * 4096 + y2 * 64 + y3 in
            if (0x10000 <=? c) && scalar c then Some (c, r3) else None
          else None
        end
      end
    end
  end.

Fixpoint utf8_decode_n (n : nat) (bs : bytes) : option ustr :=
  match bs with
  | [] => Some []
  | _ => match n with
         | O => None
         | S n => p ← utf8_next bs; cons p.1 <$> utf8_decode_n n p.2
         end
  end.

(** Every character takes at least one byte: the length is fuel enough. *)
Definition utf8_decode (bs : bytes) : option ustr := utf8_decode_n (length bs) bs.

(** [bs.decode("utf-8", "replace")]: a maximal ill-formed prefix becomes one
    U+FFFD.  [second_ok]: a second byte that may follow the lead byte of a
    three- or four-byte sequence. *)
Definition second_ok (b0 b1 : byte) : bool :=
  let x := Z_of_byte b0 in let y := Z_of_byte b1 in
  if x =? 0xE0 then (0xA0 <=? y) && (y <=? 0xBF)
  else if x =? 0xED then (0x80 <=? y) && (y <=? 0x9F)
  else if (0xE1 <=? x) && (x <=? 0xEF) then (0x80 <=? y) && (y <=? 0xBF)
  else if x =? 0xF0 then (0x90 <=? y) && (y <=? 0xBF)
  else if x =? 0xF4 then (0x80 <=? y) && (y <=? 0x8F)
  else if (0xF1 <=? x) && (x <=? 0xF3) then (0x80 <=? y) && (y <=? 0xBF)
  else false.

Definition bad_prefix (bs : bytes) : nat :=
  match bs with
  | b0 :: b1 :: rest =>
      if second_ok b0 b1 then
        match rest with
        | b2 :: _ => if (0xF0 <=? Z_of_byte b0) && match cont b2 with Some _ => true | None => false end
                     then 3 else 2
        | [] => 2
        end
      else 1
  | _ => 1
  end.

Fixpoint utf8_replace_n (n : nat) (bs : bytes) : ustr :=
  match n, bs with
  | S n, _ :: _ =>
      match utf8_next bs with
      | Some (c, rest) => c :: utf8_replace_n n rest
      | None => 0xFFFD :: utf8_replace_n n (drop (bad_prefix bs) bs)
      end
  | _, _ => []
  end.

Definition utf8_decode_replace (bs : bytes) : ustr := utf8_replace_n (length bs) bs.

(** On well-formed input nothing is replaced. *)
Lemma utf8_replace_decode_n n bs s : utf8_decode_n n bs = Some s -> utf8_replace_n n bs = s.
Proof.
  revert bs s; induction n as [|n IH]; intros [|b bs] s Hd; try discriminate;
    try (by injection Hd as <-).
  cbn -[utf8_next] in Hd |- *. destruct (utf8_next (b :: bs)) as [[c rest]|]; [|discriminate].
  simpl in Hd. destruct (utf8_decode_n n rest) as [s'|] eqn:E; [|discriminate].
  injection Hd as <-. by rewrite (IH rest s' E).
Qed.

Ltac scalar_bounds H :=
  unfold scalar in H; zify_bools;
  repeat match goal with
  | H : (_ && _) = false |- _ => apply andb_false_iff in H; destruct H
  end; zify_bools.

(** Linear arithmetic with quotients and remainders by constants. *)
Ltac euclid := Z.to_euclidean_division_equations; lia.

(** Decides the comparisons of the goal by linear arithmetic. *)
Ltac cmp_all :=
  repeat match goal with
  | |- context [?x <? ?y] =>
      first [ rewrite (proj2 (Z.ltb_lt x y)) by euclid | rewrite (proj2 (Z.ltb_ge x y)) by euclid ]
  | |- context [?x <=? ?y] =>
      first [ rewrite (proj2 (Z.leb_le x y)) by euclid | rewrite (proj2 (Z.leb_gt x y)) by euclid ]
  end.

Lemma cont_byte y : 0 <= y < 64 -> cont (byte_of_Z (0x80 + y)) = Some y.
Proof.
  intros Hy. unfold cont. rewrite Z_of_byte_of_Z, Z.mod_small by lia.
  cmp_all. simpl. f_equal. lia.
Qed.

Lemma cont_inv b y : cont b = Some y -> 0 <= y < 64 /\ b = byte_of_Z (0x80 + y).
Proof.
  unfold cont. intros H. destruct (_ && _) eqn:E; [|discriminate]. injection H as <-.
  zify_bools. split; [lia|]. apply Z_of_byte_inj.
  rewrite Z_of_byte_of_Z, Z.mod_small; lia.
Qed.

(** A leading byte below 256 is read back as itself. *)
Lemma lead_byte x : 0 <= x < 256 -> Z_of_byte (byte_of_Z x) = x.
Proof. intros. rewrite Z_of_byte_of_Z. by apply Z.mod_small. Qed.

Lemma utf8_next_char c r : scalar c = true -> utf8_next (utf8_char c ++ r) = Some (c, r).
Proof.
  intros Hc. pose proof Hc as Hs. scalar_bounds Hc; unfold utf8_char;
    repeat case_match; zify_bools; cbn [app utf8_next];
    rewrite !lead_byte by euclid; cmp_all; try done;
    repeat (rewrite cont_byte by euclid; cbn); cmp_all; cbn.
  all: match goal with |- context [Some (?e, _)] => replace e with c by euclid end.
  all: cmp_all; rewrite ?Hs; first [done | lia].
Qed.

Lemma utf8_next_inv bs c r :
  utf8_next bs = Some (c, r) -> scalar c = true /\ bs = utf8_char c ++ r.
Proof.
  destruct bs as [|b0 r0]; [done|]. cbn [utf8_next].
  pose proof (Z_of_byte_range b0). intros Hn.
  repeat (case_match; try discriminate);
    repeat match goal with
    | H : mbind _ _ = Some _ |- _ => apply bind_Some in H; destruct H as [? [? H]]
    | H : cont _ = Some _ |- _ => apply cont_inv in H; destruct H as [? ->]
    | H : (if ?b then _ else _) = Some _ |- _ => destruct b eqn:?; try discriminate H
    | H : match ?l with [] => _ | _ :: _ => _ end = Some _ |- _ =>
        destruct l; try discriminate H
    end; zify_bools; simplify_eq.
  all: split; [try done; unfold scalar; cmp_all; done|].
  all: unfold utf8_char; cmp_all; cbn [app].
  all: repeat lazymatch goal with |- _ :: _ = _ :: _ => f_equal end; try done;
    apply Z_of_byte_inj; rewrite !Z_of_byte_of_Z; euclid.
Qed.

Lemma utf8_char_nonempty c : utf8_char c <> [].
Proof. unfold utf8_char. by repeat case_match. Qed.

Lemma utf8_decode_n_encode s bs n :
  utf8_encode s = Some bs -> (length bs <= n)%nat -> utf8_decode_n n bs = Some s.
Proof.
  revert bs n; induction s as [|c s IH]; intros bs n H Hn; cbn [utf8_encode] in H.
  { injection H as <-. by destruct n. }
  destruct (scalar c) eqn:Hc; [|discriminate].
  destruct (utf8_encode s) as [r|]; [|discriminate]. injection H as <-.
  pose proof (utf8_char_nonempty c) as Hne. rewrite length_app in Hn.
  destruct n as [|n]; [destruct (utf8_char c); simpl in Hn; [done|lia]|].
  assert (utf8_decode_n (S n) (utf8_char c ++ r) =
          (p ← utf8_next (utf8_char c ++ r); cons p.1 <$> utf8_decode_n n p.2)) as ->
    by (destruct (utf8_char c); done).
  rewrite utf8_next_char by done. cbn. rewrite (IH r n eq_refl); [done|].
  destruct (utf8_char c); simpl in Hn; [done|lia].
Qed.

(** Decoding what was encoded gives the string back. *)
Lemma utf8_decode_encode s bs : utf8_encode s = Some bs -> utf8_decode bs = Some s.
Proof. intros. by apply utf8_decode_n_encode. Qed.

Lemma utf8_encode_decode_n n bs s : utf8_decode_n n bs = Some s -> utf8_encode s = Some bs.
Proof.
  revert bs s; induction n as [|n IH]; intros [|b bs] s H; try discriminate;
    try (by injection H as <-).
  cbn [utf8_decode_n] in H. apply bind_Some in H as [[c r] [Hn H]]. cbn in H.
  apply fmap_Some in H as [s' [Hs ->]]. apply utf8_next_inv in Hn as [Hc ->].
  cbn [utf8_encode]. by rewrite Hc, (IH _ _ Hs).
Qed.

(** Strict decoding accepts only the canonical encoding of the string. *)
Lemma utf8_encode_decode bs s : utf8_decode bs = Some s -> utf8_encode s = Some bs.
Proof. apply utf8_encode_decode_n. Qed.
