(* ===== verification/Floats.v ===== *)
(** * Python floats

    A Python [float] is an IEEE binary64 number; it is kept as its 64-bit
    pattern (a [Z] in [0, 2^64)), so that [struct.pack("<d")] is exact by
    construction.  [narrow] and [widen] are the binary32 conversions of
    [struct.pack("<f")] and [struct.unpack("<f")]: rounding to nearest even
    with [OverflowError] on a finite value too large, and the exact
    embedding. *)

From stdpp Require Import base decidable option list gmap strings sorting numbers.
From Stdlib Require Import ZArith Lia.
From Stdlib Require Import Strings.Byte.
From S2P Require Import Prelude.
From S2P Require Import Bytes.
From S2P Require Import Utf8.

(** ** Fields of the two formats *)

Definition sign64 (b : Z) : Z := b / 9223372036854775808.          (* 2^63 *)
Definition exp64 (b : Z) : Z := (b / 4503599627370496) mod 2048.   (* 2^52 *)
Definition man64 (b : Z) : Z := b mod 4503599627370496.
Definition mk64 (s e m : Z) : Z := s * 9223372036854775808 + e * 4503599627370496 + m.

Definition sign32 (b : Z) : Z := b / 2147483648.                   (* 2^31 *)
Definition exp32 (b : Z) : Z := (b / 8388608) mod 256.             (* 2^23 *)
Definition man32 (b : Z) : Z := b mod 8388608.
Definition mk32 (s e m : Z) : Z := s * 2147483648 + e * 8388608 + m.

Definition is_nan64 (b : Z) : bool := (exp64 b =? 2047) && negb (man64 b =? 0).
Definition is_nan32 (b : Z) : bool := (exp32 b =? 255) && negb (man32 b =? 0).

(** [m / 2^sh] rounded to nearest, ties to even. *)
Definition rne (m : Z) (sh : Z) : Z :=
  let q := m / 2 ^ sh in
  let r := m mod 2 ^ sh in
  let half := 2 ^ (sh - 1) in
  if (half <? r) || ((r =? half) && Z.odd q) then q + 1 else q.

(** binary64 to binary32; [None] is [OverflowError]. *)
Definition narrow (b : Z) : option Z :=
  let s := sign64 b in
  let e := exp64 b in
  let m := man64 b in
  if e =? 2047 then Some (mk32 s 255 (m / 536870912))
  else if e =? 0 then Some (mk32 s 0 0)
  else
    let M := 4503599627370496 + m in
    let E := e - 1023 in
    if -126 <=? E then
      let mag := (E + 126) * 8388608 + rne M 29 in
      if 2139095040 <=? mag then None else Some (mk32 s 0 mag)
    else Some (mk32 s 0 (rne M (- E - 97))).

(** binary32 to binary64, exact. *)
Definition widen (b : Z) : Z :=
  let s := sign32 b in
  let e := exp32 b in
  let m := man32 b in
  if e =? 255 then mk64 s 2047 (m * 536870912)
  else if e =? 0 then
    if m =? 0 then mk64 s 0 0
    else let k := Z.log2 m in mk64 s (k + 874) ((m - 2 ^ k) * 2 ^ (52 - k))
  else mk64 s (e + 896) (m * 536870912).

(** [float(z)] for an integer, rounded to nearest even; [None] is
    [OverflowError]. *)
Definition float_of_Z (z : Z) : option Z :=
  let s := if z <? 0 then 1 else 0 in
  let a := Z.abs z in
  if a =? 0 then Some 0
  else
    let k := Z.log2 a in
    if k <=? 52 then Some (mk64 s (k + 1023) ((a - 2 ^ k) * 2 ^ (52 - k)))
    else
      let mag := (k + 1022) * 4503599627370496 + rne a (k - 52) in
      if 9218868437227405312 <=? mag then None else Some (mk64 s 0 mag).

(** [int(x)] for a finite float: truncation toward zero; [None] for an
    infinity or a NaN. *)
Definition Z_of_float (b : Z) : option Z :=
  let e := exp64 b in
  let m := man64 b in
  let sg := if sign64 b =? 0 then 1 else -1 in
  if e =? 2047 then None
  else if e =? 0 then Some 0
  else
    let M := 4503599627370496 + m in
    Some (sg * (if 1075 <=? e then M * 2 ^ (e - 1075) else M / 2 ^ (1075 - e))).

(** [x == 1] and [x == 0] for a float. *)
Definition float_is_one (b : Z) : bool := b =? 4607182418800017408.
Definition float_is_zero (b : Z) : bool := (b =? 0) || (b =? 9223372036854775808).

(** ** [struct.pack] / [struct.unpack] of ["<f"] and ["<d"] *)

Definition pack_float (nbytes : nat) (b : Z) : res bytes :=
  if Nat.eqb nbytes 4
  then match narrow b with Some w => Ok (le_bytes 4 w) | None => Raise OverflowError end
  else Ok (le_bytes 8 b).

Definition unpack_float (nbytes : nat) (bs : bytes) : Z :=
  if Nat.eqb nbytes 4 then widen (le_value bs) else le_value bs.

(** ** The binary32 embedding is inverted by the rounding *)

Ltac fields := unfold sign64, exp64, man64, mk64, sign32, exp32, man32, mk32 in *.

Lemma split32 b : 0 <= b < 4294967296 ->
  b = mk32 (sign32 b) (exp32 b) (man32 b) /\ 0 <= sign32 b < 2 /\
  0 <= exp32 b < 256 /\ 0 <= man32 b < 8388608.
Proof. intros. fields. euclid. Qed.

Lemma split64 b : 0 <= b < 18446744073709551616 ->
  b = mk64 (sign64 b) (exp64 b) (man64 b) /\ 0 <= sign64 b < 2 /\
  0 <= exp64 b < 2048 /\ 0 <= man64 b < 4503599627370496.
Proof. intros. fields. euclid. Qed.

Lemma fields_mk64 s e m : 0 <= s < 2 -> 0 <= e < 2048 -> 0 <= m < 4503599627370496 ->
  sign64 (mk64 s e m) = s /\ exp64 (mk64 s e m) = e /\ man64 (mk64 s e m) = m.
Proof. intros. fields. euclid. Qed.

Lemma rne_exact q sh : 0 < sh -> rne (q * 2 ^ sh) sh = q.
Proof.
  intros Hsh. unfold rne.
  assert (0 < 2 ^ sh) by (apply Z.pow_pos_nonneg; lia).
  assert (0 < 2 ^ (sh - 1)) by (apply Z.pow_pos_nonneg; lia).
  rewrite Z.div_mul, Z.mod_mul by lia.
  rewrite (proj2 (Z.ltb_ge _ _)), (proj2 (Z.eqb_neq _ _)) by lia. done.
Qed.

Lemma subnormal_bounds m : 0 < m < 8388608 ->
  let k := Z.log2 m in
  0 <= k <= 22 /\ 2 ^ k <= m /\
  0 <= (m - 2 ^ k) * 2 ^ (52 - k) < 4503599627370496 /\
  4503599627370496 + (m - 2 ^ k) * 2 ^ (52 - k) = m * 2 ^ (52 - k).
Proof.
  intros Hm k. pose proof (Z.log2_spec m ltac:(lia)) as [Hlo Hhi]. fold k in Hlo, Hhi.
  assert (Hk : 0 <= k <= 22).
  { split; [apply Z.log2_nonneg|]. unfold k. apply Z.lt_succ_r.
    apply Z.log2_lt_pow2; [lia|]. simpl. lia. }
  assert (Hp : 4503599627370496 = 2 ^ k * 2 ^ (52 - k))
    by (rewrite <-Z.pow_add_r by lia; replace (k + (52 - k)) with 52 by lia; done).
  assert (0 < 2 ^ (52 - k)) by (apply Z.pow_pos_nonneg; lia).
  rewrite Z.pow_succ_r in Hhi by lia.
  repeat split; [lia|lia|lia|nia|nia|]. rewrite Hp. lia.
Qed.

Lemma narrow_widen b :
  0 <= b < 4294967296 -> is_nan32 b = false -> narrow (widen b) = Some b.
Proof.
  intros Hb Hn. destruct (split32 b Hb) as (Hsplit & Hs & He & Hm).
  unfold is_nan32 in Hn. unfold widen.
  set (s := sign32 b) in *. set (e := exp32 b) in *. set (m := man32 b) in *.
  clearbody s e m. subst b.
  destruct (e =? 255) eqn:E255; [|destruct (e =? 0) eqn:E0]; zify_bools; subst.
  - simpl in Hn. zify_bools. subst m. rewrite Z.mul_0_l. unfold narrow.
    destruct (fields_mk64 s 2047 0) as (-> & -> & ->); [lia..|]. done.
  - destruct (m =? 0) eqn:Em; zify_bools; subst.
    + unfold narrow. destruct (fields_mk64 s 0 0) as (-> & -> & ->); [lia..|]. done.
    + destruct (subnormal_bounds m ltac:(lia)) as (Hk & Hlo & Hr & HM).
      set (k := Z.log2 m) in *. clearbody k. unfold narrow.
      destruct (fields_mk64 s (k + 874) ((m - 2 ^ k) * 2 ^ (52 - k))) as (-> & -> & ->);
        [lia..|].
      rewrite HM. cmp_all.
      rewrite !(proj2 (Z.eqb_neq _ _)) by lia.
      replace (- (k + 874 - 1023) - 97) with (52 - k) by lia.
      rewrite rne_exact by lia. done.
  - unfold narrow.
    destruct (fields_mk64 s (e + 896) (m * 536870912)) as (-> & -> & ->); [lia..|].
    rewrite !(proj2 (Z.eqb_neq _ _)) by lia. cmp_all.
    replace (4503599627370496 + m * 536870912) with ((8388608 + m) * 2 ^ 29) by lia.
    rewrite rne_exact by lia. cmp_all. f_equal. fields. lia.
Qed.

Lemma mk64_range s e m :
  0 <= s < 2 -> 0 <= e < 2048 -> 0 <= m < 4503599627370496 ->
  0 <= mk64 s e m < 18446744073709551616.
Proof. intros. fields. lia. Qed.

Lemma widen_range b : 0 <= b < 4294967296 ->
  0 <= widen b < 18446744073709551616 /\ is_nan64 (widen b) = is_nan32 b.
Proof.
  intros Hb. destruct (split32 b Hb) as (_ & Hs & He & Hm).
  unfold widen, is_nan64, is_nan32.
  set (s := sign32 b) in *. set (e := exp32 b) in *. set (m := man32 b) in *.
  clearbody s e m.
  destruct (e =? 255) eqn:E255; [|destruct (e =? 0) eqn:E0]; zify_bools; subst.
  - split; [apply mk64_range; lia|].
    destruct (fields_mk64 s 2047 (m * 536870912)) as (_ & -> & ->); [lia..|].
    simpl. f_equal. destruct (m =? 0) eqn:Em; zify_bools; [by subst|].
    apply Z.eqb_neq. lia.
  - destruct (m =? 0) eqn:Em; zify_bools; subst.
    + split; [apply mk64_range; lia|].
      by destruct (fields_mk64 s 0 0) as (_ & -> & _); [lia..|].
    + destruct (subnormal_bounds m ltac:(lia)) as (Hk & _ & Hr & _).
      split; [apply mk64_range; lia|].
      destruct (fields_mk64 s (Z.log2 m + 874) ((m - 2 ^ Z.log2 m) * 2 ^ (52 - Z.log2 m)))
        as (_ & -> & _); [lia..|].
      by rewrite (proj2 (Z.eqb_neq _ _)) by lia.
  - split; [apply mk64_range; lia|].
    destruct (fields_mk64 s (e + 896) (m * 536870912)) as (_ & -> & _); [lia..|].
    by rewrite (proj2 (Z.eqb_neq _ _)) by lia.
Qed.

Example narrow_one : narrow 0x3FF0000000000000 = Some 0x3F800000.
Proof. reflexivity. Qed.
Example narrow_tenth : narrow 0x3FB999999999999A = Some 0x3DCCCCCD.
Proof. reflexivity. Qed.
Example narrow_max : narrow 0x7FEFFFFFFFFFFFFF = None.
Proof. reflexivity. Qed.
Example float_of_2p53 : float_of_Z 9007199254740993 = Some 0x4340000000000000.
Proof. reflexivity. Qed.
