(* ===== verification/Values.v ===== *)
(** * Python values and the native address type

    The values the codec reads and writes, with the Python operations its
    nodes apply to them ([isinstance(v, int)], [bytes(v)], [int(v)], [len] and
    iteration, [getattr]), and the constructor of the native [Pubkey] class
    ([src/lib.rs], [PyPubkey::new]).  Base58 and program-derived addresses
    come from the [solana_address] crate: they are the operations of the class
    [Native]. *)

From stdpp Require Import base decidable option list gmap strings sorting numbers.
From Stdlib Require Import ZArith Lia.
From Stdlib Require Import Strings.Byte Strings.Ascii.
From S2P Require Import Prelude.
From S2P Require Import Bytes.
From S2P Require Import Utf8.
From S2P Require Import Floats.

(** Width aliases ([_codec/aliases.py]) subclass [int]; their instances are
    plain integers here.  [VObj] is an instance of a dataclass, [VIntEnum] a
    member of an [IntEnum], [VOpt] the non-collapsing carrier. *)
Inductive pyval :=
  | VNone
  | VBool (b : bool)
  | VInt (z : Z)
  | VFloat (bits : Z)
  | VStr (s : ustr)
  | VBytes (bs : bytes)
  | VPubkey (k : bytes)
  | VIntEnum (cls : string) (z : Z)
  | VOpt (v : pyval)
  | VList (vs : list pyval)
  | VObj (cls : string) (attrs : list (string * pyval)).

(** The size of a value, an upper bound on its nesting. *)
Fixpoint vsize (v : pyval) : nat :=
  match v with
  | VOpt v => S (vsize v)
  | VList vs => S (list_sum (map vsize vs))
  | VObj _ attrs => S (list_sum (map (fun kv => vsize kv.2) attrs))
  | _ => 1
  end.

Lemma list_sum_ge {A} (f : A -> nat) x xs : x ∈ xs -> (f x <= list_sum (map f xs))%nat.
Proof.
  induction 1 as [|y x' xs' Hx IH]; simpl; [lia|]. lia.
Qed.

(** ** Integers *)

(** [v.__index__()]: [int], [bool] and [IntEnum] members. *)
Definition as_index (v : pyval) : option Z :=
  match v with
  | VInt z | VIntEnum _ z => Some z
  | VBool b => Some (if b then 1 else 0)
  | _ => None
  end.

(** [isinstance(v, int) and not isinstance(v, bool)]. *)
Definition as_int_not_bool (v : pyval) : option Z :=
  match v with VInt z | VIntEnum _ z => Some z | _ => None end.

(** [v == k] for an integer [k] that is 0 or 1. *)
Definition py_eq_01 (v : pyval) (one : bool) : bool :=
  match v with
  | VFloat f => if one then float_is_one f else float_is_zero f
  | _ => match as_index v with
         | Some z => z =? (if one then 1 else 0)
         | None => false
         end
  end.

(** [v != v]: a NaN, also inside an [Opt], whose [__eq__] compares payloads. *)
Fixpoint py_ne_self (v : pyval) : bool :=
  match v with
  | VFloat f => is_nan64 f
  | VOpt v => py_ne_self v
  | _ => false
  end.

(** ** Decimal literals: [int(s)]

    Optional surrounding whitespace, an optional sign, ASCII digits with
    single underscores between them.  (Python also accepts the decimal digits
    of other scripts; strings that use them are outside the model.) *)
Definition is_space (c : Z) : bool :=
  ((9 <=? c) && (c <=? 13)) || ((28 <=? c) && (c <=? 32)) || (c =? 0x85) || (c =? 0xA0) ||
  (c =? 0x1680) || ((0x2000 <=? c) && (c <=? 0x200A)) || (c =? 0x2028) || (c =? 0x2029) ||
  (c =? 0x202F) || (c =? 0x205F) || (c =? 0x3000).

Definition digit (c : Z) : option Z :=
  if (48 <=? c) && (c <=? 57) then Some (c - 48) else None.

Fixpoint lstrip (s : ustr) : ustr :=
  match s with
  | c :: s' => if is_space c then lstrip s' else s
  | [] => []
  end.
Definition strip (s : ustr) : ustr := reverse (lstrip (reverse (lstrip s))).

(** Digits after at least one digit was read. *)
Fixpoint parse_digits (acc : Z) (s : ustr) : option Z :=
  match s with
  | [] => Some acc
  | c :: s' =>
      match digit c with
      | Some d => parse_digits (acc * 10 + d) s'
      | None =>
          if c =? 95 then
            match s' with
            | c' :: s'' => d ← digit c'; parse_digits (acc * 10 + d) s''
            | [] => None
            end
          else None
      end
  end.

Definition parse_nat (s : ustr) : option Z :=
  match s with
  | c :: s' => d ← digit c; parse_digits d s'
  | [] => None
  end.

Definition parse_int (s : ustr) : option Z :=
  match strip s with
  | 45 :: s' => Z.opp <$> parse_nat s'
  | 43 :: s' => parse_nat s'
  | s' => parse_nat s'
  end.

(** [int(v)]. *)
Definition py_int (v : pyval) : res Z :=
  match v with
  | VFloat f => match Z_of_float f with
                | Some z => Ok z
                | None => Raise (if is_nan64 f then ValueError "int(nan)" else OverflowError)
                end
  | VStr s => match parse_int s with Some z => Ok z | None => Raise (ValueError "int literal") end
  | VBytes bs => match parse_int (Z_of_byte <$> bs) with
                 | Some z => Ok z | None => Raise (ValueError "int literal") end
  | _ => match as_index v with Some z => Ok z | None => Raise (TypeError "int() argument") end
  end.

(** ** Sequences *)

(** [len(v)] and iteration: lists, byte strings (their integers) and strings
    (their one-character strings); anything else raises [TypeError]. *)
Definition py_seq (v : pyval) : res (list pyval) :=
  match v with
  | VList vs => Ok vs
  | VBytes bs => Ok (VInt ∘ Z_of_byte <$> bs)
  | VStr s => Ok ((fun c => VStr [c]) <$> s)
  | _ => Raise (TypeError "object has no len()")
  end.

(** One element of [bytes(iterable)]. *)
Definition byte_elem (v : pyval) : res byte :=
  match as_index v with
  | Some z => if (0 <=? z) && (z <? 256) then Ok (byte_of_Z z)
              else Raise (ValueError "bytes must be in range(0, 256)")
  | None => Raise (TypeError "cannot be interpreted as an integer")
  end.

(** [bytes(v)]: a byte string is copied, an integer [n] gives [n] zero bytes,
    a list its elements, a [Pubkey] its 32 bytes ([__bytes__]). *)
Definition py_bytes (v : pyval) : res bytes :=
  match v with
  | VBytes bs => Ok bs
  | VPubkey k => Ok k
  | VList vs => mapM_res byte_elem vs
  | _ => match as_index v with
         | Some z => if z <? 0 then Raise (ValueError "negative count")
                     else Ok (replicate (Z.to_nat z) x00)
         | None => Raise (TypeError "cannot convert to bytes")
         end
  end.

(** ** Attributes *)

Fixpoint attr_lookup {K A} `{EqDecision K} (name : K) (attrs : list (K * A)) : option A :=
  match attrs with
  | [] => None
  | (k, v) :: rest => if decide (k = name) then Some v else attr_lookup name rest
  end.

(** [getattr(v, name)] of a field: the fields of a dataclass instance and the
    payload of an [Opt].  (Attributes that the built-in types carry of their
    own accord, such as [int.real], are outside the model.) *)
Definition py_getattr (v : pyval) (name : string) : res pyval :=
  match v with
  | VObj _ attrs => match attr_lookup name attrs with
                    | Some x => Ok x
                    | None => Raise (AttributeError name)
                    end
  | VOpt x => if decide (name = "value"%string) then Ok x else Raise (AttributeError name)
  | _ => Raise (AttributeError name)
  end.

Lemma attr_lookup_elem {K A} `{EqDecision K} (name : K) (attrs : list (K * A)) x :
  attr_lookup name attrs = Some x -> (name, x) ∈ attrs.
Proof.
  induction attrs as [|[k v] attrs IH]; simpl; [done|]. case_decide; intros Hl.
  - simplify_eq. by left.
  - right. auto.
Qed.

Lemma lookup_NoDup {K A} `{EqDecision K} (k : K) (v : A) d : NoDup d.*1 -> (k, v) ∈ d -> attr_lookup k d = Some v.
Proof.
  induction d as [|[k' v'] d IH]; intros Hd Hin; [by apply elem_of_nil in Hin|]. simpl in *.
  apply list.NoDup_cons in Hd as [Hn Hd]. apply elem_of_cons in Hin as [[= <- <-]|Hin]; [by rewrite decide_True|].
  rewrite decide_False; [by apply IH|]. intros ->. apply Hn. by apply (list_elem_of_fmap_2 fst) in Hin.
Qed.

Lemma attr_lookup_fresh {K A} `{EqDecision K} (k : K) (d : list (K * A)) : k ∉ d.*1 -> attr_lookup k d = None.
Proof.
  induction d as [|[k' v'] d IH]; simpl; intros Hk; [done|]. rewrite elem_of_cons in Hk.
  rewrite decide_False by naive_solver. apply IH. naive_solver.
Qed.

(** ** Python dicts: insertion-ordered, one entry per key *)

(** [d[k] = v]: an existing key keeps its position. *)
Fixpoint dict_set {K A} `{EqDecision K} (k : K) (v : A) (d : list (K * A)) : list (K * A) :=
  match d with
  | [] => [(k, v)]
  | (k', v') :: d => if decide (k' = k) then (k', v) :: d else (k', v') :: dict_set k v d
  end.

(** [dict(pairs)]. *)
Definition dict_of {K A} `{EqDecision K} (ps : list (K * A)) : list (K * A) :=
  foldl (fun d p => dict_set p.1 p.2 d) [] ps.

Lemma lookup_dict_set {K A} `{EqDecision K} (k k' : K) (v : A) d :
  attr_lookup k' (dict_set k v d) = if decide (k = k') then Some v else attr_lookup k' d.
Proof.
  induction d as [|[k1 v1] d IH]; simpl; [done|].
  repeat (case_decide; simpl); subst; try done; try congruence.
Qed.

Lemma dict_set_fresh {K A} `{EqDecision K} (k : K) (v : A) d :
  k ∉ d.*1 -> dict_set k v d = d ++ [(k, v)].
Proof.
  induction d as [|[k1 v1] d IH]; simpl; intros Hk; [done|].
  rewrite decide_False by set_solver. rewrite IH by set_solver. done.
Qed.

(** With distinct keys nothing is merged. *)
Lemma dict_of_NoDup {K A} `{EqDecision K} (ps : list (K * A)) : NoDup ps.*1 -> dict_of ps = ps.
Proof.
  unfold dict_of. intros Hn.
  assert (Hg : forall acc, NoDup (acc ++ ps).*1 ->
            foldl (fun d p => dict_set p.1 p.2 d) acc ps = acc ++ ps).
  { clear Hn. induction ps as [|[k v] ps IH]; intros acc Hn; simpl; [by rewrite app_nil_r|].
    rewrite dict_set_fresh.
    - rewrite IH, <-app_assoc; [done|]. by rewrite <-app_assoc.
    - rewrite fmap_app in Hn. apply list.NoDup_app in Hn as (_ & Hd & _). intros Hin.
      apply (Hd _ Hin). simpl. by left. }
  by apply (Hg []).
Qed.

(** A field is strictly smaller than the object that carries it. *)
Lemma py_getattr_size v name x : py_getattr v name = Ok x -> (vsize x < vsize v)%nat.
Proof.
  destruct v; simpl; try discriminate; intros H.
  - case_decide; simplify_eq. lia.
  - destruct (attr_lookup name attrs) eqn:E; simplify_eq.
    apply attr_lookup_elem in E.
    pose proof (list_sum_ge (fun kv : string * pyval => vsize kv.2) _ _ E) as Hs.
    simpl in Hs. lia.
Qed.

(** The elements of a sequence are never larger than the sequence. *)
Lemma py_seq_size v vs x : py_seq v = Ok vs -> x ∈ vs -> (vsize x <= vsize v)%nat.
Proof.
  destruct v; simpl; try discriminate; intros H Hx; simplify_eq.
  - apply list_elem_of_fmap in Hx as [c [-> _]]. done.
  - apply list_elem_of_fmap in Hx as [c [-> _]]. done.
  - pose proof (list_sum_ge vsize _ _ Hx). lia.
Qed.

(** ** The native interface *)

Class Native := {
  (** [Address::from_str]: base58 to 32 bytes, [None] when refused. *)
  address_from_str : ustr -> option bytes;
  (** [Address]'s [Display]: the base58 text. *)
  address_to_str : bytes -> string;
  (** [Address::find_program_address]: the derived address and its bump. *)
  find_program_address : list bytes -> bytes -> bytes * Z;
}.

(** What the crate documents of them. *)
Class NativeLaws `{Native} := {
  address_from_str_length s k : address_from_str s = Some k -> length k = 32%nat;
  address_to_str_inj k1 k2 :
    length k1 = 32%nat -> length k2 = 32%nat -> address_to_str k1 = address_to_str k2 -> k1 = k2;
  find_program_address_length seeds pid :
    length (find_program_address seeds pid).1 = 32%nat;
}.

Section pubkey.
Context `{Native}.

(** [PyPubkey::new]: a [Pubkey], a base58 [str], an [int] (big endian, 32
    bytes), or 32 bytes given as [bytes] or a list of small integers. *)
Definition pubkey_new (v : pyval) : res bytes :=
  match v with
  | VPubkey k => Ok k
  | VStr s => match address_from_str s with
              | Some k => Ok k
              | None => Raise (ValueError "invalid base58 pubkey")
              end
  | VInt _ | VBool _ | VIntEnum _ _ =>
      match as_index v with
      | Some z => match to_bytes 32 false z with
                  | Some bs => Ok (reverse bs)
                  | None => Raise OverflowError
                  end
      | None => Raise (TypeError "Pubkey expects str, bytes, int, or Pubkey")
      end
  | VBytes bs => if (length bs =? 32)%nat then Ok bs
                 else Raise (ValueError "pubkey bytes must be exactly 32 bytes")
  | VList vs =>
      match mapM_res byte_elem vs with
      | Ok bs => if (length bs =? 32)%nat then Ok bs
                 else Raise (ValueError "pubkey bytes must be exactly 32 bytes")
      | Raise _ => Raise (TypeError "Pubkey expects str, bytes, int, or Pubkey")
      end
  | _ => Raise (TypeError "Pubkey expects str, bytes, int, or Pubkey")
  end.

Lemma pubkey_new_bytes bs : length bs = 32%nat -> pubkey_new (VBytes bs) = Ok bs.
Proof. intros Hl. simpl. by rewrite Hl. Qed.
End pubkey.

(** Constructor of a [Pubkey] out of [int]: used for constants and witnesses. *)
Definition key_of_Z (z : Z) : bytes := reverse (le_bytes 32 z).

(** An instance of the native operations, for concrete runs: the text of an
    address is its bytes as characters, and every derivation gives the zero
    address. *)
Definition toy_native : Native := {|
  address_from_str s := if (length s =? 32)%nat then Some (byte_of_Z <$> s) else None;
  address_to_str k := String.string_of_list_ascii (ascii_of_byte <$> k);
  find_program_address _ _ := (replicate 32 x00, 255);
|}.

Lemma toy_native_laws : @NativeLaws toy_native.
Proof.
  split.
  - intros s k. simpl. destruct (length s =? 32)%nat eqn:E; [|discriminate].
    intros [= <-]. rewrite length_fmap. by apply Nat.eqb_eq.
  - intros k1 k2 _ _. simpl. intros Heq.
    apply (f_equal String.list_ascii_of_string) in Heq.
    rewrite !String.list_ascii_of_string_of_list_ascii in Heq.
    apply (f_equal (fmap byte_of_ascii)) in Heq. rewrite <-!list_fmap_compose in Heq.
    rewrite !(list_fmap_ext (byte_of_ascii ∘ ascii_of_byte) id) in Heq
      by (intros; apply byte_of_ascii_of_byte).
    by rewrite !list_fmap_id in Heq.
  - done.
Qed.
