(* ===== verification/Aliases.v ===== *)
(** * Width aliases ([_codec/aliases.py])

    The integer and float aliases with the class attributes the package
    exposes ([bits], [signed], [min], [max]), the range-checking constructor of
    the integer ones, and the identity-keyed width tables the compiler
    consults. *)

From stdpp Require Import base decidable option list gmap strings sorting numbers.
From Stdlib Require Import ZArith Lia.
From S2P Require Import Prelude.
From S2P Require Import Bytes.

Inductive alias :=
  | u8 | u16 | u32 | u64 | u128 | u256
  | i8 | i16 | i32 | i64 | i128 | i256
  | f32 | f64 | char.

#[global] Instance alias_eq_dec : EqDecision alias.
Proof. solve_decision. Defined.

(** The class attributes an alias class is created with. *)
Record alias_attrs := AliasAttrs { bits : Z; signed : bool; min : Z; max : Z }.

(** [_int_alias(name, bits, signed)]: the bounds of the class it creates. *)
Definition _int_alias (nbits : Z) (sgn : bool) : alias_attrs :=
  if sgn
  then AliasAttrs nbits sgn (- Z.shiftl 1 (nbits - 1)) (Z.shiftl 1 (nbits - 1) - 1)
  else AliasAttrs nbits sgn 0 (Z.shiftl 1 nbits - 1).

(** [None]: the alias is a [float] subclass, whose bounds are floats. *)
Definition int_attrs (a : alias) : option alias_attrs :=
  match a with
  | u8 => Some (_int_alias 8 false) | u16 => Some (_int_alias 16 false)
  | u32 => Some (_int_alias 32 false) | u64 => Some (_int_alias 64 false)
  | u128 => Some (_int_alias 128 false) | u256 => Some (_int_alias 256 false)
  | i8 => Some (_int_alias 8 true) | i16 => Some (_int_alias 16 true)
  | i32 => Some (_int_alias 32 true) | i64 => Some (_int_alias 64 true)
  | i128 => Some (_int_alias 128 true) | i256 => Some (_int_alias 256 true)
  | char => Some (_int_alias 32 false)
  | f32 | f64 => None
  end.

(** [_Int.__new__]: the range check of [u8(300)]. *)
Definition _Int_new (a : alias_attrs) (v : Z) : res Z :=
  if negb (bits a =? 0) && negb ((min a <=? v) && (v <=? max a))
  then Raise (ValueError "out of range")
  else Ok v.

(** [_float_alias]: [(bits, signed, min, max)] with the finite range as
    binary64 patterns. *)
Definition float_attrs (a : alias) : option (Z * bool * Z * Z) :=
  match a with
  | f32 => Some (32, true, 0xC7EFFFFFE0000000, 0x47EFFFFFE0000000)
  | f64 => Some (64, true, 0xFFEFFFFFFFFFFFFF, 0x7FEFFFFFFFFFFFFF)
  | _ => None
  end.

(** [_INT_SPECS.get(alias)]: byte width and signedness.  [char] has no entry. *)
Definition int_spec (a : alias) : option (nat * bool) :=
  match a with
  | u8 => Some (1, false) | u16 => Some (2, false) | u32 => Some (4, false)
  | u64 => Some (8, false) | u128 => Some (16, false) | u256 => Some (32, false)
  | i8 => Some (1, true) | i16 => Some (2, true) | i32 => Some (4, true)
  | i64 => Some (8, true) | i128 => Some (16, true) | i256 => Some (32, true)
  | _ => None
  end%nat.

(** [_FLOAT_SPECS.get(alias)]. *)
Definition float_spec (a : alias) : option nat :=
  match a with f32 => Some 4%nat | f64 => Some 8%nat | _ => None end.

(** The bounds a class advertises are those of its wire width. *)
Lemma int_spec_bounds a n s at_ :
  int_spec a = Some (n, s) -> int_attrs a = Some at_ ->
  min at_ = int_min n s /\ max at_ = int_max n s /\ bits at_ = 8 * Z.of_nat n.
Proof. destruct a; simpl; intros; simplify_eq; done. Qed.

Lemma int_spec_attrs a n s : int_spec a = Some (n, s) -> is_Some (int_attrs a) /\ n <> O.
Proof. destruct a; simpl; intros; simplify_eq; eauto. Qed.
