(* ===== verification/Codec.v ===== *)
(** * The codec core ([_codec/codec.py])

    The cursor, the single bounds-checked byte source of the decoder, with the
    shared depth guard. *)

From stdpp Require Import base decidable option list gmap strings sorting numbers.
From Stdlib Require Import ZArith Lia.
From Stdlib Require Import Strings.Byte.
From S2P Require Import Prelude.
From S2P Require Import Bytes.

Definition MAX_DECODE_DEPTH : nat := 64.

Abbreviation path := (list path_elem).

Inductive Mode := IX_DATA | ACCOUNT_DATA.

Record Cursor := mkCursor { buf : bytes; pos : nat; depth : nat }.

(** [Cursor.__init__]. *)
Definition new_cursor (b : bytes) : Cursor := mkCursor b 0 0.

Definition remaining (cur : Cursor) : Z := Z.of_nat (length (buf cur)) - Z.of_nat (pos cur).

Definition cur_take (n : Z) (p : path) (cur : Cursor) : res (bytes * Cursor) :=
  if (n <? 0) || (remaining cur <? n)
  then Raise (BorshError (NeedBytes n (remaining cur)) (Z.of_nat (pos cur)) p)
  else Ok (take (Z.to_nat n) (drop (pos cur) (buf cur)),
           mkCursor (buf cur) (pos cur + Z.to_nat n) (depth cur)).

(** [with cur.descend(path): body]. *)
Definition descend {A} (p : path) (body : Cursor -> res (A * Cursor)) (cur : Cursor)
  : res (A * Cursor) :=
  let cur := mkCursor (buf cur) (pos cur) (S (depth cur)) in
  if (MAX_DECODE_DEPTH <? depth cur)%nat
  then Raise (BorshError DepthExceeded (Z.of_nat (pos cur)) p)
  else '(a, cur) ← body cur;
       Ok (a, mkCursor (buf cur) (pos cur) (depth cur - 1)).

(** ** The cursor's discipline

    [span cur cur' bs]: moving from [cur] to [cur'] consumed exactly [bs]: the
    buffer and the depth are unchanged, and [bs] is what the buffer holds
    between the two positions. *)
Definition span (cur cur' : Cursor) (bs : bytes) : Prop :=
  buf cur' = buf cur /\ depth cur' = depth cur /\
  drop (pos cur) (buf cur) = bs ++ drop (pos cur') (buf cur') /\
  pos cur' = (pos cur + length bs)%nat.

Lemma span_refl cur : span cur cur [].
Proof. repeat split. simpl. lia. Qed.

Lemma span_trans c1 c2 c3 b1 b2 : span c1 c2 b1 -> span c2 c3 b2 -> span c1 c3 (b1 ++ b2).
Proof.
  intros (Hb1 & Hd1 & Hr1 & Hp1) (Hb2 & Hd2 & Hr2 & Hp2).
  repeat split; [congruence..| |].
  - rewrite Hr1, Hb1, <-app_assoc, <-Hr2, Hb1. done.
  - rewrite length_app. lia.
Qed.

Lemma cur_take_Ok n p cur bs cur' :
  cur_take n p cur = Ok (bs, cur') ->
  span cur cur' bs /\ 0 <= n /\ length bs = Z.to_nat n.
Proof.
  unfold cur_take, remaining. destruct ((n <? 0) || _) eqn:E; [discriminate|].
  intros [= <- <-]. zify_bools.
  assert (Hl : length (take (Z.to_nat n) (drop (pos cur) (buf cur))) = Z.to_nat n).
  { rewrite length_take, length_drop. lia. }
  split; [|split; [lia|done]].
  split; [done|]. split; [done|]. simpl. split; [|lia].
  rewrite <-drop_drop. symmetry. apply take_drop.
Qed.

(** A cursor that stands right before [bs ++ rest]. *)
Definition at_bytes (cur : Cursor) (bs : bytes) : Prop :=
  drop (pos cur) (buf cur) = bs /\ (pos cur <= length (buf cur))%nat.

Lemma at_bytes_remaining cur bs : at_bytes cur bs -> remaining cur = Z.of_nat (length bs).
Proof. intros [<- Hp]. unfold remaining. rewrite length_drop. lia. Qed.

(** Moving forward over [n] bytes. *)
Definition advance (cur : Cursor) (n : nat) : Cursor :=
  mkCursor (buf cur) (pos cur + n) (depth cur).

Lemma advance_0 cur : advance cur 0 = cur.
Proof. destruct cur. unfold advance. simpl. f_equal. lia. Qed.

Lemma advance_advance cur n m : advance (advance cur n) m = advance cur (n + m).
Proof. unfold advance. simpl. f_equal. lia. Qed.

Lemma at_bytes_advance cur b1 b2 :
  at_bytes cur (b1 ++ b2) -> at_bytes (advance cur (length b1)) b2.
Proof.
  intros [Hd Hp]. split; simpl.
  - rewrite <-drop_drop, Hd. apply drop_app_length.
  - apply (f_equal length) in Hd. rewrite length_drop, length_app in Hd. lia.
Qed.

Lemma cur_take_at n p cur b1 b2 :
  at_bytes cur (b1 ++ b2) -> n = Z.of_nat (length b1) ->
  cur_take n p cur = Ok (b1, advance cur (length b1)).
Proof.
  intros Hat ->. unfold cur_take. rewrite (at_bytes_remaining _ _ Hat), length_app.
  rewrite (proj2 (Z.ltb_ge _ _)), (proj2 (Z.ltb_ge _ _)) by lia. simpl.
  destruct Hat as [-> _]. unfold advance. rewrite Nat2Z.id, take_app_length. done.
Qed.

Lemma span_at cur cur' bs :
  span cur cur' bs -> (pos cur <= length (buf cur))%nat ->
  at_bytes cur (bs ++ drop (pos cur') (buf cur)) /\ cur' = advance cur (length bs).
Proof.
  intros (Hb & Hd & Hr & Hp) Hle. split; [split; [|done]; congruence|].
  destruct cur, cur'; unfold advance; simpl in *. congruence.
Qed.

#[export] Hint Resolve span_refl span_trans at_bytes_advance : wake.
