(* ===== verification/Ir.v ===== *)
(** * The FieldType IR ([_codec/ir.py], the node classes; [_codec/codec.py],
      [decode] and [encode])

    One constructor per node class and one definition per [read], [write] and
    [min_wire_size] method.  A node method calls the methods of its children:
    the definitions take the children's method as an argument and the knot is
    tied with fuel, [read] by the decode depth, [write] by the size of the
    value, [min_wire_size] by the size of the type heap.

    Struct and enum nodes are shared objects, filled after they are cached:
    they are references (the number is the object's identity, the string its
    class) into the [heap], which holds their mutable contents. *)

From stdpp Require Import base decidable option list gmap strings sorting numbers.
From Stdlib Require Import ZArith Lia.
From Stdlib Require Import Strings.Byte.
From S2P Require Import Prelude.
From S2P Require Import Bytes.
From S2P Require Import Utf8.
From S2P Require Import Floats.
From S2P Require Import Values.
From S2P Require Import Aliases.
From S2P Require Import Codec.

Inductive node :=
  | IntNode (al : alias) (nbytes : nat) (sgn : bool)
  | FloatNode (al : alias) (nbytes : nat)
  | BoolNode
  | StrNode
  | BytesNode
  | FixedBytesNode (n : Z)
  | PubkeyNode
  | OptionNode (inner : node)
  | OptNode (inner : node)
  | VecNode (elem : node)
  | FixedArrayNode (id : nat) (elem : node) (n : Z)   (* [id]: object identity *)
  | StructNode (id : nat) (cls : string)
  | IntEnumNode (cls : string)
  | BorshEnumNode (id : nat) (cls : string).

Abbreviation fields := (list (string * node)).
(** tag -> (VariantCls, fields), in insertion order *)
Abbreviation variants := (list (Z * (string * fields))).

(** The contents of the shared nodes, and the [__variant_tag__] class
    attributes that [BorshEnumNode.write] reads off the value's class. *)
Record heap := mkHeap {
  h_struct : list (nat * fields);
  h_intenum : list (string * list Z);
  h_enum : list (nat * variants);
  h_vtag : list (string * Z);
}.

Definition struct_fields (h : heap) (id : nat) : fields :=
  default [] (attr_lookup id (h_struct h)).
Definition intenum_values (h : heap) (cls : string) : list Z :=
  default [] (attr_lookup cls (h_intenum h)).
Definition enum_variants (h : heap) (id : nat) : variants :=
  default [] (attr_lookup id (h_enum h)).

Fixpoint tag_lookup {A} (tag : Z) (vs : list (Z * A)) : option A :=
  match vs with
  | [] => None
  | (t, e) :: vs => if t =? tag then Some e else tag_lookup tag vs
  end.

(** ** [min_wire_size] *)

(** The entries of [_stack]: shared nodes and fixed arrays, by identity. *)
Inductive stack_key := KArr (id : nat) | KObj (id : nat).
#[global] Instance stack_key_eq_dec : EqDecision stack_key.
Proof. solve_decision. Defined.

Abbreviation stack := (list stack_key).

Definition Zsum (zs : list Z) : Z := foldr Z.add 0 zs.
(** [min(...)] of a non-empty sequence. *)
Definition Zmin_list (z : Z) (zs : list Z) : Z := foldr Z.min z zs.

Section min_wire_size.
Context (h : heap) (rec : stack -> node -> res Z).

Definition mws_fields (st : stack) (fs : fields) : res Z :=
  Zsum <$> mapM_res (fun f => rec st f.2) fs.

(** One method per class. *)
Definition IntNode_mws (nbytes : nat) : res Z := Ok (Z.of_nat nbytes).
Definition FloatNode_mws (nbytes : nat) : res Z := Ok (Z.of_nat nbytes).
Definition BoolNode_mws : res Z := Ok 1.
Definition StrNode_mws : res Z := Ok 4.
Definition BytesNode_mws : res Z := Ok 4.
Definition FixedBytesNode_mws (n : Z) : res Z := Ok n.
Definition PubkeyNode_mws : res Z := Ok 32.
Definition OptionNode_mws : res Z := Ok 1.
Definition OptNode_mws : res Z := Ok 1.
Definition VecNode_mws : res Z := Ok 4.
Definition FixedArrayNode_mws (st : stack) (id : nat) (elem : node) (n : Z) : res Z :=
  if decide (KArr id ∈ st) then Ok 0
  else m ← rec (st ++ [KArr id]) elem; Ok (n * m).
Definition StructNode_mws (st : stack) (id : nat) : res Z :=
  if decide (KObj id ∈ st) then Ok 0
  else mws_fields (st ++ [KObj id]) (struct_fields h id).
Definition IntEnumNode_mws : res Z := Ok 1.
Definition BorshEnumNode_mws (st : stack) (id : nat) : res Z :=
  if decide (KObj id ∈ st) then Ok 0
  else
    let s := st ++ [KObj id] in
    match enum_variants h id with
    | [] => Ok 1
    | (_, (_, fs)) :: vs =>
        m ← mws_fields s fs;
        ms ← mapM_res (fun v => mws_fields s v.2.2) vs;
        Ok (1 + Zmin_list m ms)
    end.

Definition mws_step (st : stack) (nd : node) : res Z :=
  match nd with
  | IntNode _ nbytes _ => IntNode_mws nbytes
  | FloatNode _ nbytes => FloatNode_mws nbytes
  | BoolNode => BoolNode_mws
  | StrNode => StrNode_mws
  | BytesNode => BytesNode_mws
  | FixedBytesNode n => FixedBytesNode_mws n
  | PubkeyNode => PubkeyNode_mws
  | OptionNode _ => OptionNode_mws
  | OptNode _ => OptNode_mws
  | VecNode _ => VecNode_mws
  | FixedArrayNode id elem n => FixedArrayNode_mws st id elem n
  | StructNode id _ => StructNode_mws st id
  | IntEnumNode _ => IntEnumNode_mws
  | BorshEnumNode id _ => BorshEnumNode_mws st id
  end.
End min_wire_size.
Arguments IntNode_mws _ /.
Arguments FloatNode_mws _ /.
Arguments BoolNode_mws /.
Arguments StrNode_mws /.
Arguments BytesNode_mws /.
Arguments FixedBytesNode_mws _ /.
Arguments PubkeyNode_mws /.
Arguments OptionNode_mws /.
Arguments OptNode_mws /.
Arguments VecNode_mws /.
Arguments FixedArrayNode_mws _ _ _ _ _ /.
Arguments StructNode_mws _ _ _ _ /.
Arguments IntEnumNode_mws /.
Arguments BorshEnumNode_mws _ _ _ _ /.

Fixpoint mws (fuel : nat) (h : heap) (st : stack) (nd : node) : res Z :=
  match fuel with
  | O => Raise OutOfFuel
  | S fuel => mws_step h (mws fuel h) st nd
  end.

(** The number of nodes of a node tree, of a field list, of the whole heap. *)
Fixpoint nsize (nd : node) : nat :=
  match nd with
  | OptionNode i | OptNode i | VecNode i | FixedArrayNode _ i _ => S (nsize i)
  | _ => 1
  end.
Definition fsize (fs : fields) : nat := list_sum (map (fun f => nsize f.2) fs).
Definition vssize (vs : variants) : nat := list_sum (map (fun v => fsize v.2.2) vs).
Definition hsize (h : heap) : nat :=
  (list_sum (map (fun e => S (fsize e.2)) (h_struct h)) +
   list_sum (map (fun e => S (vssize e.2)) (h_enum h)))%nat.

(** [node.min_wire_size()]. *)
Definition min_wire_size (h : heap) (nd : node) : res Z :=
  mws (S (nsize nd + hsize h)) h [] nd.

(** ** Decoding *)

Abbreviation reader := (path -> Cursor -> res (pyval * Cursor)).

Definition IntNode_read (nbytes : nat) (sgn : bool) : reader := fun p cur =>
  '(bs, cur) ← cur_take (Z.of_nat nbytes) p cur;
  Ok (VInt (from_bytes sgn bs), cur).

Definition FloatNode_read (nbytes : nat) : reader := fun p cur =>
  '(bs, cur) ← cur_take (Z.of_nat nbytes) p cur;
  let v := unpack_float nbytes bs in
  if is_nan64 v
  then Raise (BorshError NaNFloat (Z.of_nat (pos cur) - Z.of_nat nbytes) p)
  else Ok (VFloat v, cur).

(** [cur.take(1, path)[0]]. *)
Definition take1 (p : path) (cur : Cursor) : res (Z * Cursor) :=
  '(bs, cur) ← cur_take 1 p cur;
  Ok (le_value bs, cur).

Definition BoolNode_read : reader := fun p cur =>
  '(b, cur) ← take1 p cur;
  if (b =? 0) || (b =? 1) then Ok (VBool (b =? 1), cur)
  else Raise (BorshError (BadBoolByte b) (Z.of_nat (pos cur) - 1) p).

Definition _read_seq_len (min_elem : Z) (p : path) (cur : Cursor) : res (Z * Cursor) :=
  '(bs, cur) ← cur_take 4 p cur;
  let n := from_bytes false bs in
  if remaining cur <? n
  then Raise (BorshError (LengthExceedsRemaining n (remaining cur)) (Z.of_nat (pos cur) - 4) p)
  else if (0 <? min_elem) && (remaining cur / min_elem <? n)
  then Raise (BorshError (LengthExceedsFloor n (remaining cur) min_elem)
                         (Z.of_nat (pos cur) - 4) p)
  else Ok (n, cur).

Definition StrNode_read : reader := fun p cur =>
  '(n, cur) ← _read_seq_len 1 p cur;
  '(raw, cur) ← cur_take n p cur;
  match utf8_decode raw with
  | Some s => Ok (VStr s, cur)
  | None => Raise (BorshError InvalidUtf8 (Z.of_nat (pos cur) - n) p)
  end.

Definition BytesNode_read : reader := fun p cur =>
  '(n, cur) ← _read_seq_len 1 p cur;
  '(raw, cur) ← cur_take n p cur;
  Ok (VBytes raw, cur).

Definition FixedBytesNode_read (n : Z) : reader := fun p cur =>
  '(raw, cur) ← cur_take n p cur;
  Ok (VBytes raw, cur).

Definition PubkeyNode_read : reader := fun p cur =>
  '(raw, cur) ← cur_take 32 p cur;
  Ok (VPubkey raw, cur).

(** The tag dispatch [OptionNode] and [OptNode] share: [wrap] is what a
    present value is returned as. *)
Definition option_read (wrap : pyval -> pyval) (inner_read : reader) : reader := fun p =>
  descend p (fun cur =>
    '(tag, cur) ← take1 p cur;
    if tag =? 0 then Ok (VNone, cur)
    else if tag =? 1 then '(v, cur) ← inner_read p cur; Ok (wrap v, cur)
    else Raise (BorshError (BadOptionTag tag) (Z.of_nat (pos cur) - 1) p)).

Definition OptionNode_read (inner_read : reader) : reader := option_read id inner_read.
Definition OptNode_read (inner_read : reader) : reader := option_read VOpt inner_read.

(** [[self.elem.read(cur, path + (i,)) for i in range(i, i + n)]]. *)
Fixpoint read_elems (elem_read : reader) (p : path) (i n : nat) (cur : Cursor)
  : res (list pyval * Cursor) :=
  match n with
  | O => Ok ([], cur)
  | S n =>
      '(v, cur) ← elem_read (p ++ [PIndex i]) cur;
      '(vs, cur) ← read_elems elem_read p (S i) n cur;
      Ok (v :: vs, cur)
  end.

Definition VecNode_read (elem_min : res Z) (elem_read : reader) : reader := fun p =>
  descend p (fun cur =>
    min_elem ← elem_min;
    '(n, cur) ← _read_seq_len min_elem p cur;
    '(vs, cur) ← read_elems elem_read p 0 (Z.to_nat n) cur;
    Ok (VList vs, cur)).

Definition FixedArrayNode_read (elem_read : reader) (n : Z) : reader := fun p =>
  descend p (fun cur =>
    '(vs, cur) ← read_elems elem_read p 0 (Z.to_nat n) cur;
    Ok (VList vs, cur)).

(** [[node.read(cur, path + (crumb name,)) for name, node in fields]]. *)
Fixpoint read_fields (rd : node -> reader) (crumb : string -> string) (p : path)
  (fs : fields) (cur : Cursor) : res (list pyval * Cursor) :=
  match fs with
  | [] => Ok ([], cur)
  | (name, nd) :: fs =>
      '(v, cur) ← rd nd (p ++ [PField (crumb name)]) cur;
      '(vs, cur) ← read_fields rd crumb p fs cur;
      Ok (v :: vs, cur)
  end.

(** [cls( *values )] of a dataclass with these fields. *)
Definition make_obj (cls : string) (fs : fields) (vs : list pyval) : pyval :=
  VObj cls (zip fs.*1 vs).

Definition StructNode_read (rd : node -> reader) (cls : string) (fs : fields) : reader := fun p =>
  descend p (fun cur =>
    '(vs, cur) ← read_fields rd id p fs cur;
    Ok (make_obj cls fs vs, cur)).

Definition IntEnumNode_read (cls : string) (values : list Z) : reader := fun p =>
  descend p (fun cur =>
    '(tag, cur) ← take1 p cur;
    if decide (tag ∈ values) then Ok (VIntEnum cls tag, cur)
    else Raise (BorshError (EnumTagOutOfRange tag cls) (Z.of_nat (pos cur) - 1) p)).

Definition BorshEnumNode_read (rd : node -> reader) (cls : string) (vars : variants) : reader :=
  fun p =>
  descend p (fun cur =>
    '(tag, cur) ← take1 p cur;
    match tag_lookup tag vars with
    | None => Raise (BorshError (EnumTagNoVariant tag cls) (Z.of_nat (pos cur) - 1) p)
    | Some (vcls, fs) =>
        '(vs, cur) ← read_fields rd (fun _ => vcls) p fs cur;
        Ok (make_obj vcls fs vs, cur)
    end).

Definition read_step (h : heap) (rd : node -> reader) (nd : node) : reader :=
  match nd with
  | IntNode _ nbytes sgn => IntNode_read nbytes sgn
  | FloatNode _ nbytes => FloatNode_read nbytes
  | BoolNode => BoolNode_read
  | StrNode => StrNode_read
  | BytesNode => BytesNode_read
  | FixedBytesNode n => FixedBytesNode_read n
  | PubkeyNode => PubkeyNode_read
  | OptionNode inner => OptionNode_read (rd inner)
  | OptNode inner => OptNode_read (rd inner)
  | VecNode elem => VecNode_read (min_wire_size h elem) (rd elem)
  | FixedArrayNode _ elem n => FixedArrayNode_read (rd elem) n
  | StructNode id cls => StructNode_read rd cls (struct_fields h id)
  | IntEnumNode cls => IntEnumNode_read cls (intenum_values h cls)
  | BorshEnumNode id cls => BorshEnumNode_read rd cls (enum_variants h id)
  end.

Fixpoint read (fuel : nat) (h : heap) (nd : node) : reader :=
  match fuel with
  | O => fun _ _ => Raise OutOfFuel
  | S fuel => read_step h (read fuel h) nd
  end.

(** Composite nodes raise past depth 64 and the others do not recurse. *)
Definition node_read (h : heap) (nd : node) : reader := read (S MAX_DECODE_DEPTH) h nd.

(** [codec.decode(buf, node, mode)]. *)
Definition decode (h : heap) (b : bytes) (nd : node) (mode : Mode) : res pyval :=
  '(value, cur) ← node_read h nd [] (new_cursor b);
  match mode with
  | IX_DATA =>
      if negb (pos cur =? length b)%nat
      then Raise (BorshError (TrailingBytes (Z.of_nat (pos cur)) (Z.of_nat (length b)))
                             (Z.of_nat (pos cur)) [])
      else Ok value
  | ACCOUNT_DATA => Ok value
  end.

(** ** Encoding

    [write] appends to the output buffer, which is threaded through. *)

Abbreviation writer := (pyval -> bytes -> path -> res bytes).

Definition len (out : bytes) : Z := Z.of_nat (length out).

Definition IntNode_write (nbytes : nat) (sgn : bool) : writer := fun v out p =>
  match as_int_not_bool v with
  | None => Raise (BorshError ExpectedInt (len out) p)
  | Some z =>
      match to_bytes nbytes sgn z with
      | Some bs => Ok (out ++ bs)
      | None => Raise (BorshError (IntOutOfRange z (Z.of_nat nbytes * 8)) (len out) p)
      end
  end.

(** [struct.pack(fmt, value)]: the conversion to [float] first. *)
Definition FloatNode_write (nbytes : nat) : writer := fun v out p =>
  if py_ne_self v then Raise (BorshError NaNFloat (len out) p)
  else
    f ← match v with
        | VFloat f => Ok f
        | _ => match as_index v with
               | Some z => match float_of_Z z with Some f => Ok f | None => Raise StructError end
               | None => Raise StructError
               end
        end;
    bs ← pack_float nbytes f;
    Ok (out ++ bs).

Definition BoolNode_write : writer := fun v out p =>
  if py_eq_01 v true then Ok (out ++ [x01])
  else if py_eq_01 v false then Ok (out ++ [x00])
  else Raise (BorshError BoolMustBe01 (len out) p).

(** [out += len(b).to_bytes(4, "little")]. *)
Definition write_len (n : nat) (out : bytes) : res bytes :=
  match to_bytes 4 false (Z.of_nat n) with
  | Some bs => Ok (out ++ bs)
  | None => Raise OverflowError
  end.

Definition StrNode_write : writer := fun v out p =>
  match v with
  | VStr s =>
      match utf8_encode s with
      | None => Raise UnicodeEncodeError
      | Some b => out ← write_len (length b) out; Ok (out ++ b)
      end
  | _ => Raise (BorshError ExpectedStr (len out) p)
  end.

Definition BytesNode_write : writer := fun v out p =>
  b ← py_bytes v;
  out ← write_len (length b) out;
  Ok (out ++ b).

Definition FixedBytesNode_write (n : Z) : writer := fun v out p =>
  b ← py_bytes v;
  if negb (Z.of_nat (length b) =? n)
  then Raise (BorshError (FixedBytesLength (Z.of_nat (length b)) n) (len out) p)
  else Ok (out ++ b).

Definition OptionNode_write (inner_write : writer) : writer := fun v out p =>
  match v with
  | VNone => Ok (out ++ [x00])
  | _ => inner_write v (out ++ [x01]) p
  end.

Definition OptNode_write (inner_write : writer) : writer := fun v out p =>
  match v with
  | VNone => Ok (out ++ [x00])
  | VOpt x => inner_write x (out ++ [x01]) p
  | _ => Raise (BorshError ExpectedOpt (len out) p)
  end.

(** [for i, v in enumerate(value): self.elem.write(v, out, path + (i,))]. *)
Fixpoint write_elems (elem_write : writer) (p : path) (i : nat) (vs : list pyval) (out : bytes)
  : res bytes :=
  match vs with
  | [] => Ok out
  | v :: vs =>
      out ← elem_write v out (p ++ [PIndex i]);
      write_elems elem_write p (S i) vs out
  end.

Definition VecNode_write (elem_write : writer) : writer := fun v out p =>
  vs ← py_seq v;
  out ← write_len (length vs) out;
  write_elems elem_write p 0 vs out.

Definition FixedArrayNode_write (elem_write : writer) (n : Z) : writer := fun v out p =>
  vs ← py_seq v;
  if negb (Z.of_nat (length vs) =? n)
  then Raise (BorshError (ArrayLength (Z.of_nat (length vs)) n) (len out) p)
  else write_elems elem_write p 0 vs out.

(** [for name, node in fields: node.write(getattr(value, name), out, path + (name,))]. *)
Fixpoint write_fields (wr : node -> writer) (p : path) (fs : fields) (v : pyval) (out : bytes)
  : res bytes :=
  match fs with
  | [] => Ok out
  | (name, nd) :: fs =>
      x ← py_getattr v name;
      out ← wr nd x out (p ++ [PField name]);
      write_fields wr p fs v out
  end.

Definition StructNode_write (wr : node -> writer) (fs : fields) : writer := fun v out p =>
  write_fields wr p fs v out.

Definition IntEnumNode_write : writer := fun v out p =>
  z ← py_int v;
  match to_bytes 1 false z with
  | Some bs => Ok (out ++ bs)
  | None => Raise OverflowError
  end.

(** [type(value)]: only dataclass instances can be variants. *)
Definition type_of (v : pyval) : option string :=
  match v with VObj cls _ => Some cls | _ => None end.

Definition BorshEnumNode_write (h : heap) (wr : node -> writer) (cls : string) (vars : variants)
  : writer := fun v out p =>
  let tag := vcls ← type_of v; attr_lookup vcls (h_vtag h) in
  let entry := t ← tag; e ← tag_lookup t vars; Some (t, e) in
  match entry with
  | Some (t, (vcls, fs)) =>
      if decide (type_of v = Some vcls) then
        match to_bytes 1 false t with
        | Some bs => write_fields wr p fs v (out ++ bs)
        | None => Raise OverflowError
        end
      else Raise (BorshError (NotAVariant cls) (len out) p)
  | None => Raise (BorshError (NotAVariant cls) (len out) p)
  end.

Section write.
Context `{Native}.

Definition PubkeyNode_write : writer := fun v out p =>
  k ← pubkey_new v;
  Ok (out ++ k).

Definition write_step (h : heap) (wr : node -> writer) (nd : node) : writer :=
  match nd with
  | IntNode _ nbytes sgn => IntNode_write nbytes sgn
  | FloatNode _ nbytes => FloatNode_write nbytes
  | BoolNode => BoolNode_write
  | StrNode => StrNode_write
  | BytesNode => BytesNode_write
  | FixedBytesNode n => FixedBytesNode_write n
  | PubkeyNode => PubkeyNode_write
  | OptionNode inner => OptionNode_write (wr inner)
  | OptNode inner => OptNode_write (wr inner)
  | VecNode elem => VecNode_write (wr elem)
  | FixedArrayNode _ elem n => FixedArrayNode_write (wr elem) n
  | StructNode id _ => StructNode_write wr (struct_fields h id)
  | IntEnumNode _ => IntEnumNode_write
  | BorshEnumNode id cls => BorshEnumNode_write h wr cls (enum_variants h id)
  end.

Fixpoint write (fuel : nat) (h : heap) (nd : node) : writer :=
  match fuel with
  | O => fun _ _ _ => Raise OutOfFuel
  | S fuel => write_step h (write fuel h) nd
  end.

(** Every call goes to a smaller value, or to a smaller node with a value
    no larger; a node reached through the heap has at most [hsize h] nodes. *)
Definition write_measure (h : heap) (nd : node) (v : pyval) : nat :=
  (vsize v * S (hsize h) + nsize nd)%nat.

Definition node_write (h : heap) (nd : node) : writer := fun v =>
  write (S (write_measure h nd v)) h nd v.

(** [codec.encode(value, node)]. *)
Definition encode (h : heap) (v : pyval) (nd : node) : res bytes := node_write h nd v [] [].
End write.

(** [node.is_composite]: drives the depth guard. *)
Definition is_composite (nd : node) : bool :=
  match nd with
  | OptionNode _ | OptNode _ | VecNode _ | FixedArrayNode _ _ _
  | StructNode _ _ | IntEnumNode _ | BorshEnumNode _ _ => true
  | _ => false
  end.
