(* ===== verification/IrTermination.v ===== *)
(** * The node methods return

    The fuel of [read], [write] and [min_wire_size] is enough: with it no call
    ends in [OutOfFuel], and any larger fuel gives the same answer.  For [read]
    the bound is the decoder's own depth guard; for [write] it is a measure on
    value and node; for [min_wire_size] the [_stack] of visited nodes, without
    which the recursion through a cyclic type would not end. *)

From stdpp Require Import base decidable option list gmap strings sorting numbers.
From Stdlib Require Import ZArith Lia.
From Stdlib Require Import Strings.Byte.
From S2P Require Import Prelude.
From S2P Require Import Bytes.
From S2P Require Import Utf8.
From S2P Require Import Floats.
From S2P Require Import Values.
From S2P Require Import Aliases.
From S2P Require Import Codec.
From S2P Require Import Ir.

Create HintDb ret discriminated.

(** ** [returns] through the combinators *)

Ltac ret_raise := solve [apply returns_Raise; discriminate | apply returns_Ok].

Lemma returns_mapM {A B} (f : A -> res B) xs :
  (forall x, x ∈ xs -> returns (f x)) -> returns (mapM_res f xs).
Proof.
  induction xs as [|x xs IH]; simpl; intros Hf; [ret_raise|].
  apply returns_bind; [apply Hf; by left|]. intros y _.
  apply returns_bind; [apply IH; intros; apply Hf; by right|]. intros. ret_raise.
Qed.

Lemma returns_cur_take n p cur : returns (cur_take n p cur).
Proof. unfold cur_take. case_match; ret_raise. Qed.

Lemma returns_pack_float n f : returns (pack_float n f).
Proof. unfold pack_float. repeat case_match; ret_raise. Qed.

Lemma returns_byte_elem v : returns (byte_elem v).
Proof. unfold byte_elem. repeat case_match; ret_raise. Qed.

Lemma returns_py_bytes v : returns (py_bytes v).
Proof.
  destruct v; simpl; repeat case_match; try ret_raise.
  apply returns_mapM. intros. apply returns_byte_elem.
Qed.

Lemma returns_py_int v : returns (py_int v).
Proof. destruct v; simpl; repeat case_match; ret_raise. Qed.

Lemma returns_py_seq v : returns (py_seq v).
Proof. destruct v; simpl; ret_raise. Qed.

Lemma returns_py_getattr v n : returns (py_getattr v n).
Proof. destruct v; simpl; repeat case_match; ret_raise. Qed.

Lemma returns_pubkey_new `{Native} v : returns (pubkey_new v).
Proof. destruct v; simpl; repeat case_match; ret_raise. Qed.

Lemma returns_write_len n out : returns (write_len n out).
Proof. unfold write_len. case_match; ret_raise. Qed.

#[export] Hint Resolve returns_bind returns_fmap returns_Ok returns_cur_take returns_pack_float
  returns_py_bytes returns_py_int returns_py_seq returns_py_getattr returns_pubkey_new
  returns_write_len : ret.
#[export] Hint Extern 1 (returns (Raise _)) => (apply returns_Raise; discriminate) : ret.

(** Walks down a monadic computation, case by case. *)
Ltac ret_go :=
  repeat match goal with
  | |- returns (mbind _ _) => apply returns_bind; [|intros ? ?]
  | |- returns (fmap _ _) => apply returns_fmap
  | |- returns (Ok _) => apply returns_Ok
  | |- returns (Raise _) => apply returns_Raise; discriminate
  | |- returns (match ?x with _ => _ end) => destruct x eqn:?
  end; eauto with ret.

(** ** [min_wire_size] *)

(** What [st] has not visited yet: the budget left to the recursion. *)
Definition unvisited {A} (sz : A -> nat) (st : stack) (es : list (nat * A)) : nat :=
  list_sum (map (fun e => if decide (KObj e.1 ∈ st) then 0 else S (sz e.2))%nat es).

Definition mws_measure (h : heap) (st : stack) (nd : node) : nat :=
  (nsize nd + unvisited fsize st (h_struct h) + unvisited vssize st (h_enum h))%nat.

Lemma unvisited_push {A} (sz : A -> nat) st k es :
  (unvisited sz (st ++ [k]) es <= unvisited sz st es)%nat.
Proof.
  induction es as [|e es IH]; unfold unvisited in *; simpl; [lia|].
  destruct (decide (KObj e.1 ∈ st)) as [Hin|Hin].
  - rewrite decide_True by set_solver. lia.
  - destruct (decide (KObj e.1 ∈ st ++ [k])); lia.
Qed.

Lemma unvisited_visit {A} (sz : A -> nat) st id es a :
  KObj id ∉ st -> attr_lookup id es = Some a ->
  (unvisited sz (st ++ [KObj id]) es + S (sz a) <= unvisited sz st es)%nat.
Proof.
  intros Hst. induction es as [|[k e] es IH]; simpl; [done|].
  unfold unvisited in *; simpl. case_decide as Hk; intros Ha.
  - simplify_eq. pose proof (unvisited_push sz st (KObj id) es) as Hp.
    unfold unvisited in Hp. rewrite decide_True by set_solver.
    rewrite decide_False by done. lia.
  - specialize (IH Ha). destruct (decide (KObj k ∈ st)).
    + rewrite decide_True by set_solver. lia.
    + rewrite decide_False by set_solver. lia.
Qed.

Lemma fsize_elem f (fs : fields) : f ∈ fs -> (nsize f.2 <= fsize fs)%nat.
Proof. intros. by apply (list_sum_ge (fun f : string * node => nsize f.2)). Qed.

Lemma vssize_elem v (vs : variants) : v ∈ vs -> (fsize v.2.2 <= vssize vs)%nat.
Proof. intros. by apply (list_sum_ge (fun v : Z * (string * fields) => fsize v.2.2)). Qed.

Lemma struct_fields_visit h st id :
  KObj id ∉ st ->
  (unvisited fsize (st ++ [KObj id]) (h_struct h) + fsize (struct_fields h id)
   <= unvisited fsize st (h_struct h))%nat.
Proof.
  intros Hst. unfold struct_fields. destruct (attr_lookup id (h_struct h)) eqn:E; simpl.
  - pose proof (unvisited_visit fsize _ _ _ _ Hst E). lia.
  - pose proof (unvisited_push fsize st (KObj id) (h_struct h)). unfold fsize at 2. simpl. lia.
Qed.

Lemma enum_variants_visit h st id :
  KObj id ∉ st ->
  (unvisited vssize (st ++ [KObj id]) (h_enum h) + vssize (enum_variants h id)
   <= unvisited vssize st (h_enum h))%nat.
Proof.
  intros Hst. unfold enum_variants. destruct (attr_lookup id (h_enum h)) eqn:E; simpl.
  - pose proof (unvisited_visit vssize _ _ _ _ Hst E). lia.
  - pose proof (unvisited_push vssize st (KObj id) (h_enum h)). unfold vssize at 2. simpl. lia.
Qed.

Lemma mws_returns fuel h st nd : (mws_measure h st nd < fuel)%nat -> returns (mws fuel h st nd).
Proof.
  revert st nd; induction fuel as [|fuel IH]; intros st nd Hm; [lia|].
  pose proof (unvisited_push fsize st) as Hps. pose proof (unvisited_push vssize st) as Hpe.
  unfold mws_measure in *. simpl. destruct nd; simpl in *; try ret_raise.
  - case_decide; [ret_raise|]. apply returns_bind; [|intros; ret_raise].
    apply IH. pose proof (Hps (KArr id) (h_struct h)). pose proof (Hpe (KArr id) (h_enum h)). lia.
  - case_decide as Hc; [ret_raise|]. apply returns_fmap, returns_mapM. intros f Hf.
    apply IH. pose proof (struct_fields_visit h st id Hc).
    pose proof (fsize_elem _ _ Hf). pose proof (Hpe (KObj id) (h_enum h)). lia.
  - case_decide as Hc; [ret_raise|].
    assert (Hrec : forall v, v ∈ enum_variants h id ->
              returns (mws_fields (mws fuel h) (st ++ [KObj id]) v.2.2)).
    { intros v Hv. apply returns_fmap, returns_mapM. intros f Hf.
      apply IH. pose proof (enum_variants_visit h st id Hc).
      pose proof (fsize_elem _ _ Hf). pose proof (vssize_elem _ _ Hv).
      pose proof (Hps (KObj id) (h_struct h)). lia. }
    destruct (enum_variants h id) as [|[t [c fs]] vs]; [ret_raise|].
    apply returns_bind; [apply (Hrec (t, (c, fs))); by left|]. intros.
    apply returns_bind; [|intros; ret_raise].
    apply returns_mapM. intros v Hv. apply Hrec. by right.
Qed.

Lemma unvisited_nil {A} (sz : A -> nat) es :
  unvisited sz [] es = list_sum (map (fun e => S (sz e.2)) es).
Proof. reflexivity. Qed.

Lemma min_wire_size_returns h nd : returns (min_wire_size h nd).
Proof.
  apply mws_returns. unfold mws_measure, hsize. rewrite !unvisited_nil. lia.
Qed.
#[export] Hint Resolve min_wire_size_returns : ret.

Lemma min_wire_size_total h nd : exists m, min_wire_size h nd = Ok m.
Proof.
  pose proof (min_wire_size_returns h nd) as Hr.
  assert (Hm : forall fuel st nd e, mws fuel h st nd = Raise e -> e = OutOfFuel).
  { clear. induction fuel as [|fuel IH]; intros st nd e; simpl; [congruence|].
    assert (Hmap : forall {A} (f : A -> res Z) xs e,
              (forall x e, f x = Raise e -> e = OutOfFuel) ->
              mapM_res f xs = Raise e -> e = OutOfFuel).
    { clear. intros A f xs e Hf. induction xs as [|x xs IH]; simpl; [discriminate|].
      destruct (f x) eqn:E; simpl; [|intros; simplify_eq; eauto].
      destruct (mapM_res f xs) eqn:E'; simpl; [discriminate|]. intros; simplify_eq; auto. }
    assert (Hfs : forall st fs e, mws_fields (mws fuel h) st fs = Raise e -> e = OutOfFuel).
    { intros st' fs e'. unfold mws_fields. destruct (mapM_res _ fs) eqn:E; [discriminate|].
      intros [= <-]. eapply Hmap; [|exact E]. simpl. eauto. }
    destruct nd; simpl; try discriminate.
    - case_decide; [discriminate|]. destruct (mws fuel _ _ _) eqn:E; [discriminate|].
      intros [= <-]. eauto.
    - case_decide; [discriminate|]. eauto.
    - case_decide; [discriminate|]. destruct (enum_variants h id) as [|[t [c fs]] vs]; [discriminate|].
      destruct (mws_fields _ _ fs) eqn:E; simpl; [|intros [= <-]; eauto].
      destruct (mapM_res _ vs) eqn:E'; simpl; [discriminate|]. intros [= <-].
      eapply Hmap; [|exact E']. simpl. eauto. }
  destruct (min_wire_size h nd) as [m|e] eqn:E; [by eexists|].
  apply Hm in E. subst. by destruct Hr.
Qed.

(** ** [read] *)

(** [c] is a later state of the cursor [base] over the same buffer. *)
Definition later (base c : Cursor) : Prop :=
  buf c = buf base /\ depth c = depth base /\ (pos base <= pos c <= length (buf base))%nat.

(** [m], started at [base], left the cursor inside the buffer, or raised a
    [BorshError] whose offset is inside the buffer: nothing else. *)
Definition safe {A} (base : Cursor) (m : res (A * Cursor)) : Prop :=
  match m with
  | Ok (_, c) => later base c
  | Raise (BorshError _ off _) => 0 <= off <= Z.of_nat (length (buf base))
  | Raise _ => False
  end.
Arguments safe : simpl never.

Lemma safe_raise {A} base m off p :
  0 <= off <= Z.of_nat (length (buf base)) -> @safe A base (Raise (BorshError m off p)).
Proof. done. Qed.

Definition in_buf (cur : Cursor) : Prop := (pos cur <= length (buf cur))%nat.

Lemma later_in_buf base c : later base c -> in_buf c.
Proof. intros (Hb & _ & Hp). unfold in_buf. rewrite Hb. lia. Qed.
#[export] Hint Resolve later_in_buf : ret.

Lemma later_depth base c : later base c -> depth c = depth base.
Proof. by intros (_ & -> & _). Qed.

Lemma later_trans c1 c2 c3 : later c1 c2 -> later c2 c3 -> later c1 c3.
Proof.
  intros (Hb1 & Hd1 & Hp1) (Hb2 & Hd2 & Hp2). rewrite Hb1 in *.
  repeat split; [congruence..|lia|lia].
Qed.

Lemma safe_Ok {A} cur (a : A) : in_buf cur -> safe cur (Ok (a, cur)).
Proof. intros Hin. repeat split; [lia|apply Hin]. Qed.

Lemma safe_later {A} base c (m : res (A * Cursor)) : later base c -> safe c m -> safe base m.
Proof.
  intros Hl. destruct m as [[a c']|[]]; unfold safe; try done.
  - by apply later_trans.
  - destruct Hl as (-> & _). done.
Qed.

Lemma safe_bind {A B} base (m : res (A * Cursor)) (k : A -> Cursor -> res (B * Cursor)) :
  safe base m -> (forall a c, later base c -> safe c (k a c)) -> safe base ('(a, c) ← m; k a c).
Proof.
  intros Hm Hk. destruct m as [[a c]|e]; simpl; [|done]. eapply safe_later; [apply Hm|]. by apply Hk.
Qed.

(** A bounds-checked take, with how far it moved. *)
Lemma safe_take {B} base n p (k : bytes -> Cursor -> res (B * Cursor)) :
  in_buf base ->
  (forall bs c, later base c -> 0 <= n -> Z.of_nat (pos c) = Z.of_nat (pos base) + n ->
     safe c (k bs c)) ->
  safe base ('(bs, c) ← cur_take n p base; k bs c).
Proof.
  unfold in_buf. intros Hin Hk. unfold cur_take, remaining.
  destruct ((n <? 0) || _) eqn:E; simpl; [apply safe_raise; lia|]. zify_bools.
  assert (Hl : later base (mkCursor (buf base) (pos base + Z.to_nat n) (depth base)))
    by (repeat split; simpl; lia).
  eapply safe_later; [apply Hl|]. apply Hk; [done|lia|simpl; lia].
Qed.

Lemma safe_take1 {B} base p (k : Z -> Cursor -> res (B * Cursor)) :
  in_buf base ->
  (forall t c, later base c -> 1 <= Z.of_nat (pos c) -> safe c (k t c)) ->
  safe base ('(t, c) ← take1 p base; k t c).
Proof.
  intros Hin Hk. unfold take1.
  assert (Ht := safe_take base 1 p (fun bs c => k (le_value bs) c) Hin).
  destruct (cur_take 1 p base) as [[bs c]|e]; simpl in *; apply Ht; intros; apply Hk; (done || lia).
Qed.

Lemma safe_seq_len {B} base m p (k : Z -> Cursor -> res (B * Cursor)) :
  in_buf base -> (forall n c, later base c -> safe c (k n c)) ->
  safe base ('(n, c) ← _read_seq_len m p base; k n c).
Proof.
  intros Hin Hk. apply safe_bind; [|done]. unfold _read_seq_len.
  apply safe_take; [done|]. intros bs c Hl _ Hp. pose proof (later_in_buf _ _ Hl) as Hc.
  unfold in_buf in Hc. repeat case_match; [apply safe_raise; lia|apply safe_raise; lia|by apply safe_Ok].
Qed.

Lemma safe_descend {A} base p (body : Cursor -> res (A * Cursor)) :
  in_buf base ->
  ((S (depth base) <= MAX_DECODE_DEPTH)%nat ->
   forall c, in_buf c -> depth c = S (depth base) -> safe c (body c)) ->
  safe base (descend p body base).
Proof.
  unfold in_buf. intros Hin Hb. unfold descend. cbv zeta.
  destruct (MAX_DECODE_DEPTH <? _)%nat eqn:E; simpl in E |- *; [apply safe_raise; simpl; lia|]. apply Nat.ltb_ge in E.
  specialize (Hb E (mkCursor (buf base) (pos base) (S (depth base))) Hin eq_refl).
  destruct (body _) as [[a c]|[]]; simpl in *; try done.
  destruct Hb as (H1 & H2 & H3). simpl in *. repeat split; simpl; [done|lia|lia|lia].
Qed.

Lemma safe_elems d (rd : reader) p i n cur :
  (forall p cur, in_buf cur -> depth cur = d -> safe cur (rd p cur)) ->
  in_buf cur -> depth cur = d -> safe cur (read_elems rd p i n cur).
Proof.
  intros Hrd. revert i cur; induction n as [|n IH]; intros i cur Hin Hd; simpl; [by apply safe_Ok|].
  apply safe_bind; [by apply Hrd|]. intros v c Hc.
  apply safe_bind; [apply IH|]; eauto using later_in_buf, safe_Ok.
  by rewrite (later_depth _ _ Hc).
Qed.

Lemma safe_fields d (rd : node -> reader) crumb p fs cur :
  (forall nd p cur, in_buf cur -> depth cur = d -> safe cur (rd nd p cur)) ->
  in_buf cur -> depth cur = d -> safe cur (read_fields rd crumb p fs cur).
Proof.
  intros Hrd. revert cur; induction fs as [|[name nd] fs IH]; intros cur Hin Hd; simpl;
    [by apply safe_Ok|].
  apply safe_bind; [by apply Hrd|]. intros v c Hc.
  apply safe_bind; [apply IH|]; eauto using later_in_buf, safe_Ok.
  by rewrite (later_depth _ _ Hc).
Qed.

(** Walks down a reader, case by case. *)
Ltac safe_go :=
  repeat first
  [ apply safe_descend; [solve [eauto with ret]|intros ?Hdepth ? ? ?]
  | apply safe_take; [solve [eauto with ret]|let H := fresh "Hlater" in
      intros ? ? H ? ?; pose proof (later_in_buf _ _ H)]
  | apply safe_take1; [solve [eauto with ret]|let H := fresh "Hlater" in
      intros ? ? H ?; pose proof (later_in_buf _ _ H)]
  | apply safe_seq_len; [solve [eauto with ret]|let H := fresh "Hlater" in
      intros ? ? H; pose proof (later_in_buf _ _ H)]
  | match goal with
    | |- safe _ (match ?x with _ => _ end) => destruct x eqn:?
    | |- safe _ (Ok _) => apply safe_Ok; solve [eauto with ret]
    | |- safe _ (Raise _) => unfold in_buf in *; apply safe_raise; lia
    end ].

Lemma read_leaf_safe h rd nd p cur :
  is_composite nd = false -> in_buf cur -> safe cur (read_step h rd nd p cur).
Proof.
  destruct nd; try discriminate; intros _ Hin; simpl;
    unfold IntNode_read, FloatNode_read, BoolNode_read, StrNode_read, BytesNode_read,
      FixedBytesNode_read, PubkeyNode_read; safe_go.
Qed.

(** At depth [d] the guard allows [64 - d] more levels. *)
Lemma read_safe fuel h nd p cur :
  (S MAX_DECODE_DEPTH <= fuel + depth cur)%nat -> (0 < fuel)%nat -> in_buf cur ->
  safe cur (read fuel h nd p cur).
Proof.
  revert nd p cur; induction fuel as [|fuel IH]; intros nd p cur Hf Hpos Hin; [lia|].
  simpl. destruct (is_composite nd) eqn:Hc; [|by apply read_leaf_safe].
  assert (Hrec : (S (depth cur) <= MAX_DECODE_DEPTH)%nat -> forall nd p c,
            in_buf c -> depth c = S (depth cur) -> safe c (read fuel h nd p c)).
  { intros. apply IH; [lia|unfold MAX_DECODE_DEPTH in *; lia|done]. }
  clear IH. destruct nd; try discriminate; simpl;
    unfold OptionNode_read, OptNode_read, option_read, VecNode_read, FixedArrayNode_read,
      StructNode_read, IntEnumNode_read, BorshEnumNode_read;
    apply safe_descend; try done; intros Hdepth c Hci Hcd; specialize (Hrec Hdepth).
  - safe_go. apply safe_bind; [apply Hrec; [done|by rewrite (later_depth _ _ Hlater)]|].
    intros. safe_go.
  - safe_go. apply safe_bind; [apply Hrec; [done|by rewrite (later_depth _ _ Hlater)]|].
    intros. safe_go.
  - destruct (min_wire_size_total h nd) as [m ->]. simpl. safe_go.
    apply safe_bind; [eapply safe_elems; [eauto|done|by rewrite (later_depth _ _ Hlater)]|].
    intros. safe_go.
  - apply safe_bind; [by eapply safe_elems; eauto|]. intros. safe_go.
  - apply safe_bind; [by eapply safe_fields; eauto|]. intros. safe_go.
  - safe_go.
  - safe_go. apply safe_bind; [eapply safe_fields; [eauto|done|by rewrite (later_depth _ _ Hlater)]|].
    intros. safe_go.
Qed.

Lemma node_read_safe h nd p cur : depth cur = 0%nat -> in_buf cur -> safe cur (node_read h nd p cur).
Proof. intros Hd. apply read_safe; unfold MAX_DECODE_DEPTH; lia. Qed.

(** ** [write] *)

(** [m'] is what [m] becomes with more fuel. *)
Definition le_res {A} (m m' : res A) : Prop := m = Raise OutOfFuel \/ m = m'.

Lemma le_res_refl {A} (m : res A) : le_res m m.
Proof. by right. Qed.

Lemma le_res_bind {A B} (m m' : res A) (k k' : A -> res B) :
  le_res m m' -> (forall a, le_res (k a) (k' a)) -> le_res (m ≫= k) (m' ≫= k').
Proof. intros [->| ->] Hk; [by left|]. destruct m'; simpl; [apply Hk|by right]. Qed.

Lemma le_res_Ok {A} (m m' : res A) a : le_res m m' -> m = Ok a -> m' = Ok a.
Proof. intros [->| ->] ?; congruence. Qed.

Lemma le_res_returns {A} (m m' : res A) : le_res m m' -> returns m -> m' = m.
Proof. intros [->| ->] Hr; [by destruct Hr|done]. Qed.

#[export] Hint Resolve le_res_refl : ret.

Section write_fuel.
Context `{Native}.

Lemma le_res_elems (wr wr' : writer) p i vs out :
  (forall v out p, le_res (wr v out p) (wr' v out p)) ->
  le_res (write_elems wr p i vs out) (write_elems wr' p i vs out).
Proof.
  intros Hw. revert i out; induction vs as [|v vs IH]; intros i out; simpl; [by right|].
  apply le_res_bind; auto.
Qed.

Lemma le_res_fields (wr wr' : node -> writer) p fs v out :
  (forall nd v out p, le_res (wr nd v out p) (wr' nd v out p)) ->
  le_res (write_fields wr p fs v out) (write_fields wr' p fs v out).
Proof.
  intros Hw. revert out; induction fs as [|[name nd] fs IH]; intros out; simpl; [by right|].
  apply le_res_bind; [by right|]. intros x. apply le_res_bind; auto.
Qed.

Lemma write_mono fuel fuel' h nd v out p :
  (fuel <= fuel')%nat -> le_res (write fuel h nd v out p) (write fuel' h nd v out p).
Proof.
  revert fuel' nd v out p; induction fuel as [|fuel IH]; intros fuel' nd v out p Hf; [by left|].
  destruct fuel' as [|fuel']; [lia|].
  assert (Hrec : forall nd v out p, le_res (write fuel h nd v out p) (write fuel' h nd v out p)).
  { intros. apply IH. lia. }
  simpl. destruct nd; simpl; try apply le_res_refl.
  - unfold OptionNode_write. case_match; auto with ret.
  - unfold OptNode_write. case_match; auto with ret.
  - apply le_res_bind; [by right|]. intros. apply le_res_bind; [by right|]. intros.
    by apply le_res_elems.
  - apply le_res_bind; [by right|]. intros. case_match; [by right|]. by apply le_res_elems.
  - by apply le_res_fields.
  - unfold BorshEnumNode_write. repeat case_match; try apply le_res_refl. by apply le_res_fields.
Qed.

Lemma returns_elems (wr : writer) p i vs out :
  (forall v out p, v ∈ vs -> returns (wr v out p)) -> returns (write_elems wr p i vs out).
Proof.
  revert i out; induction vs as [|v vs IH]; intros i out Hw; simpl; [ret_raise|].
  apply returns_bind; [apply Hw; by left|]. intros. apply IH. intros. apply Hw. by right.
Qed.

Lemma returns_fields (wr : node -> writer) p fs v out :
  (forall f x out p, f ∈ fs -> py_getattr v f.1 = Ok x -> returns (wr f.2 x out p)) ->
  returns (write_fields wr p fs v out).
Proof.
  revert out; induction fs as [|[name nd] fs IH]; intros out Hw; simpl; [ret_raise|].
  apply returns_bind; [apply returns_py_getattr|]. intros x Hx.
  apply returns_bind; [apply (Hw (name, nd)); [by left|done]|].
  intros. apply IH. intros. apply Hw; [by right|done].
Qed.

Lemma struct_fields_hsize h id f : f ∈ struct_fields h id -> (nsize f.2 <= hsize h)%nat.
Proof.
  unfold struct_fields, hsize. destruct (attr_lookup id _) as [fs|] eqn:E; simpl;
    intros Hf; [|set_solver].
  apply attr_lookup_elem in E.
  pose proof (list_sum_ge (fun e : nat * fields => S (fsize e.2)) _ _ E).
  pose proof (fsize_elem _ _ Hf). simpl in *. lia.
Qed.

Lemma tag_lookup_elem {A} t (vs : list (Z * A)) e : tag_lookup t vs = Some e -> (t, e) ∈ vs.
Proof.
  induction vs as [|[t' e'] vs IH]; simpl; [done|].
  destruct (t' =? t) eqn:E; intros Hl; zify_bools; simplify_eq; [by left|right; auto].
Qed.

Lemma enum_variants_hsize h id t vcls fs f :
  tag_lookup t (enum_variants h id) = Some (vcls, fs) -> f ∈ fs -> (nsize f.2 <= hsize h)%nat.
Proof.
  unfold enum_variants, hsize. destruct (attr_lookup id _) as [vs|] eqn:E; simpl;
    intros Hl Hf; [|done].
  apply attr_lookup_elem in E. apply tag_lookup_elem in Hl.
  pose proof (list_sum_ge (fun e : nat * variants => S (vssize e.2)) _ _ E).
  pose proof (vssize_elem _ _ Hl). pose proof (fsize_elem _ _ Hf). simpl in *. lia.
Qed.

Lemma write_returns fuel h nd v out p :
  (write_measure h nd v < fuel)%nat -> returns (write fuel h nd v out p).
Proof.
  revert nd v out p; induction fuel as [|fuel IH]; intros nd v out p Hm; [lia|].
  assert (Hfld : forall f x out p, (nsize f.2 <= hsize h)%nat -> py_getattr v f.1 = Ok x ->
            returns (write fuel h (f.2 : node) x out p)).
  { intros f x out' p' Hs Hx. apply IH. apply py_getattr_size in Hx.
    unfold write_measure in *. destruct nd; simpl in Hm; nia. }
  unfold write_measure in *. simpl. destruct nd; simpl in Hm |- *;
    unfold IntNode_write, FloatNode_write, BoolNode_write, StrNode_write, BytesNode_write,
      FixedBytesNode_write, PubkeyNode_write, OptionNode_write, OptNode_write, VecNode_write,
      FixedArrayNode_write, StructNode_write, IntEnumNode_write, BorshEnumNode_write.
  1-7: ret_go.
  - case_match; try ret_raise; apply IH; simpl in *; nia.
  - case_match; try ret_raise; apply IH; simpl in *; nia.
  - ret_go. apply returns_elems. intros x out' p' Hx. apply IH.
    pose proof (py_seq_size _ _ _ H0 Hx). nia.
  - ret_go. apply returns_elems. intros x out' p' Hx. apply IH.
    pose proof (py_seq_size _ _ _ H0 Hx). nia.
  - apply returns_fields. intros. apply Hfld; [|done]. by eapply struct_fields_hsize.
  - ret_go.
  - destruct (_ ← type_of v; _) as [t|]; simpl; [|ret_raise].
    destruct (tag_lookup _ _) as [[vcls fs]|] eqn:El; simpl; [|ret_raise].
    case_decide; [|ret_raise]. case_match; [|ret_raise].
    apply returns_fields. intros. apply Hfld; [|done]. by eapply enum_variants_hsize.
Qed.

Lemma encode_returns h v nd : returns (encode h v nd).
Proof. apply write_returns. lia. Qed.

(** What any fuel computes, the fuel of [node_write] computes. *)
Lemma node_write_Ok fuel h nd v out p r :
  write fuel h nd v out p = Ok r -> node_write h nd v out p = Ok r.
Proof.
  intros Hw. unfold node_write.
  pose proof (write_returns (S (write_measure h nd v)) h nd v out p ltac:(lia)) as Hr.
  destruct (Nat.le_ge_cases fuel (S (write_measure h nd v))) as [Hle|Hle].
  - eapply le_res_Ok; [by apply write_mono|done].
  - pose proof (write_mono _ _ h nd v out p Hle) as Hm.
    rewrite <-(le_res_returns _ _ Hm Hr). done.
Qed.
End write_fuel.
