(* ===== verification/Borsh.v ===== *)
(** * The Borsh grammar and its refinement by the codec

    [borsh h d nd v bs]: [bs] is the Borsh encoding of the value [v] at the
    type node [nd], with at most [d] nested composite types.  The relation says
    nothing of cursors, buffers, offsets or evaluation order; the theorems at
    the end state that [decode] and [encode] implement it. *)

From stdpp Require Import base decidable option list gmap strings sorting numbers.
From Stdlib Require Import ZArith Lia.
From Stdlib Require Import Strings.Byte.
From S2P Require Import Prelude.
From S2P Require Import Bytes.
From S2P Require Import Utf8.
From S2P Require Import Floats.
From S2P Require Import Values.
From S2P Require Import Aliases.
From S2P Require Import Codec.
From S2P Require Import Ir.
From S2P Require Import IrTermination.

Section grammar.
Context (h : heap).

Inductive borsh : nat -> node -> pyval -> bytes -> Prop :=
  | B_int d al nb sgn z bs :
      to_bytes nb sgn z = Some bs -> borsh d (IntNode al nb sgn) (VInt z) bs
  | B_float d al nb bs :
      length bs = nb -> is_nan64 (unpack_float nb bs) = false ->
      borsh d (FloatNode al nb) (VFloat (unpack_float nb bs)) bs
  | B_true d : borsh d BoolNode (VBool true) [x01]
  | B_false d : borsh d BoolNode (VBool false) [x00]
  | B_str d s lb bs :
      utf8_encode s = Some bs -> to_bytes 4 false (len bs) = Some lb ->
      borsh d StrNode (VStr s) (lb ++ bs)
  | B_bytes d lb bs :
      to_bytes 4 false (len bs) = Some lb -> borsh d BytesNode (VBytes bs) (lb ++ bs)
  | B_fixed d n bs : len bs = n -> borsh d (FixedBytesNode n) (VBytes bs) bs
  | B_pubkey d k : length k = 32%nat -> borsh d PubkeyNode (VPubkey k) k
  | B_none d nd : borsh (S d) (OptionNode nd) VNone [x00]
  | B_some d nd v bs :
      v <> VNone -> borsh d nd v bs -> borsh (S d) (OptionNode nd) v (x01 :: bs)
  | B_opt_none d nd : borsh (S d) (OptNode nd) VNone [x00]
  | B_opt_some d nd v bs : borsh d nd v bs -> borsh (S d) (OptNode nd) (VOpt v) (x01 :: bs)
  | B_vec d nd vs lb bs :
      to_bytes 4 false (Z.of_nat (length vs)) = Some lb -> borsh_seq d nd vs bs ->
      borsh (S d) (VecNode nd) (VList vs) (lb ++ bs)
  | B_array d i nd n vs bs :
      Z.of_nat (length vs) = n -> borsh_seq d nd vs bs ->
      borsh (S d) (FixedArrayNode i nd n) (VList vs) bs
  | B_struct d id cls vs bs :
      borsh_fields d (struct_fields h id) vs bs ->
      borsh (S d) (StructNode id cls) (make_obj cls (struct_fields h id) vs) bs
  | B_intenum d cls z bs :
      z ∈ intenum_values h cls -> to_bytes 1 false z = Some bs ->
      borsh (S d) (IntEnumNode cls) (VIntEnum cls z) bs
  | B_enum d id cls t vcls fs vs tb bs :
      tag_lookup t (enum_variants h id) = Some (vcls, fs) -> to_bytes 1 false t = Some tb ->
      borsh_fields d fs vs bs ->
      borsh (S d) (BorshEnumNode id cls) (make_obj vcls fs vs) (tb ++ bs)
with borsh_seq : nat -> node -> list pyval -> bytes -> Prop :=
  | BS_nil d nd : borsh_seq d nd [] []
  | BS_cons d nd v vs b1 b2 :
      borsh d nd v b1 -> borsh_seq d nd vs b2 -> borsh_seq d nd (v :: vs) (b1 ++ b2)
with borsh_fields : nat -> fields -> list pyval -> bytes -> Prop :=
  | BF_nil d : borsh_fields d [] [] []
  | BF_cons d name nd fs v vs b1 b2 :
      borsh d nd v b1 -> borsh_fields d fs vs b2 ->
      borsh_fields d ((name, nd) :: fs) (v :: vs) (b1 ++ b2).

End grammar.

Scheme borsh_mind := Induction for borsh Sort Prop
  with borsh_seq_mind := Induction for borsh_seq Sort Prop
  with borsh_fields_mind := Induction for borsh_fields Sort Prop.
Combined Scheme borsh_mutind from borsh_mind, borsh_seq_mind, borsh_fields_mind.

#[export] Hint Constructors borsh borsh_seq borsh_fields : wake.

(** ** Well-formed types

    What [compile_type] establishes of the nodes it builds. *)
Definition nullable (nd : node) : bool :=
  match nd with OptionNode _ | OptNode _ => true | _ => false end.

Fixpoint node_wf (nd : node) : bool :=
  match nd with
  | IntNode _ nb _ => negb (nb =? 0)%nat
  | FloatNode _ nb => (nb =? 4)%nat || (nb =? 8)%nat
  | FixedBytesNode n => 0 <=? n
  | OptionNode i => negb (nullable i) && node_wf i
  | OptNode i | VecNode i => node_wf i
  | FixedArrayNode _ i n => (0 <=? n) && node_wf i
  | _ => true
  end.

Definition fields_wf (fs : fields) : bool :=
  bool_decide (NoDup fs.*1) && forallb (fun f => node_wf f.2) fs.

(** A variant's [__variant_tag__] is the tag it is filed under. *)
Definition variant_wf (vtag : list (string * Z)) (v : Z * (string * fields)) : bool :=
  bool_decide (attr_lookup v.2.1 vtag = Some v.1) && fields_wf v.2.2.

Definition heap_wf (h : heap) : bool :=
  forallb (fun e => fields_wf e.2) (h_struct h) &&
  forallb (fun e => forallb (variant_wf (h_vtag h)) e.2) (h_enum h).

(** No vector of elements that may take no byte: the decoder bounds the length
    of such a vector by the bytes left, the encoder does not. *)
Fixpoint vec_floor (h : heap) (nd : node) : bool :=
  match nd with
  | VecNode i =>
      match min_wire_size h i with Ok m => 0 <? m | Raise _ => false end && vec_floor h i
  | OptionNode i | OptNode i | FixedArrayNode _ i _ => vec_floor h i
  | _ => true
  end.

Definition heap_floor (h : heap) : bool :=
  forallb (fun e => forallb (fun f => vec_floor h f.2) e.2) (h_struct h) &&
  forallb (fun e => forallb (fun v => forallb (fun f => vec_floor h f.2) v.2.2) e.2) (h_enum h).

Lemma forallb_elem {A} (f : A -> bool) xs x : forallb f xs = true -> x ∈ xs -> f x = true.
Proof. intros Hf Hx. rewrite forallb_forall in Hf. apply Hf. by apply list_elem_of_In. Qed.

Lemma struct_fields_all (P : fields -> bool) h id :
  forallb (fun e => P e.2) (h_struct h) = true -> P [] = true -> P (struct_fields h id) = true.
Proof.
  intros Ha Hn. unfold struct_fields. destruct (attr_lookup _ _) as [fs|] eqn:E; simpl; [|done].
  apply attr_lookup_elem in E. by apply (forallb_elem _ _ _ Ha) in E.
Qed.

Lemma enum_variants_all (P : Z * (string * fields) -> bool) h id t e :
  forallb (fun e => forallb P e.2) (h_enum h) = true ->
  tag_lookup t (enum_variants h id) = Some e -> P (t, e) = true.
Proof.
  intros Ha. unfold enum_variants. destruct (attr_lookup _ _) as [vs|] eqn:E; simpl; [|done].
  intros Hl%tag_lookup_elem. apply attr_lookup_elem in E.
  apply (forallb_elem _ _ _ Ha) in E. by apply (forallb_elem _ _ _ E) in Hl.
Qed.

Lemma heap_wf_struct h id : heap_wf h = true -> fields_wf (struct_fields h id) = true.
Proof. unfold heap_wf. intros [Hs _]%andb_true_iff. by apply (struct_fields_all fields_wf). Qed.

Lemma heap_wf_variant h id t vcls fs :
  heap_wf h = true -> tag_lookup t (enum_variants h id) = Some (vcls, fs) ->
  attr_lookup vcls (h_vtag h) = Some t /\ fields_wf fs = true.
Proof.
  unfold heap_wf. intros [_ He]%andb_true_iff Hl.
  pose proof (enum_variants_all _ _ _ _ _ He Hl) as [Ht%bool_decide_eq_true Hf]%andb_true_iff.
  done.
Qed.

(** ** The byte floor

    [min_wire_size] bounds the length of every encoding from below, whatever
    the [_stack] it is called with: the tight bound [_read_seq_len] applies
    never rejects an encoding. *)

Lemma Zmin_list_le z zs x : x = z \/ x ∈ zs -> Zmin_list z zs <= x.
Proof.
  induction zs as [|y zs IH]; intros [->|Hx]; simpl; [lia|set_solver| |].
  - specialize (IH (or_introl eq_refl)). lia.
  - apply elem_of_cons in Hx as [->|Hx]; [lia|]. specialize (IH (or_intror Hx)). lia.
Qed.

Lemma mws_lower_bound h :
  (forall d nd v bs, borsh h d nd v bs -> forall fuel st m, mws fuel h st nd = Ok m -> m <= len bs) /\
  (forall d nd vs bs, borsh_seq h d nd vs bs ->
     forall fuel st m, mws fuel h st nd = Ok m -> Z.of_nat (length vs) * m <= len bs) /\
  (forall d fs vs bs, borsh_fields h d fs vs bs ->
     forall fuel st m, mws_fields (mws fuel h) st fs = Ok m -> m <= len bs).
Proof.
  unfold len. apply borsh_mutind.
  1-17: intros; destruct fuel as [|fuel]; [discriminate|].
  all: repeat match goal with H : to_bytes _ _ _ = Some _ |- _ => apply to_bytes_length in H end.
  1-17: unfold len in *; simpl in *; rewrite ?length_app; inv_ok; try lia.
  - case_decide; inv_ok; [lia|]. match goal with E : mws _ _ _ _ = Ok _ |- _ => apply H in E end. lia.
  - case_decide; inv_ok; [lia|]. eauto.
  - case_decide; inv_ok; [lia|].
    match goal with H : tag_lookup _ _ = _ |- _ => apply tag_lookup_elem in H; rename H into Hin end.
    destruct (enum_variants h id) as [|[t' [c' fs']] vars]; [set_solver|]. inv_ok.
    assert (Hx : exists x, mws_fields (mws fuel h) (st ++ [KObj id]) fs = Ok x /\
                           (x = a \/ x ∈ a0)).
    { apply elem_of_cons in Hin as [Hin|Hin]; [simplify_eq; eauto|].
      match goal with H : mapM_res _ _ = _ |- _ => apply mapM_res_Ok in H; rename H into Hall end.
      apply list_elem_of_lookup in Hin as [i Hi].
      destruct (Forall2_lookup_l _ _ _ _ _ Hall Hi) as (x & Hx & Hok).
      exists x. split; [done|]. right. by eapply list_elem_of_lookup_2. }
    destruct Hx as (x & Hx & Hmin). apply Zmin_list_le in Hmin.
    match goal with H : forall _ _ _, _ |- _ => apply H in Hx end. lia.
  - intros. simpl. lia.
  - intros d nd v vs b1 b2 _ IH1 _ IH2 fuel st m Hm. simpl. rewrite length_app.
    pose proof (IH1 _ _ _ Hm). pose proof (IH2 _ _ _ Hm). lia.
  - intros d fuel st m Hm. simpl in *. unfold mws_fields in Hm. simpl in Hm. simplify_eq. done.
  - intros d name nd fs v vs b1 b2 _ IH1 _ IH2 fuel st m Hm. unfold mws_fields in Hm. simpl in Hm.
    inv_ok. rewrite length_app. simpl.
    match goal with H : mws _ _ _ nd = Ok _ |- _ => apply IH1 in H end.
    assert (Hz : mws_fields (mws fuel h) st fs = Ok (Zsum a1)).
    { unfold mws_fields. match goal with H : mapM_res _ _ = _ |- _ => by rewrite H end. }
    apply IH2 in Hz. lia.
Qed.

Lemma borsh_min_wire_size h d nd v bs m :
  borsh h d nd v bs -> min_wire_size h nd = Ok m -> m <= len bs.
Proof. intros Hb. by apply (proj1 (mws_lower_bound h) _ _ _ _ Hb). Qed.

Lemma borsh_seq_min_wire_size h d nd vs bs m :
  borsh_seq h d nd vs bs -> min_wire_size h nd = Ok m -> Z.of_nat (length vs) * m <= len bs.
Proof. intros Hb. by apply (proj1 (proj2 (mws_lower_bound h)) _ _ _ _ Hb). Qed.

(** ** [write] produces the encoding *)

Lemma borsh_fields_length h d fs vs bs : borsh_fields h d fs vs bs -> length vs = length fs.
Proof. induction 1; simpl; congruence. Qed.

(** The attributes of a dataclass instance are the constructor's arguments. *)
Lemma make_obj_getattr cls fs vs :
  NoDup fs.*1 -> length vs = length fs ->
  Forall2 (fun f x => py_getattr (make_obj cls fs vs) f.1 = Ok x) fs vs.
Proof.
  intros Hnd Hl. apply Forall2_same_length_lookup_2; [done|]. intros i [name nd] x Hf Hx. simpl.
  assert (Hz : attr_lookup name (zip fs.*1 vs) = Some x).
  { clear cls. revert fs vs Hnd Hl Hf Hx. induction i as [|i IH]; intros [|[n' nd'] fs] [|x' vs];
      simpl; intros Hnd Hl Hf Hx; simplify_eq.
    - by rewrite decide_True.
    - inversion Hnd as [|? ? Hn Hnd']; subst. rewrite decide_False; [by eapply IH|].
      intros ->. apply Hn. apply list_elem_of_fmap. exists (name, nd). split; [done|].
      by eapply list_elem_of_lookup_2. }
  by rewrite Hz.
Qed.

Lemma pack_unpack_float nb bs :
  length bs = nb -> (nb =? 4)%nat || (nb =? 8)%nat = true ->
  is_nan64 (unpack_float nb bs) = false -> pack_float nb (unpack_float nb bs) = Ok bs.
Proof.
  intros Hl Hnb Hnan. unfold pack_float, unpack_float in *.
  pose proof (le_value_range bs) as Hr. rewrite Hl in Hr.
  destruct (Nat.eqb nb 4) eqn:E4.
  - apply Nat.eqb_eq in E4. subst nb. rewrite E4 in *.
    destruct (widen_range _ Hr) as [_ Hw]. rewrite Hw in Hnan.
    rewrite narrow_widen by done. by rewrite <-E4, le_bytes_le_value.
  - simpl in Hnb. apply Nat.eqb_eq in Hnb. subst nb. by rewrite <-Hnb, le_bytes_le_value.
Qed.

Lemma fields_wf_inv fs :
  fields_wf fs = true -> NoDup fs.*1 /\ forall f, f ∈ fs -> node_wf f.2 = true.
Proof.
  unfold fields_wf. intros [Hn%bool_decide_eq_true Hf]%andb_true_iff. split; [done|].
  intros f. by apply (forallb_elem (fun f => node_wf f.2)).
Qed.

Lemma write_len_Ok n lb out :
  to_bytes 4 false (Z.of_nat n) = Some lb -> write_len n out = Ok (out ++ lb).
Proof. unfold write_len. by intros ->. Qed.

Section write_complete.
Context `{Native} (h : heap) (Hwf : heap_wf h = true).

Lemma write_complete_mut :
  (forall d nd v bs, borsh h d nd v bs -> node_wf nd = true ->
     forall fuel out p, (d < fuel)%nat -> write fuel h nd v out p = Ok (out ++ bs)) /\
  (forall d nd vs bs, borsh_seq h d nd vs bs -> node_wf nd = true ->
     forall fuel out p i, (d < fuel)%nat ->
       write_elems (write fuel h nd) p i vs out = Ok (out ++ bs)) /\
  (forall d fs vs bs, borsh_fields h d fs vs bs -> (forall f, f ∈ fs -> node_wf f.2 = true) ->
     forall fuel out p v, (d < fuel)%nat ->
       Forall2 (fun f x => py_getattr v f.1 = Ok x) fs vs ->
       write_fields (write fuel h) p fs v out = Ok (out ++ bs)).
Proof using Hwf.
  apply borsh_mutind.
  1-17: intros; destruct fuel as [|fuel]; [lia|]; simpl.
  - unfold IntNode_write. simpl. by rewrite e.
  - unfold FloatNode_write. simpl. rewrite e0. simpl in *. by rewrite pack_unpack_float.
  - done.
  - done.
  - unfold StrNode_write. rewrite e. rewrite (write_len_Ok _ _ _ e0). simpl. by rewrite app_assoc.
  - unfold BytesNode_write. simpl. rewrite (write_len_Ok _ _ _ e). simpl. by rewrite app_assoc.
  - unfold FixedBytesNode_write. simpl. unfold len in e. by rewrite e, Z.eqb_refl.
  - done.
  - done.
  - simpl in *. zify_bools. unfold OptionNode_write.
    transitivity (write fuel h nd v (out ++ [x01]) p); [by destruct v|].
    rewrite H0 by (done || lia). by rewrite <-app_assoc.
  - done.
  - simpl in *. rewrite H0 by (done || lia). by rewrite <-app_assoc.
  - unfold VecNode_write. simpl. rewrite (write_len_Ok _ _ _ e). simpl.
    rewrite H0 by (done || lia). by rewrite app_assoc.
  - unfold FixedArrayNode_write. simpl in *. zify_bools.
    rewrite e, Z.eqb_refl. simpl. apply H0; (done || lia).
  - destruct (fields_wf_inv _ (heap_wf_struct h id Hwf)) as [Hn Hf].
    apply H0; [done|lia|]. apply make_obj_getattr; [done|]. by eapply borsh_fields_length.
  - unfold IntEnumNode_write. simpl. by rewrite e0.
  - destruct (heap_wf_variant _ _ _ _ _ Hwf e) as [Ht [Hn Hf]%fields_wf_inv].
    unfold BorshEnumNode_write. simpl. rewrite Ht. simpl. rewrite e. simpl.
    rewrite decide_True by done. rewrite e0. rewrite app_assoc.
    apply H0; [done|lia|]. apply make_obj_getattr; [done|]. by eapply borsh_fields_length.
  - intros. simpl. by rewrite app_nil_r.
  - intros d nd v vs b1 b2 _ IH1 _ IH2 Hn fuel out p i Hf. simpl. rewrite IH1 by done. simpl.
    rewrite IH2 by done. by rewrite app_assoc.
  - intros. simpl. by rewrite app_nil_r.
  - intros d name nd fs v vs b1 b2 _ IH1 _ IH2 Hn fuel out p obj Hf Hall. simpl.
    inversion Hall as [|? ? ? ? Hg Hall']; subst. simpl in Hg. rewrite Hg. simpl.
    rewrite IH1; [|apply (Hn (name, nd)); by left|done]. simpl.
    rewrite IH2; [by rewrite app_assoc| |done|done]. intros. apply Hn. by right.
Qed.

Lemma write_complete d nd v bs out p :
  borsh h d nd v bs -> node_wf nd = true -> node_write h nd v out p = Ok (out ++ bs).
Proof using Hwf.
  intros Hb Hn. eapply (node_write_Ok (S d)).
  by apply (proj1 write_complete_mut _ _ _ _ Hb); [|lia].
Qed.
End write_complete.

(** ** [read] accepts the encoding *)

Lemma descend_at {A} p (body : Cursor -> res (A * Cursor)) d cur bs a n :
  at_bytes cur bs -> (S d + depth cur <= MAX_DECODE_DEPTH)%nat ->
  (forall cur', at_bytes cur' bs -> (d + depth cur' <= MAX_DECODE_DEPTH)%nat ->
     body cur' = Ok (a, advance cur' n)) ->
  descend p body cur = Ok (a, advance cur n).
Proof.
  intros Hat Hd Hb. unfold descend. cbv zeta.
  destruct (MAX_DECODE_DEPTH <? _)%nat eqn:E; [apply Nat.ltb_lt in E; simpl in E; lia|].
  rewrite Hb; [|done|simpl; lia]. simpl. unfold advance. simpl. by rewrite Nat.sub_0_r.
Qed.

Lemma take1_at p cur b rest :
  at_bytes cur (b :: rest) -> take1 p cur = Ok (Z_of_byte b, advance cur 1).
Proof.
  intros Hat. unfold take1. rewrite (cur_take_at 1 p cur [b] rest) by done. simpl.
  by rewrite Z.mul_0_r, Z.add_0_r.
Qed.

Lemma seq_len_at n min_elem lb p cur rest :
  to_bytes 4 false n = Some lb -> at_bytes cur (lb ++ rest) -> n <= len rest ->
  (0 < min_elem -> n * min_elem <= len rest) ->
  _read_seq_len min_elem p cur = Ok (n, advance cur 4).
Proof.
  intros Hlb Hat Hn Hm. pose proof (to_bytes_length _ _ _ _ Hlb) as Hl.
  unfold _read_seq_len. rewrite (cur_take_at 4 p cur lb rest) by (done || lia). simpl.
  rewrite (from_to_bytes _ _ _ _ Hlb) by done. rewrite Hl.
  pose proof (at_bytes_advance _ _ _ Hat) as Hat'. rewrite Hl in Hat'.
  rewrite (at_bytes_remaining _ _ Hat'). fold (len rest).
  rewrite (proj2 (Z.ltb_ge _ _)) by done. destruct (0 <? min_elem) eqn:E; simpl; [|done].
  zify_bools. rewrite (proj2 (Z.ltb_ge _ _)); [done|]. apply Z.div_le_lower_bound; lia.
Qed.

Lemma to_bytes_1 t tb : to_bytes 1 false t = Some tb -> exists b, tb = [b] /\ Z_of_byte b = t.
Proof.
  intros Ht. pose proof (from_to_bytes _ _ _ _ Ht ltac:(done)) as Hf.
  apply to_bytes_length in Ht. destruct tb as [|b [|]]; try discriminate. exists b.
  split; [done|]. rewrite <-Hf. unfold from_bytes. simpl. lia.
Qed.

Lemma vec_floor_struct h id f :
  heap_floor h = true -> f ∈ struct_fields h id -> vec_floor h f.2 = true.
Proof.
  unfold heap_floor. intros [Hs _]%andb_true_iff.
  apply (forallb_elem (fun f : string * node => vec_floor h f.2)).
  by apply (struct_fields_all (forallb (fun f => vec_floor h f.2))).
Qed.

Lemma vec_floor_variant h id t vcls fs f :
  heap_floor h = true -> tag_lookup t (enum_variants h id) = Some (vcls, fs) -> f ∈ fs ->
  vec_floor h f.2 = true.
Proof.
  unfold heap_floor. intros [_ He]%andb_true_iff Hl.
  apply (forallb_elem (fun f : string * node => vec_floor h f.2)).
  apply (enum_variants_all (fun v => forallb (fun f => vec_floor h f.2) v.2.2) h id t _ He Hl).
Qed.

(** A length prefix and its payload, read back: the shared part of strings,
    byte strings and vectors. *)
Lemma prefixed_at lb bs p cur rest :
  to_bytes 4 false (len bs) = Some lb -> at_bytes cur ((lb ++ bs) ++ rest) ->
  _read_seq_len 1 p cur = Ok (len bs, advance cur 4) /\
  cur_take (len bs) p (advance cur 4) = Ok (bs, advance cur (length (lb ++ bs))).
Proof.
  intros e H3. pose proof (to_bytes_length _ _ _ _ e) as Hl. rewrite <-app_assoc in H3. split.
  - apply (seq_len_at _ _ _ _ _ _ e H3); unfold len; rewrite length_app; lia.
  - apply at_bytes_advance in H3. rewrite Hl in H3.
    rewrite (cur_take_at _ p _ bs rest) by done. by rewrite advance_advance, length_app, Hl.
Qed.

Lemma IntNode_read_at n sgn z bs p cur rest :
  n <> O -> to_bytes n sgn z = Some bs -> at_bytes cur (bs ++ rest) ->
  IntNode_read n sgn p cur = Ok (VInt z, advance cur (length bs)).
Proof.
  intros Hn e Hat. pose proof (to_bytes_length _ _ _ _ e) as Hl.
  unfold IntNode_read. rewrite (cur_take_at _ p cur bs rest) by (done || lia). simpl.
  by rewrite (from_to_bytes _ _ _ _ e).
Qed.

Section read_complete.
Context (h : heap) (Hwf : heap_wf h = true) (Hfl : heap_floor h = true).

Definition fields_ok (fs : fields) : Prop :=
  forall f, f ∈ fs -> node_wf f.2 = true /\ vec_floor h f.2 = true.

Lemma read_complete_mut :
  (forall d nd v bs, borsh h d nd v bs -> node_wf nd = true -> vec_floor h nd = true ->
     forall fuel p cur rest, (d < fuel)%nat -> (d + depth cur <= MAX_DECODE_DEPTH)%nat ->
     at_bytes cur (bs ++ rest) -> read fuel h nd p cur = Ok (v, advance cur (length bs))) /\
  (forall d nd vs bs, borsh_seq h d nd vs bs -> node_wf nd = true -> vec_floor h nd = true ->
     forall fuel p i cur rest, (d < fuel)%nat -> (d + depth cur <= MAX_DECODE_DEPTH)%nat ->
     at_bytes cur (bs ++ rest) ->
     read_elems (read fuel h nd) p i (length vs) cur = Ok (vs, advance cur (length bs))) /\
  (forall d fs vs bs, borsh_fields h d fs vs bs -> fields_ok fs ->
     forall fuel crumb p cur rest, (d < fuel)%nat -> (d + depth cur <= MAX_DECODE_DEPTH)%nat ->
     at_bytes cur (bs ++ rest) ->
     read_fields (read fuel h) crumb p fs cur = Ok (vs, advance cur (length bs))).
Proof using Hwf Hfl.
  apply borsh_mutind.
  1-17: intros; destruct fuel as [|fuel]; [lia|]; simpl.
  9-17: match goal with Ha : at_bytes _ _, Hd : (_ <= _)%nat |- _ =>
          apply (descend_at _ _ d _ _ _ _ Ha Hd); clear cur Ha Hd; intros cur Hat Hd end.
  - simpl in *. zify_bools. apply Nat.eqb_neq in H. by apply (IntNode_read_at _ _ _ _ _ _ rest).
  - unfold FloatNode_read. rewrite (cur_take_at _ p cur bs rest) by (done || lia). simpl.
    by rewrite e0.
  - unfold BoolNode_read. by rewrite (take1_at _ _ _ _ H3).
  - unfold BoolNode_read. by rewrite (take1_at _ _ _ _ H3).
  - destruct (prefixed_at _ _ p _ _ e0 H3) as [H4 H5]. unfold StrNode_read. rewrite H4. simpl.
    rewrite H5. simpl. by rewrite (utf8_decode_encode _ _ e).
  - destruct (prefixed_at _ _ p _ _ e H3) as [H4 H5]. unfold BytesNode_read. rewrite H4. simpl. by rewrite H5.
  - unfold FixedBytesNode_read. by rewrite (cur_take_at _ p cur bs rest).
  - unfold PubkeyNode_read. rewrite (cur_take_at _ p cur k rest) by (done || lia). done.
  - by rewrite (take1_at _ _ _ _ Hat).
  - simpl in *. zify_bools. rewrite (take1_at _ _ _ _ Hat). simpl.
    apply (at_bytes_advance _ [x01]) in Hat.
    rewrite (H ltac:(done) ltac:(done) fuel p _ rest); [|lia|simpl; lia|done]. simpl.
    by rewrite advance_advance.
  - by rewrite (take1_at _ _ _ _ Hat).
  - simpl in *. rewrite (take1_at _ _ _ _ Hat). simpl.
    apply (at_bytes_advance _ [x01]) in Hat.
    rewrite (H ltac:(done) ltac:(done) fuel p _ rest); [|lia|simpl; lia|done]. simpl.
    by rewrite advance_advance.
  - simpl in *. destruct (min_wire_size h nd) as [m|] eqn:Em; [|discriminate]. simpl in *.
    zify_bools. rewrite <-app_assoc in Hat. pose proof (to_bytes_length _ _ _ _ e) as Hl.
    pose proof (borsh_seq_min_wire_size _ _ _ _ _ _ b Em) as Hmin.
    rewrite (seq_len_at _ _ _ _ _ _ e Hat); unfold len in *; rewrite ?length_app; [|nia|lia].
    simpl. apply at_bytes_advance in Hat. rewrite Hl in *. rewrite Nat2Z.id.
    rewrite (H ltac:(done) ltac:(done) fuel p 0%nat _ rest); [|lia|simpl; lia|done]. simpl.
    by rewrite advance_advance.
  - simpl in *. zify_bools. rewrite <-e, Nat2Z.id.
    by rewrite (H ltac:(done) ltac:(done) fuel p 0%nat _ rest); [|lia|simpl; lia|done].
  - destruct (fields_wf_inv _ (heap_wf_struct h id Hwf)) as [Hn Hf].
    rewrite (H (fun f Hin => conj (Hf f Hin) (vec_floor_struct _ _ _ Hfl Hin))
               fuel _ p _ rest); [done|lia|simpl; lia|done].
  - destruct (to_bytes_1 _ _ e0) as (b & -> & Hb). rewrite (take1_at _ _ _ _ Hat). simpl.
    by rewrite Hb, decide_True.
  - destruct (to_bytes_1 _ _ e0) as (b' & -> & Hb). rewrite (take1_at _ _ _ _ Hat). simpl.
    destruct (heap_wf_variant _ _ _ _ _ Hwf e) as [_ [Hn Hf]%fields_wf_inv].
    apply (at_bytes_advance _ [b']) in Hat. rewrite Hb, e.
    rewrite (H (fun f Hin => conj (Hf f Hin) (vec_floor_variant _ _ _ _ _ _ Hfl e Hin))
               fuel _ p _ rest); [|lia|simpl; lia|done]. simpl. by rewrite advance_advance.
  - intros. simpl. by rewrite advance_0.
  - intros d nd v vs b1 b2 _ IH1 _ IH2 Hn Hv fuel p i cur rest Hf Hd Hat. simpl.
    rewrite <-app_assoc in Hat. rewrite (IH1 Hn Hv _ _ _ _ Hf Hd Hat). simpl.
    rewrite (IH2 Hn Hv _ _ _ _ rest Hf) by (by apply at_bytes_advance || done). simpl.
    by rewrite advance_advance, length_app.
  - intros. simpl. by rewrite advance_0.
  - intros d name nd fs v vs b1 b2 _ IH1 _ IH2 Hok fuel crumb p cur rest Hf Hd Hat. simpl.
    destruct (Hok (name, nd)) as [Hn Hv]; [by left|]. simpl in *.
    rewrite <-app_assoc in Hat. rewrite (IH1 Hn Hv _ _ _ _ Hf Hd Hat). simpl.
    rewrite (IH2 (fun f Hin => Hok f (proj2 (elem_of_cons _ _ _) (or_intror Hin)))
               _ _ _ _ rest Hf); [|done|by apply at_bytes_advance]. simpl.
    by rewrite advance_advance, length_app.
Qed.
End read_complete.

(** ** What [read] accepts is an encoding *)

(** If [m], started at [cur], succeeds, it consumed bytes [bs] with [P v bs]. *)
Definition reads {A} (P : A -> bytes -> Prop) (cur : Cursor) (m : res (A * Cursor)) : Prop :=
  forall a cur', m = Ok (a, cur') -> exists bs, span cur cur' bs /\ P a bs.

Lemma reads_bind {A B} P Q cur (m : res (A * Cursor)) (k : A -> Cursor -> res (B * Cursor)) :
  reads P cur m ->
  (forall a b1 c, P a b1 -> depth c = depth cur -> reads (fun r b2 => Q r (b1 ++ b2)) c (k a c)) ->
  reads Q cur ('(a, c) ← m; k a c).
Proof.
  intros Hm Hk b cur' H. inv_ok. destruct a as [a c].
  destruct (Hm _ _ E) as (b1 & Hs & HP).
  destruct (Hk a b1 c HP ltac:(apply Hs) _ _ H) as (b2 & Hs' & HQ).
  eauto with wake.
Qed.

Lemma reads_ret {A} (Q : A -> bytes -> Prop) cur a : Q a [] -> reads Q cur (Ok (a, cur)).
Proof. intros HQ a' cur' [= <- <-]. eauto with wake. Qed.

Lemma reads_raise {A} (Q : A -> bytes -> Prop) cur e : reads Q cur (Raise e).
Proof. discriminate. Qed.

Lemma reads_weaken {A} (P Q : A -> bytes -> Prop) cur m :
  (forall a bs, P a bs -> Q a bs) -> reads P cur m -> reads Q cur m.
Proof. intros HPQ Hm a cur' H. destruct (Hm a cur' H) as (bs & ? & ?). eauto. Qed.

Lemma reads_take n p cur :
  reads (fun bs b => b = bs /\ 0 <= n /\ len bs = n) cur (cur_take n p cur).
Proof.
  intros bs cur' H%cur_take_Ok. destruct H as (Hs & Hn & Hl). exists bs.
  unfold len. repeat split; try apply Hs; lia.
Qed.

Lemma reads_take1 p cur :
  reads (fun t b => to_bytes 1 false t = Some b /\ b = [byte_of_Z t]) cur (take1 p cur).
Proof.
  eapply reads_bind; [apply reads_take|].
  intros bs b1 c (-> & _ & Hl) _. apply reads_ret. rewrite app_nil_r.
  unfold len in Hl. destruct bs as [|b [|]]; simpl in Hl; try lia.
  pose proof (to_from_bytes false [b] ltac:(done)) as Hb. unfold from_bytes in Hb. simpl in Hb.
  split; [apply Hb|]. simpl. by rewrite Z.mul_0_r, Z.add_0_r, byte_of_Z_of_byte.
Qed.

Lemma reads_seq_len m p cur :
  reads (fun n b => to_bytes 4 false n = Some b) cur (_read_seq_len m p cur).
Proof.
  eapply reads_bind; [apply reads_take|]. intros bs b1 c (-> & _ & Hl) _.
  repeat case_match; try apply reads_raise. apply reads_ret. rewrite app_nil_r.
  replace 4%nat with (length bs) by (unfold len in Hl; lia).
  apply to_from_bytes. by destruct bs.
Qed.

(** The body of a composite reader runs at [MAX_DECODE_DEPTH - S d]. *)
Lemma reads_descend {A} (Q : nat -> A -> bytes -> Prop) p (body : Cursor -> res (A * Cursor)) cur :
  (forall d c, (d + depth c = MAX_DECODE_DEPTH)%nat -> reads (Q (S d)) c (body c)) ->
  reads (Q (MAX_DECODE_DEPTH - depth cur)%nat) cur (descend p body cur).
Proof.
  intros Hb a cur' H. unfold descend in H. cbv zeta in H.
  destruct (MAX_DECODE_DEPTH <? _)%nat eqn:E; [discriminate|].
  apply Nat.ltb_ge in E. simpl in E. apply bind_Ok_inv in H as [[a0 c] [Hr H]].
  injection H as <- <-.
  assert (Hd : (MAX_DECODE_DEPTH - S (depth cur) +
                depth (mkCursor (buf cur) (pos cur) (S (depth cur))) = MAX_DECODE_DEPTH)%nat)
    by (simpl depth; lia).
  destruct (Hb _ _ Hd _ _ Hr) as (bs & Hs & HQ).
  exists bs. split.
  - destruct Hs as (H1 & H2 & H3 & H4). simpl in *. repeat split; simpl; try done. lia.
  - by replace (MAX_DECODE_DEPTH - depth cur)%nat with (S (MAX_DECODE_DEPTH - S (depth cur))) by lia.
Qed.

Lemma reads_elems d (rd : reader) P p i n cur :
  (forall p c, depth c = d -> reads P c (rd p c)) -> depth cur = d ->
  reads (fun vs bs => length vs = n /\
           exists bss, bs = concat bss /\ Forall2 P vs bss) cur (read_elems rd p i n cur).
Proof.
  intros Hrd. revert i cur; induction n as [|n IH]; intros i cur Hd; simpl.
  - apply reads_ret. split; [done|]. exists []. split; constructor.
  - eapply reads_bind; [by apply Hrd|]. intros v b1 c Hv Hc.
    eapply reads_bind; [apply IH; congruence|].
    intros vs b2 c' (Hl & bss & -> & Hall) _. apply reads_ret. simpl. split; [lia|].
    exists (b1 :: bss). rewrite app_nil_r. split; [done|by constructor].
Qed.

Lemma borsh_seq_concat h d nd vs bss :
  Forall2 (borsh h d nd) vs bss -> borsh_seq h d nd vs (concat bss).
Proof. induction 1; simpl; auto with wake. Qed.

Lemma reads_fields h d (rd : node -> reader) crumb p fs cur :
  (forall nd p c, node_wf nd = true -> depth c = depth cur -> reads (borsh h d nd) c (rd nd p c)) ->
  (forall f, f ∈ fs -> node_wf f.2 = true) ->
  reads (borsh_fields h d fs) cur (read_fields rd crumb p fs cur).
Proof.
  revert cur; induction fs as [|[name nd] fs IH]; intros cur Hrd Hfs; simpl.
  - apply reads_ret. constructor.
  - eapply reads_bind; [apply Hrd; [apply (Hfs (name, nd)); by left|done]|].
    intros v b1 c Hv Hc. eapply reads_bind.
    { apply IH; [rewrite Hc; apply Hrd|]. intros. apply Hfs. by right. }
    intros vs b2 c' Hvs _. apply reads_ret. rewrite app_nil_r. by constructor.
Qed.

Lemma borsh_not_None h d nd v bs : borsh h d nd v bs -> nullable nd = false -> v <> VNone.
Proof. by destruct 1. Qed.

(** Leaf nodes do not recurse: one lemma each, as [rd] is not used. *)
Lemma read_leaf_sound h rd nd d p cur :
  is_composite nd = false -> node_wf nd = true -> reads (borsh h d nd) cur (read_step h rd nd p cur).
Proof.
  destruct nd; try discriminate; intros _ Hn; simpl in Hn |- *.
  - eapply reads_bind; [apply reads_take|]. intros bs b1 c (-> & _ & Hl) _. apply reads_ret.
    rewrite app_nil_r. constructor. zify_bools. apply Nat.eqb_neq in Hn.
    replace nbytes with (length bs) by (unfold len in Hl; lia).
    apply to_from_bytes. destruct bs; unfold len in Hl; simpl in *; [lia|done].
  - eapply reads_bind; [apply reads_take|]. intros bs b1 c (-> & _ & Hl) _.
    case_match; [apply reads_raise|]. apply reads_ret. rewrite app_nil_r.
    constructor; [unfold len in Hl; lia|done].
  - eapply reads_bind; [apply reads_take1|]. intros t b1 c (_ & ->) _.
    destruct (t =? 0) eqn:E0; zify_bools; simpl; [subst; apply reads_ret; constructor|].
    destruct (t =? 1) eqn:E1; zify_bools; simpl; [|apply reads_raise].
    subst. apply reads_ret. constructor.
  - eapply reads_bind; [apply reads_seq_len|]. intros n b1 c Hb _.
    eapply reads_bind; [apply reads_take|]. intros bs b2 c' (-> & _ & Hl) _.
    case_match eqn:E; [|apply reads_raise]. apply reads_ret. rewrite app_nil_r.
    apply B_str; [by apply utf8_encode_decode|by rewrite Hl].
  - eapply reads_bind; [apply reads_seq_len|]. intros n b1 c Hb _.
    eapply reads_bind; [apply reads_take|]. intros bs b2 c' (-> & _ & Hl) _.
    apply reads_ret. rewrite app_nil_r. apply B_bytes. by rewrite Hl.
  - eapply reads_bind; [apply reads_take|]. intros bs b1 c (-> & _ & Hl) _. apply reads_ret.
    rewrite app_nil_r. by constructor.
  - eapply reads_bind; [apply reads_take|]. intros bs b1 c (-> & _ & Hl) _. apply reads_ret.
    rewrite app_nil_r. constructor. unfold len in Hl. lia.
Qed.

(** The tag dispatch of the two option nodes. *)
Lemma option_read_sound (Q P : pyval -> bytes -> Prop) wrap (rd : reader) p cur :
  Q VNone [x00] -> (forall v bs, P v bs -> Q (wrap v) (x01 :: bs)) ->
  (forall c, depth c = depth cur -> reads P c (rd p c)) ->
  reads Q cur ('(tag, cur) ← take1 p cur;
    if tag =? 0 then Ok (VNone, cur)
    else if tag =? 1 then '(v, cur) ← rd p cur; Ok (wrap v, cur)
    else Raise (BorshError (BadOptionTag tag) (Z.of_nat (pos cur) - 1) p)).
Proof.
  intros H0 H1 Hrd. eapply reads_bind; [apply reads_take1|]. intros t b1 c (_ & ->) Hc.
  destruct (t =? 0) eqn:E0; zify_bools; [subst; by apply reads_ret|].
  destruct (t =? 1) eqn:E1; zify_bools; [|apply reads_raise]. subst.
  eapply reads_bind; [by apply Hrd|]. intros v b2 c2 Hv _. apply reads_ret.
  rewrite app_nil_r. by apply H1.
Qed.

Lemma read_sound fuel h nd d p cur :
  heap_wf h = true -> node_wf nd = true -> (d + depth cur = MAX_DECODE_DEPTH)%nat ->
  reads (borsh h d nd) cur (read fuel h nd p cur).
Proof.
  intros Hh. revert nd d p cur; induction fuel as [|fuel IH]; intros nd d p cur Hn Hd; [discriminate|].
  simpl. destruct (is_composite nd) eqn:Hc; [|by apply read_leaf_sound].
  replace d with (MAX_DECODE_DEPTH - depth cur)%nat by lia. clear d Hd.
  destruct nd; try discriminate; simpl in Hn |- *;
    apply (reads_descend (fun d v bs => borsh h d _ v bs)); intros d c Hd; zify_bools.
  - apply (option_read_sound _ (borsh h d nd)); [constructor| |].
    + intros v bs Hv. apply B_some; [by eapply borsh_not_None|done].
    + intros c' Hc'. apply IH; [done|lia].
  - apply (option_read_sound _ (borsh h d nd)); [constructor|by constructor|].
    intros c' Hc'. apply IH; [done|lia].
  - destruct (min_wire_size h nd) as [m|]; [|apply reads_raise]. simpl.
    eapply reads_bind; [apply reads_seq_len|]. intros n b1 c' Hb Hc'.
    eapply reads_bind.
    { apply (reads_elems (depth c') _ (borsh h d nd)); [|done]. intros. apply IH; [done|lia]. }
    intros vs b2 c2 (Hl & bss & -> & Hall) _. apply reads_ret. rewrite app_nil_r.
    apply B_vec; [|by apply borsh_seq_concat]. rewrite Hl, Z2Nat.id; [done|].
    rewrite <-(from_to_bytes _ _ _ _ Hb) by done. unfold from_bytes. simpl. apply le_value_range.
  - eapply reads_bind.
    { apply (reads_elems (depth c) _ (borsh h d nd)); [|done]. intros. apply IH; [done|lia]. }
    intros vs b2 c2 (Hl & bss & -> & Hall) _. apply reads_ret. rewrite app_nil_r.
    apply B_array; [lia|by apply borsh_seq_concat].
  - destruct (fields_wf_inv _ (heap_wf_struct h id Hh)) as [_ Hf].
    eapply reads_bind; [apply (reads_fields h d); [|done]; intros; apply IH; [done|lia]|].
    intros vs b1 c' Hvs _. apply reads_ret. rewrite app_nil_r. by constructor.
  - eapply reads_bind; [apply reads_take1|]. intros t b1 c' (Ht & _) _.
    case_decide; [|apply reads_raise]. apply reads_ret. rewrite app_nil_r. by constructor.
  - eapply reads_bind; [apply reads_take1|]. intros t b1 c' (Ht & _) Hc'.
    destruct (tag_lookup t _) as [[vcls fs]|] eqn:El; [|apply reads_raise].
    destruct (heap_wf_variant _ _ _ _ _ Hh El) as [_ [_ Hf]%fields_wf_inv].
    eapply reads_bind; [apply (reads_fields h d); [|done]; intros; apply IH; [done|lia]|].
    intros vs b2 c2 Hvs _. apply reads_ret. rewrite app_nil_r. by eapply B_enum.
Qed.
