(* ===== verification/BorshProps.v ===== *)
(** * The codec implements Borsh

    The main theorems of the codec: [decode] computes exactly the Borsh
    grammar, [encode] inverts it, trailing bytes are treated as the mode says,
    and hostile input only ever raises [BorshError]. *)

From stdpp Require Import base decidable option list gmap strings sorting numbers.
From Stdlib Require Import ZArith Lia.
From Stdlib Require Import Strings.Byte.
From S2P Require Import Prelude.
From S2P Require Import Bytes.
From S2P Require Import Utf8.
From S2P Require Import Floats.
From S2P Require Import Values.
From S2P Require Import Aliases.
From S2P Require Import Codec.
From S2P Require Import Ir.
From S2P Require Import IrTermination.
From S2P Require Import Borsh.

(** A sample of types for the witnesses: a recursive struct with an optional
    successor, a C-like enum, a sum type and a vector. *)
Definition sample_heap : heap := {|
  h_struct := [(0%nat, [("id", IntNode u64 8 false); ("tags", VecNode StrNode);
                         ("color", IntEnumNode "Color"); ("shape", BorshEnumNode 1 "Shape");
                         ("next", OptionNode (StructNode 0 "Node"))])]%string;
  h_intenum := [("Color", [0; 1; 2])]%string;
  h_enum := [(1%nat, [(0, ("Dot", [])); (1, ("Circle", [("r", FloatNode f32 4)]))])]%string;
  h_vtag := [("Dot", 0); ("Circle", 1)]%string;
|}.

Definition sample_value : pyval :=
  (VObj "Node" [("id", VInt 7); ("tags", VList [VStr [104; 105]]); ("color", VIntEnum "Color" 2);
     ("shape", VObj "Circle" [("r", VFloat 0x3FF8000000000000)]);
     ("next", VObj "Node" [("id", VInt 8); ("tags", VList []); ("color", VIntEnum "Color" 0);
        ("shape", VObj "Dot" []); ("next", VNone)])])%string.

Definition sample_bytes : bytes :=
  [x07; x00; x00; x00; x00; x00; x00; x00;   (* id = 7 *)
   x01; x00; x00; x00; x02; x00; x00; x00; x68; x69;   (* ["hi"] *)
   x02;   (* color *)
   x01; x00; x00; xc0; x3f;   (* Circle(1.5) *)
   x01;   (* Some *)
   x08; x00; x00; x00; x00; x00; x00; x00;
   x00; x00; x00; x00; x00; x00; x00].

Definition sample_node : node := StructNode 0 "Node".

(** The address operations are not used by the sample. *)
Definition no_native : Native :=
  {| address_from_str _ := None; address_to_str _ := ""%string;
     find_program_address _ _ := ([], 0) |}.

Section codec.
Context (h : heap) (Hwf : heap_wf h = true).

Lemma node_read_sound nd b v cur :
  node_wf nd = true -> node_read h nd [] (new_cursor b) = Ok (v, cur) ->
  exists bs, b = bs ++ drop (pos cur) b /\ pos cur = length bs /\
             borsh h MAX_DECODE_DEPTH nd v bs.
Proof using Hwf.
  intros Hn Hr.
  destruct (read_sound (S MAX_DECODE_DEPTH) h nd MAX_DECODE_DEPTH [] (new_cursor b) Hwf Hn
              ltac:(done) v cur Hr) as (bs & (Hb & _ & Hd & Hp) & HB).
  exists bs. simpl in *. rewrite Hb in Hd. rewrite drop_0 in Hd. done.
Qed.

Lemma node_read_complete (Hfl : heap_floor h = true) nd v bs rest p :
  node_wf nd = true -> vec_floor h nd = true -> borsh h MAX_DECODE_DEPTH nd v bs ->
  node_read h nd p (new_cursor (bs ++ rest)) =
    Ok (v, mkCursor (bs ++ rest) (length bs) 0).
Proof using Hwf.
  intros Hn Hv Hb.
  apply (proj1 (read_complete_mut h Hwf Hfl) _ _ _ _ Hb Hn Hv _ p (new_cursor (bs ++ rest)) rest);
    [lia|unfold MAX_DECODE_DEPTH; simpl; lia|]. split; [done|simpl; lia].
Qed.

Lemma decode_sound nd b mode v :
  node_wf nd = true -> decode h b nd mode = Ok v ->
  exists bs rest, b = bs ++ rest /\ borsh h MAX_DECODE_DEPTH nd v bs /\ (mode = IX_DATA -> rest = []).
Proof using Hwf.
  intros Hn Hd. unfold decode in Hd. apply bind_Ok_inv in Hd as [[v' cur] [Hr Hd]].
  destruct (node_read_sound nd b v' cur Hn Hr) as (bs & Hb & Hp & HB).
  exists bs, (drop (pos cur) b).
  assert (v' = v) as -> by (destruct mode; [case_match; [discriminate|]|]; by inv_ok).
  split; [done|]. split; [done|]. intros ->.
  destruct (pos cur =? length b)%nat eqn:E; [|discriminate].
  apply Nat.eqb_eq in E. rewrite E. apply drop_ge. lia.
Qed.

Lemma decode_borsh nd b v :
  node_wf nd = true -> decode h b nd IX_DATA = Ok v -> borsh h MAX_DECODE_DEPTH nd v b.
Proof using Hwf.
  intros Hn Hd. destruct (decode_sound nd b _ v Hn Hd) as (bs & rest & -> & Hb & Hr).
  by rewrite Hr, app_nil_r by done.
Qed.

Lemma decode_complete (Hfl : heap_floor h = true) nd v bs rest mode :
  node_wf nd = true -> vec_floor h nd = true -> borsh h MAX_DECODE_DEPTH nd v bs ->
  decode h (bs ++ rest) nd mode =
    match mode with
    | ACCOUNT_DATA => Ok v
    | IX_DATA =>
        match rest with
        | [] => Ok v
        | _ => Raise (BorshError (TrailingBytes (len bs) (len (bs ++ rest))) (len bs) [])
        end
    end.
Proof using Hwf.
  intros Hn Hv Hb. unfold decode. rewrite (node_read_complete Hfl nd v bs rest []) by done.
  simpl. destruct mode; [|done]. rewrite length_app. destruct rest as [|b rest].
  - by rewrite Nat.add_0_r, Nat.eqb_refl.
  - rewrite (proj2 (Nat.eqb_neq _ _)) by (simpl; lia). simpl. unfold len.
    by rewrite length_app.
Qed.

(** C1: [decode] of instruction data implements the Borsh grammar, no more
    and no less: on every buffer it returns [v] exactly when the whole buffer
    is the encoding of [v] (at most 64 composite types deep). *)
Theorem decode_refines_borsh (Hfl : heap_floor h = true) nd b v :
  node_wf nd = true -> vec_floor h nd = true ->
  decode h b nd IX_DATA = Ok v <-> borsh h MAX_DECODE_DEPTH nd v b.
Proof using Hwf.
  intros Hn Hv. split; [by apply decode_borsh|].
  intros Hb. pose proof (decode_complete Hfl nd v b [] IX_DATA Hn Hv Hb) as Hd.
  by rewrite app_nil_r in Hd.
Qed.

(** C2: byte-exact re-encoding.  Whatever [decode] returns on instruction
    data, [encode] turns back into the very same bytes: no two byte strings
    decode to the same value, no information is lost. *)
Theorem encode_decode_exact `{Native} nd b v :
  node_wf nd = true -> decode h b nd IX_DATA = Ok v -> encode h v nd = Ok b.
Proof using Hwf.
  intros Hn Hd. apply decode_borsh in Hd; [|done].
  by apply (write_complete h Hwf MAX_DECODE_DEPTH nd v b [] []).
Qed.

(** C3: round trip of a typed value: [encode] succeeds on every value of the
    type, and what it produces decodes to that value. *)
Theorem decode_encode_roundtrip `{Native} (Hfl : heap_floor h = true) nd v bs mode :
  node_wf nd = true -> vec_floor h nd = true -> borsh h MAX_DECODE_DEPTH nd v bs ->
  encode h v nd = Ok bs /\ decode h bs nd mode = Ok v.
Proof using Hwf.
  intros Hn Hv Hb. split; [by apply (write_complete h Hwf MAX_DECODE_DEPTH nd v bs [] [])|].
  pose proof (decode_complete Hfl nd v bs [] mode Hn Hv Hb) as Hd. rewrite app_nil_r in Hd.
  by destruct mode.
Qed.

(** The two modes.  Account data may carry slack after the value and the
    value read is that of the encoding; instruction data may not, and the
    error names the number of bytes consumed as its offset. *)
Theorem decode_modes (Hfl : heap_floor h = true) nd v bs rest :
  node_wf nd = true -> vec_floor h nd = true -> borsh h MAX_DECODE_DEPTH nd v bs -> rest <> [] ->
  decode h (bs ++ rest) nd ACCOUNT_DATA = Ok v /\
  decode h (bs ++ rest) nd IX_DATA =
    Raise (BorshError (TrailingBytes (len bs) (len (bs ++ rest))) (len bs) []).
Proof using Hwf.
  intros Hn Hv Hb Hr. rewrite !(decode_complete Hfl nd v bs rest) by done. by destruct rest.
Qed.

(** Unique readability: no encoding of a type is a proper prefix of
    another, so a reader never needs to look past the value it reads. *)
Theorem borsh_prefix_free (Hfl : heap_floor h = true) nd v1 v2 b1 b2 r1 r2 :
  node_wf nd = true -> vec_floor h nd = true ->
  borsh h MAX_DECODE_DEPTH nd v1 b1 -> borsh h MAX_DECODE_DEPTH nd v2 b2 ->
  b1 ++ r1 = b2 ++ r2 -> v1 = v2 /\ b1 = b2.
Proof using Hwf.
  intros Hn Hv H1 H2 Heq.
  pose proof (node_read_complete Hfl nd v1 b1 r1 [] Hn Hv H1) as R1.
  pose proof (node_read_complete Hfl nd v2 b2 r2 [] Hn Hv H2) as R2.
  rewrite Heq, R2 in R1. injection R1 as -> Hl. split; [done|].
  by apply app_inj_1 in Heq as [-> _].
Qed.
End codec.

(** C28: decoding is total and safe.  On every buffer, type and mode, well-formed
    or not, cyclic or not, [decode] returns a value or raises [BorshError] with
    an offset inside the buffer; it never loops, never raises anything else. *)
Theorem decode_safe h b nd mode :
  match decode h b nd mode with
  | Ok _ => True
  | Raise (BorshError _ off _) => 0 <= off <= len b
  | Raise _ => False
  end.
Proof.
  pose proof (node_read_safe h nd [] (new_cursor b) eq_refl ltac:(unfold in_buf; simpl; lia)) as Hs.
  unfold decode. unfold safe in Hs. destruct (node_read _ _ _ _) as [[v cur]|[]]; simpl; try done.
  destruct Hs as (_ & _ & Hp). simpl in Hp. destruct mode; simpl; [|done].
  destruct (negb _); simpl; [unfold len; lia|done].
Qed.

(** C29: encoding terminates on every value and type, the recursive ones
    included: the fuel of [encode] is always enough, and more of it never
    changes the outcome. *)
Theorem encode_terminates `{Native} h v nd :
  encode h v nd <> Raise OutOfFuel /\
  forall fuel, (S (write_measure h nd v) <= fuel)%nat -> write fuel h nd v [] [] = encode h v nd.
Proof.
  split; [apply encode_returns|]. intros fuel Hf.
  eapply le_res_returns; [by apply write_mono|]. apply encode_returns.
Qed.

(** The byte floor.  [min_wire_size] returns on every type, cyclic ones
    included, and never exceeds the length of an encoding of the type: the
    length check of [Vec] built on it rejects no valid input. *)
Theorem min_wire_size_floor h nd :
  exists m, min_wire_size h nd = Ok m /\ forall d v bs, borsh h d nd v bs -> m <= len bs.
Proof.
  destruct (min_wire_size_total h nd) as [m Hm]. exists m. split; [done|].
  intros. by eapply borsh_min_wire_size.
Qed.

(** ** Witnesses *)

Lemma sample_borsh : borsh sample_heap MAX_DECODE_DEPTH sample_node sample_value sample_bytes.
Proof. apply decode_borsh; vm_compute; reflexivity. Qed.

Lemma decode_refines_borsh_witness :
  decode sample_heap sample_bytes sample_node IX_DATA = Ok sample_value <->
  borsh sample_heap MAX_DECODE_DEPTH sample_node sample_value sample_bytes.
Proof. apply decode_refines_borsh; vm_compute; reflexivity. Defined.

Lemma encode_decode_exact_witness :
  @encode no_native sample_heap sample_value sample_node = Ok sample_bytes.
Proof. apply encode_decode_exact; vm_compute; reflexivity. Defined.

Lemma decode_encode_roundtrip_witness :
  @encode no_native sample_heap sample_value sample_node = Ok sample_bytes /\
  decode sample_heap sample_bytes sample_node ACCOUNT_DATA = Ok sample_value.
Proof. apply decode_encode_roundtrip; [reflexivity..|apply sample_borsh]. Defined.

Lemma decode_modes_witness :
  decode sample_heap (sample_bytes ++ [x00]) sample_node ACCOUNT_DATA = Ok sample_value /\
  decode sample_heap (sample_bytes ++ [x00]) sample_node IX_DATA =
    Raise (BorshError (TrailingBytes (len sample_bytes) (len (sample_bytes ++ [x00])))
                      (len sample_bytes) []).
Proof. apply decode_modes; [reflexivity..|apply sample_borsh|discriminate]. Defined.

Lemma borsh_prefix_free_witness : sample_value = sample_value /\ sample_bytes = sample_bytes.
Proof.
  apply (borsh_prefix_free sample_heap eq_refl eq_refl sample_node _ _ _ _ [x00] [x00]);
    [reflexivity..|apply sample_borsh|apply sample_borsh|reflexivity].
Defined.
