(* ===== verification/Compile.v ===== *)
(** * The type compiler ([_codec/ir.py], the compiler; [_codec/carriers.py])

    [compile_field] lowers a resolved annotation to a node, [compile_type] a
    class, through the module's [_TYPE_CACHE].  The cache and the node objects
    are state that survives an exception, so the compiler runs in a monad whose
    failures carry the state reached. *)

From stdpp Require Import base decidable option list gmap strings sorting numbers.
From Stdlib Require Import ZArith Lia.
From Stdlib Require Import Strings.Byte.
From S2P Require Import Prelude.
From S2P Require Import Bytes.
From S2P Require Import Utf8.
From S2P Require Import Floats.
From S2P Require Import Values.
From S2P Require Import Aliases.
From S2P Require Import Codec.
From S2P Require Import Ir.
From S2P Require Import IrTermination.
From S2P Require Import Borsh.

(** ** Annotations and classes *)

(** A resolved annotation, as [typing.get_type_hints] returns it. *)
Inductive ann :=
  | AInt | AFloat                               (* bare [int], [float] *)
  | AAlias (a : alias)                          (* [u8] .. [i256], [f32], [f64], [char] *)
  | ABool | AStr | ABytes | APubkey | ANoneType
  | AAnnotated (inner : ann) (n : option Z)     (* [__metadata__[0]]; [None]: not an int *)
  | ACOption (inner : ann)
  | AOpt (inner : ann)
  | AUnion (args : list ann)
  | AList (elem : ann)
  | AClass (cls : string)                       (* a user-defined class *)
  | AOther.                                     (* anything else *)

Inductive class_def :=
  | CIntEnum (values : list Z)
  | CBorshEnum (variants_by_tag : list (Z * string))
  | CDataclass (fs : list (string * ann))
  | CPlain.

(** The classes in scope, with the [__variant_tag__]s the metaclass assigned. *)
Record cenv := { classes : list (string * class_def); vtags : list (string * Z) }.

Definition class_of (env : cenv) (cls : string) : class_def :=
  default CPlain (attr_lookup cls (classes env)).

(** ** [BorshEnumMeta.__new__] *)

Fixpoint assign_tags (i : Z) (vs : list (string * option Z)) : list (Z * string) :=
  match vs with
  | [] => []
  | (v, tag) :: vs => (default i tag, v) :: assign_tags (i + 1) vs
  end.

(** The [@variant] classes of the namespace, in order, with the tag each was
    decorated with; the result is [__variants_by_tag__]. *)
Definition BorshEnumMeta_new (vs : list (string * option Z)) : res (list (Z * string)) :=
  let by_tag := assign_tags 0 vs in
  if (256 <? length vs)%nat then Raise (TypeError ">256 variants is not Borsh-encodable")
  else if negb (forallb (fun v => (0 <=? v.1) && (v.1 <=? 255)) by_tag)
  then Raise (TypeError "variant tags must be u8 (0..255)")
  else if negb (bool_decide (NoDup by_tag.*1)) then Raise (TypeError "duplicate variant tags")
  else Ok by_tag.

(** ** The compiler's monad *)

Record tstate := TState {
  tcache : list (string * node);    (** [_TYPE_CACHE] *)
  theap : heap;                     (** the contents of the node objects *)
  tnext : nat;                      (** the next object identity *)
}.

Definition TM (A : Type) : Type := tstate -> res A * tstate.

#[global] Instance TM_ret : MRet TM := fun A a s => (Ok a, s).
#[global] Instance TM_bind : MBind TM := fun A B f m s =>
  match m s with
  | (Ok a, s') => f a s'
  | (Raise e, s') => (Raise e, s')
  end.

Definition traise {A} (e : exn) : TM A := fun s => (Raise e, s).
Definition alloc : TM nat := fun s => (Ok (tnext s), TState (tcache s) (theap s) (S (tnext s))).
Definition modify_heap (f : heap -> heap) : TM unit := fun s =>
  (Ok tt, TState (tcache s) (f (theap s)) (tnext s)).
Definition cache_set (cls : string) (nd : node) : TM unit := fun s =>
  (Ok tt, TState ((cls, nd) :: tcache s) (theap s) (tnext s)).
Definition cache_pop (cls : string) (s : tstate) : tstate :=
  TState (filter (fun e => e.1 <> cls) (tcache s)) (theap s) (tnext s).
Definition cache_get (cls : string) : TM (option node) := fun s =>
  (Ok (attr_lookup cls (tcache s)), s).

(** [try: m; except Exception: _TYPE_CACHE.pop(cls, None); raise]. *)
Definition pop_on_raise {A} (cls : string) (m : TM A) : TM A := fun s =>
  match m s with
  | (Ok a, s') => (Ok a, s')
  | (Raise e, s') => (Raise e, cache_pop cls s')
  end.

Fixpoint mapM_tm {A B} (f : A -> TM B) (xs : list A) : TM (list B) :=
  match xs with
  | [] => mret []
  | x :: xs => y ← f x; ys ← mapM_tm f xs; mret (y :: ys)
  end.

Definition set_struct (id : nat) (fs : fields) (h : heap) : heap :=
  mkHeap ((id, fs) :: h_struct h) (h_intenum h) (h_enum h) (h_vtag h).
Definition add_variant (id : nat) (tag : Z) (v : string * fields) (h : heap) : heap :=
  mkHeap (h_struct h) (h_intenum h) ((id, enum_variants h id ++ [(tag, v)]) :: h_enum h) (h_vtag h).
Definition set_intenum (cls : string) (vs : list Z) (h : heap) : heap :=
  mkHeap (h_struct h) ((cls, vs) :: h_intenum h) (h_enum h) (h_vtag h).

(** ** [option_inner] *)

Definition is_NoneType (a : ann) : bool := match a with ANoneType => true | _ => false end.

Definition option_inner (a : ann) : option ann :=
  match a with
  | AUnion args =>
      let non_none := List.filter (fun a => negb (is_NoneType a)) args in
      match non_none with
      | [t] => if (length args =? 2)%nat then Some t else None
      | _ => None
      end
  | _ => None
  end.

(** ** [compile_field], [compile_type], [compile_layout] *)

Section compile.
Context (env : cenv).

(** [ct] is [compile_type].  The two-argument union is matched in place;
    [compile_field_union] states that this is [option_inner]. *)
Fixpoint compile_field_with (ct : string -> TM node) (a : ann) : TM node :=
  match a with
  | AInt | AFloat => traise (GenError "numeric field collapsed to bare int/float")
  | AAnnotated inner None => traise (GenError "array length metadata must be int")
  | AAnnotated inner (Some n) =>
      match inner with
      | ABytes => mret (FixedBytesNode n)
      | AList elem =>
          nd ← compile_field_with ct elem; id ← alloc; mret (FixedArrayNode id nd n)
      | _ => traise (GenError "unsupported Annotated inner type")
      end
  | ACOption _ => traise (GenError "COption is decoded by the SPL Pack built-in")
  | AOpt inner => nd ← compile_field_with ct inner; mret (OptNode nd)
  | AUnion [x; y] =>
      if is_NoneType x then
        if is_NoneType y then traise (GenError "untagged union")
        else nd ← compile_field_with ct y; mret (OptionNode nd)
      else if is_NoneType y then nd ← compile_field_with ct x; mret (OptionNode nd)
      else traise (GenError "untagged union")
  | AUnion _ => traise (GenError "untagged union")
  | AList elem => nd ← compile_field_with ct elem; mret (VecNode nd)
  | AAlias al =>
      match int_spec al with
      | Some (nb, sgn) => mret (IntNode al nb sgn)
      | None => match float_spec al with
                | Some nb => mret (FloatNode al nb)
                | None => traise (GenError "unsupported annotation")
                end
      end
  | ABool => mret BoolNode
  | AStr => mret StrNode
  | ABytes => mret BytesNode
  | APubkey => mret PubkeyNode
  | AClass cls =>
      match class_of env cls with
      | CPlain => traise (GenError "unsupported annotation")
      | _ => ct cls
      end
  | ANoneType | AOther => traise (GenError "unsupported annotation")
  end.

(** [_dataclass_fields(cls)]: [dataclasses.fields] refuses other classes. *)
Definition _dataclass_fields (cls : string) : TM (list (string * ann)) :=
  match class_of env cls with
  | CDataclass fs => mret fs
  | _ => traise (TypeError "must be called with a dataclass type or instance")
  end.

Definition compile_fields (ct : string -> TM node) (fs : list (string * ann)) : TM fields :=
  mapM_tm (fun f => nd ← compile_field_with ct f.2; mret (f.1, nd)) fs.

Fixpoint fill_variants (ct : string -> TM node) (id : nat) (vs : list (Z * string)) : TM unit :=
  match vs with
  | [] => mret tt
  | (tag, vcls) :: vs =>
      fs ← _dataclass_fields vcls;
      nds ← compile_fields ct fs;
      _ ← modify_heap (add_variant id tag (vcls, nds));
      fill_variants ct id vs
  end.

Definition compile_type_step (ct : string -> TM node) (cls : string) : TM node :=
  cached ← cache_get cls;
  match cached with
  | Some nd => mret nd
  | None =>
      match class_of env cls with
      | CIntEnum values =>
          _ ← modify_heap (set_intenum cls values);
          _ ← cache_set cls (IntEnumNode cls);
          mret (IntEnumNode cls)
      | CBorshEnum vs =>
          id ← alloc;
          _ ← cache_set cls (BorshEnumNode id cls);
          _ ← pop_on_raise cls (fill_variants ct id vs);
          mret (BorshEnumNode id cls)
      | CDataclass fs =>
          id ← alloc;
          _ ← cache_set cls (StructNode id cls);
          _ ← pop_on_raise cls
                (nds ← compile_fields ct fs; modify_heap (set_struct id nds));
          mret (StructNode id cls)
      | CPlain => traise (GenError "cannot compile type: not a dataclass, IntEnum, or BorshEnum")
      end
  end.

Fixpoint compile_type_fuel (fuel : nat) (cls : string) : TM node :=
  match fuel with
  | O => traise OutOfFuel
  | S fuel => compile_type_step (compile_type_fuel fuel) cls
  end.

(** A recursive call is made with one more class of [classes env] cached. *)
Definition compile_type (cls : string) : TM node :=
  compile_type_fuel (S (length (classes env))) cls.

Definition compile_field (a : ann) : TM node := compile_field_with compile_type a.

Definition compile_layout (anns : list ann) : TM (list node) := mapM_tm compile_field anns.
End compile.

(** The state at import: nothing cached, the tags set by the metaclass. *)
Definition tinit (env : cenv) : tstate := TState [] (mkHeap [] [] [] (vtags env)) 0.

Lemma compile_field_union env ct args :
  compile_field_with env ct (AUnion args) =
    match option_inner (AUnion args) with
    | Some t => nd ← compile_field_with env ct t; mret (OptionNode nd)
    | None => traise (GenError "untagged union")
    end.
Proof.
  destruct args as [|x [|y [|z args]]]; simpl; try done.
  - by destruct (is_NoneType x).
  - by destruct (is_NoneType x), (is_NoneType y).
  - destruct (is_NoneType x), (is_NoneType y), (is_NoneType z); simpl; by repeat case_match.
Qed.
