(* ===== verification/CompileProps.v ===== *)
(** * What the type compiler guarantees

    Every type it compiles is well formed, which is what the codec's theorems
    assume; a compile that succeeds leaves every cached class lowered field by
    field from its annotations; the compiler terminates on recursive types. *)

From Stdlib Require Import ZArith Lia.
From Stdlib Require Import Strings.Byte.
From stdpp Require Import base decidable option list gmap strings sorting numbers.
From S2P Require Import Prelude.
From S2P Require Import Bytes.
From S2P Require Import Utf8.
From S2P Require Import Floats.
From S2P Require Import Values.
From S2P Require Import Aliases.
From S2P Require Import Codec.
From S2P Require Import Ir.
From S2P Require Import IrTermination.
From S2P Require Import Borsh.
From S2P Require Import BorshProps.
From S2P Require Import Compile.

(** ** Induction on annotations *)

Section ann_ind.
Context (P : ann -> Prop)
  (Hatom : forall a, match a with
                     | AAnnotated _ _ | AOpt _ | AUnion _ | AList _ => False
                     | _ => True end -> P a)
  (Hann : forall a n, match a with AList e => P e | _ => True end -> P (AAnnotated a n))
  (Hopt : forall a, P a -> P (AOpt a))
  (Hunion : forall args, Forall P args -> P (AUnion args))
  (Hlist : forall a, P a -> P (AList a)).

Lemma ann_induction a : P a.
Proof using All.
  revert a. fix IH 1. intros a. destruct a.
  all: try (apply Hatom; exact I).
  - apply Hann. destruct a; try exact I. apply IH.
  - apply Hopt, IH.
  - apply Hunion. induction args as [|x args IHl]; constructor; [apply IH|apply IHl].
  - apply Hlist, IH.
Qed.
End ann_ind.

(** ** Well-formedness is preserved, on success and on failure *)

(** [P] is kept by [m] whatever happens, and a result satisfies [R]. *)
Definition keeps {A} (P : tstate -> Prop) (R : A -> Prop) (m : TM A) : Prop :=
  forall s, P s -> P (m s).2 /\ forall a, (m s).1 = Ok a -> R a.

Lemma keeps_bind {A B} P (R : A -> Prop) (R' : B -> Prop) m f :
  keeps P R m -> (forall a, R a -> keeps P R' (f a)) -> keeps P R' (m ≫= f).
Proof.
  intros Hm Hf s Hs. destruct (Hm s Hs) as [Hs' HR]. unfold mbind, TM_bind.
  destruct (m s) as [[a|e] s']; simpl in *; [|done]. apply Hf; auto.
Qed.

Lemma keeps_ret {A} P (R : A -> Prop) a : R a -> keeps P R (mret a).
Proof. intros HR s Hs. split; [done|]. by intros ? [= <-]. Qed.

Lemma keeps_raise {A} P (R : A -> Prop) e : keeps P R (traise e).
Proof. intros s Hs. split; [done|]. discriminate. Qed.

Lemma keeps_pop {A} P (R : A -> Prop) cls m :
  (forall s, P s -> P (cache_pop cls s)) -> keeps P R m -> keeps P R (pop_on_raise cls m).
Proof.
  intros Hp Hm s Hs. destruct (Hm s Hs) as [Hs' HR]. unfold pop_on_raise.
  destruct (m s) as [[a|e] s']; simpl in *; [done|]. split; [auto|discriminate].
Qed.

Lemma keeps_mapM {A B} P (R : A -> B -> Prop) (f : A -> TM B) xs :
  (forall x, x ∈ xs -> keeps P (R x) (f x)) -> keeps P (Forall2 R xs) (mapM_tm f xs).
Proof.
  induction xs as [|x xs IH]; intros Hf; [by apply keeps_ret|]. simpl.
  eapply keeps_bind; [apply Hf; by left|]. intros y Hy.
  eapply keeps_bind; [apply IH; intros; apply Hf; by right|]. intros ys Hys.
  apply keeps_ret. by constructor.
Qed.

(** Annotations the compiler should be given: array lengths are not negative,
    and nothing that may already be [None] is made optional. *)
Fixpoint ann_wf (a : ann) : bool :=
  match a with
  | AAnnotated inner n => match n with Some n => 0 <=? n | None => true end && ann_wf inner
  | AOpt inner | AList inner => ann_wf inner
  | AUnion args =>
      forallb ann_wf args &&
      forallb (fun a => match a with AOpt _ | AUnion _ => false | _ => true end) args
  | _ => true
  end.

Definition class_wf (env : cenv) (c : class_def) : bool :=
  match c with
  | CDataclass fs => bool_decide (NoDup fs.*1) && forallb (fun f => ann_wf f.2) fs
  | CBorshEnum vs => forallb (fun v => bool_decide (attr_lookup v.2 (vtags env) = Some v.1)) vs
  | _ => true
  end.

Definition cenv_wf (env : cenv) : bool := forallb (fun e => class_wf env e.2) (classes env).

Lemma class_of_wf env cls : cenv_wf env = true -> class_wf env (class_of env cls) = true.
Proof.
  intros He. unfold class_of. destruct (attr_lookup cls _) eqn:E; simpl; [|done].
  apply attr_lookup_elem in E. by apply (forallb_elem _ _ _ He) in E.
Qed.

Section wf.
Context (env : cenv) (Henv : cenv_wf env = true).

Definition ref_ok (nd : node) : Prop := node_wf nd = true /\ nullable nd = false.

Definition tstate_wf (s : tstate) : Prop :=
  heap_wf (theap s) = true /\ h_vtag (theap s) = vtags env /\ Forall (fun e => ref_ok e.2) (tcache s).

Definition ct_wf (ct : string -> TM node) : Prop := forall cls, keeps tstate_wf ref_ok (ct cls).

Lemma keeps_alloc : keeps tstate_wf (fun _ => True) alloc.
Proof. intros s Hs. by split. Qed.

Lemma keeps_cache_set cls nd : ref_ok nd -> keeps tstate_wf (fun _ => True) (cache_set cls nd).
Proof. intros Hn s (H1 & H2 & H3). split; [|done]. repeat split; [done|done|by constructor]. Qed.

Lemma keeps_cache_pop cls s : tstate_wf s -> tstate_wf (cache_pop cls s).
Proof.
  intros (H1 & H2 & H3). repeat split; [done|done|]. simpl. rewrite list.Forall_forall in *.
  intros e [_ He]%list_elem_of_filter. by apply H3.
Qed.

Lemma keeps_heap f :
  (forall h, heap_wf h = true -> h_vtag h = vtags env ->
     heap_wf (f h) = true /\ h_vtag (f h) = vtags env) ->
  keeps tstate_wf (fun _ => True) (modify_heap f).
Proof.
  intros Hf s (H1 & H2 & H3). split; [|done]. destruct (Hf _ H1 H2). by repeat split.
Qed.

Lemma compile_field_nullable ct a :
  ct_wf ct -> ann_wf a = true ->
  keeps tstate_wf (fun nd => node_wf nd = true /\
    match a with AOpt _ | AUnion _ => True | _ => nullable nd = false end)
    (compile_field_with env ct a).
Proof.
  intros Hct. induction a using ann_induction; intros Ha; simpl.
  - destruct a; try done; simpl; try (apply keeps_raise); try (by apply keeps_ret).
    + destruct (int_spec a) as [[nb sgn]|] eqn:E.
      * apply keeps_ret. simpl. destruct (int_spec_attrs _ _ _ E) as [_ Hn].
        split; [|done]. by rewrite (proj2 (Nat.eqb_neq _ _)).
      * destruct (float_spec a) as [nb|] eqn:Ef; [|apply keeps_raise]. apply keeps_ret.
        destruct a; simpl in Ef; simplify_eq; done.
    + destruct (class_of env cls); [..|apply keeps_raise]; apply Hct.
  - destruct n as [n|]; [|apply keeps_raise]. simpl in Ha. zify_bools.
    destruct a; try apply keeps_raise.
    + apply keeps_ret. simpl. split; [|done]. by apply Z.leb_le.
    + eapply keeps_bind; [by apply H|].
      intros nd [Hnd _]. eapply keeps_bind; [apply keeps_alloc|]. intros id _. apply keeps_ret.
      simpl. rewrite Hnd, (proj2 (Z.leb_le _ _)) by done. done.
  - eapply keeps_bind; [by apply IHa|]. intros nd [Hn _]. by apply keeps_ret.
  - pose proof (compile_field_union env ct args) as Hu. simpl in Hu. rewrite Hu. clear Hu.
    unfold option_inner. destruct (List.filter _ args) as [|t [|]] eqn:Ef; try apply keeps_raise.
    destruct (length args =? 2)%nat; [|apply keeps_raise].
    assert (Ht : t ∈ args).
    { apply list_elem_of_In. apply (proj1 (filter_In (fun a => negb (is_NoneType a)) t args)).
      rewrite Ef. by left. }
    rewrite list.Forall_forall in H. simpl in Ha. zify_bools.
    pose proof (forallb_elem _ _ _ H0 Ht) as Hwf. pose proof (forallb_elem _ _ _ H1 Ht) as Hno.
    eapply keeps_bind; [by apply H|]. intros nd [Hn Hnull]. apply keeps_ret. simpl.
    rewrite Hn. destruct t; try discriminate; by rewrite Hnull.
  - eapply keeps_bind; [by apply IHa|]. intros nd [Hn _]. by apply keeps_ret.
Qed.

Lemma compile_fields_wf ct fs :
  ct_wf ct -> bool_decide (NoDup fs.*1) && forallb (fun f => ann_wf f.2) fs = true ->
  keeps tstate_wf (fun nds => fields_wf nds = true) (compile_fields env ct fs).
Proof.
  intros Hct [Hnd%bool_decide_eq_true Hfs]%andb_true_iff.
  assert (Hk : keeps tstate_wf (Forall2 (fun f g => f.1 = g.1 /\ node_wf g.2 = true) fs)
                 (compile_fields env ct fs)).
  { apply keeps_mapM. intros [n a] Hin. pose proof (forallb_elem _ _ _ Hfs Hin) as Ha.
    eapply keeps_bind; [by apply compile_field_nullable|]. intros nd [Hn _]. by apply keeps_ret. }
  intros s Hs. destruct (Hk s Hs) as [Hs' HR]. split; [done|]. intros nds Hok.
  specialize (HR _ Hok). unfold fields_wf. apply andb_true_iff. split.
  - apply bool_decide_eq_true. replace (nds.*1) with (fs.*1); [done|].
    clear -HR. induction HR as [|? ? ? ? [? _]]; [done|]. rewrite !fmap_cons. by f_equal.
  - clear -HR. induction HR as [|? ? ? ? [_ Hn]]; simpl; [done|]. by rewrite Hn.
Qed.

Lemma fill_variants_wf ct id vs :
  ct_wf ct -> forallb (fun v => bool_decide (attr_lookup v.2 (vtags env) = Some v.1)) vs = true ->
  keeps tstate_wf (fun _ => True) (fill_variants env ct id vs).
Proof using Henv.
  intros Hct. induction vs as [|[t v] vs IH]; simpl; intros Hvs; [by apply keeps_ret|].
  apply andb_true_iff in Hvs as [Ht%bool_decide_eq_true Hvs].
  apply (keeps_bind _ (fun fs => class_wf env (CDataclass fs) = true)).
  { unfold _dataclass_fields. pose proof (class_of_wf env v Henv) as Hc.
    destruct (class_of env v); try apply keeps_raise. by apply keeps_ret. }
  intros fs Hfs. eapply keeps_bind; [by apply compile_fields_wf|]. intros nds Hnds.
  eapply keeps_bind; [|intros; by apply IH]. apply keeps_heap. intros h Hh Hv. split; [|done].
  unfold heap_wf, add_variant in *. simpl in *. apply andb_true_iff in Hh as [Hs He].
  rewrite Hs. simpl. rewrite He, andb_true_r. rewrite forallb_app. apply andb_true_iff. split.
  - unfold enum_variants. destruct (attr_lookup id _) eqn:E; simpl; [|done].
    apply attr_lookup_elem in E. by apply (forallb_elem _ _ _ He) in E.
  - simpl. unfold variant_wf. simpl. rewrite Hv, Hnds, bool_decide_eq_true_2 by done. done.
Qed.

Lemma compile_type_step_wf ct : ct_wf ct -> ct_wf (compile_type_step env ct).
Proof using Henv.
  intros Hct cls. unfold compile_type_step.
  apply (keeps_bind _ (fun o => forall nd, o = Some nd -> ref_ok nd)).
  { intros s Hs. split; [done|]. intros o [= <-] nd Hl. destruct Hs as (_ & _ & Hc).
    rewrite list.Forall_forall in Hc. apply attr_lookup_elem in Hl. by apply Hc in Hl. }
  intros [nd|] Hnd; [apply keeps_ret; auto|]. pose proof (class_of_wf env cls Henv) as Hc.
  destruct (class_of env cls) as [values|vs|fs|]; [..|apply keeps_raise].
  - eapply keeps_bind; [apply keeps_heap; intros; by split|]. intros _ _.
    eapply keeps_bind; [by apply keeps_cache_set|]. intros _ _. by apply keeps_ret.
  - eapply keeps_bind; [apply keeps_alloc|]. intros id _.
    eapply keeps_bind; [by apply keeps_cache_set|]. intros _ _.
    eapply keeps_bind; [apply keeps_pop; [apply keeps_cache_pop|by apply fill_variants_wf]|].
    intros _ _. by apply keeps_ret.
  - eapply keeps_bind; [apply keeps_alloc|]. intros id _.
    eapply keeps_bind; [by apply keeps_cache_set|]. intros _ _.
    apply (keeps_bind _ (fun _ => True)); [|intros _ _; by apply keeps_ret].
    apply keeps_pop; [apply keeps_cache_pop|].
    eapply keeps_bind; [by apply compile_fields_wf|]. intros nds Hnds.
    apply keeps_heap. intros h Hh Hv. split; [|done]. unfold heap_wf, set_struct in *. simpl in *.
    by rewrite Hnds.
Qed.

Lemma compile_type_fuel_wf fuel : ct_wf (compile_type_fuel env fuel).
Proof using Henv.
  induction fuel as [|fuel IH]; intros cls; [apply keeps_raise|]. by apply compile_type_step_wf.
Qed.
End wf.

Lemma tinit_wf env : tstate_wf env (tinit env).
Proof. by repeat split. Qed.

(** ** A successful compile leaves every cached class filled *)

(** [a] is lowered to [nd], defined types through the cache. *)
Inductive lowers (cache : list (string * node)) : ann -> node -> Prop :=
  | L_int al nb sgn : int_spec al = Some (nb, sgn) -> lowers cache (AAlias al) (IntNode al nb sgn)
  | L_float al nb : float_spec al = Some nb -> lowers cache (AAlias al) (FloatNode al nb)
  | L_bool : lowers cache ABool BoolNode
  | L_str : lowers cache AStr StrNode
  | L_bytes : lowers cache ABytes BytesNode
  | L_pubkey : lowers cache APubkey PubkeyNode
  | L_fixed n : lowers cache (AAnnotated ABytes (Some n)) (FixedBytesNode n)
  | L_array a nd id n :
      lowers cache a nd -> lowers cache (AAnnotated (AList a) (Some n)) (FixedArrayNode id nd n)
  | L_opt a nd : lowers cache a nd -> lowers cache (AOpt a) (OptNode nd)
  | L_option a t nd :
      option_inner a = Some t -> lowers cache t nd -> lowers cache a (OptionNode nd)
  | L_vec a nd : lowers cache a nd -> lowers cache (AList a) (VecNode nd)
  | L_class cls nd : attr_lookup cls cache = Some nd -> lowers cache (AClass cls) nd.

Definition lowers_fields (cache : list (string * node)) (fs : list (string * ann)) (nds : fields) : Prop :=
  Forall2 (fun f g => f.1 = g.1 /\ lowers cache f.2 g.2) fs nds.

(** The node cached for [cls] has the contents its class declares. *)
Definition filled (env : cenv) (s : tstate) (cls : string) (nd : node) : Prop :=
  match class_of env cls with
  | CIntEnum vs => nd = IntEnumNode cls /\ intenum_values (theap s) cls = vs
  | CDataclass fs =>
      exists id, nd = StructNode id cls /\ lowers_fields (tcache s) fs (struct_fields (theap s) id)
  | CBorshEnum vs =>
      exists id, nd = BorshEnumNode id cls /\
        Forall2 (fun v w => v = (w.1, w.2.1) /\
                   exists fs, class_of env v.2 = CDataclass fs /\
                              lowers_fields (tcache s) fs w.2.2)
                vs (enum_variants (theap s) id)
  | CPlain => False
  end.

Definition node_id (nd : node) : option nat :=
  match nd with StructNode id _ | BorshEnumNode id _ => Some id | _ => None end.

(** Every cached class is filled, apart from those under construction. *)
Record complete (env : cenv) (open : list string) (s : tstate) : Prop := {
  co_filled cls nd : attr_lookup cls (tcache s) = Some nd -> cls ∈ open \/ filled env s cls nd;
  co_id cls nd id : attr_lookup cls (tcache s) = Some nd -> node_id nd = Some id -> (id < tnext s)%nat;
  co_uniq c1 c2 n1 n2 id :
    attr_lookup c1 (tcache s) = Some n1 -> attr_lookup c2 (tcache s) = Some n2 ->
    node_id n1 = Some id -> node_id n2 = Some id -> c1 = c2;
  co_fresh id : (tnext s <= id)%nat -> enum_variants (theap s) id = [];
}.

(** [s'] extends [s]: nothing cached is lost, no existing object changes. *)
Record extends (s s' : tstate) : Prop := {
  ex_cache cls nd : attr_lookup cls (tcache s) = Some nd -> attr_lookup cls (tcache s') = Some nd;
  ex_next : (tnext s <= tnext s')%nat;
  ex_struct id : (id < tnext s)%nat -> struct_fields (theap s') id = struct_fields (theap s) id;
  ex_enum id : (id < tnext s)%nat -> enum_variants (theap s') id = enum_variants (theap s) id;
  ex_intenum cls nd : attr_lookup cls (tcache s) = Some nd ->
    intenum_values (theap s') cls = intenum_values (theap s) cls;
}.

#[global] Instance extends_preorder : PreOrder extends.
Proof.
  split.
  - intros s. by split.
  - intros s1 s2 s3 [c1 n1 st1 e1 i1] [c2 n2 st2 e2 i2]. split.
    + eauto.
    + lia.
    + intros id Hid. rewrite st2 by lia. auto.
    + intros id Hid. rewrite e2 by lia. auto.
    + intros cls nd Hc. erewrite i2 by eauto. eauto.
Qed.

Lemma lowers_extends s s' a nd : extends s s' -> lowers (tcache s) a nd -> lowers (tcache s') a nd.
Proof. intros He. induction 1; econstructor; eauto using ex_cache. Qed.

Lemma lowers_fields_extends s s' fs nds :
  extends s s' -> lowers_fields (tcache s) fs nds -> lowers_fields (tcache s') fs nds.
Proof.
  intros He Hl. eapply list.Forall2_impl; [exact Hl|]. intros f g [? ?]. eauto using lowers_extends.
Qed.

Lemma filled_extends env s s' cls nd :
  extends s s' -> attr_lookup cls (tcache s) = Some nd ->
  (forall id, node_id nd = Some id -> (id < tnext s)%nat) ->
  filled env s cls nd -> filled env s' cls nd.
Proof.
  intros He Hc Hid. unfold filled. destruct (class_of env cls).
  - intros [-> <-]. split; [done|]. by eapply ex_intenum.
  - intros (id & -> & Hf). exists id. split; [done|]. rewrite (ex_enum _ _ He) by auto.
    eapply list.Forall2_impl; [exact Hf|]. intros v w (-> & fs & Hcl & Hl). split; [done|].
    exists fs. eauto using lowers_fields_extends.
  - intros (id & -> & Hf). exists id. split; [done|]. rewrite (ex_struct _ _ He) by auto.
    by eapply lowers_fields_extends.
  - done.
Qed.

Lemma TM_bind_Ok {A B} (m : TM A) (f : A -> TM B) s b s'' :
  (m ≫= f) s = (Ok b, s'') -> exists a s', m s = (Ok a, s') /\ f a s' = (Ok b, s'').
Proof. unfold mbind, TM_bind. destruct (m s) as [[a|e] s']; [eauto|discriminate]. Qed.

Lemma pop_on_raise_Ok {A} cls (m : TM A) s a s' : pop_on_raise cls m s = (Ok a, s') -> m s = (Ok a, s').
Proof. unfold pop_on_raise. destruct (m s) as [[x|e] s1]; congruence. Qed.

Ltac inv_tm :=
  repeat match goal with
  | H : (mbind _ _) _ = (Ok _, _) |- _ => apply TM_bind_Ok in H as (? & ? & ? & H)
  | H : mret _ _ = (Ok _, _) |- _ => injection H; clear H; intros; subst
  | H : traise _ _ = (Ok _, _) |- _ => discriminate H
  end.

Section filled.
Context (env : cenv).

(** What a successful run of [m] gives. *)
Definition grows {A} (open : list string) (R : tstate -> A -> Prop) (m : TM A) : Prop :=
  forall s a s', complete env open s -> m s = (Ok a, s') ->
    complete env open s' /\ extends s s' /\ R s' a.

Lemma grows_bind {A B} open (R : tstate -> A -> Prop) (R' : tstate -> B -> Prop) m f :
  grows open R m ->
  (forall a, grows open (fun s' b => forall s, extends s s' -> R s a -> R' s' b) (f a)) ->
  grows open R' (m ≫= f).
Proof.
  intros Hm Hf s b s'' Hc Hok. apply TM_bind_Ok in Hok as (a & s' & Ha & Hb).
  destruct (Hm _ _ _ Hc Ha) as (Hc' & He & HR).
  destruct (Hf _ _ _ _ Hc' Hb) as (Hc'' & He' & HR'). split; [done|].
  split; [by etrans|]. eauto.
Qed.

Lemma grows_ret {A} open (R : tstate -> A -> Prop) a : (forall s, R s a) -> grows open R (mret a).
Proof. intros HR s a' s' Hc [= <- <-]. by split; [|split]. Qed.

Lemma grows_raise {A} open (R : tstate -> A -> Prop) e : grows open R (traise e).
Proof. discriminate. Qed.

Lemma grows_alloc open : grows open (fun _ _ => True) alloc.
Proof.
  intros s a s' [Hf Hi Hu Hfr] [= <- <-]. split; [|split; [|done]].
  - split; simpl; [done| |done|intros; apply Hfr; lia].
    intros cls nd id Hc Hid. specialize (Hi _ _ _ Hc Hid). lia.
  - split; simpl; auto.
Qed.

Definition ct_grows (ct : string -> TM node) : Prop :=
  forall open cls, grows open (fun s nd => attr_lookup cls (tcache s) = Some nd) (ct cls).

Lemma compile_field_grows ct open a :
  ct_grows ct -> grows open (fun s nd => lowers (tcache s) a nd) (compile_field_with env ct a).
Proof.
  intros Hct. induction a using ann_induction; simpl.
  - destruct a; try done; simpl; try apply grows_raise;
      try (apply grows_ret; intros; constructor; done).
    + destruct (int_spec a) as [[nb sgn]|] eqn:E; [by apply grows_ret; constructor|].
      destruct (float_spec a) as [nb|] eqn:Ef; [by apply grows_ret; constructor|apply grows_raise].
    + assert (Hc : grows open (fun s nd => lowers (tcache s) (AClass cls) nd) (ct cls)).
      { intros s nd s' Hs Hok. destruct (Hct _ _ _ _ _ Hs Hok) as (? & ? & ?).
        split; [done|]. split; [done|]. by constructor. }
      destruct (class_of env cls); try apply Hc. apply grows_raise.
  - destruct n as [n|]; [|apply grows_raise]. destruct a; try apply grows_raise.
    + apply grows_ret. constructor.
    + eapply grows_bind; [apply H|]. intros nd. eapply grows_bind; [apply grows_alloc|].
      intros id. apply grows_ret. intros s s1 He _ s2 He2 Hl. constructor.
      by eapply lowers_extends.
  - eapply grows_bind; [apply IHa|]. intros nd. apply grows_ret. intros s s1 He Hl.
    constructor. by eapply lowers_extends.
  - pose proof (compile_field_union env ct args) as Hu. simpl in Hu. rewrite Hu. clear Hu.
    destruct (option_inner (AUnion args)) as [t|] eqn:Et; unfold option_inner in Et;
      [|rewrite Et; apply grows_raise].
    rewrite Et. assert (Ht : t ∈ args).
    { destruct (List.filter _ args) as [|t' [|]] eqn:Ef; try discriminate. case_match; simplify_eq.
      apply list_elem_of_In. apply (proj1 (filter_In (fun a => negb (is_NoneType a)) t args)).
      rewrite Ef. by left. }
    rewrite list.Forall_forall in H. eapply grows_bind; [by apply H|]. intros nd.
    apply grows_ret. intros s s1 He Hl. apply (L_option _ _ t); [done|]. by eapply lowers_extends.
  - eapply grows_bind; [apply IHa|]. intros nd. apply grows_ret. intros s s1 He Hl.
    constructor. by eapply lowers_extends.
Qed.

Lemma compile_fields_grows ct open fs :
  ct_grows ct -> grows open (fun s nds => lowers_fields (tcache s) fs nds) (compile_fields env ct fs).
Proof.
  intros Hct. unfold compile_fields. induction fs as [|[n a] fs IH]; simpl.
  - apply grows_ret. intros. constructor.
  - apply (grows_bind _ (fun s g => n = g.1 /\ lowers (tcache s) a g.2)).
    + eapply grows_bind; [by apply compile_field_grows|]. intros nd. apply grows_ret.
      intros s s1 He Hl. split; [done|]. by eapply lowers_extends.
    + intros g. eapply grows_bind; [apply IH|]. intros nds. apply grows_ret.
      intros s s1 He1 Hnds s2 He2 [Hn Hg]. constructor.
      * split; [done|]. exact (lowers_extends _ _ _ _ He2 Hg).
      * exact (lowers_fields_extends _ _ _ _ He1 Hnds).
Qed.

(** [h'] differs from [h] at the object [id] only. *)
Definition touches (id : nat) (h h' : heap) : Prop :=
  (forall i, i <> id -> struct_fields h' i = struct_fields h i /\ enum_variants h' i = enum_variants h i) /\
  (forall c, intenum_values h' c = intenum_values h c).

Lemma touches_struct id fs h : touches id h (set_struct id fs h).
Proof.
  split; [|done]. intros i Hi. split; [|done]. unfold struct_fields, set_struct. simpl.
  by rewrite decide_False.
Qed.

Lemma touches_variant id t v h : touches id h (add_variant id t v h).
Proof.
  split; [|done]. intros i Hi. split; [done|]. unfold enum_variants, add_variant. simpl.
  by rewrite decide_False.
Qed.

Lemma complete_touch open cls nd id s h' :
  complete env (cls :: open) s -> attr_lookup cls (tcache s) = Some nd -> node_id nd = Some id ->
  touches id (theap s) h' -> complete env (cls :: open) (TState (tcache s) h' (tnext s)).
Proof.
  intros [Hf Hi Hu Hfr] Hc Hid [Ht Hn]. pose proof (Hi _ _ _ Hc Hid) as Hlt.
  split; simpl; [|done|done|intros i Hle; rewrite (proj2 (Ht i ltac:(lia))); by apply Hfr].
  intros c n Hcn.
  destruct (decide (c = cls)) as [->|Hne]; [left; by left|].
  destruct (Hf c n Hcn) as [Hin|Hfl]; [by left|right].
  assert (Hother : forall i, node_id n = Some i -> i <> id).
  { intros i Hni ->. apply Hne. by eapply Hu. }
  unfold filled in *. simpl. destruct (class_of env c); [..|done].
  - by rewrite Hn.
  - destruct Hfl as (i & -> & Hfl). exists i. split; [done|].
    by rewrite (proj2 (Ht i (Hother i eq_refl))).
  - destruct Hfl as (i & -> & Hfl). exists i. split; [done|].
    by rewrite (proj1 (Ht i (Hother i eq_refl))).
Qed.

Lemma complete_close open cls nd s :
  complete env (cls :: open) s -> attr_lookup cls (tcache s) = Some nd -> filled env s cls nd ->
  complete env open s.
Proof.
  intros [Hf Hi Hu Hfr] Hc Hfl. split; [|done..]. intros c n Hcn.
  destruct (decide (c = cls)) as [->|Hne]; [right; by simplify_eq|].
  destruct (Hf c n Hcn) as [Hin|]; [left; set_solver|by right].
Qed.

(** Caching a fresh, empty node opens its class. *)
Lemma complete_open open cls s (mk : nat -> node) :
  complete env open s -> attr_lookup cls (tcache s) = None -> (forall i, node_id (mk i) = Some i) ->
  let s1 := TState ((cls, mk (tnext s)) :: tcache s) (theap s) (S (tnext s)) in
  complete env (cls :: open) s1 /\ extends s s1.
Proof.
  intros [Hf Hi Hu Hfr] Hc Hmk s1.
  assert (He : extends s s1).
  { split; simpl; auto. intros c n Hcn. case_decide; [congruence|done]. }
  split; [|done]. split; simpl.
  - intros c n. case_decide; [subst; left; by left|]. intros Hcn.
    destruct (Hf c n Hcn) as [|Hfl]; [left; by right|right].
    eapply filled_extends; eauto.
  - intros c n i. case_decide; [|intros H1 H2; specialize (Hi _ _ _ H1 H2); lia].
    intros [= <-]. rewrite Hmk. intros [= <-]. lia.
  - intros c1 c2 n1 n2 i. repeat case_decide; subst; try done.
    + intros [= <-] H2 Hid1 Hid2. rewrite Hmk in Hid1. simplify_eq.
      specialize (Hi _ _ _ H2 Hid2). lia.
    + intros H1 [= <-] Hid1 Hid2. rewrite Hmk in Hid2. simplify_eq.
      specialize (Hi _ _ _ H1 Hid1). lia.
    + eauto.
  - intros i Hle. apply Hfr. lia.
Qed.

(** A write at an object younger than [s0]. *)
Lemma extends_touch s0 s id h' :
  extends s0 s -> (tnext s0 <= id)%nat -> touches id (theap s) h' ->
  extends s0 (TState (tcache s) h' (tnext s)).
Proof.
  intros [Hc Hn Hs He Hi] Hid [Ht Hint]. split; simpl; auto.
  - intros i Hlt. rewrite (proj1 (Ht i ltac:(lia))). auto.
  - intros i Hlt. rewrite (proj2 (Ht i ltac:(lia))). auto.
  - intros c n Hcn. rewrite Hint. eauto.
Qed.

Definition variant_filled (cache : list (string * node)) (v : Z * string) (w : Z * (string * fields)) : Prop :=
  v = (w.1, w.2.1) /\
  exists fs, class_of env v.2 = CDataclass fs /\ lowers_fields cache fs w.2.2.

Lemma fill_variants_ok ct open cls id s0 vs s s' :
  ct_grows ct -> extends s0 s -> (tnext s0 <= id < tnext s)%nat ->
  complete env (cls :: open) s -> attr_lookup cls (tcache s) = Some (BorshEnumNode id cls) ->
  fill_variants env ct id vs s = (Ok tt, s') ->
  extends s0 s' /\ complete env (cls :: open) s' /\
  (forall c n, attr_lookup c (tcache s) = Some n -> attr_lookup c (tcache s') = Some n) /\
  exists ws, enum_variants (theap s') id = enum_variants (theap s) id ++ ws /\
             Forall2 (variant_filled (tcache s')) vs ws.
Proof.
  intros Hct. revert s; induction vs as [|[t v] vs IH]; intros s He Hid Hc Hl Hok; simpl in Hok.
  - injection Hok as <-. split; [done|]. split; [done|]. split; [done|].
    exists []. split; [by rewrite app_nil_r|constructor].
  - apply TM_bind_Ok in Hok as (fs & s1 & Hfs & Hok).
    apply TM_bind_Ok in Hok as (nds & s2 & Hnds & Hok).
    apply TM_bind_Ok in Hok as (u & s3 & Hmod & Hok).
    unfold _dataclass_fields in Hfs. destruct (class_of env v) as [| |fs'|] eqn:Hcv; try discriminate.
    injection Hfs as <- <-. injection Hmod as _ <-.
    destruct (compile_fields_grows ct _ _ Hct _ _ _ Hc Hnds) as (Hc2 & He2 & Hlow).
    pose proof (ex_cache _ _ He2 _ _ Hl) as Hl2.
    destruct (IH (TState (tcache s2) (add_variant id t (v, nds) (theap s2)) (tnext s2)))
      as (He' & Hc' & Hext & ws & Hws & Hall); [| | |done|done|].
    + apply (extends_touch _ _ id); [by etrans|lia|apply touches_variant].
    + simpl. pose proof (ex_next _ _ He2). lia.
    + by eapply complete_touch; [..|apply touches_variant].
    + split; [done|]. split; [done|].
      split; [intros c n Hcn; exact (Hext _ _ (ex_cache _ _ He2 _ _ Hcn))|].
      exists ((t, (v, nds)) :: ws). split.
      * rewrite Hws. unfold enum_variants at 1. simpl. rewrite decide_True by done. simpl.
        rewrite (ex_enum _ _ He2) by lia. by rewrite <-app_assoc.
      * constructor; [|done]. split; [done|]. exists fs'. split; [done|]. simpl.
        eapply list.Forall2_impl; [exact Hlow|]. intros f g [? Hg]. split; [done|].
        simpl in Hext. clear -Hg Hext. induction Hg; econstructor; eauto.
Qed.

(** The [IntEnum] case: the class is cached with its values. *)
Lemma intenum_grows open cls vs s :
  complete env open s -> attr_lookup cls (tcache s) = None -> class_of env cls = CIntEnum vs ->
  let s' := TState ((cls, IntEnumNode cls) :: tcache s) (set_intenum cls vs (theap s)) (tnext s) in
  complete env open s' /\ extends s s' /\ attr_lookup cls (tcache s') = Some (IntEnumNode cls).
Proof.
  intros [Hf Hi Hu Hfr] Hl Hcls s'. unfold s'.
  assert (He : extends s (TState ((cls, IntEnumNode cls) :: tcache s)
                            (set_intenum cls vs (theap s)) (tnext s))).
  { split; simpl; auto.
    - intros c n Hcn. case_decide; [congruence|done].
    - intros c n Hcn. unfold intenum_values. simpl. rewrite decide_False; [done|congruence]. }
  split; [|split; [done|simpl; by rewrite decide_True]]. split; simpl.
  + intros c n. case_decide; [intros [= <-]; subst; right|].
    * unfold filled. simpl. rewrite Hcls. unfold intenum_values. simpl. by rewrite decide_True.
    * intros Hcn. destruct (Hf c n Hcn); [by left|right]. eapply filled_extends; eauto.
  + intros c n i. case_decide; [by intros [= <-]|eauto].
  + intros c1 c2 n1 n2 i. repeat case_decide; subst; try done; [by intros [= <-]| |eauto].
    by intros _ [= <-].
  + done.
Qed.

Lemma compile_type_step_grows ct : ct_grows ct -> ct_grows (compile_type_step env ct).
Proof.
  intros Hct open cls s nd s' Hc Hok. unfold compile_type_step in Hok.
  apply TM_bind_Ok in Hok as (o & s1 & [= <- <-] & Hok).
  destruct (attr_lookup cls (tcache s)) as [nd'|] eqn:Hl; 
    [injection Hok as <- <-; split; [done|split; [reflexivity|done]]|].
  destruct (class_of env cls) as [vs|vs|fs|] eqn:Hcls; [| | |discriminate].
  - injection Hok as <- <-. by apply intenum_grows.
  - apply TM_bind_Ok in Hok as (id & s1 & [= <- <-] & Hok).
    apply TM_bind_Ok in Hok as (u & s1 & [= <- <-] & Hok).
    apply TM_bind_Ok in Hok as ([] & s2 & Hfill%pop_on_raise_Ok & Hok). injection Hok as <- <-.
    destruct (complete_open open cls s (fun i => BorshEnumNode i cls) Hc Hl ltac:(done)) as [Hc1 He1].
    destruct (fill_variants_ok ct open cls (tnext s) s vs _ _ Hct He1 ltac:(simpl; lia) Hc1
                ltac:(simpl; by rewrite decide_True) Hfill) as (He2 & Hc2 & Hext & ws & Hws & Hall).
    assert (Hl2 : attr_lookup cls (tcache s2) = Some (BorshEnumNode (tnext s) cls)).
    { apply Hext. simpl. by rewrite decide_True. }
    split; [|by split]. eapply complete_close; [done|done|]. unfold filled. rewrite Hcls.
    exists (tnext s). split; [done|]. rewrite Hws. simpl.
    by rewrite (co_fresh _ _ _ Hc) by lia.
  - apply TM_bind_Ok in Hok as (id & s1 & [= <- <-] & Hok).
    apply TM_bind_Ok in Hok as (u & s1 & [= <- <-] & Hok).
    apply TM_bind_Ok in Hok as ([] & s2 & Hfill%pop_on_raise_Ok & Hok). injection Hok as <- <-.
    apply TM_bind_Ok in Hfill as (nds & s2' & Hnds & [= <-]).
    destruct (complete_open open cls s (fun i => StructNode i cls) Hc Hl ltac:(done)) as [Hc1 He1].
    destruct (compile_fields_grows ct _ _ Hct _ _ _ Hc1 Hnds) as (Hc2 & He2 & Hlow).
    assert (Hl2 : attr_lookup cls (tcache s2') = Some (StructNode (tnext s) cls)).
    { apply (ex_cache _ _ He2). simpl. by rewrite decide_True. }
    split; [|split].
    + eapply complete_close; [|done|].
      * by eapply complete_touch; [..|apply touches_struct].
      * unfold filled. rewrite Hcls. exists (tnext s). split; [done|]. simpl.
        unfold struct_fields. simpl. by rewrite decide_True.
    + apply (extends_touch _ _ (tnext s)); [by etrans|lia|apply touches_struct].
    + done.
Qed.

Lemma compile_type_fuel_grows fuel : ct_grows (compile_type_fuel env fuel).
Proof.
  induction fuel as [|fuel IH]; intros open cls; [discriminate|]. by apply compile_type_step_grows.
Qed.
End filled.

Lemma tinit_complete env : complete env [] (tinit env).
Proof. by split. Qed.

(** ** Termination: every recursive call has one more class cached *)

Create HintDb tret discriminated.

Section termination.
Context (env : cenv).

Definition uncached (s : tstate) : nat :=
  length (filter (fun e : string * class_def => attr_lookup e.1 (tcache s) = None) (classes env)).

Definition tret {A} (k : nat) (m : TM A) : Prop :=
  forall s, (uncached s < k)%nat ->
    returns (m s).1 /\ forall a, (m s).1 = Ok a -> (uncached (m s).2 <= uncached s)%nat.

Lemma tret_bind {A B} k (m : TM A) (f : A -> TM B) :
  tret k m -> (forall a, tret k (f a)) -> tret k (m ≫= f).
Proof.
  intros Hm Hf s Hs. destruct (Hm s Hs) as [Hr Hu]. unfold mbind, TM_bind.
  destruct (m s) as [[a|e] s'] eqn:E; simpl in *; [|split; [congruence|discriminate]].
  specialize (Hu a eq_refl). destruct (Hf a s' ltac:(lia)) as [Hr' Hu']. split; [done|].
  intros b Hb. specialize (Hu' b Hb). lia.
Qed.

Lemma tret_ret {A} k (a : A) : tret k (mret a).
Proof. intros s Hs. split; [discriminate|done]. Qed.

Lemma tret_raise {A} k e : e <> OutOfFuel -> tret k (@traise A e).
Proof. intros He s Hs. split; [simpl; congruence|discriminate]. Qed.

Lemma tret_same {A} k (m : TM A) :
  (forall s, returns (m s).1 /\ tcache (m s).2 = tcache s) -> tret k m.
Proof.
  intros Hm s Hs. destruct (Hm s) as [Hr Hc]. split; [done|]. intros. unfold uncached.
  by rewrite Hc.
Qed.

Lemma tret_pop {A} k cls (m : TM A) : tret k m -> tret k (pop_on_raise cls m).
Proof.
  intros Hm s Hs. destruct (Hm s Hs) as [Hr Hu]. unfold pop_on_raise.
  destruct (m s) as [[a|e] s']; simpl in *; [done|]. split; [done|discriminate].
Qed.

Hint Resolve tret_bind tret_ret : tret.
Hint Extern 1 (tret _ (traise _)) => (apply tret_raise; discriminate) : tret.

Lemma tret_field k ct a : (forall c, tret k (ct c)) -> tret k (compile_field_with env ct a).
Proof.
  intros Hct. induction a using ann_induction; simpl.
  - destruct a; try done; simpl; auto with tret.
    + destruct (int_spec a) as [[? ?]|]; auto with tret. destruct (float_spec a); auto with tret.
    + destruct (class_of env cls); auto with tret.
  - destruct n; auto with tret. destruct a; auto with tret. apply tret_bind; [done|].
    intros. apply tret_bind; [|auto with tret]. apply tret_same. by split.
  - auto with tret.
  - destruct args as [|x [|y [|]]]; auto with tret.
    inversion H as [|? ? Hx Hr]; subst. inversion Hr as [|? ? Hy]; subst.
    destruct (is_NoneType x), (is_NoneType y); auto with tret.
  - auto with tret.
Qed.

Lemma tret_fields k ct fs : (forall c, tret k (ct c)) -> tret k (compile_fields env ct fs).
Proof.
  intros Hct. unfold compile_fields. induction fs as [|f fs IH]; simpl; auto using tret_ret.
  apply tret_bind; [|auto with tret]. apply tret_bind; [by apply tret_field|auto with tret].
Qed.

Lemma tret_variants k ct id vs : (forall c, tret k (ct c)) -> tret k (fill_variants env ct id vs).
Proof.
  intros Hct. induction vs as [|[t v] vs IH]; simpl; auto using tret_ret.
  apply tret_bind.
  - unfold _dataclass_fields. destruct (class_of env v); auto with tret.
  - intros fs. apply tret_bind; [by apply tret_fields|]. intros nds.
    apply tret_bind; [|auto]. apply tret_same. by split.
Qed.

Lemma uncached_set cls nd s :
  attr_lookup cls (tcache s) = None -> class_of env cls <> CPlain ->
  (uncached (TState ((cls, nd) :: tcache s) (theap s) (tnext s)) < uncached s)%nat.
Proof.
  intros Hn Hc. unfold uncached, class_of in *. simpl.
  destruct (attr_lookup cls (classes env)) as [c|] eqn:E; [|done]. clear Hc.
  apply attr_lookup_elem in E. induction (classes env) as [|[c' d] cs IH]; [set_solver|].
  assert (Hle : forall cs : list (string * class_def),
     (length (filter (fun e : string * class_def =>
               (if decide (cls = e.1) then Some nd else attr_lookup e.1 (tcache s)) = None) cs)
     <= length (filter (fun e => attr_lookup e.1 (tcache s) = None) cs))%nat).
  { clear -Hn. intros cs. induction cs as [|[c d] cs IH]; [done|]. rewrite !filter_cons. simpl.
    repeat case_decide; simpl; try lia; congruence. }
  rewrite !filter_cons. simpl. apply elem_of_cons in E as [E|E].
  - simplify_eq. specialize (Hle cs). destruct (decide (c' = c')); [|done].
    repeat case_decide; simpl; try lia; congruence.
  - specialize (IH E). repeat case_decide; simpl; try lia; congruence.
Qed.

(** The body of [compile_type] after the class is cached. *)
Lemma tret_open {A} k cls nd (m : TM A) :
  class_of env cls <> CPlain -> tret k m -> forall s s0, uncached s = uncached s0 ->
  attr_lookup cls (tcache s) = None -> (uncached s0 < S k)%nat ->
  returns ((_ ← cache_set cls nd; m) s).1 /\
  forall a, ((_ ← cache_set cls nd; m) s).1 = Ok a ->
    (uncached ((_ ← cache_set cls nd; m) s).2 <= uncached s0)%nat.
Proof.
  intros Hc Hm s s0 Heq Hl Hs. pose proof (uncached_set cls nd s Hl Hc) as Hu.
  unfold mbind, TM_bind, cache_set.
  destruct (Hm (TState ((cls, nd) :: tcache s) (theap s) (tnext s)) ltac:(lia)) as [Hr Hu'].
  split; [done|]. intros a Ha. specialize (Hu' a Ha). lia.
Qed.

Lemma compile_type_step_eq ct cls s :
  compile_type_step env ct cls s =
    match attr_lookup cls (tcache s) with
    | Some nd => (Ok nd, s)
    | None =>
        match class_of env cls with
        | CIntEnum vs =>
            (_ ← cache_set cls (IntEnumNode cls); mret (IntEnumNode cls))
              (TState (tcache s) (set_intenum cls vs (theap s)) (tnext s))
        | CBorshEnum vs =>
            (_ ← cache_set cls (BorshEnumNode (tnext s) cls);
             _ ← pop_on_raise cls (fill_variants env ct (tnext s) vs);
             mret (BorshEnumNode (tnext s) cls)) (TState (tcache s) (theap s) (S (tnext s)))
        | CDataclass fs =>
            (_ ← cache_set cls (StructNode (tnext s) cls);
             _ ← pop_on_raise cls (nds ← compile_fields env ct fs;
                                   modify_heap (set_struct (tnext s) nds));
             mret (StructNode (tnext s) cls)) (TState (tcache s) (theap s) (S (tnext s)))
        | CPlain =>
            traise (GenError "cannot compile type: not a dataclass, IntEnum, or BorshEnum") s
        end
    end.
Proof.
  unfold compile_type_step. unfold mbind at 1, TM_bind at 1. simpl.
  destruct (attr_lookup cls (tcache s)); [done|]. by destruct (class_of env cls).
Qed.

Lemma tret_compile_type fuel cls : tret fuel (compile_type_fuel env fuel cls).
Proof.
  revert cls; induction fuel as [|fuel IH]; intros cls s Hs; [lia|]. simpl.
  rewrite compile_type_step_eq.
  destruct (attr_lookup cls (tcache s)) eqn:Hl; [by apply (tret_ret (S fuel))|].
  destruct (class_of env cls) as [vs|vs|fs|] eqn:Hc; [| | |by apply (tret_raise (S fuel))].
  - apply (tret_open fuel); [congruence|apply tret_ret|done..].
  - apply (tret_open fuel); [congruence| |done..].
    apply tret_bind; [|intros; apply tret_ret]. by apply tret_pop, tret_variants.
  - apply (tret_open fuel); [congruence| |done..].
    apply tret_bind; [|intros; apply tret_ret]. apply tret_pop.
    apply tret_bind; [by apply tret_fields|]. intros. apply tret_same. by split.
Qed.

Lemma compile_type_returns cls s : returns (compile_type env cls s).1.
Proof.
  apply tret_compile_type. unfold uncached.
  pose proof (length_filter (fun e : string * class_def => attr_lookup e.1 (tcache s) = None)
                (classes env)). lia.
Qed.
End termination.

(** ** The compiler's theorems *)

(** C26: compiling a class succeeds only with its declared layout.  From a cache
    in which every class is filled (the empty one at import is such), a
    successful [compile_type] returns the node cached for the class, keeps what
    was cached and every existing node as they were, and leaves every cached
    class, the newly compiled ones and the recursive ones included, lowered
    field by field and variant by variant from its annotations. *)
Theorem compile_type_fills env cls s nd s' :
  complete env [] s -> compile_type env cls s = (Ok nd, s') ->
  attr_lookup cls (tcache s') = Some nd /\ complete env [] s' /\ extends s s'.
Proof.
  intros Hc Hok. destruct (compile_type_fuel_grows env _ [] cls s nd s' Hc Hok) as (? & ? & ?).
  done.
Qed.

(** C27: what the compiler builds satisfies the codec's assumptions.  For well
    formed classes every call of [compile_type], failing calls included, keeps
    the heap of nodes well formed, and a node it returns is well formed. *)
Theorem compile_type_wf env cls s :
  cenv_wf env = true -> tstate_wf env s ->
  tstate_wf env (compile_type env cls s).2 /\
  forall nd, (compile_type env cls s).1 = Ok nd -> node_wf nd = true /\ nullable nd = false.
Proof. intros Henv Hs. by apply (compile_type_fuel_wf env Henv). Qed.

(** C30: the compiler terminates on every class table, cyclic ones included. *)
Theorem compile_type_terminates env cls s : (compile_type env cls s).1 <> Raise OutOfFuel.
Proof. apply compile_type_returns. Qed.

(** C4: end to end, from class declarations to bytes.  A class compiled at
    import decodes instruction data byte-exactly: re-encoding the decoded value
    gives the input back. *)
Theorem compiled_decode_encode `{Native} env cls nd s b v :
  cenv_wf env = true -> compile_type env cls (tinit env) = (Ok nd, s) ->
  decode (theap s) b nd IX_DATA = Ok v -> encode (theap s) v nd = Ok b.
Proof.
  intros Henv Hok Hd.
  destruct (compile_type_fuel_wf env Henv (S (length (classes env))) cls (tinit env) (tinit_wf env))
    as [(Hh & _ & _) Hn].
  change (compile_type_fuel env _ cls) with (compile_type env cls) in *.
  rewrite Hok in Hh, Hn. simpl in *. destruct (Hn nd eq_refl) as [Hwf _].
  apply (decode_borsh _ Hh nd b v Hwf) in Hd. by apply (write_complete _ Hh MAX_DECODE_DEPTH nd v b [] []).
Qed.

(** [class A: b: B; x: int] and [class B: a: A]: [x] has no width, so [A] does
    not compile. *)
Definition poison_env : cenv := {|
  classes := [("A", CDataclass [("b", AClass "B"); ("x", AInt)]);
              ("B", CDataclass [("a", AClass "A")])]%string;
  vtags := [] |}.

Definition poison_value : pyval :=
  (VObj "B" [("a", VObj "A" [("b", VNone); ("x", VInt 7)])])%string.


(** *** Witnesses *)

(** [class List: head: u8; tail: Optional[List]; tag: Shape] with a sum type. *)
Definition list_env : cenv := {|
  classes := [("List", CDataclass [("head", AAlias u8); ("tail", AUnion [AClass "List"; ANoneType]);
                                   ("shape", AClass "Shape")]);
              ("Shape", CBorshEnum [(0, "Dot"); (1, "Circle")]);
              ("Dot", CDataclass []); ("Circle", CDataclass [("r", AAlias f32)])]%string;
  vtags := [("Dot", 0); ("Circle", 1)]%string |}.

Definition list_state : tstate := (compile_type list_env "List" (tinit list_env)).2.

Lemma compile_type_fills_witness :
  attr_lookup "List"%string (tcache list_state) = Some (StructNode 0 "List") /\
  complete list_env [] list_state /\ extends (tinit list_env) list_state.
Proof.
  apply (compile_type_fills list_env "List" (tinit list_env)); [apply tinit_complete|].
  vm_compute. reflexivity.
Defined.

Lemma compile_type_wf_witness :
  tstate_wf list_env list_state /\
  forall nd, (compile_type list_env "List" (tinit list_env)).1 = Ok nd ->
    node_wf nd = true /\ nullable nd = false.
Proof. apply (compile_type_wf list_env "List" (tinit list_env)); [reflexivity|apply tinit_wf]. Defined.

Lemma compiled_decode_encode_witness :
  @encode {| address_from_str _ := None; address_to_str _ := ""%string;
             find_program_address _ _ := ([], 0) |}
    (theap list_state)
    (VObj "List" [("head", VInt 1);
       ("tail", VObj "List" [("head", VInt 2); ("tail", VNone); ("shape", VObj "Dot" [])]);
       ("shape", VObj "Circle" [("r", VFloat 0x3FF8000000000000)])])%string
    (StructNode 0 "List")
  = Ok [x01; x01; x02; x00; x00; x01; x00; x00; xc0; x3f].
Proof.
  apply (compiled_decode_encode list_env "List" (StructNode 0 "List") list_state);
    vm_compute; reflexivity.
Defined.

Lemma assign_tags_lookup i vs k :
  assign_tags i vs !! k = (fun v => (default (i + Z.of_nat k) v.2, v.1)) <$> vs !! k.
Proof.
  revert i k; induction vs as [|[v tag] vs IH]; intros i [|k]; cbn -[Z.of_nat].
  - done.
  - done.
  - by rewrite Z.add_0_r.
  - rewrite IH. replace (i + 1 + Z.of_nat k) with (i + Z.of_nat (S k)) by lia. done.
Qed.

Lemma assign_tags_unique vs by_tag :
  (forall k, by_tag !! k = (fun v => (default (Z.of_nat k) v.2, v.1)) <$> vs !! k) ->
  by_tag = assign_tags 0 vs.
Proof. intros H. apply list_eq. intros k. by rewrite H, assign_tags_lookup. Qed.

(** The metaclass accepts exactly the variant lists Borsh can encode: at
    most 256 variants with distinct [u8] tags; the k-th variant is filed under
    its explicit tag, and under [k] if it has none. *)
Theorem BorshEnumMeta_new_spec vs by_tag :
  BorshEnumMeta_new vs = Ok by_tag <->
  (forall k, by_tag !! k = (fun v => (default (Z.of_nat k) v.2, v.1)) <$> vs !! k) /\
  (length vs <= 256)%nat /\ (forall t v, (t, v) ∈ by_tag -> 0 <= t <= 255) /\ NoDup by_tag.*1.
Proof.
  unfold BorshEnumMeta_new. destruct (256 <? length vs)%nat eqn:El.
  { apply Nat.ltb_lt in El. split; [discriminate|]. intros (_ & Hl & _). lia. }
  apply Nat.ltb_ge in El. destruct (forallb _ _) eqn:Ef; simpl.
  - destruct (bool_decide _) eqn:En; simpl.
    + apply bool_decide_eq_true in En. split; [|by intros (->%assign_tags_unique & _)].
      intros [= <-]. split; [intros; apply assign_tags_lookup|]. split; [done|]. split; [|done].
      intros t v Hin. apply (forallb_elem _ _ _ Ef) in Hin. simpl in Hin. zify_bools. lia.
    + apply bool_decide_eq_false in En. split; [discriminate|].
      by intros (->%assign_tags_unique & _ & _ & Hn).
  - split; [discriminate|]. intros (->%assign_tags_unique & _ & Hr & _). exfalso.
    assert (Ht : forallb (fun v => (0 <=? v.1) && (v.1 <=? 255)) (assign_tags 0 vs) = true); [|congruence].
    apply forallb_forall. intros [t v] Hin%list_elem_of_In. apply Hr in Hin. simpl.
    apply andb_true_iff. split; apply Z.leb_le; lia.
Qed.
