(* ===== verification/Labels.v ===== *)
(** * Labels of addresses in call traces ([_labels.py])

    The module's state is the table of assigned labels and the display switch;
    addresses are their base58 text. *)

From Stdlib Require Import ZArith Lia.
From Stdlib Require Import Strings.Byte.
From stdpp Require Import base decidable option list gmap strings sorting numbers.
From S2P Require Import Prelude.
From S2P Require Import Values.

#[local] Open Scope string_scope.

Definition WELL_KNOWN : list (string * string) := [
  ("11111111111111111111111111111111", "System Program");
  ("TokenkegQfeZyiNwAJbNbGKPFXCWuBvf9Ss623VQ5DA", "Token Program");
  ("TokenzQdBNbLqP5VEhdkAS6EPFLC1PHnBqCXEpPxuEb", "Token-2022 Program");
  ("ATokenGPvbdGVxr1b2hvZbsiqW5xWH25efTNsLJA8knL", "Associated Token Account Program");
  ("Memo1UhkJRfHyvLMcVucJwxXeuD728EqVDDwQDxFMNo", "Memo Program (v1)");
  ("MemoSq4gqABAXKb96qnH8TysNcWxMyWCqXgDLGmfcHr", "Memo Program");
  ("ComputeBudget111111111111111111111111111111", "Compute Budget Program");
  ("Stake11111111111111111111111111111111111111", "Stake Program");
  ("Vote111111111111111111111111111111111111111", "Vote Program");
  ("Ed25519SigVerify111111111111111111111111111", "Ed25519 Program");
  ("KeccakSecp256k11111111111111111111111111111", "Secp256k1 Program");
  ("Secp256r1SigVerify1111111111111111111111111", "Secp256r1 Program");
  ("SysvarRent111111111111111111111111111111111", "Sysvar: Rent");
  ("SysvarC1ock11111111111111111111111111111111", "Sysvar: Clock");
  ("SysvarRecentB1ockHashes11111111111111111111", "Sysvar: RecentBlockhashes");
  ("Sysvar1nstructions1111111111111111111111111", "Sysvar: Instructions");
  ("SysvarStakeHistory1111111111111111111111111", "Sysvar: StakeHistory");
  ("SysvarEpochSchedu1e111111111111111111111111", "Sysvar: EpochSchedule");
  ("SysvarS1otHashes111111111111111111111111111", "Sysvar: SlotHashes");
  ("SysvarRewards111111111111111111111111111111", "Sysvar: Rewards")].

Record labels := mkLabels {
  _LABELS : list (string * string);
  _FULL_ADDRESSES : bool;
}.

Definition labels_init : labels := mkLabels [] false.

Definition set_full_addresses (value : bool) (l : labels) : labels := mkLabels (_LABELS l) value.

Definition set_label (pubkey name : string) (l : labels) : labels :=
  mkLabels (dict_set pubkey name (_LABELS l)) (_FULL_ADDRESSES l).

Definition get_label (pubkey : string) (l : labels) : option string := attr_lookup pubkey (_LABELS l).

Definition clear_labels (l : labels) : labels := mkLabels [] (_FULL_ADDRESSES l).

(** [WELL_KNOWN.get(s) or _LABELS.get(s)]: no well-known name is empty. *)
Definition program_name (s : string) (l : labels) : option string :=
  match attr_lookup s WELL_KNOWN with
  | Some n => if decide (n = "") then attr_lookup s (_LABELS l) else Some n
  | None => attr_lookup s (_LABELS l)
  end.

(** [f"{s[:4]}…{s[-4:]}"]. *)
Definition truncated (s : string) : string :=
  String.substring 0 4 s +:+ "…" +:+ String.substring (String.length s - 4) 4 s.

Definition resolve_label (s : string) (l : labels) : string :=
  match attr_lookup s WELL_KNOWN with
  | Some n => n
  | None =>
      match attr_lookup s (_LABELS l) with
      | Some n => n
      | None => if _FULL_ADDRESSES l || (String.length s <=? 9)%nat then s else truncated s
      end
  end.

(** The label operations a test run performs. *)
Inductive label_op := OpSet (pubkey name : string) | OpClear | OpFull (value : bool).

Definition label_step (l : labels) (op : label_op) : labels :=
  match op with
  | OpSet k n => set_label k n l
  | OpClear => clear_labels l
  | OpFull b => set_full_addresses b l
  end.

(** The label of [k] after the operations [ops]: the last one assigned since
    the last clear. *)
Fixpoint last_label (k : string) (acc : option string) (ops : list label_op) : option string :=
  match ops with
  | [] => acc
  | OpSet k' n :: ops => last_label k (if decide (k' = k) then Some n else acc) ops
  | OpClear :: ops => last_label k None ops
  | OpFull _ :: ops => last_label k acc ops
  end.

Lemma get_label_steps k ops l :
  get_label k (foldl label_step l ops) = last_label k (get_label k l) ops.
Proof.
  revert l; induction ops as [|[k' n| |b] ops IH]; intros l; simpl; [done| | |]; rewrite IH.
  - unfold get_label, set_label. simpl. by rewrite lookup_dict_set.
  - done.
  - done.
Qed.

(** What an address displays as, after any sequence of label operations: a
    well-known name cannot be overridden; otherwise the label assigned last
    since the last clear; otherwise the address, in full or shortened. *)
Theorem resolve_label_history k ops :
  let l := foldl label_step labels_init ops in
  resolve_label k l =
    match attr_lookup k WELL_KNOWN, last_label k None ops with
    | Some n, _ => n
    | None, Some n => n
    | None, None => if _FULL_ADDRESSES l || (String.length k <=? 9)%nat then k else truncated k
    end.
Proof.
  intros l. pose proof (get_label_steps k ops labels_init) as Hg. fold l in Hg.
  unfold resolve_label. unfold get_label in Hg. simpl in Hg. rewrite Hg.
  by destruct (attr_lookup k WELL_KNOWN), (last_label k None ops).
Qed.
