(* ===== verification/Interface.v ===== *)
(** * The program registry ([_interface.py])

    Instruction dispatch by longest discriminator prefix, decoding through the
    registered closures, events and return data.  The closures are fields of
    the definitions, as in the code; [Builder] supplies them. *)

From Stdlib Require Import ZArith Lia.
From Stdlib Require Import Strings.Byte.
From stdpp Require Import base decidable option list gmap strings sorting numbers.
From S2P Require Import Prelude.
From S2P Require Import Bytes.
From S2P Require Import Values.
From S2P Require Import Labels.

Abbreviation args := (list (string * pyval)).

Record DecodedInstruction := mkDecoded {
  di_program_name : option string;
  di_name : option string;
  di_args : args;
  di_account_names : list (option string);
}.

Record InstructionDef := mkDef {
  def_name : string;
  def_discriminator : bytes;
  def_account_names : list string;
  def_decode_args : bytes -> res args;
  def_decode_return : option (bytes -> res pyval);
}.

(** An event class: its name and its [decode] classmethod. *)
Record event_cls := mkEvent { ev_name : string; ev_decode : bytes -> res pyval }.

(** [refusing]: the reason of a [RefusingInterface]. *)
Record ProgramInterface := mkIface {
  program_id : string;
  iface_name : string;
  _defs : list InstructionDef;
  _events : list (bytes * event_cls);
  refusing : option string;
}.

Definition new_iface (pid name : string) : ProgramInterface := mkIface pid name [] [] None.
Definition RefusingInterface (pid name reason : string) : ProgramInterface :=
  mkIface pid name [] [] (Some reason).

Definition push_def (d : InstructionDef) (i : ProgramInterface) : ProgramInterface :=
  mkIface (program_id i) (iface_name i) (_defs i ++ [d]) (_events i) (refusing i).

Definition iface_add (name : string) (disc : bytes) (names : list string)
  (dec : option (bytes -> res args)) (ret : option (bytes -> res pyval)) (i : ProgramInterface)
  : ProgramInterface :=
  push_def (mkDef name disc names (default (fun _ => Ok []) dec) ret) i.

Definition add_refusing (name : string) (disc : bytes) (reason : string) (i : ProgramInterface)
  : ProgramInterface :=
  push_def (mkDef name disc [] (fun _ => Raise (RefuseToDecode reason)) None) i.

Definition add_event (disc : bytes) (cls : event_cls) (i : ProgramInterface) : ProgramInterface :=
  mkIface (program_id i) (iface_name i) (_defs i) (dict_set disc cls (_events i)) (refusing i).

(** [data[: len(disc)] == disc]. *)
Definition matches (data : bytes) (d : InstructionDef) : bool :=
  bool_decide (take (length (def_discriminator d)) data = def_discriminator d).

Definition disc_len (d : InstructionDef) : nat := length (def_discriminator d).

(** One turn of the loop of [_match]. *)
Definition match_step (data : bytes) (best : option InstructionDef) (d : InstructionDef)
  : option InstructionDef :=
  if matches data d then
    match best with
    | None => Some d
    | Some b => if (disc_len b <? disc_len d)%nat then Some d else best
    end
  else best.

Definition _match (defs : list InstructionDef) (data : bytes) : option InstructionDef :=
  foldl (match_step data) None defs.

Definition decode_event (i : ProgramInterface) (data : bytes) : option pyval :=
  cls ← (if (8 <=? length data)%nat then attr_lookup (take 8 data) (_events i) else None);
  match ev_decode cls data with Ok v => Some v | Raise _ => None end.

(** [names[:n]] padded with [None] to [n]. *)
Definition pad_names (names : list string) (n : nat) : list (option string) :=
  let names := Some <$> take n names in
  names ++ replicate (n - length names) None.

Definition iface_decode (i : ProgramInterface) (data : bytes) (n_accounts : nat)
  : res DecodedInstruction :=
  match refusing i with
  | Some reason => Raise (RefuseToDecode reason)
  | None =>
      match _match (_defs i) data with
      | None => Ok (mkDecoded (Some (iface_name i)) None [] (replicate n_accounts None))
      | Some d =>
          a ← def_decode_args d (drop (disc_len d) data);
          Ok (mkDecoded (Some (iface_name i)) (Some (def_name d)) a
                        (pad_names (def_account_names d) n_accounts))
      end
  end.

(** [REGISTRY], keyed by the base58 program id. *)
Abbreviation registry := (list (string * ProgramInterface)).

Definition register (i : ProgramInterface) (r : registry) : registry := dict_set (program_id i) i r.

Definition decode_instruction (r : registry) (l : labels) (pid : string) (data : bytes)
  (n_accounts : nat) : res DecodedInstruction :=
  match attr_lookup pid r with
  | None => Ok (mkDecoded (program_name pid l) None [] (replicate n_accounts None))
  | Some i => iface_decode i data n_accounts
  end.

Definition decode_return_value (r : registry) (pid : string) (ix_data : option bytes) (raw : bytes)
  : res pyval :=
  match attr_lookup pid r with
  | None => Raise (ReturnDataError "no generated interface")
  | Some i =>
      match ix_data with
      | None => Raise (ReturnDataError "not attributed to an instruction")
      | Some ix =>
          match _match (_defs i) ix with
          | None => Raise (ReturnDataError "no instruction matched")
          | Some d =>
              match def_decode_return d with
              | None => Raise (ReturnDataError "declares no return type")
              | Some dec =>
                  match dec raw with
                  | Ok v => Ok v
                  | Raise (ReturnDataError m) => Raise (ReturnDataError m)
                  | Raise _ => Raise (ReturnDataError "did not decode")
                  end
              end
          end
      end
  end.

Inductive event_result :=
  | Event (v : pyval)
  | UnknownEvent (pid : string) (discriminator data : bytes).

Definition unknown_event (pid : string) (data : bytes) : event_result :=
  UnknownEvent pid (take 8 data) data.

Definition decode_events (r : registry) (pid : string) (payloads : list bytes) : list event_result :=
  let iface := attr_lookup pid r in
  map (fun raw => match iface ≫= fun i => decode_event i raw with
                  | Some v => Event v
                  | None => unknown_event pid raw
                  end) payloads.

(** ** Dispatch is longest prefix *)

(** [d] is the first of the longest matches of [defs]. *)
Definition is_best (defs : list InstructionDef) (data : bytes) (d : InstructionDef) : Prop :=
  exists l1 l2, defs = l1 ++ d :: l2 /\ matches data d = true /\
    (forall d', d' ∈ l1 -> matches data d' = true -> (disc_len d' < disc_len d)%nat) /\
    (forall d', d' ∈ l2 -> matches data d' = true -> (disc_len d' <= disc_len d)%nat).

Lemma match_snoc defs data d : _match (defs ++ [d]) data = match_step data (_match defs data) d.
Proof. unfold _match. by rewrite foldl_app. Qed.

Lemma match_best defs data :
  match _match defs data with
  | Some d => is_best defs data d
  | None => forall d, d ∈ defs -> matches data d = false
  end.
Proof.
  induction defs as [|d defs IH] using rev_ind; [set_solver|].
  rewrite match_snoc. unfold match_step.
  destruct (_match defs data) as [b|]; destruct (matches data d) eqn:Em.
  - destruct IH as (l1 & l2 & -> & Hm & H1 & H2). destruct (disc_len b <? disc_len d)%nat eqn:El.
    + apply Nat.ltb_lt in El. exists (l1 ++ b :: l2), []. split; [done|]. split; [done|].
      split; [|set_solver]. intros d' Hin Hd'.
      apply elem_of_app in Hin as [Hin|Hin]; [specialize (H1 _ Hin Hd'); lia|].
      apply elem_of_cons in Hin as [->|Hin]; [lia|]. specialize (H2 _ Hin Hd'). lia.
    + apply Nat.ltb_ge in El. exists l1, (l2 ++ [d]). split; [by rewrite <-app_assoc|].
      split; [done|]. split; [done|]. intros d' Hin Hd'.
      apply elem_of_app in Hin as [Hin|Hin%list_elem_of_singleton]; [auto|by subst].
  - destruct IH as (l1 & l2 & -> & Hm & H1 & H2). exists l1, (l2 ++ [d]).
    split; [by rewrite <-app_assoc|]. split; [done|]. split; [done|]. intros d' Hin Hd'.
    apply elem_of_app in Hin as [Hin|Hin%list_elem_of_singleton]; [auto|congruence].
  - exists defs, []. split; [done|]. split; [done|]. split; [|set_solver].
    intros d' Hin Hd'. rewrite IH in Hd'; done.
  - intros d' [Hin|Hin%list_elem_of_singleton]%elem_of_app; [auto|by subst].
Qed.

Lemma is_best_unique defs data d1 d2 : is_best defs data d1 -> is_best defs data d2 -> d1 = d2.
Proof.
  intros (l1 & l2 & -> & Hm & H1 & H2) (k1 & k2 & Heq & Hm' & K1 & K2).
  apply app_eq_inv in Heq as [(k & -> & Hk)|(k & -> & Hk)].
  - destruct k as [|x k]; [by injection Hk|]. injection Hk as <- Hk. subst k2.
    pose proof (H1 d2 ltac:(set_solver) Hm'). pose proof (K2 d1 ltac:(set_solver) Hm). lia.
  - destruct k as [|x k]; [by injection Hk|]. injection Hk as <- Hk. subst l2.
    pose proof (K1 d1 ltac:(set_solver) Hm). pose proof (H2 d2 ltac:(set_solver) Hm'). lia.
Qed.

(** Dispatch picks the longest matching discriminator, the first declared
    of several equally long ones, and matches nothing exactly when no
    discriminator is a prefix of the data. *)
Theorem match_longest_prefix defs data :
  (forall d, _match defs data = Some d <-> is_best defs data d) /\
  (_match defs data = None <-> forall d, d ∈ defs -> matches data d = false).
Proof.
  pose proof (match_best defs data) as Hb. destruct (_match defs data) as [b|].
  - split.
    + intros d. split; [by intros [= <-]|]. intros Hd. f_equal. by eapply is_best_unique.
    + split; [discriminate|]. intros Hn. destruct Hb as (l1 & l2 & -> & Hm & _).
      rewrite Hn in Hm; [discriminate|set_solver].
  - split; [|done]. intros d. split; [discriminate|].
    intros (l1 & l2 & -> & Hm & _). rewrite Hb in Hm; [discriminate|set_solver].
Qed.

Lemma length_pad_names names n : length (pad_names names n) = n.
Proof. unfold pad_names. rewrite length_app, length_replicate, length_fmap, length_take. lia. Qed.

(** A decoded instruction has one role name per account slot, whatever the
    number of accounts passed, and a matched instruction that cannot be decoded
    raises: it never appears as decoded with empty arguments. *)
Theorem decode_instruction_spec r l pid data n :
  match decode_instruction r l pid data n with
  | Ok dec =>
      length (di_account_names dec) = n /\
      forall i, attr_lookup pid r = Some i ->
        match di_name dec with
        | Some name =>
            exists d, _match (_defs i) data = Some d /\ name = def_name d /\
              def_decode_args d (drop (disc_len d) data) = Ok (di_args dec)
        | None => _match (_defs i) data = None /\ di_args dec = []
        end
  | Raise e =>
      exists i, attr_lookup pid r = Some i /\
        (refusing i = None ->
         exists d, _match (_defs i) data = Some d /\
           def_decode_args d (drop (disc_len d) data) = Raise e)
  end.
Proof.
  unfold decode_instruction, iface_decode. destruct (attr_lookup pid r) as [i|]; simpl.
  - destruct (refusing i) eqn:Er; [exists i; split; [done|congruence]|].
    destruct (_match (_defs i) data) as [d|] eqn:Em; simpl.
    + destruct (def_decode_args d _) as [a|e] eqn:Ea; simpl.
      * split; [apply length_pad_names|]. intros i' [= <-]. eauto.
      * exists i. split; [done|]. eauto.
    + split; [apply length_replicate|]. by intros i' [= <-].
  - split; [apply length_replicate|discriminate].
Qed.

(** Return data is decoded or refused, and every failure, whatever the
    decoder raised, reaches the caller as [ReturnDataError]. *)
Theorem decode_return_value_errors r pid ix raw e :
  decode_return_value r pid ix raw = Raise e -> exists m, e = ReturnDataError m.
Proof.
  unfold decode_return_value. intros H. repeat (case_match; try discriminate); simplify_eq; eauto.
Qed.

(** The events of a node align one to one with its payloads, none dropped:
    each is the decoded event, or the raw payload kept whole. *)
Theorem decode_events_aligned r pid payloads k raw :
  payloads !! k = Some raw ->
  length (decode_events r pid payloads) = length payloads /\
  (decode_events r pid payloads !! k = Some (UnknownEvent pid (take 8 raw) raw) \/
   exists i cls v, attr_lookup pid r = Some i /\ attr_lookup (take 8 raw) (_events i) = Some cls /\
     ev_decode cls raw = Ok v /\ decode_events r pid payloads !! k = Some (Event v)).
Proof.
  intros Hk. unfold decode_events. split; [apply length_map|].
  rewrite list_lookup_fmap, Hk. simpl.
  destruct (attr_lookup pid r) as [i|] eqn:Ei; simpl; [|by left].
  unfold decode_event. destruct (8 <=? length raw)%nat; simpl; [|by left].
  destruct (attr_lookup (take 8 raw) (_events i)) as [cls|] eqn:Ec; simpl; [|by left].
  destruct (ev_decode cls raw) as [v|] eqn:Ev; [right; eauto 10|by left].
Qed.

(** ** Witnesses *)

Definition sample_registry : registry :=
  register (add_event [x01; x02; x03; x04; x05; x06; x07; x08]
              (mkEvent "Ev" (fun d => Ok (VBytes (drop 8 d))))
              (new_iface "Prog" "prog")) [].

Lemma decode_return_value_errors_witness :
  exists m, ReturnDataError "not attributed to an instruction" = ReturnDataError m.
Proof.
  apply (decode_return_value_errors sample_registry "Prog" None []). reflexivity.
Defined.

Lemma decode_events_aligned_witness :
  let payload := [x01; x02; x03; x04; x05; x06; x07; x08; x09] in
  length (decode_events sample_registry "Prog" [payload]) = 1%nat /\
  (decode_events sample_registry "Prog" [payload] !! 0%nat =
     Some (UnknownEvent "Prog" (take 8 payload) payload) \/
   exists i cls v, attr_lookup "Prog"%string sample_registry = Some i /\
     attr_lookup (take 8 payload) (_events i) = Some cls /\
     ev_decode cls payload = Ok v /\
     decode_events sample_registry "Prog" [payload] !! 0%nat = Some (Event v)).
Proof. intros payload. apply (decode_events_aligned sample_registry "Prog" [payload] 0 payload). reflexivity. Defined.
