(* ===== verification/Builder.v ===== *)
(** * Builders and derived interfaces ([_codec/builder.py], [_codec/meta.py])

    Both directions of an instruction: the bytes and account metas a generated
    builder sends, and the decoder that the registration walk derives from the
    builder's signature. *)

From Stdlib Require Import ZArith Lia.
From Stdlib Require Import Strings.Byte Strings.Ascii.
From stdpp Require Import base decidable option list gmap strings sorting numbers.
From S2P Require Import Prelude.
From S2P Require Import Bytes.
From S2P Require Import Utf8.
From S2P Require Import Floats.
From S2P Require Import Values.
From S2P Require Import Aliases.
From S2P Require Import Codec.
From S2P Require Import Ir.
From S2P Require Import IrTermination.
From S2P Require Import Borsh.
From S2P Require Import BorshProps.
From S2P Require Import Compile.
From S2P Require Import CompileProps.
From S2P Require Import Labels.
From S2P Require Import Interface.

(** ** Metadata records *)

Inductive Serialization := BORSH | BYTEMUCK | BYTEMUCK_UNSAFE | CUSTOM | BINCODE | PACK.
#[global] Instance Serialization_eq_dec : EqDecision Serialization.
Proof. solve_decision. Defined.

Definition Serialization_value (s : Serialization) : string :=
  match s with
  | BORSH => "borsh" | BYTEMUCK => "bytemuck" | BYTEMUCK_UNSAFE => "bytemuckUnsafe"
  | CUSTOM => "custom" | BINCODE => "bincode" | PACK => "pack"
  end.

Inductive Kind := STRUCT | ACCOUNT | EVENT | ENUM.
#[global] Instance Kind_eq_dec : EqDecision Kind.
Proof. solve_decision. Defined.

Record BorshMeta := mkBorshMeta {
  bm_ser : Serialization;
  bm_kind : Kind;
  bm_is_account_root : bool;
  bm_discriminator : bytes;
}.

(** A seed of a derived address, and the recipe; nothing derives from them. *)
Record Seed := mkSeed { seed_kind : string; seed_value : pyval }.
Definition seed_const (value : bytes) : Seed := mkSeed "const" (VBytes value).
Definition seed_arg (path : ustr) : Seed := mkSeed "arg" (VStr path).
Definition seed_account (name : ustr) : Seed := mkSeed "account" (VStr name).
Record IdlPda := mkPda { pda_seeds : list Seed; pda_program : option pyval }.

(** One declared account slot. *)
Record AccountSlot := mkAccountSlot {
  as_name : string;
  as_signer : bool;
  as_writable : bool;
  as_optional : bool;
}.

Record InstructionMeta := mkIxMeta {
  im_name : string;
  im_discriminator : bytes;
  im_accounts : list AccountSlot;
  im_serialization : Serialization;
  im_returns_type : option ann;
}.

(** ** [BorshStruct]: encode and decode of a generated class *)

(** Code that reads the node heap and does not change it. *)
Definition with_heap {A} (f : heap -> res A) : TM A := fun s => (f (theap s), s).

Definition BorshStruct_encode `{Native} (env : cenv) (cls : string) (meta : option BorshMeta)
  (v : pyval) (with_discriminator : bool) : TM bytes :=
  nd ← compile_type env cls;
  body ← with_heap (fun h => encode h v nd);
  mret (match meta with
        | Some m => if with_discriminator && negb (length (bm_discriminator m) =? 0)%nat
                    then bm_discriminator m ++ body else body
        | None => body
        end).

(** The discriminator is stripped and verified; accounts tolerate trailing
    slack, everything else is exact. *)
Definition BorshStruct_decode (env : cenv) (cls : string) (meta : option BorshMeta)
  (data : bytes) (with_discriminator : bool) : TM pyval :=
  nd ← compile_type env cls;
  let is_account := match meta with Some m => bm_is_account_root m | None => false end in
  let is_event := match meta with Some m => bool_decide (bm_kind m = EVENT) | None => false end in
  let disc := match meta with Some m => bm_discriminator m | None => [] end in
  let mode := if is_account then ACCOUNT_DATA else IX_DATA in
  if (is_account || is_event) && with_discriminator && negb (length disc =? 0)%nat then
    if bool_decide (take (length disc) data = disc)
    then with_heap (fun h => decode h (drop (length disc) data) nd mode)
    else traise (BorshError DiscriminatorMismatch 0 [])
  else with_heap (fun h => decode h data nd mode).

(** ** Name mangling *)

Definition kwlist : list string := [
  "False"; "None"; "True"; "and"; "as"; "assert"; "async"; "await"; "break"; "class";
  "continue"; "def"; "del"; "elif"; "else"; "except"; "finally"; "for"; "from"; "global";
  "if"; "import"; "in"; "is"; "lambda"; "nonlocal"; "not"; "or"; "pass"; "raise";
  "return"; "try"; "while"; "with"; "yield"]%string.

Definition _RESERVED : list string := ["self"; "remaining_accounts"]%string.

(** [keyword.iskeyword(name) or name in _RESERVED]. *)
Definition reserved (name : string) : bool :=
  bool_decide (name ∈ kwlist) || bool_decide (name ∈ _RESERVED).

Definition mangle (name : string) : string :=
  if reserved name then (name +:+ "_")%string else name.

(** [name[:-1]] when [name] ends with ["_"]. *)
Fixpoint strip_underscore (name : string) : option string :=
  match name with
  | EmptyString => None
  | String c EmptyString => if decide (c = "_"%char) then Some EmptyString else None
  | String c rest => String c <$> strip_underscore rest
  end.

Definition mangle_back (name : string) : string :=
  match strip_underscore name with
  | Some base => if reserved base then base else name
  | None => name
  end.

(** ** Encoding an instruction *)

Section encode_ix.
Context `{Native}.

(** [for value, ann in args: compile_field(ann).write(value, out, ())]. *)
Fixpoint encode_ix_args (env : cenv) (args : list (pyval * ann)) (out : bytes) : TM bytes :=
  match args with
  | [] => mret out
  | (v, a) :: args =>
      nd ← compile_field env a;
      out ← with_heap (fun h => node_write h nd v out []);
      encode_ix_args env args out
  end.

Definition encode_ix (env : cenv) (discriminator : bytes) (args : list (pyval * ann)) : TM bytes :=
  encode_ix_args env args discriminator.

Fixpoint write_layout (h : heap) (layout : list node) (values : list pyval) (out : bytes) : res bytes :=
  match layout, values with
  | nd :: layout, v :: values => out ← node_write h nd v out []; write_layout h layout values out
  | _, _ => Ok out
  end.

Definition encode_ix_layout (h : heap) (discriminator : bytes) (layout : list node)
  (values : list pyval) : res bytes :=
  if negb (length values =? length layout)%nat
  then Raise (ValueError "encode_ix_layout: layout and values differ in length")
  else write_layout h layout values discriminator.
End encode_ix.

(** ** Account metas *)

Record AccountMeta := mkMeta { am_pubkey : bytes; am_signer : bool; am_writable : bool }.
#[global] Instance AccountMeta_eq_dec : EqDecision AccountMeta.
Proof. solve_decision. Defined.

(** What a builder accepts for an account slot ([MetaLike | None]). *)
Inductive meta_like :=
  | MNone
  | MMeta (m : AccountMeta)
  | MAccount (address : bytes)     (* a live [Account] *)
  | MAddress (v : pyval).          (* [Pubkey], base58 [str], [bytes], [int] *)

(** The native [AccountMeta(value, is_signer, is_writable)]. *)
Definition account_meta `{Native} (v : meta_like) (signer writable : bool) : res AccountMeta :=
  match v with
  | MAccount k => Ok (mkMeta k signer writable)
  | MAddress v => k ← pubkey_new v; Ok (mkMeta k signer writable)
  | MNone | MMeta _ => Raise (TypeError "expected an address")
  end.

Definition as_meta `{Native} (v : meta_like) : res AccountMeta :=
  match v with MMeta m => Ok m | _ => account_meta v false false end.

Record slot := mkSlot { sl_value : meta_like; sl_signer : bool; sl_writable : bool; sl_optional : bool }.

(** One slot: its meta, and whether [AccountFlagOverride] is warned. *)
Definition build_meta `{Native} (program_id : bytes) (s : slot) : res (AccountMeta * bool) :=
  match sl_value s with
  | MNone =>
      if negb (sl_optional s) then Raise (ValueError "required account slot is None")
      else Ok (mkMeta program_id false false, false)
  | MMeta m =>
      Ok (m, negb (eqb (am_signer m) (sl_signer s)) || negb (eqb (am_writable m) (sl_writable s)))
  | v => m ← account_meta v (sl_signer s) (sl_writable s); Ok (m, false)
  end.

(** The metas, and the slots that were warned about. *)
Definition build_metas `{Native} (program_id : bytes) (slots : list slot)
  : res (list AccountMeta * list bool) :=
  ms ← mapM_res (build_meta program_id) slots;
  Ok (ms.*1, ms.*2).

(** ** Derived decoders *)

Definition make_borsh_decoder (h : heap) (layout : fields) (data : bytes) : res args :=
  '(values, cur) ← read_fields (node_read h) id [] layout (new_cursor data);
  if negb (pos cur =? length data)%nat
  then Raise (BorshError (TrailingBytes (Z.of_nat (pos cur)) (Z.of_nat (length data)))
                         (Z.of_nat (pos cur)) [])
  else Ok (dict_of (zip layout.*1 values)).

Definition make_returns_decoder (h : heap) (nd : node) (data : bytes) : res pyval :=
  '(value, cur) ← node_read h nd [PField "<returns>"] (new_cursor data);
  if negb (pos cur =? length data)%nat
  then Raise (BorshError (TrailingBytes (Z.of_nat (pos cur)) (Z.of_nat (length data)))
                         (Z.of_nat (pos cur)) [])
  else Ok value.

(** [decode_return_as(ty, raw)] of [_interface.py]: strict decode against a
    type the caller names. *)
Definition decode_return_as (env : cenv) (ty : ann) (raw : option bytes) : TM pyval :=
  match raw with
  | None => traise (ReturnDataError "transaction set no return data")
  | Some raw => fun s =>
      match (nd ← compile_field env ty; with_heap (fun h => make_returns_decoder h nd raw)) s with
      | (Ok v, s') => (Ok v, s')
      | (Raise (ReturnDataError m), s') => (Raise (ReturnDataError m), s')
      | (Raise _, s') => (Raise (ReturnDataError "return data did not decode"), s')
      end
  end.

(** ** The registration walk *)

Inductive param_kind := POSITIONAL_OR_KEYWORD | KEYWORD_ONLY | OTHER_KIND.
#[global] Instance param_kind_eq_dec : EqDecision param_kind.
Proof. solve_decision. Defined.

Record param := mkParam { p_name : string; p_kind : param_kind; p_annotation : ann }.

(** A decorated builder method: its [__pytypes_ix__] and its signature. *)
Record method := mkMethod { me_meta : InstructionMeta; me_params : list param }.

(** A member of a builder class after its body ran; the decorators set an
    attribute on it. *)
Record member := mkMember {
  mb_callable : bool;
  mb_params : list param;
  mb_pytypes_ix : option InstructionMeta;
  mb_event_disc : option bytes;
}.
Definition instruction (meta : InstructionMeta) (fn : member) : member :=
  mkMember (mb_callable fn) (mb_params fn) (Some meta) (mb_event_disc fn).
Definition event (discriminator : bytes) (cls : member) : member :=
  mkMember (mb_callable cls) (mb_params cls) (mb_pytypes_ix cls) (Some discriminator).

(** The decorated callables of the class, in the order of its body. *)
Definition _public_methods (vars : list (string * member)) : list method :=
  omap (fun v => if mb_callable v.2 then (fun meta => mkMethod meta (mb_params v.2)) <$> mb_pytypes_ix v.2 else None) vars.

(** Only the [instruction] decorator makes a method part of the interface. *)
Lemma decorated_is_public name meta fn vars :
  mb_callable fn = true -> _public_methods ((name, instruction meta fn) :: vars) = mkMethod meta (mb_params fn) :: _public_methods vars.
Proof. intros Hc. unfold _public_methods. cbn. by rewrite Hc. Qed.

Lemma undecorated_is_private name fn vars : mb_pytypes_ix fn = None -> _public_methods ((name, fn) :: vars) = _public_methods vars.
Proof. intros Hn. unfold _public_methods. cbn. rewrite Hn. by destruct (mb_callable fn). Qed.

Definition data_params (ps : list param) : list param :=
  filter (fun p => p_kind p = POSITIONAL_OR_KEYWORD /\ p_name p <> "self"%string) ps.
Definition account_params (ps : list param) : list param :=
  filter (fun p => p_kind p = KEYWORD_ONLY /\ p_name p <> "remaining_accounts"%string) ps.

(** One method of the walk.  The closures read the node contents as they are
    when the method is registered: node objects do not change afterwards. *)
Definition register_method (env : cenv) (overrides : list (string * (bytes -> res args)))
  (me : method) (i : ProgramInterface) : TM ProgramInterface :=
  let meta := me_meta me in
  let override := attr_lookup (im_name meta) overrides in
  if bool_decide (im_serialization meta <> BORSH) && match override with None => true | Some _ => false end then
    mret (add_refusing (im_name meta) (im_discriminator meta)
            ("serialization=" +:+ Serialization_value (im_serialization meta)) i)
  else
    layout ← compile_fields env (compile_type env)
               (map (fun p => (p_name p, p_annotation p)) (data_params (me_params me)));
    ret ← match im_returns_type meta with
          | None => mret None
          | Some ty => nd ← compile_field env ty; mret (Some nd)
          end;
    with_heap (fun h => Ok (iface_add (im_name meta) (im_discriminator meta)
      (map (fun p => mangle_back (p_name p)) (account_params (me_params me)))
      (Some (default (make_borsh_decoder h layout) override))
      (make_returns_decoder h <$> ret) i)).

Fixpoint register_methods (env : cenv) (overrides : list (string * (bytes -> res args)))
  (ms : list method) (i : ProgramInterface) : TM ProgramInterface :=
  match ms with
  | [] => mret i
  | me :: ms => i ← register_method env overrides me i; register_methods env overrides ms i
  end.

(** The module's classes that carry [__borsh_meta__] of kind [EVENT]. *)
Definition register_events (env : cenv) (objs : list (string * BorshMeta)) (s : tstate)
  (i : ProgramInterface) : ProgramInterface :=
  foldl (fun i o =>
    if bool_decide (bm_kind o.2 = EVENT)
    then add_event (bm_discriminator o.2)
           (mkEvent o.1 (fun data => (BorshStruct_decode env o.1 (Some o.2) data true s).1)) i
    else i) i objs.

Definition build_interface_from_module (env : cenv) (objs : list (string * BorshMeta))
  (methods : list method) (pid name : string) (overrides : list (string * (bytes -> res args)))
  : TM ProgramInterface :=
  i ← register_methods env overrides methods (new_iface pid name);
  ((fun s => (Ok (register_events env objs s i), s)) : TM ProgramInterface).
