(* ===== verification/CompileStable.v ===== *)
(** * Compiled nodes are stable

    A decoder derived from a class keeps the node it was built with while other
    classes are compiled.  The later heap gives the node, and all it refers to,
    the same contents, so reading is the same in both heaps. *)

From Stdlib Require Import ZArith Lia.
From stdpp Require Import base decidable option list gmap strings numbers.
From S2P Require Import Prelude.
From S2P Require Import Bytes.
From S2P Require Import Values.
From S2P Require Import Aliases.
From S2P Require Import Codec.
From S2P Require Import Ir.
From S2P Require Import IrTermination.
From S2P Require Import Borsh.
From S2P Require Import Compile.
From S2P Require Import CompileProps.

(** ** More fuel *)

Lemma mapM_res_Ok_impl {A B} (f g : A -> res B) xs ys :
  (forall x y, x ∈ xs -> f x = Ok y -> g x = Ok y) -> mapM_res f xs = Ok ys -> mapM_res g xs = Ok ys.
Proof.
  revert ys. induction xs as [|x xs IH]; intros ys Hfg; simpl; [done|].
  destruct (f x) as [y|] eqn:Ef; [|done]. rewrite (Hfg x y) by (done || by left). simpl.
  destruct (mapM_res f xs) as [zs|] eqn:Es; [|done].
  rewrite (IH zs); [done| |done]. intros z zy Hz. apply Hfg. by right.
Qed.

Lemma mapM_res_eq {A B} (f g : A -> res B) xs : (forall x, x ∈ xs -> f x = g x) -> mapM_res f xs = mapM_res g xs.
Proof.
  induction xs as [|x xs IH]; intros Hfg; [done|]. simpl. rewrite (Hfg x) by (by left).
  by rewrite IH by (intros; apply Hfg; by right).
Qed.

Lemma mws_fields_impl (rec1 rec2 : stack -> node -> res Z) st fs m :
  (forall st nd m, rec1 st nd = Ok m -> rec2 st nd = Ok m) -> mws_fields rec1 st fs = Ok m -> mws_fields rec2 st fs = Ok m.
Proof.
  intros Hr. unfold mws_fields. destruct (mapM_res _ fs) as [ms|] eqn:E; [|done].
  rewrite (mapM_res_Ok_impl (fun f => rec1 st f.2) (fun f => rec2 st f.2) _ ms); [done| |done]. intros f y _. apply Hr.
Qed.

Lemma mws_step_impl h (rec1 rec2 : stack -> node -> res Z) st nd m :
  (forall st nd m, rec1 st nd = Ok m -> rec2 st nd = Ok m) -> mws_step h rec1 st nd = Ok m -> mws_step h rec2 st nd = Ok m.
Proof.
  intros Hr Hm. destruct nd; simpl in *; try done; case_decide; try done.
  - destruct (rec1 _ nd) as [k|] eqn:E; [|done]. by rewrite (Hr _ _ _ E).
  - by eapply mws_fields_impl.
  - destruct (enum_variants h id) as [|[t [c fs]] vs]; [done|].
    destruct (mws_fields rec1 _ fs) as [k|] eqn:E; [|done]. rewrite (mws_fields_impl _ rec2 _ _ k Hr E). simpl in *.
    destruct (mapM_res _ vs) as [ks|] eqn:Ek; [|done].
    rewrite (mapM_res_Ok_impl (fun v => mws_fields rec1 (st ++ [KObj id]) v.2.2)
      (fun v => mws_fields rec2 (st ++ [KObj id]) v.2.2) _ ks); [done| |done].
    intros v y _. by apply mws_fields_impl.
Qed.

Lemma mws_more fuel : forall h st nd m, mws fuel h st nd = Ok m -> mws (S fuel) h st nd = Ok m.
Proof. induction fuel as [|fuel IH]; intros h st nd m; [done|]. apply mws_step_impl, IH. Qed.

Lemma mws_mono fuel fuel' h st nd m : (fuel <= fuel')%nat -> mws fuel h st nd = Ok m -> mws fuel' h st nd = Ok m.
Proof. induction 1; [done|]. intros ?. by apply mws_more, IHle. Qed.

(** ** Readers that agree *)

Lemma descend_eq {A} p (f g : Cursor -> res (A * Cursor)) cur : (forall c, f c = g c) -> descend p f cur = descend p g cur.
Proof. intros Hfg. unfold descend. by rewrite Hfg. Qed.

Lemma read_elems_eq (r1 r2 : reader) p n : (forall p c, r1 p c = r2 p c) -> forall i cur, read_elems r1 p i n cur = read_elems r2 p i n cur.
Proof.
  intros Hr. induction n as [|n IH]; intros i cur; [done|]. simpl. rewrite Hr.
  destruct (r2 _ cur) as [[v c]|]; [|done]. simpl. by rewrite IH.
Qed.

Lemma read_fields_eq (r1 r2 : node -> reader) crumb p (fs : fields) :
  (forall f p c, f ∈ fs -> r1 f.2 p c = r2 f.2 p c) -> forall cur, read_fields r1 crumb p fs cur = read_fields r2 crumb p fs cur.
Proof.
  induction fs as [|[n nd] fs IH]; intros Hr cur; [done|]. simpl.
  assert (H1 : forall p c, r1 nd p c = r2 nd p c) by (intros; apply (Hr (n, nd)); by left). rewrite H1.
  destruct (r2 nd _ cur) as [[v c]|]; [|done]. simpl. by rewrite IH by (intros; apply Hr; by right).
Qed.

(** ** One heap extends another *)

Section stable.
Context (env : cenv) (s s' : tstate) (Hc : complete env [] s) (He : extends s s').

(** The nodes compiled in [s]. *)
Definition lowered_in (nd : node) : Prop := exists a, lowers (tcache s) a nd.

Lemma cached_filled cls nd : attr_lookup cls (tcache s) = Some nd -> filled env s cls nd.
Proof using Hc. intros Hl. by destruct (co_filled _ _ _ Hc _ _ Hl) as [?%elem_of_nil|?]. Qed.

Lemma lowered_in_fields fs nds f : lowers_fields (tcache s) fs nds -> f ∈ nds -> lowered_in f.2.
Proof.
  intros Hl (i & Hi)%list_elem_of_lookup. destruct (Forall2_lookup_r _ _ _ _ _ Hl Hi) as (g & _ & _ & Hg). by exists g.2.
Qed.

Lemma lowered_child nd i :
  nd = OptionNode i \/ nd = OptNode i \/ nd = VecNode i \/ (exists id n, nd = FixedArrayNode id i n) ->
  lowered_in nd -> lowered_in i.
Proof using Hc.
  intros Hnd [a Ha]. destruct Ha as [| | | | | | |? ? ? ? Hl|? ? Hl|? ? ? _ Hl|? ? Hl|cls nd Hl];
    try (destruct Hnd as [?|[?|[?|(? & ? & ?)]]]; simplify_eq; by eexists).
  apply cached_filled in Hl. unfold filled in Hl. destruct (class_of env cls).
  - destruct Hl as [-> _]. by destruct Hnd as [?|[?|[?|(? & ? & ?)]]].
  - destruct Hl as (? & -> & _). by destruct Hnd as [?|[?|[?|(? & ? & ?)]]].
  - destruct Hl as (? & -> & _). by destruct Hnd as [?|[?|[?|(? & ? & ?)]]].
  - done.
Qed.

Lemma lowered_struct id cls :
  lowered_in (StructNode id cls) ->
  struct_fields (theap s') id = struct_fields (theap s) id /\ forall f, f ∈ struct_fields (theap s) id -> lowered_in f.2.
Proof using Hc He.
  intros [a Ha]. inversion Ha as [| | | | | | | | | | |cls' nd Hl]; subst.
  split; [eapply (ex_struct _ _ He), (co_id _ _ _ Hc _ _ _ Hl); done|].
  apply cached_filled in Hl. unfold filled in Hl. destruct (class_of env cls').
  - by destruct Hl.
  - by destruct Hl as (? & ? & _).
  - destruct Hl as (id' & ? & Hf). simplify_eq. intros f. by eapply lowered_in_fields.
  - done.
Qed.

Lemma lowered_enum id cls :
  lowered_in (BorshEnumNode id cls) ->
  enum_variants (theap s') id = enum_variants (theap s) id /\
  forall v f, v ∈ enum_variants (theap s) id -> f ∈ v.2.2 -> lowered_in f.2.
Proof using Hc He.
  intros [a Ha]. inversion Ha as [| | | | | | | | | | |cls' nd Hl]; subst.
  split; [eapply (ex_enum _ _ He), (co_id _ _ _ Hc _ _ _ Hl); done|].
  apply cached_filled in Hl. unfold filled in Hl. destruct (class_of env cls').
  - by destruct Hl.
  - destruct Hl as (id' & ? & Hf). simplify_eq. intros v f (i & Hi)%list_elem_of_lookup.
    destruct (Forall2_lookup_r _ _ _ _ _ Hf Hi) as (g & _ & _ & fs & _ & Hg). by eapply lowered_in_fields.
  - by destruct Hl as (? & ? & _).
  - done.
Qed.

Lemma lowered_intenum cls : lowered_in (IntEnumNode cls) -> intenum_values (theap s') cls = intenum_values (theap s) cls.
Proof using Hc He.
  intros [a Ha]. inversion Ha as [| | | | | | | | | | |cls' nd Hl]; subst. pose proof Hl as Hl'.
  apply cached_filled in Hl. unfold filled in Hl. destruct (class_of env cls').
  - destruct Hl as [[= ->] _]. by eapply (ex_intenum _ _ He).
  - by destruct Hl as (? & ? & _).
  - by destruct Hl as (? & ? & _).
  - done.
Qed.

Lemma mws_stable fuel : forall st nd, lowered_in nd -> mws fuel (theap s') st nd = mws fuel (theap s) st nd.
Proof using Hc He.
  induction fuel as [|fuel IH]; intros st nd Hn; [done|]. destruct nd; try done; simpl; case_decide; try done.
  - rewrite IH; [done|]. eapply lowered_child; [|exact Hn]. eauto 6.
  - apply lowered_struct in Hn as [-> Hf]. unfold mws_fields. f_equal. apply mapM_res_eq. intros f Hin. by apply IH, Hf.
  - apply lowered_enum in Hn as [-> Hf].
    assert (Hv : forall st v, v ∈ enum_variants (theap s) id ->
      mws_fields (mws fuel (theap s')) st v.2.2 = mws_fields (mws fuel (theap s)) st v.2.2).
    { intros st' v Hin. unfold mws_fields. f_equal. apply mapM_res_eq. intros f Hfin. by eapply IH, Hf. }
    destruct (enum_variants (theap s) id) as [|[t [c fs]] vs]; [done|].
    rewrite (Hv _ (t, (c, fs))) by (by left). destruct (mws_fields _ _ _); [|done]. simpl.
    by rewrite (mapM_res_eq _ (fun v => mws_fields (mws fuel (theap s)) (st ++ [KObj id]) v.2.2)) by (intros; apply Hv; by right).
Qed.

Lemma min_wire_size_stable nd : lowered_in nd -> min_wire_size (theap s') nd = min_wire_size (theap s) nd.
Proof using Hc He.
  intros Hn. destruct (min_wire_size_total (theap s') nd) as [m' Hm'], (min_wire_size_total (theap s) nd) as [m Hm].
  rewrite Hm', Hm. unfold min_wire_size in *.
  rewrite mws_stable in Hm' by done.
  set (f1 := S (nsize nd + hsize (theap s'))) in *. set (f2 := S (nsize nd + hsize (theap s))) in *.
  apply (mws_mono f1 (Nat.max f1 f2) _ _ _ _ (Nat.le_max_l _ _)) in Hm'.
  apply (mws_mono f2 (Nat.max f1 f2) _ _ _ _ (Nat.le_max_r _ _)) in Hm. congruence.
Qed.

Lemma read_stable fuel : forall nd p cur, lowered_in nd -> read fuel (theap s') nd p cur = read fuel (theap s) nd p cur.
Proof using Hc He.
  induction fuel as [|fuel IH]; intros nd p cur Hn; [done|]. destruct nd; try done; simpl.
  - unfold OptionNode_read, option_read. apply descend_eq. intros c. destruct (take1 p c) as [[t c']|]; [|done]. simpl.
    rewrite IH; [done|]. eapply lowered_child; [|exact Hn]. eauto.
  - unfold OptNode_read, option_read. apply descend_eq. intros c. destruct (take1 p c) as [[t c']|]; [|done]. simpl.
    rewrite IH; [done|]. eapply lowered_child; [|exact Hn]. eauto.
  - assert (Hi : lowered_in nd) by (eapply lowered_child; [|exact Hn]; eauto).
    unfold VecNode_read. apply descend_eq. intros c. rewrite min_wire_size_stable by done.
    destruct (min_wire_size _ nd); [|done]. simpl. destruct (_read_seq_len _ _ c) as [[k c']|]; [|done]. simpl.
    by rewrite (read_elems_eq _ (read fuel (theap s) nd)) by (by intros; apply IH).
  - assert (Hi : lowered_in nd) by (eapply lowered_child; [|exact Hn]; eauto 6).
    unfold FixedArrayNode_read. apply descend_eq. intros c.
    by rewrite (read_elems_eq _ (read fuel (theap s) nd)) by (by intros; apply IH).
  - apply lowered_struct in Hn as [-> Hf]. unfold StructNode_read. apply descend_eq. intros c.
    by rewrite (read_fields_eq _ (read fuel (theap s))) by (by intros; apply IH, Hf).
  - by rewrite lowered_intenum.
  - apply lowered_enum in Hn as [-> Hf]. unfold BorshEnumNode_read. apply descend_eq. intros c.
    destruct (take1 p c) as [[t c']|]; [|done]. simpl.
    destruct (tag_lookup t _) as [[vcls fs]|] eqn:Et; [|done]. apply tag_lookup_elem in Et.
    by rewrite (read_fields_eq _ (read fuel (theap s))) by (intros f ? ? ?; apply IH; exact (Hf _ f Et ltac:(done))).
Qed.

Lemma node_read_stable nd p cur : lowered_in nd -> node_read (theap s') nd p cur = node_read (theap s) nd p cur.
Proof using Hc He. apply read_stable. Qed.
End stable.
