(* ===== verification/BuilderProps.v ===== *)
(** * What the builders and the derived interfaces guarantee

    The pre-compiled encoder agrees with the self-contained one; account slots
    stay aligned; an instruction built from values decodes, through the
    interface derived from the same signature, to the same named values. *)

From Stdlib Require Import ZArith Lia.
From Stdlib Require Import Strings.Byte Strings.Ascii.
From stdpp Require Import base decidable option list gmap strings sorting numbers.
From S2P Require Import Prelude.
From S2P Require Import Bytes.
From S2P Require Import Utf8.
From S2P Require Import Floats.
From S2P Require Import Values.
From S2P Require Import Aliases.
From S2P Require Import Codec.
From S2P Require Import Ir.
From S2P Require Import IrTermination.
From S2P Require Import Borsh.
From S2P Require Import BorshProps.
From S2P Require Import Compile.
From S2P Require Import CompileProps.
From S2P Require Import Labels.
From S2P Require Import Interface.
From S2P Require Import Builder.

(** ** Mangling *)

Lemma append_cons c s t : (String c s +:+ t = String c (s +:+ t))%string.
Proof. done. Qed.

Lemma strip_underscore_spec s b : strip_underscore s = Some b <-> s = (b +:+ "_")%string.
Proof.
  revert b; induction s as [|c s IH]; intros b.
  - split; [discriminate|]. by destruct b.
  - destruct s as [|c' s].
    + simpl. case_decide as Hc; split; intros Hb.
      * by simplify_eq.
      * destruct b as [|? [|]]; vm_compute in Hb; congruence.
      * discriminate.
      * destruct b as [|? [|]]; vm_compute in Hb; congruence.
    + change (strip_underscore (String c (String c' s))) with
        (String c <$> strip_underscore (String c' s)).
      split.
      * intros Hb. destruct (strip_underscore (String c' s)) as [b'|] eqn:E; [|discriminate].
        injection Hb as <-. by rewrite append_cons, <-(proj1 (IH b') eq_refl).
      * intros Hb. destruct b as [|? b]; [vm_compute in Hb; congruence|]. rewrite append_cons in Hb. injection Hb as <- Hb.
        by rewrite (proj2 (IH b) Hb).
Qed.

Lemma reserved_elem name : reserved name = true -> name ∈ kwlist ++ _RESERVED.
Proof.
  unfold reserved. rewrite elem_of_app. intros [H%bool_decide_eq_true|H%bool_decide_eq_true]%orb_true_iff; auto.
Qed.

Lemma reserved_no_underscore name : reserved name = true -> strip_underscore name = None.
Proof.
  intros Hr%reserved_elem.
  assert (Hall : Forall (fun n => strip_underscore n = None) (kwlist ++ _RESERVED))
    by (vm_compute; repeat constructor).
  rewrite list.Forall_forall in Hall. auto.
Qed.

Lemma append_underscore_neq s : (s +:+ "_")%string <> s.
Proof. induction s as [|c s IH]; [discriminate|]. rewrite append_cons. congruence. Qed.

(** Mangling gives a usable identifier and is undone by [mangle_back],
    except for the names that already look mangled (a keyword or reserved name
    followed by an underscore), which come back without their underscore. *)
Theorem mangle_back_mangle name :
  reserved (mangle name) = false /\
  mangle_back (mangle name) =
    match strip_underscore name with
    | Some base => if reserved base then base else name
    | None => name
    end.
Proof.
  unfold mangle. destruct (reserved name) eqn:Hr.
  - pose proof (proj2 (strip_underscore_spec (name +:+ "_") name) eq_refl) as Hs. split.
    + destruct (reserved (name +:+ "_")) eqn:Hr'; [|done].
      apply reserved_no_underscore in Hr'. congruence.
    + unfold mangle_back. rewrite Hs, Hr. by rewrite (reserved_no_underscore name Hr).
  - split; [done|]. done.
Qed.

(** ** Pre-compiled layouts *)

(** Fixed arrays are told apart by identity only: [write] never looks at it. *)
Fixpoint erase (nd : node) : node :=
  match nd with
  | OptionNode i => OptionNode (erase i)
  | OptNode i => OptNode (erase i)
  | VecNode i => VecNode (erase i)
  | FixedArrayNode _ i n => FixedArrayNode 0 (erase i) n
  | nd => nd
  end.

Lemma nsize_erase nd : nsize (erase nd) = nsize nd.
Proof. induction nd; simpl; auto. Qed.

Section layout.
Context `{Native}.

Lemma write_elems_ext (w1 w2 : writer) p i vs out :
  (forall v out p, w1 v out p = w2 v out p) -> write_elems w1 p i vs out = write_elems w2 p i vs out.
Proof.
  intros Hw. revert i out; induction vs as [|v vs IH]; intros i out; simpl; [done|].
  rewrite Hw. by destruct (w2 v out _); simpl.
Qed.

Lemma write_erase fuel h nd v out p : write fuel h (erase nd) v out p = write fuel h nd v out p.
Proof.
  revert nd v out p; induction fuel as [|fuel IH]; intros nd v out p; [done|].
  destruct nd; simpl; try done.
  - unfold OptionNode_write. by destruct v; rewrite ?IH.
  - unfold OptNode_write. by destruct v; rewrite ?IH.
  - unfold VecNode_write. destruct (py_seq v); simpl; [|done]. destruct (write_len _ _); simpl; [|done].
    by apply write_elems_ext.
  - unfold FixedArrayNode_write. destruct (py_seq v); simpl; [|done]. case_match; [done|].
    by apply write_elems_ext.
Qed.

Lemma node_write_erase h nd nd' v out p :
  erase nd = erase nd' -> node_write h nd v out p = node_write h nd' v out p.
Proof.
  intros He. unfold node_write, write_measure. rewrite <-(nsize_erase nd), <-(nsize_erase nd'), He.
  rewrite <-(write_erase _ h nd), <-(write_erase _ h nd'), He. done.
Qed.

(** Lowering again, from a cache that has every class, only allocates. *)
Lemma relower env c h n a nd :
  (forall cls nd, attr_lookup cls c = Some nd -> class_of env cls <> CPlain) ->
  lowers c a nd ->
  exists nd' n', compile_field env a (TState c h n) = (Ok nd', TState c h n') /\ erase nd' = erase nd.
Proof.
  intros Hcls Hl. revert n. induction Hl; intros n'; unfold compile_field in *.
  - simpl. rewrite H0. eauto.
  - simpl. destruct (int_spec al) as [[? ?]|] eqn:Ei; [by destruct al|]. rewrite H0. eauto.
  - eauto.
  - eauto.
  - eauto.
  - eauto.
  - eauto.
  - destruct (IHHl n') as (nd' & n2 & Hc & He). simpl. unfold mbind, TM_bind. rewrite Hc.
    eexists _, _. split; [reflexivity|]. simpl. by rewrite He.
  - destruct (IHHl n') as (nd' & n2 & Hc & He). simpl. unfold mbind, TM_bind. rewrite Hc.
    eexists _, _. split; [reflexivity|]. simpl. by rewrite He.
  - destruct (IHHl n') as (nd' & n2 & Hc & He).
    destruct a; try discriminate. rewrite compile_field_union, H0.
    unfold mbind, TM_bind. rewrite Hc. eexists _, _. split; [reflexivity|]. simpl. by rewrite He.
  - destruct (IHHl n') as (nd' & n2 & Hc & He). simpl. unfold mbind, TM_bind. rewrite Hc.
    eexists _, _. split; [reflexivity|]. simpl. by rewrite He.
  - exists nd, n'. split; [|done]. simpl. specialize (Hcls _ _ H0).
    assert (Hct : compile_type env cls (TState c h n') = (Ok nd, TState c h n')).
    { unfold compile_type. simpl. rewrite compile_type_step_eq. simpl. by rewrite H0. }
    destruct (class_of env cls); done.
Qed.

Lemma complete_classes env s cls nd :
  complete env [] s -> attr_lookup cls (tcache s) = Some nd -> class_of env cls <> CPlain.
Proof.
  intros Hc Hl. destruct (co_filled _ _ _ Hc _ _ Hl) as [Hin|Hf]; [set_solver|].
  unfold filled in Hf. by destruct (class_of env cls).
Qed.

Lemma compile_layout_grows env anns :
  grows env [] (fun s nds => Forall2 (lowers (tcache s)) anns nds) (compile_layout env anns).
Proof.
  unfold compile_layout. induction anns as [|a anns IH]; simpl.
  - apply grows_ret. intros. constructor.
  - eapply grows_bind; [apply (compile_field_grows env); apply compile_type_fuel_grows|].
    intros nd. eapply grows_bind; [apply IH|]. intros nds. apply grows_ret.
    intros s s1 He1 Hnds s2 He2 Hnd. constructor.
    + exact (lowers_extends _ _ _ _ He2 Hnd).
    + eapply list.Forall2_impl; [exact Hnds|]. intros a' nd' Hl. exact (lowers_extends _ _ _ _ He1 Hl).
Qed.

Lemma encode_ix_args_layout env c h n anns layout values out :
  (forall cls nd, attr_lookup cls c = Some nd -> class_of env cls <> CPlain) ->
  Forall2 (lowers c) anns layout -> length values = length anns ->
  (encode_ix_args env (zip values anns) out (TState c h n)).1 = write_layout h layout values out.
Proof.
  intros Hcls Hl. revert values out n.
  induction Hl as [|a nd anns layout Ha Hl IH]; intros [|v values] out n Hlen; simpl in *; try done.
  destruct (relower env c h n a nd Hcls Ha) as (nd' & n' & Hc & He).
  unfold mbind at 1, TM_bind at 1. rewrite Hc. unfold mbind at 1, TM_bind at 1, with_heap. simpl.
  rewrite (node_write_erase h nd' nd) by done.
  destruct (node_write h nd v out []) as [out'|e]; simpl; [|done]. apply IH. lia.
Qed.

(** The optimised encoder is the reference encoder.  With the layout
    compiled once at import, [encode_ix_layout] produces, value for value and
    error for error, what [encode_ix] produces when it lowers the annotations
    again on every call. *)
Theorem encode_ix_layout_equiv env anns s0 layout s disc values :
  complete env [] s0 -> compile_layout env anns s0 = (Ok layout, s) -> length values = length anns ->
  (encode_ix env disc (zip values anns) s).1 = encode_ix_layout (theap s) disc layout values.
Proof.
  intros Hc Hok Hlen. destruct (compile_layout_grows env anns _ _ _ Hc Hok) as (Hc' & _ & Hl).
  pose proof (list.Forall2_length _ _ _ Hl) as Hll. unfold encode_ix_layout.
  rewrite (proj2 (Nat.eqb_eq _ _)) by lia. simpl. destruct s as [c h n].
  apply encode_ix_args_layout; [|done|done]. intros. eapply (complete_classes _ (TState c h n)); eauto.
Qed.

(** ** Account slots *)

(** What a slot turns into. *)
Definition slot_spec (program_id : bytes) (s : slot) (m : AccountMeta) : Prop :=
  match sl_value s with
  | MNone => sl_optional s = true /\ m = mkMeta program_id false false
  | MMeta m' => m = m'
  | v => account_meta v (sl_signer s) (sl_writable s) = Ok m
  end.

Lemma build_meta_spec pid s m w : build_meta pid s = Ok (m, w) -> slot_spec pid s m.
Proof.
  unfold build_meta, slot_spec. destruct (sl_value s); intros Hb.
  - destruct (sl_optional s); simpl in Hb; [by simplify_eq|discriminate].
  - by simplify_eq.
  - inv_ok. done.
  - by apply bind_Ok_inv in Hb as (m' & Hm & [= <- <-]).
Qed.

(** Account slots stay aligned.  The metas correspond to the slots one to
    one and in order: an omitted optional slot keeps its place with the program
    id and no privileges, an explicit meta is passed through, anything else
    gets the declared flags; a required slot without a value never succeeds. *)
Theorem build_metas_aligned pid slots ms warned :
  build_metas pid slots = Ok (ms, warned) -> Forall2 (slot_spec pid) slots ms.
Proof.
  intros Hb. unfold build_metas in Hb. apply bind_Ok_inv in Hb as (l & Hm & Hl).
  apply mapM_res_Ok in Hm. injection Hl as <- <-.
  induction Hm as [|s [m w] slots l Hs Hm IH]; [constructor|]. rewrite fmap_cons.
  constructor; [by eapply build_meta_spec|done].
Qed.

Lemma slot_spec_required pid s m : sl_value s = MNone -> sl_optional s = false -> ~ slot_spec pid s m.
Proof. unfold slot_spec. intros -> Ho [? _]. congruence. Qed.
End layout.

(** ** An instruction decodes to what it was built from *)

Section ix_roundtrip.
Context `{Native} (h : heap) (Hwf : heap_wf h = true).

Lemma write_layout_complete d layout vs bs out :
  borsh_fields h d layout vs bs -> (forall f, f ∈ layout -> node_wf f.2 = true) ->
  write_layout h layout.*2 vs out = Ok (out ++ bs).
Proof using Hwf.
  intros Hb. revert out; induction Hb as [|d name nd layout v vs b1 b2 Hv Hb IH]; intros out Hn.
  - simpl. by rewrite app_nil_r.
  - rewrite fmap_cons. simpl.
    rewrite (write_complete h Hwf d nd v b1 out [] Hv); [|apply (Hn (name, nd)); by left]. simpl.
    rewrite IH by (intros; apply Hn; by right). by rewrite app_assoc.
Qed.

Lemma borsh_decoder_complete (Hfl : heap_floor h = true) layout vs bs :
  borsh_fields h MAX_DECODE_DEPTH layout vs bs -> fields_ok h layout -> NoDup layout.*1 ->
  make_borsh_decoder h layout bs = Ok (zip layout.*1 vs).
Proof using Hwf.
  intros Hb Hok Hnd. unfold make_borsh_decoder.
  pose proof (proj2 (proj2 (read_complete_mut h Hwf Hfl)) _ _ _ _ Hb Hok (S MAX_DECODE_DEPTH) id []
                (new_cursor bs) []) as Hr.
  change (node_read h) with (read (S MAX_DECODE_DEPTH) h). rewrite Hr; [|lia|unfold MAX_DECODE_DEPTH; simpl; lia|].
  - simpl. rewrite Nat.eqb_refl. simpl. f_equal. apply dict_of_NoDup.
    rewrite fst_zip; [done|]. rewrite length_fmap. by rewrite (borsh_fields_length _ _ _ _ _ Hb).
  - rewrite app_nil_r. split; [done|simpl; lia].
Qed.

(** C7: an instruction round-trips.  The bytes a builder sends for typed
    values, dispatched through a registered program whose best match is that
    instruction, decode to exactly those values under their parameter names,
    with the account roles of the signature. *)
Theorem instruction_roundtrip (Hfl : heap_floor h = true) i d layout vs body n :
  refusing i = None ->
  def_decode_args d = make_borsh_decoder h layout ->
  fields_ok h layout -> NoDup layout.*1 -> borsh_fields h MAX_DECODE_DEPTH layout vs body ->
  is_best (_defs i) (def_discriminator d ++ body) d ->
  encode_ix_layout h (def_discriminator d) layout.*2 vs = Ok (def_discriminator d ++ body) /\
  iface_decode i (def_discriminator d ++ body) n =
    Ok (mkDecoded (Some (iface_name i)) (Some (def_name d)) (zip layout.*1 vs)
                  (pad_names (def_account_names d) n)).
Proof using Hwf.
  intros Hr Hd Hok Hnd Hb Hbest. split.
  - unfold encode_ix_layout. rewrite length_fmap, (borsh_fields_length _ _ _ _ _ Hb), Nat.eqb_refl.
    simpl. eapply write_layout_complete; [done|]. intros f Hf. apply (Hok f Hf).
  - unfold iface_decode. rewrite Hr.
    assert (Hm : _match (_defs i) (def_discriminator d ++ body) = Some d).
    { pose proof (match_best (_defs i) (def_discriminator d ++ body)) as Hm.
      destruct (_match _ _) as [d'|]; [f_equal; by eapply is_best_unique|].
      destruct Hbest as (l1 & l2 & Heq & Hmd & _). rewrite Hm in Hmd; [discriminate|].
      rewrite Heq. set_solver. }
    rewrite Hm. unfold disc_len. rewrite drop_app_length, Hd.
    rewrite (borsh_decoder_complete Hfl) with (vs := vs) by done. done.
Qed.
End ix_roundtrip.

(** ** Generated classes *)

Section borsh_struct.
Context `{Native} (env : cenv) (Henv : cenv_wf env = true).

(** The state after [cls] was compiled: it and its node are well formed. *)
Lemma compiled_wf cls s nd s' :
  tstate_wf env s -> compile_type env cls s = (Ok nd, s') ->
  heap_wf (theap s') = true /\ node_wf nd = true.
Proof using Henv.
  intros Hs Hok.
  destruct (compile_type_fuel_wf env Henv (S (length (classes env))) cls s Hs) as [(Hh & _) Hn].
  change (compile_type_fuel env _ cls) with (compile_type env cls) in *. rewrite Hok in Hh, Hn.
  split; [done|]. by apply Hn.
Qed.

Lemma compile_type_again cls s nd s' :
  complete env [] s -> compile_type env cls s = (Ok nd, s') -> compile_type env cls s' = (Ok nd, s').
Proof.
  intros Hc Hok. destruct (compile_type_fuel_grows env _ [] cls s nd s' Hc Hok) as (_ & _ & Hl).
  unfold compile_type. simpl. rewrite compile_type_step_eq. by rewrite Hl.
Qed.

(** Account data round-trips with its discriminator.  An account value
    encodes to discriminator and body; the same bytes, with any realloc slack
    after them, decode to the value, and data with another discriminator of
    that length is refused at offset 0. *)
Theorem account_roundtrip cls m s nd s' v bs slack :
  tstate_wf env s -> complete env [] s -> compile_type env cls s = (Ok nd, s') ->
  heap_floor (theap s') = true -> vec_floor (theap s') nd = true ->
  bm_is_account_root m = true -> bm_discriminator m <> [] ->
  borsh (theap s') MAX_DECODE_DEPTH nd v bs ->
  (BorshStruct_encode env cls (Some m) v true s').1 = Ok (bm_discriminator m ++ bs) /\
  (BorshStruct_decode env cls (Some m) (bm_discriminator m ++ bs ++ slack) true s').1 = Ok v /\
  forall data, take (length (bm_discriminator m)) data <> bm_discriminator m ->
    (BorshStruct_decode env cls (Some m) data true s').1 =
      Raise (BorshError DiscriminatorMismatch 0 []).
Proof using Henv.
  intros Hs Hc Hok Hfl Hv Hacc Hdisc Hb. destruct (compiled_wf _ _ _ _ Hs Hok) as [Hh Hn].
  pose proof (compile_type_again _ _ _ _ Hc Hok) as Hct.
  assert (Hlen : (length (bm_discriminator m) =? 0)%nat = false).
  { apply Nat.eqb_neq. by destruct (bm_discriminator m). }
  unfold BorshStruct_encode, BorshStruct_decode, with_heap. rewrite Hacc, Hlen. simpl.
  unfold mbind, TM_bind. rewrite Hct. simpl. split; [|split].
  - unfold encode. by rewrite (write_complete _ Hh MAX_DECODE_DEPTH nd v bs [] [] Hb Hn).
  - rewrite bool_decide_eq_true_2 by apply take_app_length. simpl.
    rewrite drop_app_length.
    by rewrite (decode_complete _ Hh Hfl nd v bs slack ACCOUNT_DATA Hn Hv Hb).
  - intros data Hd. by rewrite bool_decide_eq_false_2.
Qed.
End borsh_struct.

(** ** Witnesses *)

Definition ix_anns : list ann := [AAlias u16; AAnnotated (AList (AAlias u8)) (Some 2)].
Definition ix_state : tstate := (compile_layout list_env ix_anns (tinit list_env)).2.
Definition ix_layout : list node :=
  [IntNode u16 2 false; FixedArrayNode 0 (IntNode u8 1 false) 2].
Definition ix_values : list pyval := [VInt 258; VList [VInt 7; VInt 8]].

Lemma encode_ix_layout_equiv_witness :
  (@encode_ix no_native list_env [xff] (zip ix_values ix_anns) ix_state).1 =
  @encode_ix_layout no_native (theap ix_state) [xff] ix_layout ix_values.
Proof.
  apply (@encode_ix_layout_equiv no_native list_env ix_anns (tinit list_env));
    [apply tinit_complete|vm_compute; reflexivity|reflexivity].
Defined.

Definition sample_slots : list slot :=
  [mkSlot (MAddress (VBytes (replicate 32 x01))) true true false;
   mkSlot MNone false true true;
   mkSlot (MAccount (replicate 32 x02)) false false false].

Lemma build_metas_aligned_witness :
  Forall2 (@slot_spec no_native (replicate 32 x09)) sample_slots
    [mkMeta (replicate 32 x01) true true; mkMeta (replicate 32 x09) false false;
     mkMeta (replicate 32 x02) false false].
Proof.
  apply (@build_metas_aligned no_native _ sample_slots _ [false; false; false]).
  vm_compute. reflexivity.
Defined.

Definition ping_layout : fields := [("amount", IntNode u64 8 false); ("node", sample_node)]%string.
Definition ping_def : InstructionDef :=
  mkDef "ping" [xaa; xbb] ["payer"]%string (make_borsh_decoder sample_heap ping_layout) None.
Definition ping_iface : ProgramInterface :=
  mkIface "Ping" "ping program" [mkDef "short" [xaa] [] (fun _ => Ok []) None; ping_def] [] None.

Lemma ping_borsh :
  borsh_fields sample_heap MAX_DECODE_DEPTH ping_layout [VInt 5; sample_value]
    ([x05; x00; x00; x00; x00; x00; x00; x00] ++ sample_bytes ++ []).
Proof. repeat constructor. apply sample_borsh. Qed.

Lemma ping_is_best data : is_best (_defs ping_iface) (def_discriminator ping_def ++ data) ping_def.
Proof.
  exists [mkDef "short" [xaa] [] (fun _ => Ok []) None], []. split; [done|]. split; [done|].
  split; [|set_solver]. intros d' ->%list_elem_of_singleton _. unfold disc_len. simpl. lia.
Qed.

Lemma ping_fields_ok : fields_ok sample_heap ping_layout.
Proof.
  intros f Hf. unfold ping_layout in Hf. rewrite !elem_of_cons in Hf.
  destruct Hf as [->|[->|Hf]]; [by split|by split|set_solver].
Qed.

Lemma instruction_roundtrip_witness :
  let body := [x05; x00; x00; x00; x00; x00; x00; x00] ++ sample_bytes ++ [] in
  @encode_ix_layout no_native sample_heap [xaa; xbb] ping_layout.*2 [VInt 5; sample_value] =
    Ok ([xaa; xbb] ++ body) /\
  iface_decode ping_iface ([xaa; xbb] ++ body) 2 =
    Ok (mkDecoded (Some "ping program"%string) (Some "ping"%string)
          (zip ping_layout.*1 [VInt 5; sample_value]) [Some "payer"%string; None]).
Proof.
  apply (@instruction_roundtrip no_native sample_heap eq_refl eq_refl ping_iface ping_def ping_layout);
    [reflexivity|reflexivity|apply ping_fields_ok|apply (bool_decide_unpack _); vm_compute; exact I
    |apply ping_borsh|apply ping_is_best].
Defined.

Definition list_meta : BorshMeta := mkBorshMeta BORSH ACCOUNT true [x0a; x0b].
Definition list_value : pyval :=
  (VObj "List" [("head", VInt 1); ("tail", VNone); ("shape", VObj "Dot" [])])%string.

Lemma list_borsh : borsh (theap list_state) MAX_DECODE_DEPTH (StructNode 0 "List") list_value [x01; x00; x00].
Proof. apply decode_borsh; vm_compute; reflexivity. Qed.

Lemma account_roundtrip_witness :
  (@BorshStruct_encode no_native list_env "List" (Some list_meta) list_value true list_state).1 =
    Ok ([x0a; x0b] ++ [x01; x00; x00]) /\
  (BorshStruct_decode list_env "List" (Some list_meta) ([x0a; x0b] ++ [x01; x00; x00] ++ [x00; x00])
     true list_state).1 = Ok list_value /\
  forall data, take 2 data <> [x0a; x0b] ->
    (BorshStruct_decode list_env "List" (Some list_meta) data true list_state).1 =
      Raise (BorshError DiscriminatorMismatch 0 []).
Proof.
  apply (@account_roundtrip no_native list_env eq_refl "List" list_meta (tinit list_env)
           (StructNode 0 "List") list_state);
    [apply tinit_wf|apply tinit_complete|vm_compute; reflexivity|vm_compute; reflexivity
    |vm_compute; reflexivity|reflexivity|discriminate|apply list_borsh].
Defined.
