(* ===== verification/Programs.v ===== *)
(** * The built-in programs ([_programs/system.py], [_programs/token.py],
      [_programs/ata.py])

    The System builder and decoders (bincode), the SPL Token ones (Pack) and
    the Associated Token Account interface.  The interfaces are derived by
    [build_interface_from_module] with the decoders as overrides. *)

From Stdlib Require Import ZArith Lia.
From Stdlib Require Import Strings.Byte Strings.Ascii.
From stdpp Require Import base decidable option list gmap strings sorting numbers.
From S2P Require Import Prelude.
From S2P Require Import Bytes.
From S2P Require Import Utf8.
From S2P Require Import Floats.
From S2P Require Import Values.
From S2P Require Import Aliases.
From S2P Require Import Codec.
From S2P Require Import Ir.
From S2P Require Import Compile.
From S2P Require Import Labels.
From S2P Require Import Interface.
From S2P Require Import Builder.

#[local] Open Scope string_scope.

(** The native [Instruction(program_id, metas, data)]. *)
Record Instruction := mkIx { ix_program : bytes; ix_metas : list AccountMeta; ix_data : bytes }.

(** [struct.pack] of one unsigned field: any object with [__index__]. *)
Definition pack_arg (n : nat) (v : pyval) : res bytes :=
  match as_index v with Some z => pack_u n z | None => Raise StructError end.

(** [Pubkey(bytes(d[i:j]))]: the slice stops at the end of the data. *)
Definition pubkey_slice (d : bytes) (i j : nat) : res pyval :=
  if (length (slice d i j) =? 32)%nat then Ok (VPubkey (slice d i j))
  else Raise (ValueError "pubkey bytes must be exactly 32 bytes").

(** What every builder ends with: metas, remaining accounts, instruction. *)
Definition finish `{Native} (pid : bytes) (slots : list slot) (remaining : list meta_like)
  (data : bytes) : res Instruction :=
  '(metas, _) ← build_metas pid slots;
  rest ← mapM_res as_meta remaining;
  Ok (mkIx pid (metas ++ rest) data).

(** A keyword-only account parameter. *)
Definition acc (name : string) : param := mkParam name KEYWORD_ONLY AOther.
Definition arg (name : string) (a : ann) : param := mkParam name POSITIONAL_OR_KEYWORD a.
Definition rem_param : param := mkParam "remaining_accounts" KEYWORD_ONLY AOther.

(** No class is defined by these modules. *)
Definition no_classes : cenv := {| classes := []; vtags := [] |}.

Module System.

Definition SYSTEM_PROGRAM : string := "11111111111111111111111111111111".
(** Base58 ["1" * 32] is 32 zero bytes. *)
Definition PROGRAM_ID : bytes := replicate 32 x00.

Definition _tag (i : Z) : bytes := le_bytes 4 i.

(** ** Decoders *)

Definition _create_account (d : bytes) : res args :=
  lamports ← unpack_u 8 d 0;
  space ← unpack_u 8 d 8;
  owner ← pubkey_slice d 16 48;
  Ok [("lamports", VInt lamports); ("space", VInt space); ("owner", owner)].

Definition _assign (d : bytes) : res args :=
  owner ← pubkey_slice d 0 32;
  Ok [("owner", owner)].

Definition _transfer (d : bytes) : res args :=
  lamports ← unpack_u 8 d 0;
  Ok [("lamports", VInt lamports)].

Definition _allocate (d : bytes) : res args :=
  space ← unpack_u 8 d 0;
  Ok [("space", VInt space)].

Definition _create_account_with_seed (d : bytes) : res args :=
  base ← pubkey_slice d 0 32;
  slen ← unpack_u 8 d 32;
  let off := (40 + Z.to_nat slen)%nat in
  let seed := utf8_decode_replace (slice d 40 off) in
  lamports ← unpack_u 8 d off;
  space ← unpack_u 8 d (off + 8);
  owner ← pubkey_slice d (off + 16) (off + 48);
  Ok [("base", base); ("seed", VStr seed); ("lamports", VInt lamports); ("space", VInt space);
      ("owner", owner)].

(** ** Builders *)

Section builders.
Context `{Native}.

Definition transfer (lamports : pyval) (from_ to : meta_like) (remaining : list meta_like)
  : res Instruction :=
  q ← pack_arg 8 lamports;
  finish PROGRAM_ID [mkSlot from_ true true false; mkSlot to false true false] remaining
         (_tag 2 ++ q).

Definition create_account (lamports space owner : pyval) (from_ to : meta_like)
  (remaining : list meta_like) : res Instruction :=
  q1 ← pack_arg 8 lamports;
  q2 ← pack_arg 8 space;
  k ← pubkey_new owner;
  finish PROGRAM_ID [mkSlot from_ true true false; mkSlot to true true false] remaining
         (_tag 0 ++ (q1 ++ q2) ++ k).

Definition assign (owner : pyval) (account : meta_like) (remaining : list meta_like)
  : res Instruction :=
  k ← pubkey_new owner;
  finish PROGRAM_ID [mkSlot account true true false] remaining (_tag 1 ++ k).

Definition allocate (space : pyval) (account : meta_like) (remaining : list meta_like)
  : res Instruction :=
  q ← pack_arg 8 space;
  finish PROGRAM_ID [mkSlot account true true false] remaining (_tag 8 ++ q).
End builders.

(** ** Registration *)

Definition payer (name : string) : AccountSlot := mkAccountSlot name true true false.

Definition methods : list method := [
  mkMethod (mkIxMeta "transfer" (_tag 2) [payer "from"; mkAccountSlot "to" false true false] BINCODE None)
    [arg "lamports" (AAlias u64); acc "from_"; acc "to"; rem_param];
  mkMethod (mkIxMeta "create_account" (_tag 0) [payer "from"; payer "to"] BINCODE None)
    [arg "lamports" (AAlias u64); arg "space" (AAlias u64); arg "owner" APubkey;
     acc "from_"; acc "to"; rem_param];
  mkMethod (mkIxMeta "assign" (_tag 1) [payer "account"] BINCODE None)
    [arg "owner" APubkey; acc "account"; rem_param];
  mkMethod (mkIxMeta "allocate" (_tag 8) [payer "account"] BINCODE None)
    [arg "space" (AAlias u64); acc "account"; rem_param]].

Definition _OVERRIDES : list (string * (bytes -> res args)) := [
  ("transfer", _transfer); ("create_account", _create_account); ("assign", _assign);
  ("allocate", _allocate)].

Definition _iface : TM ProgramInterface :=
  i ← build_interface_from_module no_classes [] methods SYSTEM_PROGRAM "System Program" _OVERRIDES;
  let i := iface_add "create_account_with_seed" (_tag 3) ["from"; "to"; "base"]
             (Some _create_account_with_seed) None i in
  let i := iface_add "advance_nonce_account" (_tag 4) ["nonce"; "recent_blockhashes"; "authority"]
             None None i in
  let i := iface_add "withdraw_nonce_account" (_tag 5)
             ["nonce"; "to"; "recent_blockhashes"; "rent"; "authority"] None None i in
  let i := iface_add "initialize_nonce_account" (_tag 6) ["nonce"; "recent_blockhashes"; "rent"]
             None None i in
  let i := iface_add "authorize_nonce_account" (_tag 7) ["nonce"; "authority"] None None i in
  mret i.

End System.

Module Token.

Definition TOKEN_PROGRAM : string := "TokenkegQfeZyiNwAJbNbGKPFXCWuBvf9Ss623VQ5DA".
Definition TOKEN_2022_PROGRAM : string := "TokenzQdBNbLqP5VEhdkAS6EPFLC1PHnBqCXEpPxuEb".

(** ** Decoders *)

Definition _none (_ : bytes) : res args := Ok [].

Definition _amount (d : bytes) : res args :=
  amount ← unpack_u 8 d 0;
  Ok [("amount", VInt amount)].

(** [struct.unpack_from("<QB", d, 0)]: nine bytes or [struct.error]. *)
Definition _amount_decimals (d : bytes) : res args :=
  if (9 <=? length d)%nat then
    amount ← unpack_u 8 d 0;
    decimals ← unpack_u 1 d 8;
    Ok [("amount", VInt amount); ("decimals", VInt decimals)]
  else Raise StructError.

(** [d[0]], [d[33]]. *)
Definition byte_at (d : bytes) (i : nat) : res Z :=
  match d !! i with Some b => Ok (Z_of_byte b) | None => Raise IndexError end.

Definition _initialize_mint (d : bytes) : res args :=
  decimals ← byte_at d 0;
  authority ← pubkey_slice d 1 33;
  freeze ← (if (33 <? length d)%nat && match byte_at d 33 with Ok t => (t =? 1)%Z | Raise _ => false end
            then pubkey_slice d 34 66 else Ok VNone);
  Ok [("decimals", VInt decimals); ("mint_authority", authority); ("freeze_authority", freeze)].

Definition _owner (d : bytes) : res args :=
  owner ← pubkey_slice d 0 32;
  Ok [("owner", owner)].

(** ** Builders; [pid] is [cls.program_id] *)

Section builders.
Context `{Native} (pid : bytes).

(** [bytes([0x14, decimals])]: one element of a list of small integers. *)
Definition initialize_mint2 (decimals mint_authority freeze_authority : pyval) (mint : meta_like)
  (remaining : list meta_like) : res Instruction :=
  b ← byte_elem decimals;
  k ← pubkey_new mint_authority;
  tail ← match freeze_authority with
         | VNone => Ok [x00]
         | v => f ← pubkey_new v; Ok (x01 :: f)
         end;
  finish pid [mkSlot mint false true false] remaining ([x14; b] ++ k ++ tail).

Definition initialize_account3 (owner : pyval) (account mint : meta_like)
  (remaining : list meta_like) : res Instruction :=
  k ← pubkey_new owner;
  finish pid [mkSlot account false true false; mkSlot mint false false false] remaining (x12 :: k).

Definition pack_amount_decimals (amount decimals : pyval) : res bytes :=
  q ← pack_arg 8 amount;
  b ← pack_arg 1 decimals;
  Ok (q ++ b)%list.

Definition transfer_checked (amount decimals : pyval) (source mint destination authority : meta_like)
  (remaining : list meta_like) : res Instruction :=
  q ← pack_amount_decimals amount decimals;
  finish pid [mkSlot source false true false; mkSlot mint false false false;
              mkSlot destination false true false; mkSlot authority true false false]
         remaining (x0c :: q).

Definition transfer (amount : pyval) (source destination authority : meta_like)
  (remaining : list meta_like) : res Instruction :=
  q ← pack_arg 8 amount;
  finish pid [mkSlot source false true false; mkSlot destination false true false;
              mkSlot authority true false false] remaining (x03 :: q).

Definition mint_to_checked (amount decimals : pyval) (mint account authority : meta_like)
  (remaining : list meta_like) : res Instruction :=
  q ← pack_amount_decimals amount decimals;
  finish pid [mkSlot mint false true false; mkSlot account false true false;
              mkSlot authority true false false] remaining (x0e :: q).

Definition burn_checked (amount decimals : pyval) (account mint authority : meta_like)
  (remaining : list meta_like) : res Instruction :=
  q ← pack_amount_decimals amount decimals;
  finish pid [mkSlot account false true false; mkSlot mint false true false;
              mkSlot authority true false false] remaining (x0f :: q).

Definition close_account (account destination owner : meta_like) (remaining : list meta_like)
  : res Instruction :=
  finish pid [mkSlot account false true false; mkSlot destination false true false;
              mkSlot owner true false false] remaining [x09].

Definition approve (amount : pyval) (source delegate authority : meta_like)
  (remaining : list meta_like) : res Instruction :=
  q ← pack_arg 8 amount;
  finish pid [mkSlot source false true false; mkSlot delegate false false false;
              mkSlot authority true false false] remaining (x04 :: q).

Definition revoke (source authority : meta_like) (remaining : list meta_like) : res Instruction :=
  finish pid [mkSlot source false true false; mkSlot authority true false false] remaining [x05].

(** [_pk(x)] of an address-like that is not an account. *)
Definition ata_address (ata_program : bytes) (owner mint : pyval) : res bytes :=
  o ← pubkey_new owner;
  m ← pubkey_new mint;
  Ok (find_program_address [o; pid; m] ata_program).1.

Definition create_ata (ata_program : bytes) (funder : meta_like) (owner mint : pyval) : res Instruction :=
  ata ← ata_address ata_program owner mint;
  m0 ← account_meta funder true true;
  m2 ← account_meta (MAddress owner) false false;
  m3 ← account_meta (MAddress mint) false false;
  Ok (mkIx ata_program
        [m0; mkMeta ata false true; m2; m3;
         mkMeta System.PROGRAM_ID false false; mkMeta pid false false] [x00]).
End builders.

(** ** Registration *)

Definition wr (name : string) : AccountSlot := mkAccountSlot name false true false.
Definition ro (name : string) : AccountSlot := mkAccountSlot name false false false.
Definition sg (name : string) : AccountSlot := mkAccountSlot name true false false.

Definition methods : list method := [
  mkMethod (mkIxMeta "initialize_mint2" [x14] [wr "mint"] PACK None)
    [arg "decimals" (AAlias u8); arg "mint_authority" APubkey;
     arg "freeze_authority" (AUnion [APubkey; ANoneType]); acc "mint"; rem_param];
  mkMethod (mkIxMeta "initialize_account3" [x12] [wr "account"; ro "mint"] PACK None)
    [arg "owner" APubkey; acc "account"; acc "mint"; rem_param];
  mkMethod (mkIxMeta "transfer_checked" [x0c] [wr "source"; ro "mint"; wr "destination"; sg "authority"]
              PACK None)
    [arg "amount" (AAlias u64); arg "decimals" (AAlias u8); acc "source"; acc "mint";
     acc "destination"; acc "authority"; rem_param];
  mkMethod (mkIxMeta "transfer" [x03] [wr "source"; wr "destination"; sg "authority"] PACK None)
    [arg "amount" (AAlias u64); acc "source"; acc "destination"; acc "authority"; rem_param];
  mkMethod (mkIxMeta "mint_to_checked" [x0e] [wr "mint"; wr "account"; sg "authority"] PACK None)
    [arg "amount" (AAlias u64); arg "decimals" (AAlias u8); acc "mint"; acc "account";
     acc "authority"; rem_param];
  mkMethod (mkIxMeta "burn_checked" [x0f] [wr "account"; wr "mint"; sg "authority"] PACK None)
    [arg "amount" (AAlias u64); arg "decimals" (AAlias u8); acc "account"; acc "mint";
     acc "authority"; rem_param];
  mkMethod (mkIxMeta "close_account" [x09] [wr "account"; wr "destination"; sg "owner"] PACK None)
    [acc "account"; acc "destination"; acc "owner"; rem_param];
  mkMethod (mkIxMeta "approve" [x04] [wr "source"; ro "delegate"; sg "authority"] PACK None)
    [arg "amount" (AAlias u64); acc "source"; acc "delegate"; acc "authority"; rem_param];
  mkMethod (mkIxMeta "revoke" [x05] [wr "source"; sg "authority"] PACK None)
    [acc "source"; acc "authority"; rem_param]].

Definition _OVERRIDES : list (string * (bytes -> res args)) := [
  ("initialize_mint2", _initialize_mint); ("initialize_account3", _owner);
  ("transfer_checked", _amount_decimals); ("transfer", _amount);
  ("mint_to_checked", _amount_decimals); ("burn_checked", _amount_decimals);
  ("close_account", _none); ("approve", _amount); ("revoke", _none)].

Definition _make_iface (pid name : string) : TM ProgramInterface :=
  i ← build_interface_from_module no_classes [] methods pid name _OVERRIDES;
  let i := iface_add "initialize_mint" [x00] ["mint"; "rent"] (Some _initialize_mint) None i in
  let i := iface_add "initialize_account" [x01] ["account"; "mint"; "owner"; "rent"] None None i in
  let i := iface_add "initialize_multisig" [x02] ["multisig"; "rent"] None None i in
  let i := iface_add "set_authority" [x06] ["account"; "authority"] None None i in
  let i := iface_add "mint_to" [x07] ["mint"; "account"; "authority"] (Some _amount) None i in
  let i := iface_add "burn" [x08] ["account"; "mint"; "authority"] (Some _amount) None i in
  let i := iface_add "freeze_account" [x0a] ["account"; "mint"; "authority"] None None i in
  let i := iface_add "thaw_account" [x0b] ["account"; "mint"; "authority"] None None i in
  let i := iface_add "approve_checked" [x0d] ["source"; "mint"; "delegate"; "authority"]
             (Some _amount_decimals) None i in
  let i := iface_add "initialize_account2" [x10] ["account"; "mint"; "rent"] (Some _owner) None i in
  let i := iface_add "sync_native" [x11] ["account"] None None i in
  let i := iface_add "initialize_multisig2" [x13] ["multisig"] None None i in
  let i := iface_add "get_account_data_size" [x15] ["mint"] None None i in
  let i := iface_add "initialize_immutable_owner" [x16] ["account"] None None i in
  mret i.

End Token.

Module Ata.

Definition ATA_PROGRAM : string := "ATokenGPvbdGVxr1b2hvZbsiqW5xWH25efTNsLJA8knL".

Definition _CREATE_ACCOUNTS : list string :=
  ["funder"; "ata"; "owner"; "mint"; "system_program"; "token_program"].

Definition _iface : ProgramInterface :=
  iface_add "recover_nested" [x02]
    ["nested_ata"; "nested_mint"; "destination_ata"; "owner_ata"; "owner_mint"; "wallet"; "token_program"]
    None None
    (iface_add "create_idempotent" [x01] _CREATE_ACCOUNTS None None
       (iface_add "create" [x00] _CREATE_ACCOUNTS None None
          (new_iface ATA_PROGRAM "Associated Token Account Program"))).

End Ata.

(** Importing [_programs] registers all of them, in this order. *)
Definition import_programs (r : registry) : TM registry :=
  sys ← System._iface;
  tok ← Token._make_iface Token.TOKEN_PROGRAM "Token Program";
  tok22 ← Token._make_iface Token.TOKEN_2022_PROGRAM "Token-2022 Program";
  mret (register tok22 (register tok (register sys (register Ata._iface r)))).
