(* ===== verification/ProgramsProps.v ===== *)
(** * What the built-in builders send, the built-in interfaces decode

    For every System and Token builder: the instruction's data decodes, through
    the interface registered at import, to the very arguments of the call under
    their declared names, and its metas follow the declared account slots. *)

From Stdlib Require Import ZArith Lia.
From Stdlib Require Import Strings.Byte Strings.Ascii.
From stdpp Require Import base decidable option list gmap strings sorting numbers.
From S2P Require Import Prelude.
From S2P Require Import Bytes.
From S2P Require Import Utf8.
From S2P Require Import Floats.
From S2P Require Import Values.
From S2P Require Import Aliases.
From S2P Require Import Codec.
From S2P Require Import Ir.
From S2P Require Import Compile.
From S2P Require Import Labels.
From S2P Require Import Interface.
From S2P Require Import Builder.
From S2P Require Import BuilderProps.
From S2P Require Import Programs.

(** The registry after [import wake_sol._programs]. *)
Definition imported : registry := match (import_programs [] (tinit no_classes)).1 with
                                  | Ok r => r | Raise _ => [] end.

Definition iface_of (pid : string) : ProgramInterface :=
  default (new_iface "" "") (attr_lookup pid imported).

(** The registration walk yields exactly these tables. *)
Definition nothing : bytes -> res args := fun _ => Ok [].

Definition system_table : list InstructionDef := [
  mkDef "transfer" (System._tag 2) ["from"; "to"] System._transfer None;
  mkDef "create_account" (System._tag 0) ["from"; "to"] System._create_account None;
  mkDef "assign" (System._tag 1) ["account"] System._assign None;
  mkDef "allocate" (System._tag 8) ["account"] System._allocate None;
  mkDef "create_account_with_seed" (System._tag 3) ["from"; "to"; "base"]
    System._create_account_with_seed None;
  mkDef "advance_nonce_account" (System._tag 4) ["nonce"; "recent_blockhashes"; "authority"] nothing None;
  mkDef "withdraw_nonce_account" (System._tag 5)
    ["nonce"; "to"; "recent_blockhashes"; "rent"; "authority"] nothing None;
  mkDef "initialize_nonce_account" (System._tag 6) ["nonce"; "recent_blockhashes"; "rent"] nothing None;
  mkDef "authorize_nonce_account" (System._tag 7) ["nonce"; "authority"] nothing None]%string.

Definition token_table : list InstructionDef := [
  mkDef "initialize_mint2" [x14] ["mint"] Token._initialize_mint None;
  mkDef "initialize_account3" [x12] ["account"; "mint"] Token._owner None;
  mkDef "transfer_checked" [x0c] ["source"; "mint"; "destination"; "authority"] Token._amount_decimals None;
  mkDef "transfer" [x03] ["source"; "destination"; "authority"] Token._amount None;
  mkDef "mint_to_checked" [x0e] ["mint"; "account"; "authority"] Token._amount_decimals None;
  mkDef "burn_checked" [x0f] ["account"; "mint"; "authority"] Token._amount_decimals None;
  mkDef "close_account" [x09] ["account"; "destination"; "owner"] Token._none None;
  mkDef "approve" [x04] ["source"; "delegate"; "authority"] Token._amount None;
  mkDef "revoke" [x05] ["source"; "authority"] Token._none None;
  mkDef "initialize_mint" [x00] ["mint"; "rent"] Token._initialize_mint None;
  mkDef "initialize_account" [x01] ["account"; "mint"; "owner"; "rent"] nothing None;
  mkDef "initialize_multisig" [x02] ["multisig"; "rent"] nothing None;
  mkDef "set_authority" [x06] ["account"; "authority"] nothing None;
  mkDef "mint_to" [x07] ["mint"; "account"; "authority"] Token._amount None;
  mkDef "burn" [x08] ["account"; "mint"; "authority"] Token._amount None;
  mkDef "freeze_account" [x0a] ["account"; "mint"; "authority"] nothing None;
  mkDef "thaw_account" [x0b] ["account"; "mint"; "authority"] nothing None;
  mkDef "approve_checked" [x0d] ["source"; "mint"; "delegate"; "authority"] Token._amount_decimals None;
  mkDef "initialize_account2" [x10] ["account"; "mint"; "rent"] Token._owner None;
  mkDef "sync_native" [x11] ["account"] nothing None;
  mkDef "initialize_multisig2" [x13] ["multisig"] nothing None;
  mkDef "get_account_data_size" [x15] ["mint"] nothing None;
  mkDef "initialize_immutable_owner" [x16] ["account"] nothing None]%string.

Definition system_iface : ProgramInterface :=
  mkIface System.SYSTEM_PROGRAM "System Program" system_table [] None.
Definition token_iface (pid name : string) : ProgramInterface := mkIface pid name token_table [] None.

Lemma import_result :
  imported = [(Ata.ATA_PROGRAM, Ata._iface); (System.SYSTEM_PROGRAM, system_iface);
              (Token.TOKEN_PROGRAM, token_iface Token.TOKEN_PROGRAM "Token Program");
              (Token.TOKEN_2022_PROGRAM, token_iface Token.TOKEN_2022_PROGRAM "Token-2022 Program")].
Proof. reflexivity. Qed.

Lemma imported_system : attr_lookup System.SYSTEM_PROGRAM imported = Some system_iface.
Proof. by rewrite import_result. Qed.

Lemma imported_token :
  attr_lookup Token.TOKEN_PROGRAM imported = Some (token_iface Token.TOKEN_PROGRAM "Token Program").
Proof. by rewrite import_result. Qed.

(** The slot a builder fills for a declared account. *)
Definition declared_slot (a : AccountSlot) (v : meta_like) : slot :=
  mkSlot v (as_signer a) (as_writable a) (as_optional a).

(** The instruction [ix] is what method number [k] of [ms] should send for
    [accounts] and the arguments [a], and the interface of [pid] reads it back. *)
Definition sent `{Native} (ms : list method) (k : nat) (pid : string) (key : bytes)
  (accounts : list meta_like) (a : args) (ix : Instruction) : Prop :=
  exists me, ms !! k = Some me /\
    ix_program ix = key /\
    (exists metas rest, ix_metas ix = metas ++ rest /\
       Forall2 (slot_spec key) (zip_with declared_slot (im_accounts (me_meta me)) accounts) metas) /\
    forall n, decode_instruction imported labels_init pid (ix_data ix) n =
      Ok (mkDecoded (Some (iface_name (iface_of pid))) (Some (im_name (me_meta me))) a
                    (pad_names (as_name <$> im_accounts (me_meta me)) n)).

Section helpers.
Context `{Native}.

Lemma finish_ok key slots remaining data ix :
  finish key slots remaining data = Ok ix ->
  ix_program ix = key /\ ix_data ix = data /\
  exists metas rest, ix_metas ix = metas ++ rest /\ Forall2 (slot_spec key) slots metas.
Proof.
  unfold finish. intros Hf. apply bind_Ok_inv in Hf as ([metas w] & Hm & Hf).
  apply bind_Ok_inv in Hf as (rest & Hr & Hf). injection Hf as <-. simpl.
  split; [done|]. split; [done|]. exists metas, rest. split; [done|].
  unfold build_metas in Hm. apply bind_Ok_inv in Hm as (l & Hl & [= <- <-]).
  apply mapM_res_Ok in Hl. clear Hr.
  induction Hl as [|s [m w'] slots l Hs Hl IH]; [constructor|]. rewrite fmap_cons.
  constructor; [by eapply build_meta_spec|done].
Qed.

Lemma decode_imported pid i d data a n :
  attr_lookup pid imported = Some i -> refusing i = None -> _match (_defs i) data = Some d ->
  def_decode_args d (drop (disc_len d) data) = Ok a ->
  decode_instruction imported labels_init pid data n =
    Ok (mkDecoded (Some (iface_name i)) (Some (def_name d)) a (pad_names (def_account_names d) n)).
Proof.
  intros Hi Hr Hm Ha. unfold decode_instruction, iface_decode. by rewrite Hi, Hr, Hm, Ha.
Qed.

Lemma pack_arg_Ok n v bs :
  pack_arg n v = Ok bs -> exists z, as_index v = Some z /\ 0 <= z < 256 ^ Z.of_nat n /\ bs = le_bytes n z.
Proof.
  unfold pack_arg. destruct (as_index v) as [z|]; [|discriminate]. intros [Hz ->]%pack_u_Ok. eauto.
Qed.

(** Reading a field at its offset. *)
Lemma unpack_at n z d pre post i :
  d = pre ++ le_bytes n z ++ post -> 0 <= z < 256 ^ Z.of_nat n -> i = length pre ->
  unpack_u n d i = Ok z.
Proof. intros -> Hz ->. by apply unpack_u_app. Qed.

Lemma pubkey_at k d pre post i j :
  d = pre ++ k ++ post -> length k = 32%nat -> i = length pre -> j = (i + 32)%nat ->
  pubkey_slice d i j = Ok (VPubkey k).
Proof.
  intros -> Hk -> ->. unfold pubkey_slice, slice.
  rewrite drop_app_length. replace (length pre + 32 - length pre)%nat with (length k) by lia.
  rewrite take_app_length. by rewrite Hk.
Qed.
End helpers.

Section system.
Context {N : Native} {NL : NativeLaws}.

(** A [Pubkey] argument holds 32 bytes. *)
Definition addr_ok (v : pyval) : Prop := forall k, v = VPubkey k -> length k = 32%nat.

Lemma pubkey_new_length v k : addr_ok v -> pubkey_new v = Ok k -> length k = 32%nat.
Proof using NL.
  intros Hv. destruct v; simpl; try discriminate; intros Hk.
  - destruct (to_bytes 32 false _) eqn:E; [|discriminate]. simplify_eq.
    rewrite length_reverse. by eapply to_bytes_length.
  - destruct (to_bytes 32 false _) eqn:E; [|discriminate]. simplify_eq.
    rewrite length_reverse. by eapply to_bytes_length.
  - destruct (address_from_str s) eqn:E; [|discriminate]. simplify_eq.
    by eapply address_from_str_length.
  - destruct (length bs =? 32)%nat eqn:E; [|discriminate]. simplify_eq. by apply Nat.eqb_eq.
  - simplify_eq. by apply Hv.
  - destruct (to_bytes 32 false _) eqn:E; [|discriminate]. simplify_eq.
    rewrite length_reverse. by eapply to_bytes_length.
  - destruct (mapM_res byte_elem vs); [|discriminate].
    destruct (length a =? 32)%nat eqn:E; [|discriminate]. simplify_eq. by apply Nat.eqb_eq.
Qed.

Lemma sent_intro ms k pid key accounts a me slots remaining data i d ix :
  finish key slots remaining data = Ok ix ->
  ms !! k = Some me -> attr_lookup pid imported = Some i -> refusing i = None ->
  _match (_defs i) data = Some d ->
  slots = zip_with declared_slot (im_accounts (me_meta me)) accounts ->
  def_name d = im_name (me_meta me) ->
  def_account_names d = (as_name <$> im_accounts (me_meta me)) ->
  def_decode_args d (drop (disc_len d) data) = Ok a ->
  sent ms k pid key accounts a ix.
Proof.
  intros Hf Hk Hi Hr Hm -> Hn Hnames Ha. apply finish_ok in Hf as (Hp & Hd & Hmetas).
  exists me. split; [done|]. split; [done|]. split; [done|]. intros n.
  unfold iface_of. rewrite Hi, Hd, <-Hn, <-Hnames. by apply decode_imported.
Qed.

Ltac sent_by Hf Hi := eapply sent_intro; [exact Hf|reflexivity|exact Hi|reflexivity..|].

(** The System builder and the System decoder agree.  Whatever a builder
    method accepts (integers in range, any address form), the data it sends
    decodes to those arguments, and its metas carry the declared roles'
    signer and writable flags in order. *)
Theorem system_builder_sound :
  (forall lamports from_ to rem ix,
     System.transfer lamports from_ to rem = Ok ix ->
     exists z, as_index lamports = Some z /\
       sent System.methods 0 System.SYSTEM_PROGRAM System.PROGRAM_ID [from_; to]
            [("lamports", VInt z)]%string ix) /\
  (forall lamports space owner from_ to rem ix, addr_ok owner ->
     System.create_account lamports space owner from_ to rem = Ok ix ->
     exists z1 z2 k, as_index lamports = Some z1 /\ as_index space = Some z2 /\ pubkey_new owner = Ok k /\
       sent System.methods 1 System.SYSTEM_PROGRAM System.PROGRAM_ID [from_; to]
            [("lamports", VInt z1); ("space", VInt z2); ("owner", VPubkey k)]%string ix) /\
  (forall owner account rem ix, addr_ok owner ->
     System.assign owner account rem = Ok ix ->
     exists k, pubkey_new owner = Ok k /\
       sent System.methods 2 System.SYSTEM_PROGRAM System.PROGRAM_ID [account]
            [("owner", VPubkey k)]%string ix) /\
  (forall space account rem ix,
     System.allocate space account rem = Ok ix ->
     exists z, as_index space = Some z /\
       sent System.methods 3 System.SYSTEM_PROGRAM System.PROGRAM_ID [account]
            [("space", VInt z)]%string ix).
Proof using NL.
  split; [|split; [|split]].
  - intros * Hb. apply bind_Ok_inv in Hb as (q & (z & Hz & Hr & ->)%pack_arg_Ok & Hf).
    exists z. split; [done|]. sent_by Hf imported_system. change (System._transfer (le_bytes 8 z) = Ok [("lamports"%string, VInt z)]).
    unfold System._transfer. by rewrite (unpack_at 8 z _ [] []) by (done || by rewrite app_nil_r).
  - intros * Ho Hb. apply bind_Ok_inv in Hb as (q1 & (z1 & Hz1 & Hr1 & ->)%pack_arg_Ok & Hb).
    apply bind_Ok_inv in Hb as (q2 & (z2 & Hz2 & Hr2 & ->)%pack_arg_Ok & Hb).
    apply bind_Ok_inv in Hb as (k & Hk & Hf). pose proof (pubkey_new_length _ _ Ho Hk) as Hl.
    exists z1, z2, k. split; [done|]. split; [done|]. split; [done|]. sent_by Hf imported_system.
    match goal with |- _ = ?r => change (System._create_account ((le_bytes 8 z1 ++ le_bytes 8 z2) ++ k) = r) end.
    unfold System._create_account.
    rewrite (unpack_at 8 z1 _ [] (le_bytes 8 z2 ++ k) 0) by (done || by rewrite <-app_assoc).
    rewrite (unpack_at 8 z2 _ (le_bytes 8 z1) k 8) by (done || by rewrite <-app_assoc).
    by rewrite (pubkey_at k _ (le_bytes 8 z1 ++ le_bytes 8 z2) []) by (done || by rewrite app_nil_r).
  - intros * Ho Hb. apply bind_Ok_inv in Hb as (k & Hk & Hf).
    pose proof (pubkey_new_length _ _ Ho Hk) as Hl. exists k. split; [done|]. sent_by Hf imported_system.
    match goal with |- _ = ?r => change (System._assign k = r) end.
    unfold System._assign. by rewrite (pubkey_at k _ [] []) by (done || by rewrite app_nil_r).
  - intros * Hb. apply bind_Ok_inv in Hb as (q & (z & Hz & Hr & ->)%pack_arg_Ok & Hf).
    exists z. split; [done|]. sent_by Hf imported_system.
    match goal with |- _ = ?r => change (System._allocate (le_bytes 8 z) = r) end.
    unfold System._allocate. by rewrite (unpack_at 8 z _ [] []) by (done || by rewrite app_nil_r).
Qed.

Lemma byte_elem_Ok v b :
  byte_elem v = Ok b -> exists z, as_index v = Some z /\ 0 <= z < 256 /\ b = byte_of_Z z.
Proof.
  unfold byte_elem. destruct (as_index v) as [z|]; [|discriminate].
  destruct ((0 <=? z) && (z <? 256)) eqn:E; [|discriminate]. intros [= <-]. zify_bools. eauto.
Qed.

Lemma amount_decimals_roundtrip amount decimals q :
  Token.pack_amount_decimals amount decimals = Ok q ->
  exists z d, as_index amount = Some z /\ as_index decimals = Some d /\
    Token._amount_decimals q = Ok [("amount", VInt z); ("decimals", VInt d)]%string.
Proof.
  intros Hp. apply bind_Ok_inv in Hp as (b1 & (z & Hz & Hr & ->)%pack_arg_Ok & Hp).
  apply bind_Ok_inv in Hp as (b2 & (d & Hd & Hr2 & ->)%pack_arg_Ok & [= <-]).
  exists z, d. split; [done|]. split; [done|]. unfold Token._amount_decimals.
  change (9 <=? length (le_bytes 8 z ++ le_bytes 1 d))%nat with true. cbv iota.
  rewrite (unpack_at 8 z _ [] (le_bytes 1 d) 0) by done.
  by rewrite (unpack_at 1 d _ (le_bytes 8 z) [] 8) by (done || by rewrite app_nil_r).
Qed.

Lemma amount_roundtrip z : 0 <= z < 256 ^ Z.of_nat 8 ->
  Token._amount (le_bytes 8 z) = Ok [("amount", VInt z)]%string.
Proof.
  intros Hz. unfold Token._amount. by rewrite (unpack_at 8 z _ [] [] 0) by (done || by rewrite app_nil_r).
Qed.

(** [COption<Pubkey>] of the freeze authority. *)
Definition freeze_bytes (f : option bytes) : bytes :=
  match f with Some k => x01 :: k | None => [x00] end.
Definition freeze_arg (f : option bytes) : pyval :=
  match f with Some k => VPubkey k | None => VNone end.

Lemma initialize_mint_roundtrip d k f :
  0 <= d < 256 -> length k = 32%nat -> (forall k', f = Some k' -> length k' = 32%nat) ->
  Token._initialize_mint (byte_of_Z d :: k ++ freeze_bytes f) =
    Ok [("decimals", VInt d); ("mint_authority", VPubkey k); ("freeze_authority", freeze_arg f)]%string.
Proof.
  intros Hd Hk Hf. unfold Token._initialize_mint.
  assert (Hb0 : Token.byte_at (byte_of_Z d :: k ++ freeze_bytes f) 0 = Ok d).
  { unfold Token.byte_at. simpl. by rewrite Z_of_byte_of_Z, Z.mod_small. }
  rewrite Hb0. cbn [mbind res_bind].
  rewrite (pubkey_at k _ [byte_of_Z d] (freeze_bytes f) 1 33) by done. cbn [mbind res_bind].
  assert (Hb : Token.byte_at (byte_of_Z d :: k ++ freeze_bytes f) 33 =
               match f with Some _ => Ok 1 | None => Ok 0 end).
  { unfold Token.byte_at. simpl lookup. rewrite lookup_app_r by lia. rewrite Hk. by destruct f. }
  rewrite Hb. assert (Hlen : (33 <? length (byte_of_Z d :: k ++ freeze_bytes f))%nat = true).
  { apply Nat.ltb_lt. simpl. rewrite length_app, Hk. destruct f; simpl; lia. }
  rewrite Hlen. destruct f as [k'|]; [|done].
  change (true && (1 =? 1)) with true. cbv iota.
  rewrite (pubkey_at k' _ (byte_of_Z d :: k ++ [x01]) [] 34 66); [done| |by apply Hf| |done].
  - simpl. by rewrite app_nil_r, <-app_assoc.
  - simpl. rewrite length_app, Hk. done.
Qed.

(** C31: the Token builder and the Token decoder agree, for all nine builder
    methods, freeze authority present or absent: the data decodes, through the
    interface of the Token program, to the arguments of the call, and the
    metas follow the declared slots. *)
Theorem token_builder_sound pid :
  let sent k := sent Token.methods k Token.TOKEN_PROGRAM pid in
  (forall decimals auth freeze mint rem ix, addr_ok auth -> addr_ok freeze ->
     Token.initialize_mint2 pid decimals auth freeze mint rem = Ok ix ->
     exists d k f, as_index decimals = Some d /\ pubkey_new auth = Ok k /\
       match f with Some k' => pubkey_new freeze = Ok k' | None => freeze = VNone end /\
       sent 0%nat [mint] [("decimals", VInt d); ("mint_authority", VPubkey k);
                          ("freeze_authority", freeze_arg f)]%string ix) /\
  (forall owner account mint rem ix, addr_ok owner ->
     Token.initialize_account3 pid owner account mint rem = Ok ix ->
     exists k, pubkey_new owner = Ok k /\ sent 1%nat [account; mint] [("owner", VPubkey k)]%string ix) /\
  (forall amount decimals src mint dst auth rem ix,
     Token.transfer_checked pid amount decimals src mint dst auth rem = Ok ix ->
     exists z d, as_index amount = Some z /\ as_index decimals = Some d /\
       sent 2%nat [src; mint; dst; auth] [("amount", VInt z); ("decimals", VInt d)]%string ix) /\
  (forall amount src dst auth rem ix, Token.transfer pid amount src dst auth rem = Ok ix ->
     exists z, as_index amount = Some z /\ sent 3%nat [src; dst; auth] [("amount", VInt z)]%string ix) /\
  (forall amount decimals mint account auth rem ix,
     Token.mint_to_checked pid amount decimals mint account auth rem = Ok ix ->
     exists z d, as_index amount = Some z /\ as_index decimals = Some d /\
       sent 4%nat [mint; account; auth] [("amount", VInt z); ("decimals", VInt d)]%string ix) /\
  (forall amount decimals account mint auth rem ix,
     Token.burn_checked pid amount decimals account mint auth rem = Ok ix ->
     exists z d, as_index amount = Some z /\ as_index decimals = Some d /\
       sent 5%nat [account; mint; auth] [("amount", VInt z); ("decimals", VInt d)]%string ix) /\
  (forall account dst owner rem ix, Token.close_account pid account dst owner rem = Ok ix ->
     sent 6%nat [account; dst; owner] [] ix) /\
  (forall amount src delegate auth rem ix, Token.approve pid amount src delegate auth rem = Ok ix ->
     exists z, as_index amount = Some z /\
       sent 7%nat [src; delegate; auth] [("amount", VInt z)]%string ix) /\
  (forall src auth rem ix, Token.revoke pid src auth rem = Ok ix -> sent 8%nat [src; auth] [] ix).
Proof using NL.
  intros sent. repeat split.
  - intros * Ha Hfr Hb. apply bind_Ok_inv in Hb as (b & (d & Hd & Hr & ->)%byte_elem_Ok & Hb).
    apply bind_Ok_inv in Hb as (k & Hk & Hb). apply bind_Ok_inv in Hb as (tail & Ht & Hf).
    assert (exists f, tail = freeze_bytes f /\
      match f with Some k' => pubkey_new freeze = Ok k' | None => freeze = VNone end) as (f & -> & Hfz).
    { destruct freeze; try (apply bind_Ok_inv in Ht as (k' & Hk' & [= <-]); by exists (Some k')).
      injection Ht as <-. by exists None. }
    exists d, k, f. split; [done|]. split; [done|]. split; [done|]. sent_by Hf imported_token.
    match goal with |- _ = ?r =>
      change (Token._initialize_mint (byte_of_Z d :: k ++ freeze_bytes f) = r) end.
    apply initialize_mint_roundtrip; [done|by apply (pubkey_new_length auth)|].
    intros k' ->. by apply (pubkey_new_length freeze).
  - intros * Ho Hb. apply bind_Ok_inv in Hb as (k & Hk & Hf).
    pose proof (pubkey_new_length _ _ Ho Hk) as Hl. exists k. split; [done|]. sent_by Hf imported_token.
    match goal with |- _ = ?r => change (Token._owner k = r) end.
    unfold Token._owner. by rewrite (pubkey_at k _ [] []) by (done || by rewrite app_nil_r).
  - intros * Hb. apply bind_Ok_inv in Hb as (q & (z & d & Hz & Hd & Hq)%amount_decimals_roundtrip & Hf).
    exists z, d. split; [done|]. split; [done|]. sent_by Hf imported_token. exact Hq.
  - intros * Hb. apply bind_Ok_inv in Hb as (q & (z & Hz & Hr & ->)%pack_arg_Ok & Hf).
    exists z. split; [done|]. sent_by Hf imported_token. by apply amount_roundtrip.
  - intros * Hb. apply bind_Ok_inv in Hb as (q & (z & d & Hz & Hd & Hq)%amount_decimals_roundtrip & Hf).
    exists z, d. split; [done|]. split; [done|]. sent_by Hf imported_token. exact Hq.
  - intros * Hb. apply bind_Ok_inv in Hb as (q & (z & d & Hz & Hd & Hq)%amount_decimals_roundtrip & Hf).
    exists z, d. split; [done|]. split; [done|]. sent_by Hf imported_token. exact Hq.
  - intros * Hf. sent_by Hf imported_token. reflexivity.
  - intros * Hb. apply bind_Ok_inv in Hb as (q & (z & Hz & Hr & ->)%pack_arg_Ok & Hf).
    exists z. split; [done|]. sent_by Hf imported_token. by apply amount_roundtrip.
  - intros * Hf. sent_by Hf imported_token. reflexivity.
Qed.
End system.

(** ** Dispatch among the built-ins *)

(** Same-length, distinct discriminators: every instruction is reachable. *)
Lemma match_exact defs d data n :
  d ∈ defs -> NoDup (def_discriminator <$> defs) -> Forall (fun d => disc_len d = n) defs ->
  _match defs (def_discriminator d ++ data) = Some d.
Proof.
  intros Hin Hnd Hlen. pose proof (match_best defs (def_discriminator d ++ data)) as Hb.
  assert (Hm : matches (def_discriminator d ++ data) d = true).
  { unfold matches. apply bool_decide_eq_true. apply take_app_length. }
  destruct (_match _ _) as [d'|]; [|rewrite Hb in Hm; done]. f_equal.
  destruct Hb as (l1 & l2 & -> & Hm' & _). rewrite list.Forall_forall in Hlen.
  pose proof (Hlen d Hin) as Hl. pose proof (Hlen d' ltac:(set_solver)) as Hl'. unfold disc_len in *.
  unfold matches in Hm'. apply bool_decide_eq_true in Hm'.
  rewrite Hl', <-Hl, take_app_length in Hm'.
  apply list_elem_of_lookup in Hin as [i Hi].
  assert (Hj : (l1 ++ d' :: l2) !! length l1 = Some d') by by rewrite list_lookup_middle.
  assert (i = length l1) as ->; [|congruence].
  eapply (NoDup_lookup _ _ _ (def_discriminator d) Hnd); rewrite list_lookup_fmap.
  - by rewrite Hi.
  - by rewrite Hj, Hm'.
Qed.

(** No built-in instruction is shadowed.  In each program registered at
    import, every instruction, builder-made or decode-only, is the one its
    discriminator dispatches to, whatever arguments follow. *)
Theorem builtin_dispatch_exact pid i d data :
  attr_lookup pid imported = Some i -> d ∈ _defs i ->
  _match (_defs i) (def_discriminator d ++ data) = Some d.
Proof.
  intros Hi Hd.
  assert (Hall : Forall (fun e => NoDup (def_discriminator <$> _defs e.2) /\
            exists n, Forall (fun d => disc_len d = n) (_defs e.2)) imported).
  { rewrite import_result. repeat constructor.
    all: try (eexists; by repeat constructor).
    all: apply (bool_decide_unpack _); vm_compute; exact I. }
  rewrite list.Forall_forall in Hall. apply attr_lookup_elem in Hi.
  destruct (Hall _ Hi) as [Hnd [n Hn]]. by eapply match_exact.
Qed.

(** ** Witnesses *)

Definition toy_transfer : Instruction :=
  mkIx System.PROGRAM_ID
    [mkMeta (replicate 32 x01) true true; mkMeta (replicate 32 x02) false true]
    (System._tag 2 ++ le_bytes 8 5).

Lemma system_builder_sound_witness :
  exists z, as_index (VInt 5) = Some z /\
    @sent toy_native System.methods 0 System.SYSTEM_PROGRAM System.PROGRAM_ID
      [MAccount (replicate 32 x01); MAccount (replicate 32 x02)] [("lamports", VInt z)]%string toy_transfer.
Proof.
  apply (proj1 (@system_builder_sound toy_native toy_native_laws)
           (VInt 5) (MAccount (replicate 32 x01)) (MAccount (replicate 32 x02)) [] toy_transfer).
  vm_compute. reflexivity.
Defined.

Lemma token_builder_sound_witness :
  @sent toy_native Token.methods 8 Token.TOKEN_PROGRAM (replicate 32 x07)
    [MAccount (replicate 32 x01); MAccount (replicate 32 x02)] []
    (mkIx (replicate 32 x07)
       [mkMeta (replicate 32 x01) false true; mkMeta (replicate 32 x02) true false] [x05]).
Proof.
  destruct (@token_builder_sound toy_native toy_native_laws (replicate 32 x07))
    as (_ & _ & _ & _ & _ & _ & _ & _ & Hrevoke).
  apply (Hrevoke (MAccount (replicate 32 x01)) (MAccount (replicate 32 x02)) []).
  vm_compute. reflexivity.
Defined.

Lemma builtin_dispatch_exact_witness :
  _match (_defs system_iface) (System._tag 2 ++ [x01]) =
    Some (mkDef "transfer" (System._tag 2) ["from"; "to"]%string System._transfer None).
Proof.
  apply (builtin_dispatch_exact System.SYSTEM_PROGRAM system_iface
           (mkDef "transfer" (System._tag 2) ["from"; "to"]%string System._transfer None) [x01]).
  - apply imported_system.
  - left.
Defined.
