(* ===== verification/Precompiles.v ===== *)
(** * Signature-verification precompiles ([_precompiles.py], [secp256k1.py],
      [secp256r1.py], [ed25519.py])

    Claims, their placement, the assembler of the offset table, deferred
    instructions and their resolution against the whole transaction.  The curve
    arithmetic is native: the operations of the class [Curves]. *)

From Stdlib Require Import ZArith Lia.
From Stdlib Require Import Strings.Byte Strings.Ascii.
From stdpp Require Import base decidable option list gmap strings sorting numbers.
From S2P Require Import Prelude.
From S2P Require Import Bytes.
From S2P Require Import Values.
From S2P Require Import Interface.
From S2P Require Import Builder.
From S2P Require Import Programs.

Definition CURRENT_INSTRUCTION : Z := 0xFFFF.
Definition SIGNATURE_SIZE : nat := 64.

(** Instructions are compared by identity: [r_target] is the number of an
    object of the transaction list. *)
Record Ref := mkRef {
  r_target : option nat;
  r_offset : option Z;
  r_size : option Z;
  r_index : option Z;
}.

Inductive Placement := Inline | AtRef (r : Ref).

Record SignedMessage := mkClaim {
  curve : string;
  identity : bytes;
  signature : bytes;
  message : bytes;
  recovery_id : option Z;
  signature_at : Placement;
  identity_at : Placement;
  message_at : Placement;
}.

(** [sm.at(signature=.., identity=.., message=..)]. *)
Definition claim_at (s i m : option Placement) (sm : SignedMessage) : SignedMessage :=
  mkClaim (curve sm) (identity sm) (signature sm) (message sm) (recovery_id sm)
    (default (signature_at sm) s) (default (identity_at sm) i) (default (message_at sm) m).

Record Offsets := mkOffsets {
  signature_offset : Z; signature_ix : Z;
  identity_offset : Z; identity_ix : Z;
  message_offset : Z; message_size : Z; message_ix : Z;
}.

Record CurveSpec := mkSpec {
  spec_name : string;
  spec_program : bytes;
  identity_size : nat;
  index_width : nat;
  has_recovery : bool;
  inline_ix : option Z;
}.

Definition offsets_size (s : CurveSpec) : nat := if (index_width s =? 2)%nat then 14 else 11.
Definition header_size (s : CurveSpec) : nat := if (index_width s =? 2)%nat then 2 else 1.

(** The fields of the wire struct with their widths, in order. *)
Definition offsets_fields (s : CurveSpec) (o : Offsets) : list (nat * Z) :=
  let w := if (index_width s =? 2)%nat then 2%nat else 1%nat in
  [(2%nat, signature_offset o); (w, signature_ix o); (2%nat, identity_offset o); (w, identity_ix o);
   (2%nat, message_offset o); (2%nat, message_size o); (w, message_ix o)].

(** [struct.pack("<...", *fields)]. *)
Fixpoint pack_fields (fs : list (nat * Z)) : res bytes :=
  match fs with
  | [] => Ok []
  | (w, z) :: fs => b ← pack_u w z; bs ← pack_fields fs; Ok (b ++ bs)
  end.

Definition _pack_offsets (s : CurveSpec) (o : Offsets) : res bytes := pack_fields (offsets_fields s o).

(** [bytes([z])]. *)
Definition byte_list1 (z : Z) : res bytes :=
  if (0 <=? z) && (z <? 256) then Ok [byte_of_Z z]
  else Raise (ValueError "bytes must be in range(0, 256)").

Definition _signature_blob (s : CurveSpec) (sm : SignedMessage) : res bytes :=
  if negb (length (signature sm) =? SIGNATURE_SIZE)%nat
  then Raise (ValueError "signature must be 64 bytes")
  else if has_recovery s then
    match recovery_id sm with
    | None => Raise (ValueError "claim is missing recovery_id")
    | Some r => b ← byte_list1 r; Ok (signature sm ++ b)
    end
  else Ok (signature sm).

Definition _check_claim (s : CurveSpec) (sm : SignedMessage) : res unit :=
  if negb (bool_decide (curve sm = spec_name s)) then Raise (ValueError "curves cannot be mixed")
  else if negb (length (identity sm) =? identity_size s)%nat
  then Raise (ValueError "identity has the wrong size")
  else Ok tt.

Definition is_ref (p : Placement) : bool := match p with AtRef _ => true | Inline => false end.

Definition _has_refs (claims : list SignedMessage) : bool :=
  existsb (fun sm => is_ref (identity_at sm) || is_ref (signature_at sm) || is_ref (message_at sm)) claims.

(** A deferred [verify(...)] result. *)
Record PrecompileInstruction := mkPrecompile { pc_spec : CurveSpec; pc_claims : list SignedMessage }.

(** The items of a transaction, each with its object identity. *)
Inductive tx_item :=
  | TIx (id : nat) (ix : Instruction)
  | TPre (id : nat) (p : PrecompileInstruction)
  | TOther (id : nat).

Definition item_id (t : tx_item) : nat := match t with TIx id _ | TPre id _ | TOther id => id end.
Definition item_data (t : tx_item) : option bytes :=
  match t with TIx _ ix => Some (ix_data ix) | _ => None end.

(** [d.find(v, start)]. *)
Definition bytes_find (d v : bytes) (start : nat) : option nat :=
  snd <$> list_find (fun i => take (length v) (drop i d) = v)
            (seq start (S (length d) - length v - start)).

(** [next((j for j, other in enumerate(ix_list) if other is ref.target), None)]. *)
Definition find_target (target : nat) (ixs : list tx_item) : option (nat * tx_item) :=
  list_find (fun t => item_id t = target) ixs.

(** The instruction index and, when it is known, the data to search. *)
Definition resolve_target (r : Ref) (ixs : option (list tx_item)) : res (Z * option bytes) :=
  match r_target r, r_index r with
  | None, None | Some _, Some _ =>
      Raise (ValueError "Ref needs exactly one of target= or index=")
  | None, Some idx =>
      Ok (idx, ixs' ← ixs;
               if 0 <=? idx then t ← ixs' !! Z.to_nat idx; item_data t else None)
  | Some target, None =>
      match ixs with
      | None => Raise (ValueError "Ref(target=...) needs transaction context")
      | Some ixs' =>
          match find_target target ixs' with
          | None => Raise (ValueError "Ref target is not an instruction in this transaction")
          | Some (j, t) =>
              match item_data t with
              | None => Raise (ValueError "Ref target must be a concrete Instruction")
              | Some d => Ok (Z.of_nat j, Some d)
              end
          end
      end
  end.

Definition _resolve_ref (r : Ref) (value : bytes) (ixs : option (list tx_item)) : res (Z * Z) :=
  '(idx, target_data) ← resolve_target r ixs;
  match r_offset r with
  | Some off => Ok (idx, off)
  | None =>
      match target_data with
      | None => Raise (ValueError "Ref without offset= needs a resolvable Instruction target")
      | Some d =>
          match bytes_find d value 0 with
          | None => Raise (ValueError "Ref: component bytes not found in the target instruction")
          | Some first =>
              match bytes_find d value (S first) with
              | Some _ => Raise (ValueError "Ref: component bytes occur more than once in the target")
              | None => Ok (idx, Z.of_nat first)
              end
          end
      end
  end.

(** ** The assembler *)

Section build.
Context (s : CurveSpec) (ix : Z) (ixs : option (list tx_item)).

(** The loop's state: the cursor and the body so far. *)
Abbreviation bstate := (Z * bytes)%type.

(** One component: [(offset, instruction index, size)]. *)
Definition place (p : Placement) (value : bytes) (st : bstate) : res (Z * Z * Z * bstate) :=
  match p with
  | AtRef r =>
      '(idx, off) ← _resolve_ref r value ixs;
      Ok (off, idx, default (Z.of_nat (length value)) (r_size r), st)
  | Inline =>
      Ok (st.1, ix, Z.of_nat (length value), (st.1 + Z.of_nat (length value), st.2 ++ value))
  end.

Definition build_claim (sm : SignedMessage) (st : bstate) : res (bytes * bstate) :=
  _ ← _check_claim s sm;
  blob ← _signature_blob s sm;
  '(io, ii, _, st) ← place (identity_at sm) (identity sm) st;
  '(so, si, _, st) ← place (signature_at sm) blob st;
  '(mo, mi, ms, st) ← place (message_at sm) (message sm) st;
  o ← _pack_offsets s (mkOffsets so si io ii mo ms mi);
  Ok (o, st).

Fixpoint build_claims (claims : list SignedMessage) (st : bstate) : res (list bytes * bstate) :=
  match claims with
  | [] => Ok ([], st)
  | sm :: claims =>
      '(o, st) ← build_claim sm st;
      '(os, st) ← build_claims claims st;
      Ok (o :: os, st)
  end.
End build.

Definition data_start (s : CurveSpec) (count : nat) : nat := (header_size s + offsets_size s * count)%nat.

(** [spec.inline_ix if spec.inline_ix is not None else self_index]. *)
Definition effective_ix (s : CurveSpec) (self_index : Z) : Z := default self_index (inline_ix s).

Definition header_pad (s : CurveSpec) : bytes := if (header_size s =? 2)%nat then [x00] else [].

Definition build_instruction_data (s : CurveSpec) (claims : list SignedMessage) (self_index : Z)
  (ixs : option (list tx_item)) : res bytes :=
  '(structs, st) ← build_claims s (effective_ix s self_index) ixs claims
                     (Z.of_nat (data_start s (length claims)), []);
  count ← byte_list1 (Z.of_nat (length claims));
  Ok ((count ++ header_pad s) ++ concat structs ++ st.2).

(** [PrecompileInstruction.__init__]: every claim is validated up front. *)
Definition PrecompileInstruction_new (s : CurveSpec) (claims : list SignedMessage)
  : res PrecompileInstruction :=
  _ ← mapM_res (fun sm => _ ← _check_claim s sm; _signature_blob s sm) claims;
  Ok (mkPrecompile s claims).

Definition pc_resolve (p : PrecompileInstruction) (self_index : Z) (ixs : option (list tx_item))
  : res Instruction :=
  data ← build_instruction_data (pc_spec p) (pc_claims p) self_index ixs;
  Ok (mkIx (spec_program (pc_spec p)) [] data).

Definition build_verify (s : CurveSpec) (claims : list SignedMessage)
  : res (Instruction + PrecompileInstruction) :=
  match inline_ix s with
  | Some _ =>
      if _has_refs claims then inr <$> PrecompileInstruction_new s claims
      else data ← build_instruction_data s claims 0 None;
           Ok (inl (mkIx (spec_program s) [] data))
  | None => inr <$> PrecompileInstruction_new s claims
  end.

(** The raw hatch: [count & 0xFF] is written whatever the entries are. *)
Definition pack (s : CurveSpec) (count : Z) (entries : list Offsets) (data : bytes) : res Instruction :=
  os ← mapM_res (_pack_offsets s) entries;
  Ok (mkIx (spec_program s) []
        (([byte_of_Z (Z.land count 0xFF)] ++ header_pad s) ++ concat os ++ data)).

Fixpoint materialize_from (i : nat) (all : list tx_item) (ixs : list tx_item) : res (list Instruction) :=
  match ixs with
  | [] => Ok []
  | t :: rest =>
      ix ← match t with
           | TIx _ ix => Ok ix
           | TPre _ p => pc_resolve p (Z.of_nat i) (Some all)
           | TOther _ => Raise (TypeError "expected an Instruction or a precompile verify(...) result")
           end;
      out ← materialize_from (S i) all rest;
      Ok (ix :: out)
  end.

Definition materialize (ixs : list tx_item) : res (list Instruction) := materialize_from 0 ixs ixs.

(** ** The call-trace interface: the count of the header *)

Definition _DISPLAY (name : string) : option string :=
  attr_lookup name [("ed25519", "Ed25519 Program"); ("secp256k1", "Secp256k1 Program");
                    ("secp256r1", "Secp256r1 Program")]%string.

Definition precompile_decode (s : CurveSpec) (data : bytes) : DecodedInstruction :=
  let count := match data with b :: _ => Z_of_byte b | [] => 0 end in
  mkDecoded (_DISPLAY (spec_name s)) (Some "verify"%string) [("signatures"%string, VInt count)] [].

(** ** The three curves *)

Definition ed25519_SPEC (pid : bytes) : CurveSpec :=
  mkSpec "ed25519" pid 32 2 false (Some CURRENT_INSTRUCTION).
Definition secp256r1_SPEC (pid : bytes) : CurveSpec :=
  mkSpec "secp256r1" pid 33 2 false (Some CURRENT_INSTRUCTION).
Definition secp256k1_SPEC (pid : bytes) : CurveSpec := mkSpec "secp256k1" pid 20 1 true None.

(** The native signing functions ([None]: the secret is refused). *)
Class Curves := {
  secp256k1_eth_address : bytes -> option bytes;
  secp256k1_sign : bytes -> bytes -> option (bytes * Z);
  secp256r1_public_key : bytes -> option bytes;
  secp256r1_sign : bytes -> bytes -> option bytes;
}.

(** What the native module documents: sizes, and that a secret that gives an
    identity signs. *)
Class CurvesLaws `{Curves} := {
  k1_address_length sk a : secp256k1_eth_address sk = Some a -> length a = 20%nat;
  k1_sign_ok sk a m : secp256k1_eth_address sk = Some a ->
    exists sig r, secp256k1_sign sk m = Some (sig, r) /\ length sig = 64%nat /\ 0 <= r < 4;
  r1_key_length sk k : secp256r1_public_key sk = Some k -> length k = 33%nat;
  r1_sign_ok sk k m : secp256r1_public_key sk = Some k ->
    exists sig, secp256r1_sign sk m = Some sig /\ length sig = 64%nat;
}.

Section keys.
Context `{Curves}.

(** [Key(secret)]: the secret is validated by deriving the identity. *)
Definition k1_Key (secret : bytes) : res bytes :=
  match secp256k1_eth_address secret with Some _ => Ok secret | None => Raise (ValueError "secret") end.

Definition k1_Key_sign (secret msg : bytes) : res SignedMessage :=
  match secp256k1_sign secret msg, secp256k1_eth_address secret with
  | Some (sig, r), Some a => Ok (mkClaim "secp256k1" a sig msg (Some r) Inline Inline Inline)
  | _, _ => Raise (ValueError "secret")
  end.

Definition r1_Key (secret : bytes) : res bytes :=
  match secp256r1_public_key secret with Some _ => Ok secret | None => Raise (ValueError "secret") end.

Definition r1_Key_sign (secret msg : bytes) : res SignedMessage :=
  match secp256r1_sign secret msg, secp256r1_public_key secret with
  | Some sig, Some k => Ok (mkClaim "secp256r1" k sig msg None Inline Inline Inline)
  | _, _ => Raise (ValueError "secret")
  end.

(** [Key.new]: the secret the native module derives from a random seed of 32
    bytes; [Key.from_secret]: a given one. *)
Definition k1_Key_new (secret_from_seed : bytes -> option bytes) (seed : bytes) : res bytes :=
  match secret_from_seed seed with Some secret => k1_Key secret | None => Raise (ValueError "seed") end.
Definition k1_Key_from_secret (secret : bytes) : res bytes := k1_Key secret.
Definition r1_Key_new (secret_from_seed : bytes -> option bytes) (seed : bytes) : res bytes :=
  match secret_from_seed seed with Some secret => r1_Key secret | None => Raise (ValueError "seed") end.
Definition r1_Key_from_secret (secret : bytes) : res bytes := r1_Key secret.
End keys.

Definition secp256k1_pack (pid : bytes) (count : Z) (entries : list Offsets) (data : bytes) : res Instruction :=
  pack (secp256k1_SPEC pid) count entries data.
Definition secp256r1_pack (pid : bytes) (count : Z) (entries : list Offsets) (data : bytes) : res Instruction :=
  pack (secp256r1_SPEC pid) count entries data.
Definition ed25519_pack (pid : bytes) (count : Z) (entries : list Offsets) (data : bytes) : res Instruction :=
  pack (ed25519_SPEC pid) count entries data.

Definition secp256k1_verify (pid : bytes) (claims : list SignedMessage) : res PrecompileInstruction :=
  PrecompileInstruction_new (secp256k1_SPEC pid) claims.
Definition secp256r1_verify (pid : bytes) (claims : list SignedMessage) :=
  build_verify (secp256r1_SPEC pid) claims.
Definition ed25519_verify (pid : bytes) (claims : list SignedMessage) :=
  build_verify (ed25519_SPEC pid) claims.
