(* ===== verification/PrecompilesProps.v ===== *)
(** * What the runtime reads out of an assembled precompile

    The runtime's reading of a precompile instruction is written down as the
    wire format documents it: parse entry [k] of the offset table, fetch each
    component from the instruction its index names.  On every transaction the
    harness assembles it finds exactly the claims that were passed. *)

From Stdlib Require Import ZArith Lia.
From Stdlib Require Import Strings.Byte Strings.Ascii.
From stdpp Require Import base decidable option list gmap strings sorting numbers.
From S2P Require Import Prelude.
From S2P Require Import Bytes.
From S2P Require Import Values.
From S2P Require Import Interface.
From S2P Require Import Builder.
From S2P Require Import Programs.
From S2P Require Import Precompiles.

(** ** The reader *)

Fixpoint parse_fields (ws : list nat) (d : bytes) : list Z :=
  match ws with
  | [] => []
  | w :: ws => le_value (take w d) :: parse_fields ws (drop w d)
  end.

Definition widths (s : CurveSpec) : list nat :=
  let w := if (index_width s =? 2)%nat then 2%nat else 1%nat in
  [2; w; 2; w; 2; 2; w]%nat.

Definition entry_fields (s : CurveSpec) (data : bytes) (k : nat) : list Z :=
  parse_fields (widths s) (drop (header_size s + offsets_size s * k) data).

(** The bytes at [off] of instruction [ix] ([0xFFFF]: this one, where the curve
    has the sentinel). *)
Definition fetch (s : CurveSpec) (tx : list bytes) (self : nat) (ix off : Z) (size : nat) : option bytes :=
  d ← (if (index_width s =? 2)%nat && (ix =? CURRENT_INSTRUCTION) then tx !! self
       else tx !! Z.to_nat ix);
  Some (slice d (Z.to_nat off) (Z.to_nat off + size)).

Definition blob_size (s : CurveSpec) : nat := if has_recovery s then 65 else 64.

(** Entry [k] of the precompile at position [self]: identity, signature blob,
    message. *)
Definition runtime_claim (s : CurveSpec) (tx : list bytes) (self k : nat)
  : option (bytes * bytes * bytes) :=
  d ← tx !! self;
  match entry_fields s d k with
  | [so; si; io; ii; mo; ms; mi] =>
      i ← fetch s tx self ii io (identity_size s);
      sg ← fetch s tx self si so (blob_size s);
      m ← fetch s tx self mi mo (Z.to_nat ms);
      Some (i, sg, m)
  | _ => None
  end.

(** ** Packing and parsing the table *)

Lemma pack_fields_parse fs bs rest :
  pack_fields fs = Ok bs ->
  parse_fields fs.*1 (bs ++ rest) = fs.*2 /\ length bs = list_sum fs.*1.
Proof.
  revert bs; induction fs as [|[w z] fs IH]; intros bs Hp; simpl in Hp.
  - by injection Hp as <-.
  - apply bind_Ok_inv in Hp as (b & [Hz ->]%pack_u_Ok & Hp).
    apply bind_Ok_inv in Hp as (bs' & Hbs & [= <-]). destruct (IH bs' Hbs) as [IHp IHl].
    rewrite !fmap_cons. simpl. rewrite <-app_assoc.
    rewrite take_app_length', drop_app_length' by (by rewrite length_le_bytes).
    rewrite IHp, le_value_le_bytes, Z.mod_small by done. split; [done|].
    rewrite length_app, length_le_bytes. f_equal. exact IHl.
Qed.

Lemma widths_fields s o : (offsets_fields s o).*1 = widths s.
Proof. unfold offsets_fields, widths. by destruct (index_width s =? 2)%nat. Qed.

Lemma widths_sum s : list_sum (widths s) = offsets_size s.
Proof. unfold widths, offsets_size. by destruct (index_width s =? 2)%nat. Qed.

Lemma parse_entry s so si io ii mo ms mi o tail :
  _pack_offsets s (mkOffsets so si io ii mo ms mi) = Ok o ->
  parse_fields (widths s) (o ++ tail) = [so; si; io; ii; mo; ms; mi].
Proof. intros Hp. apply (pack_fields_parse _ _ tail) in Hp as [Hp _]. by rewrite widths_fields in Hp. Qed.

Lemma drop_concat (structs : list bytes) L k o rest :
  Forall (fun o => length o = L) structs -> structs !! k = Some o ->
  exists tail, drop (L * k) (concat structs ++ rest) = o ++ tail.
Proof.
  intros Hall. revert k; induction Hall as [|o' structs Ho Hall IH]; intros k Hk; [done|].
  destruct k as [|k]; simpl in Hk.
  - injection Hk as ->. rewrite Nat.mul_0_r. simpl. rewrite <-app_assoc. by eexists.
  - destruct (IH k Hk) as [tail Ht]. exists tail. rewrite <-Ht. simpl.
    rewrite <-app_assoc, <-Ho. replace (length o' * S k)%nat with (length o' + length o' * k)%nat by lia.
    by rewrite <-drop_drop, drop_app_length.
Qed.

Lemma length_concat_const (structs : list bytes) L :
  Forall (fun o => length o = L) structs -> length (concat structs) = (L * length structs)%nat.
Proof.
  induction 1 as [|o structs Ho Hall IH]; simpl; [lia|]. rewrite length_app, IH, Ho. lia.
Qed.

(** ** Where the assembler puts a component *)

Definition located (start ix : Z) (ixs : option (list tx_item)) (p : Placement) (v : bytes)
  (off idx sz : Z) (body : bytes) : Prop :=
  match p with
  | Inline => idx = ix /\ sz = Z.of_nat (length v) /\
              exists pre post, body = pre ++ v ++ post /\ off = start + Z.of_nat (length pre)
  | AtRef r => _resolve_ref r v ixs = Ok (idx, off) /\
               sz = default (Z.of_nat (length v)) (r_size r)
  end.

Lemma located_mono start ix ixs p v off idx sz body ext :
  located start ix ixs p v off idx sz body -> located start ix ixs p v off idx sz (body ++ ext).
Proof.
  destruct p; simpl; [|done]. intros (-> & -> & pre & post & -> & ->).
  split; [done|]. split; [done|]. exists pre, (post ++ ext). by rewrite <-!app_assoc.
Qed.

(** [st'] continues [st]: the cursor stays in step with the body. *)
Definition continues (start : Z) (st st' : Z * bytes) : Prop :=
  (exists ext, st'.2 = st.2 ++ ext) /\ st'.1 = start + Z.of_nat (length st'.2).

Lemma continues_trans start a b c : continues start a b -> continues start b c -> continues start a c.
Proof.
  intros [[e1 H1] _] [[e2 H2] H3]. split; [|done]. exists (e1 ++ e2). by rewrite H2, H1, app_assoc.
Qed.

Lemma located_continues start ix ixs p v off idx sz st st' :
  continues start st st' -> located start ix ixs p v off idx sz st.2 ->
  located start ix ixs p v off idx sz st'.2.
Proof. intros [[ext ->] _]. apply located_mono. Qed.

Lemma place_ok start ix ixs p v st off idx sz st' :
  st.1 = start + Z.of_nat (length st.2) -> place ix ixs p v st = Ok (off, idx, sz, st') ->
  continues start st st' /\ located start ix ixs p v off idx sz st'.2.
Proof.
  intros Hst Hp. destruct p as [|r]; simpl in Hp.
  - injection Hp as <- <- <- <-. split.
    + split; [by eexists|]. simpl. rewrite length_app. lia.
    + split; [done|]. split; [done|]. exists st.2, []. by rewrite app_nil_r.
  - apply bind_Ok_inv in Hp as ([idx' off'] & Hr & [= <- <- <- <-]). split.
    + split; [exists []; by rewrite app_nil_r|done].
    + by split.
Qed.

(** What entry [o] of the table says of [sm], with the body [body]. *)
Definition entry_ok (s : CurveSpec) (start ix : Z) (ixs : option (list tx_item)) (sm : SignedMessage)
  (o : bytes) (body : bytes) : Prop :=
  exists blob so si io ii mo ms mi sz1 sz2,
    _check_claim s sm = Ok tt /\ _signature_blob s sm = Ok blob /\
    _pack_offsets s (mkOffsets so si io ii mo ms mi) = Ok o /\
    located start ix ixs (identity_at sm) (identity sm) io ii sz1 body /\
    located start ix ixs (signature_at sm) blob so si sz2 body /\
    located start ix ixs (message_at sm) (message sm) mo mi ms body.

Lemma entry_ok_continues s start ix ixs sm o st st' :
  continues start st st' -> entry_ok s start ix ixs sm o st.2 -> entry_ok s start ix ixs sm o st'.2.
Proof.
  intros Hc (blob & so & si & io & ii & mo & ms & mi & sz1 & sz2 & H1 & H2 & H3 & H4 & H5 & H6).
  exists blob, so, si, io, ii, mo, ms, mi, sz1, sz2.
  repeat (split; [done || by apply (located_continues _ _ _ _ _ _ _ _ st)|]).
  by apply (located_continues _ _ _ _ _ _ _ _ st).
Qed.

Lemma build_claim_ok s start ix ixs sm st o st' :
  st.1 = start + Z.of_nat (length st.2) -> build_claim s ix ixs sm st = Ok (o, st') ->
  continues start st st' /\ entry_ok s start ix ixs sm o st'.2.
Proof.
  intros Hst Hb. unfold build_claim in Hb. apply bind_Ok_inv in Hb as ([] & Hc & Hb).
  apply bind_Ok_inv in Hb as (blob & Hblob & Hb).
  apply bind_Ok_inv in Hb as ([[[io ii] z1] s1] & Hp1 & Hb).
  apply bind_Ok_inv in Hb as ([[[so si] z2] s2] & Hp2 & Hb).
  apply bind_Ok_inv in Hb as ([[[mo mi] ms] s3] & Hp3 & Hb).
  apply bind_Ok_inv in Hb as (o' & Ho & [= <- <-]).
  destruct (place_ok start _ _ _ _ _ _ _ _ _ Hst Hp1) as [C1 L1].
  destruct (place_ok start _ _ _ _ _ _ _ _ _ (proj2 C1) Hp2) as [C2 L2].
  destruct (place_ok start _ _ _ _ _ _ _ _ _ (proj2 C2) Hp3) as [C3 L3].
  split; [by apply (continues_trans _ _ s1); [|apply (continues_trans _ _ s2)]|].
  exists blob, so, si, io, ii, mo, ms, mi, z1, z2.
  split; [done|]. split; [done|]. split; [done|].
  split; [apply (located_continues _ _ _ _ _ _ _ _ s1); [by apply (continues_trans _ _ s2)|done]|].
  split; [by apply (located_continues _ _ _ _ _ _ _ _ s2)|done].
Qed.

Lemma build_claims_ok s start ix ixs claims st os st' :
  st.1 = start + Z.of_nat (length st.2) -> build_claims s ix ixs claims st = Ok (os, st') ->
  continues start st st' /\ Forall2 (fun sm o => entry_ok s start ix ixs sm o st'.2) claims os.
Proof.
  revert st os; induction claims as [|sm claims IH]; intros st os Hst Hb; simpl in Hb.
  - injection Hb as <- <-. split; [|constructor]. split; [exists []; by rewrite app_nil_r|done].
  - apply bind_Ok_inv in Hb as ([o s1] & H1 & Hb). apply bind_Ok_inv in Hb as ([os' s2] & H2 & [= <- <-]).
    destruct (build_claim_ok s start _ _ _ _ _ _ Hst H1) as [C1 E1].
    destruct (IH s1 os' (proj2 C1) H2) as [C2 E2]. split; [by apply (continues_trans _ _ s1)|].
    constructor; [by apply (entry_ok_continues _ _ _ _ _ _ s1)|done].
Qed.

(** ** The assembled data *)

Record assembled (s : CurveSpec) (ix : Z) (ixs : option (list tx_item)) (claims : list SignedMessage)
  (data : bytes) (structs : list bytes) (body : bytes) : Prop := {
  as_data : exists hdr, data = hdr ++ concat structs ++ body /\ length hdr = header_size s /\
              head hdr = Some (byte_of_Z (Z.of_nat (length claims)));
  as_count : (length claims < 256)%nat;
  as_lengths : Forall (fun o => length o = offsets_size s) structs;
  as_entries : Forall2 (fun sm o =>
    entry_ok s (Z.of_nat (data_start s (length claims))) ix ixs sm o body) claims structs;
}.

Lemma byte_list1_Ok z bs : byte_list1 z = Ok bs -> 0 <= z < 256 /\ bs = [byte_of_Z z].
Proof.
  unfold byte_list1. destruct ((0 <=? z) && (z <? 256)) eqn:E; [|discriminate].
  intros [= <-]. zify_bools. done.
Qed.

Lemma build_data_ok s claims self ixs data :
  build_instruction_data s claims self ixs = Ok data ->
  exists structs body, assembled s (effective_ix s self) ixs claims data structs body.
Proof.
  intros Hb. unfold build_instruction_data in Hb.
  apply bind_Ok_inv in Hb as ([structs st] & Hc & Hb).
  apply bind_Ok_inv in Hb as (count & [Hn ->]%byte_list1_Ok & [= <-]).
  eapply build_claims_ok in Hc as [C E]; [|simpl; by rewrite Z.add_0_r].
  exists structs, st.2. split; [|lia| |done].
  - exists ([byte_of_Z (Z.of_nat (length claims))] ++ header_pad s). split; [done|]. split; [|done].
    unfold header_pad, header_size. by destruct (index_width s =? 2)%nat.
  - apply list.Forall_forall. intros o Ho.
    apply list_elem_of_lookup in Ho as [k Hk].
    destruct (Forall2_lookup_r _ _ _ _ _ E Hk) as (sm & _ & blob & so & si & io & ii & mo & ms & mi & z1 & z2 & _ & _ & Hp & _).
    apply (pack_fields_parse _ _ []) in Hp as [_ Hl]. by rewrite Hl, widths_fields, widths_sum.
Qed.

Lemma assembled_entry s ix ixs claims data structs body k o :
  assembled s ix ixs claims data structs body -> structs !! k = Some o ->
  exists tail, drop (header_size s + offsets_size s * k) data = o ++ tail.
Proof.
  intros [(hdr & -> & Hh & _) _ Hl _] Hk. rewrite <-Hh, <-drop_drop, drop_app_length.
  by apply drop_concat.
Qed.

Lemma assembled_inline s ix ixs claims data structs body pre v post :
  assembled s ix ixs claims data structs body -> body = pre ++ v ++ post ->
  slice data (data_start s (length claims) + length pre)
             (data_start s (length claims) + length pre + length v) = v.
Proof.
  intros [(hdr & -> & Hh & _) _ Hl He] ->.
  unfold slice. replace (data_start s (length claims)) with (length (hdr ++ concat structs)).
  - rewrite app_assoc, <-drop_drop, drop_app_length, drop_app_length.
    replace (_ - _)%nat with (length v) by lia. apply take_app_length.
  - rewrite length_app, Hh, (length_concat_const _ _ Hl). unfold data_start.
    by rewrite (list.Forall2_length _ _ _ He).
Qed.

(** ** References *)

Lemma bytes_find_Some d v start i :
  bytes_find d v start = Some i -> (start <= i)%nat /\ take (length v) (drop i d) = v.
Proof.
  unfold bytes_find. intros Hf. apply fmap_Some in Hf as ([j i'] & Hl & Hi). simpl in Hi. subst i'.
  apply list_find_Some in Hl as (Hj & Hp & _). apply lookup_seq in Hj as [-> _]. split; [lia|done].
Qed.

Lemma bytes_find_None d v start i :
  bytes_find d v start = None -> (start <= i)%nat -> (i + length v <= length d)%nat ->
  take (length v) (drop i d) <> v.
Proof.
  unfold bytes_find. intros Hf Hs Hi. apply fmap_None in Hf. rewrite list_find_None in Hf.
  rewrite list.Forall_forall in Hf. apply Hf. apply elem_of_seq. lia.
Qed.

Lemma resolve_target_data r ixs idx d :
  resolve_target r (Some ixs) = Ok (idx, Some d) ->
  exists j id ix, ixs !! j = Some (TIx id ix) /\ idx = Z.of_nat j /\ ix_data ix = d.
Proof.
  unfold resolve_target. destruct (r_target r) as [t|], (r_index r) as [i|]; try discriminate.
  - destruct (find_target t ixs) as [[j it]|] eqn:Ef; [|discriminate].
    apply list_find_Some in Ef as (Hj & _). destruct it; simpl; try discriminate.
    intros [= <- <-]. eauto 10.
  - simpl. intros [= <- Hd]. destruct (0 <=? i) eqn:E0; [|discriminate]. zify_bools.
    destruct (ixs !! Z.to_nat i) as [it|] eqn:Ei; [|discriminate]. simpl in Hd.
    destruct it; simpl in Hd; simplify_eq. eexists _, _, _. split; [done|]. split; [lia|done].
Qed.

(** A reference found by search names an instruction that holds the bytes. *)
Lemma resolve_ref_search r v ixs idx off :
  _resolve_ref r v (Some ixs) = Ok (idx, off) -> r_offset r = None ->
  exists j id ix, ixs !! j = Some (TIx id ix) /\ idx = Z.of_nat j /\ 0 <= off /\
    slice (ix_data ix) (Z.to_nat off) (Z.to_nat off + length v) = v /\
    forall i, (i + length v <= length (ix_data ix))%nat -> take (length v) (drop i (ix_data ix)) = v ->
      (i <= Z.to_nat off)%nat.
Proof.
  unfold _resolve_ref. intros Hr Ho. apply bind_Ok_inv in Hr as ([idx' td] & Ht & Hr). rewrite Ho in Hr.
  destruct td as [d|]; [|discriminate]. destruct (bytes_find d v 0) as [first|] eqn:E1; [|discriminate].
  destruct (bytes_find d v (S first)) eqn:E2; [discriminate|]. injection Hr as <- <-.
  apply resolve_target_data in Ht as (j & id & ix & Hj & -> & Hd).
  exists j, id, ix. split; [done|]. split; [done|]. split; [lia|]. rewrite Nat2Z.id, Hd. split.
  - unfold slice. replace (first + length v - first)%nat with (length v) by lia.
    by apply bytes_find_Some in E1 as [_ Hf].
  - intros i Hi Hv. destruct (decide (i <= first)%nat); [done|]. exfalso.
    apply (bytes_find_None _ _ _ i E2); [lia|done|done].
Qed.

(** ** Materialising a transaction *)

Lemma materialize_from_lookup i all ixs out k t :
  materialize_from i all ixs = Ok out -> ixs !! k = Some t ->
  exists ix, out !! k = Some ix /\
    match t with
    | TIx _ ix' => ix = ix'
    | TPre _ p => pc_resolve p (Z.of_nat (i + k)) (Some all) = Ok ix
    | TOther _ => False
    end.
Proof.
  revert i out k; induction ixs as [|t' ixs IH]; intros i out k Hm Hk; [done|]. simpl in Hm.
  apply bind_Ok_inv in Hm as (ix & Hix & Hm). apply bind_Ok_inv in Hm as (out' & Hout & [= <-]).
  destruct k as [|k]; simpl in Hk.
  - injection Hk as ->. exists ix. split; [done|]. rewrite Nat.add_0_r.
    destruct t; [by injection Hix as ->|done|discriminate].
  - destruct (IH (S i) out' k Hout Hk) as (ix' & Ho & Ht). exists ix'. split; [done|].
    by replace (i + S k)%nat with (S i + k)%nat by lia.
Qed.

(** ** The theorem *)

Definition spec_ok (s : CurveSpec) : Prop :=
  (index_width s = 2%nat /\ inline_ix s = Some CURRENT_INSTRUCTION) \/
  (index_width s = 1%nat /\ inline_ix s = None).

(** Inline, or a reference that the assembler searches for. *)
Definition searchable (p : Placement) : Prop :=
  match p with Inline => True | AtRef r => r_offset r = None /\ r_size r = None end.

Lemma fetch_located s self claims ixs out data structs body p v off idx sz :
  spec_ok s -> materialize ixs = Ok out -> Z.of_nat (length ixs) < 65535 ->
  (ix_data <$> out) !! self = Some data ->
  assembled s (effective_ix s (Z.of_nat self)) (Some ixs) claims data structs body ->
  searchable p ->
  located (Z.of_nat (data_start s (length claims))) (effective_ix s (Z.of_nat self)) (Some ixs) p v
    off idx sz body ->
  fetch s (ix_data <$> out) self idx off (length v) = Some v /\ sz = Z.of_nat (length v).
Proof.
  intros Hs Hm Hlen Hself Has Hp Hl. unfold fetch. destruct p as [|r]; simpl in Hl.
  - destruct Hl as (-> & -> & pre & post & Hbody & ->). split; [|done].
    assert (Hd : (if (index_width s =? 2)%nat && (effective_ix s (Z.of_nat self) =? CURRENT_INSTRUCTION)
                  then (ix_data <$> out) !! self
                  else (ix_data <$> out) !! Z.to_nat (effective_ix s (Z.of_nat self))) = Some data).
    { unfold effective_ix. destruct Hs as [[-> ->]|[-> ->]]; simpl; [done|]. by rewrite Nat2Z.id. }
    rewrite Hd. simpl. f_equal. rewrite <-Nat2Z.inj_add, Nat2Z.id. by eapply assembled_inline.
  - destruct Hl as [Hr ->], Hp as [Ho ->]. split; [|done].
    destruct (resolve_ref_search _ _ _ _ _ Hr Ho) as (j & id & ix & Hj & -> & H0 & Hsl & _).
    destruct (materialize_from_lookup _ _ _ _ _ _ Hm Hj) as (ix' & Hout & ->).
    pose proof (lookup_lt_Some _ _ _ Hj) as Hlt.
    rewrite (proj2 (Z.eqb_neq (Z.of_nat j) CURRENT_INSTRUCTION)) by (unfold CURRENT_INSTRUCTION; lia).
    rewrite andb_false_r, Nat2Z.id, list_lookup_fmap, Hout. simpl. by rewrite Hsl.
Qed.

Lemma claim_sizes s sm blob :
  _check_claim s sm = Ok tt -> _signature_blob s sm = Ok blob ->
  length (identity sm) = identity_size s /\ length blob = blob_size s.
Proof.
  unfold _check_claim, _signature_blob, blob_size. intros Hc Hb. split.
  - destruct (negb (bool_decide _)); [discriminate|].
    destruct (length (identity sm) =? identity_size s)%nat eqn:E; [|discriminate]. by apply Nat.eqb_eq.
  - destruct (length (signature sm) =? SIGNATURE_SIZE)%nat eqn:E; [|discriminate].
    apply Nat.eqb_eq in E. simpl in Hb. destruct (has_recovery s); [|by simplify_eq].
    destruct (recovery_id sm); [|discriminate].
    apply bind_Ok_inv in Hb as (b & [_ ->]%byte_list1_Ok & [= <-]). rewrite length_app, E. done.
Qed.

(** C10: the runtime sees the claims.  In every transaction the harness
    assembles, entry [k] of a deferred precompile instruction, read from the
    final data the way the runtime reads it, is claim [k]: its identity, its
    signature (with the recovery byte) and its message, whether a component is
    inline, for any of the three curves, or referenced in another instruction. *)
Theorem materialize_runtime_claim ixs out self id p k sm :
  materialize ixs = Ok out -> Z.of_nat (length ixs) < 65535 -> spec_ok (pc_spec p) ->
  ixs !! self = Some (TPre id p) -> pc_claims p !! k = Some sm ->
  searchable (identity_at sm) -> searchable (signature_at sm) -> searchable (message_at sm) ->
  exists blob, _signature_blob (pc_spec p) sm = Ok blob /\
    runtime_claim (pc_spec p) (ix_data <$> out) self k = Some (identity sm, blob, message sm).
Proof.
  intros Hm Hlen Hs Hself Hk Hp1 Hp2 Hp3.
  destruct (materialize_from_lookup _ _ _ _ _ _ Hm Hself) as (ix & Hout & Hr).
  apply bind_Ok_inv in Hr as (data & Hb & [= <-]).
  destruct (build_data_ok _ _ _ _ _ Hb) as (structs & body & Has).
  assert (Hdata : (ix_data <$> out) !! self = Some data) by by rewrite list_lookup_fmap, Hout.
  destruct (Forall2_lookup_l _ _ _ _ _ (as_entries _ _ _ _ _ _ _ Has) Hk) as (o & Hok & He).
  destruct He as (blob & so & si & io & ii & mo & ms & mi & z1 & z2 & Hc & Hbl & Hpk & L1 & L2 & L3).
  destruct (claim_sizes _ _ _ Hc Hbl) as [Hid Hbs]. exists blob. split; [done|].
  destruct (assembled_entry _ _ _ _ _ _ _ _ _ Has Hok) as [tail Ht].
  unfold runtime_claim, entry_fields. rewrite Hdata. cbn [mbind option_bind].
  rewrite Ht, (parse_entry _ _ _ _ _ _ _ _ _ tail Hpk). cbn [mbind option_bind].
  destruct (fetch_located _ _ _ _ _ _ _ _ _ _ _ _ _ Hs Hm Hlen Hdata Has Hp1 L1) as [F1 _].
  destruct (fetch_located _ _ _ _ _ _ _ _ _ _ _ _ _ Hs Hm Hlen Hdata Has Hp2 L2) as [F2 _].
  destruct (fetch_located _ _ _ _ _ _ _ _ _ _ _ _ _ Hs Hm Hlen Hdata Has Hp3 L3) as [F3 ->].
  rewrite <-Hid, <-Hbs, F1. simpl. rewrite F2. simpl. by rewrite Nat2Z.id, F3.
Qed.

(** A concrete [verify] instruction is position independent.  For the
    curves with a self sentinel, the instruction that [build_verify] returns
    for inline claims reads back as those claims wherever it is placed in
    whatever transaction. *)
Theorem verify_position_independent s claims ix tx self k sm :
  index_width s = 2%nat -> inline_ix s = Some CURRENT_INSTRUCTION ->
  build_verify s claims = Ok (inl ix) -> tx !! self = Some (ix_data ix) -> claims !! k = Some sm ->
  exists blob, _signature_blob s sm = Ok blob /\
    runtime_claim s tx self k = Some (identity sm, blob, message sm).
Proof.
  intros Hw Hi Hv Hself Hk. unfold build_verify in Hv. rewrite Hi in Hv.
  destruct (_has_refs claims) eqn:Href; [by apply fmap_Ok_inv in Hv as (? & _ & ?)|].
  apply bind_Ok_inv in Hv as (data & Hb & [= <-]). simpl in Hself.
  destruct (build_data_ok _ _ _ _ _ Hb) as (structs & body & Has).
  destruct (Forall2_lookup_l _ _ _ _ _ (as_entries _ _ _ _ _ _ _ Has) Hk) as (o & Hok & He).
  destruct He as (blob & so & si & io & ii & mo & ms & mi & z1 & z2 & Hc & Hbl & Hpk & L1 & L2 & L3).
  destruct (claim_sizes _ _ _ Hc Hbl) as [Hid Hbs]. exists blob. split; [done|].
  destruct (assembled_entry _ _ _ _ _ _ _ _ _ Has Hok) as [tail Ht].
  unfold runtime_claim, entry_fields. rewrite Hself. cbn [mbind option_bind].
  rewrite Ht, (parse_entry _ _ _ _ _ _ _ _ _ tail Hpk). cbn [mbind option_bind].
  assert (Hinl : forall p v off idx sz,
    located (Z.of_nat (data_start s (length claims))) (effective_ix s 0) None p v off idx sz body ->
    is_ref p = false ->
    fetch s tx self idx off (length v) = Some v /\ sz = Z.of_nat (length v)).
  { intros [|r] v off idx sz Hl Hp; [|discriminate]. destruct Hl as (-> & -> & pre & post & Hbody & ->).
    split; [|done]. unfold fetch, effective_ix. rewrite Hw, Hi. simpl. rewrite Hself. simpl. f_equal.
    rewrite <-Nat2Z.inj_add, Nat2Z.id. by eapply assembled_inline. }
  unfold _has_refs in Href. assert (Hsm : is_ref (identity_at sm) || is_ref (signature_at sm) || is_ref (message_at sm) = false).
  { destruct (_ || _) eqn:E; [|done]. exfalso. apply not_true_iff_false in Href. apply Href.
    apply existsb_exists. exists sm. split; [|done]. apply list_elem_of_In. by eapply list_elem_of_lookup_2. }
  zify_bools. destruct (Hinl _ _ _ _ _ L1 ltac:(done)) as [F1 _].
  destruct (Hinl _ _ _ _ _ L2 ltac:(done)) as [F2 _]. destruct (Hinl _ _ _ _ _ L3 ltac:(done)) as [F3 ->].
  rewrite <-Hid, <-Hbs, F1. simpl. rewrite F2. simpl. by rewrite Nat2Z.id, F3.
Qed.

(** The call trace reports the right number of signatures: the count the
    interface decodes is the number of claims. *)
Theorem precompile_decode_count s claims self ixs data :
  build_instruction_data s claims self ixs = Ok data ->
  di_args (precompile_decode s data) = [("signatures"%string, VInt (Z.of_nat (length claims)))].
Proof.
  intros Hb. destruct (build_data_ok _ _ _ _ _ Hb) as (structs & body & [(hdr & -> & _ & Hh) Hc _ _]).
  destruct hdr as [|b hdr]; [done|]. simpl in Hh. injection Hh as ->. simpl.
  rewrite Z_of_byte_of_Z, Z.mod_small by lia. done.
Qed.

(** Signing always gives a claim that can be verified: a key's own
    signature is accepted by the curve's [verify], in any batch of such claims. *)
Theorem signed_claims_build {C : Curves} {CL : CurvesLaws} pid pairs claims :
  Forall2 (fun p sm => k1_Key p.1 = Ok p.1 /\ k1_Key_sign p.1 p.2 = Ok sm) pairs claims ->
  secp256k1_verify pid claims = Ok (mkPrecompile (secp256k1_SPEC pid) claims).
Proof.
  intros Hall. unfold secp256k1_verify, PrecompileInstruction_new.
  assert (Hm : exists bs, mapM_res (fun sm => _ ← _check_claim (secp256k1_SPEC pid) sm;
                                    _signature_blob (secp256k1_SPEC pid) sm) claims = Ok bs).
  { induction Hall as [|[sk m] sm pairs claims [Hk Hs] Hall [bs IH]]; [by eexists|].
    unfold k1_Key in Hk. simpl in *. destruct (secp256k1_eth_address sk) as [a|] eqn:Ea; [|discriminate].
    destruct (k1_sign_ok sk a m Ea) as (sig & r & Hsig & Hl & Hr).
    unfold k1_Key_sign in Hs. rewrite Hsig, Ea in Hs. injection Hs as <-.
    assert (He : (_ ← _check_claim (secp256k1_SPEC pid)
                     (mkClaim "secp256k1" a sig m (Some r) Inline Inline Inline);
                  _signature_blob (secp256k1_SPEC pid)
                     (mkClaim "secp256k1" a sig m (Some r) Inline Inline Inline)) =
                 Ok (sig ++ [byte_of_Z r])).
    { unfold _check_claim, _signature_blob. simpl. rewrite (k1_address_length _ _ Ea), Hl. simpl.
      unfold byte_list1. rewrite (proj2 (Z.leb_le 0 r)), (proj2 (Z.ltb_lt r 256)) by lia. done. }
    rewrite He. simpl. rewrite IH. simpl. by eexists. }
  destruct Hm as [bs ->]. done.
Qed.

(** ** Witnesses *)

Definition toy_claim (m : bytes) (at_ : Placement) : SignedMessage :=
  mkClaim "secp256k1" (replicate 20 x0a) (replicate 64 x0b) m (Some 1) Inline Inline at_.

Definition toy_pc : PrecompileInstruction :=
  mkPrecompile (secp256k1_SPEC (replicate 32 x05))
    [toy_claim [x01; x02] Inline; toy_claim [xde; xad] (AtRef (mkRef (Some 0%nat) None None None))].

Definition toy_tx : list tx_item :=
  [TIx 0 (mkIx (replicate 32 x09) [] [x00; xde; xad; xff]); TPre 1 toy_pc].

Definition toy_out : list Instruction :=
  match materialize toy_tx with Ok out => out | Raise _ => [] end.

Lemma materialize_runtime_claim_witness :
  exists blob,
    _signature_blob (pc_spec toy_pc) (toy_claim [xde; xad] (AtRef (mkRef (Some 0%nat) None None None))) = Ok blob /\
    runtime_claim (pc_spec toy_pc) (ix_data <$> toy_out) 1 1 = Some (replicate 20 x0a, blob, [xde; xad]).
Proof.
  apply (materialize_runtime_claim toy_tx toy_out 1 1 toy_pc 1
           (toy_claim [xde; xad] (AtRef (mkRef (Some 0%nat) None None None))));
    [vm_compute; reflexivity|reflexivity|right; by split|reflexivity|reflexivity|exact I|exact I|by split].
Defined.

Definition toy_ed : SignedMessage :=
  mkClaim "ed25519" (replicate 32 x01) (replicate 64 x02) [x03; x04; x05] None Inline Inline Inline.
Definition toy_ed_ix : Instruction :=
  match ed25519_verify (replicate 32 x06) [toy_ed] with Ok (inl ix) => ix | _ => mkIx [] [] [] end.

Lemma verify_position_independent_witness :
  exists blob, _signature_blob (ed25519_SPEC (replicate 32 x06)) toy_ed = Ok blob /\
    runtime_claim (ed25519_SPEC (replicate 32 x06)) [[]; []; ix_data toy_ed_ix] 2 0 =
      Some (replicate 32 x01, blob, [x03; x04; x05]).
Proof.
  apply (verify_position_independent (ed25519_SPEC (replicate 32 x06)) [toy_ed] toy_ed_ix
           [[]; []; ix_data toy_ed_ix] 2 0 toy_ed);
    [reflexivity|reflexivity|vm_compute; reflexivity|reflexivity|reflexivity].
Defined.

Lemma precompile_decode_count_witness :
  di_args (precompile_decode (ed25519_SPEC (replicate 32 x06)) (ix_data toy_ed_ix)) =
    [("signatures"%string, VInt 1)].
Proof.
  apply (precompile_decode_count (ed25519_SPEC (replicate 32 x06)) [toy_ed] 0 None).
  vm_compute. reflexivity.
Defined.

(** A toy curve: every secret is accepted. *)
Definition toy_curves : Curves := {|
  secp256k1_eth_address _ := Some (replicate 20 x00);
  secp256k1_sign _ _ := Some (replicate 64 x00, 0);
  secp256r1_public_key _ := Some (replicate 33 x00);
  secp256r1_sign _ _ := Some (replicate 64 x00);
|}.

Lemma toy_curves_laws : @CurvesLaws toy_curves.
Proof.
  split; simpl.
  - by intros _ a [= <-].
  - intros _ a _ _. eexists _, _. split; [done|]. split; [done|lia].
  - by intros _ k [= <-].
  - intros _ k _ _. eexists. by split.
Qed.

Lemma signed_claims_build_witness :
  let sm := mkClaim "secp256k1" (replicate 20 x00) (replicate 64 x00) [x07] (Some 0) Inline Inline Inline in
  secp256k1_verify [] [sm] = Ok (mkPrecompile (secp256k1_SPEC []) [sm]).
Proof.
  intros sm. apply (@signed_claims_build toy_curves toy_curves_laws [] [([x01], [x07])] [sm]).
  constructor; [by split|constructor].
Defined.
