(* ===== verification/ErrorsBase.v ===== *)
(** * The error classes and their instances ([_errors_base.py])

    A Python class is its chain of [class] statements up to
    [TransactionFailed]; a statement is identified by its module, its name and
    the number of times it was executed before (a reloaded module makes new
    classes).  The concrete leaves are in [ErrorsCatalog], the resolution and
    the [must_fail] / [may_fail] context managers in [Errors]. *)

From Stdlib Require Import ZArith Lia.
From stdpp Require Import base decidable option list gmap strings pretty numbers.
From S2P Require Import Prelude.

#[local] Open Scope string_scope.

(** A [class] statement: the outer option of [own_code] and [own_msg] says
    whether the body binds the attribute. *)
Record class_stmt := mkStmt {
  cs_module : string;
  cs_name : string;
  cs_serial : nat;
  own_code : option (option Z);
  own_msg : option (option string);
}.

#[global] Instance class_stmt_eq_dec : EqDecision class_stmt.
Proof. solve_decision. Defined.

Inductive eclass :=
  | TransactionFailed
  | Subclass (base : eclass) (stmt : class_stmt).

#[global] Instance eclass_eq_dec : EqDecision eclass.
Proof. solve_decision. Defined.

Definition class_name (c : eclass) : string :=
  match c with TransactionFailed => "TransactionFailed" | Subclass _ s => cs_name s end.

(** The class attributes [code] and [msg], inherited along the bases. *)
Fixpoint class_code (c : eclass) : option Z :=
  match c with
  | TransactionFailed => None
  | Subclass b s => match own_code s with Some v => v | None => class_code b end
  end.

Fixpoint class_msg (c : eclass) : option string :=
  match c with
  | TransactionFailed => None
  | Subclass b s => match own_msg s with Some v => v | None => class_msg b end
  end.

(** [issubclass(c, d)]. *)
Fixpoint issubclass (c d : eclass) : bool :=
  bool_decide (c = d) || match c with TransactionFailed => false | Subclass b _ => issubclass b d end.

(** ** The category bases *)

Definition base_stmt (name : string) : class_stmt := mkStmt "wake_sol._errors_base" name 0 None None.

Definition SolanaError : eclass := Subclass TransactionFailed (base_stmt "SolanaError").
Definition AnchorError : eclass := Subclass TransactionFailed (base_stmt "AnchorError").
Definition ProgramError : eclass := Subclass TransactionFailed (base_stmt "ProgramError").
Definition UnknownError : eclass := Subclass TransactionFailed (base_stmt "UnknownError").
Definition SystemProgramError : eclass := Subclass ProgramError (base_stmt "SystemProgramError").
Definition TokenError : eclass := Subclass ProgramError (base_stmt "TokenError").

(** ** Instances

    [f_tx] is the receipt the runtime links, by its identity. *)
Record failure := mkFailure {
  f_type : eclass;
  f_code : option Z;
  f_instruction_index : option Z;
  f_account_index : option Z;
  f_tx : option positive;
}.

#[global] Instance failure_eq_dec : EqDecision failure.
Proof. solve_decision. Defined.

(** [cls(code=, instruction_index=, account_index=, tx=)]. *)
Definition new_failure (cls : eclass) (code instruction_index account_index : option Z)
    (tx : option positive) : failure :=
  mkFailure cls (match code with None => class_code cls | Some c => Some c end)
    instruction_index account_index tx.

Definition truthy_str (s : option string) : bool :=
  match s with Some s => negb (bool_decide (s = "")) | None => false end.

Definition _headline (e : failure) : string :=
  let detail :=
    (match f_code e with Some c => ["code=" +:+ pretty c] | None => [] end ++
     match f_instruction_index e with Some i => ["ix=" +:+ pretty i] | None => [] end ++
     match f_account_index e with Some i => ["account_index=" +:+ pretty i] | None => [] end)%list in
  let head :=
    match detail with
    | [] => class_name (f_type e)
    | _ => class_name (f_type e) +:+ "(" +:+ String.concat ", " detail +:+ ")"
    end in
  if truthy_str (class_msg (f_type e))
  then head +:+ ": " +:+ default "" (class_msg (f_type e))
  else head.

(** [str(e)] is the headline at construction: the fields it shows are never
    reassigned by the package. *)
Definition failure_str (e : failure) : string := _headline e.
Definition failure_repr (e : failure) : string := "<" +:+ _headline e +:+ ">".

(** What an error may be compared with: another error, an error class,
    another class, anything else. *)
Inductive comparand :=
  | OInstance (e : failure)
  | OClass (c : eclass)
  | OOtherType
  | OOther.

(** [__eq__]; [None] is [NotImplemented]. *)
Definition failure_eq (e : failure) (other : comparand) : option bool :=
  match other with
  | OClass c => Some (issubclass (f_type e) c)
  | OOtherType => None
  | OInstance o => Some (bool_decide (f_type e = f_type o) && bool_decide (f_code e = f_code o))
  | OOther => None
  end.

(** [__hash__]: the tuple that is hashed. *)
Definition failure_hash (e : failure) : eclass * option Z := (f_type e, f_code e).

(** [call_trace]: [trace_of] stands for the receipt's own attribute. *)
Definition failure_call_trace {T} (trace_of : positive -> T) (e : failure) : res T :=
  match f_tx e with
  | None => Raise (ValueError "no transaction receipt linked to this error")
  | Some tx => Ok (trace_of tx)
  end.

(** ** Lemmas *)

Lemma issubclass_refl c : issubclass c c = true.
Proof. destruct c; [done|]. unfold issubclass. by rewrite bool_decide_eq_true_2. Qed.

(** [issubclass] is the reflexive-transitive closure of "is a direct base". *)
Lemma issubclass_trans c d e : issubclass c d = true -> issubclass d e = true -> issubclass c e = true.
Proof.
  revert d e. induction c as [|b IH s]; intros d e Hcd Hde; simpl in Hcd.
  - rewrite orb_false_r in Hcd. by apply bool_decide_eq_true in Hcd as <-.
  - apply orb_true_iff in Hcd as [Hcd|Hcd].
    + by apply bool_decide_eq_true in Hcd as <-.
    + simpl. rewrite (IH _ _ Hcd Hde). apply orb_true_r.
Qed.

Lemma issubclass_root c : issubclass c TransactionFailed = true.
Proof.
  induction c as [|b IH s]; [done|]. simpl. by rewrite IH.
Qed.

Lemma issubclass_base b s d : issubclass b d = true -> issubclass (Subclass b s) d = true.
Proof. intros H. simpl. rewrite H. apply orb_true_r. Qed.

#[export] Hint Resolve issubclass_refl issubclass_root issubclass_base : wake.
