(* ===== verification/ErrorsCatalog.v ===== *)
(** * The bundled error classes ([_errors_catalog/*.py])

    One [class] statement per bundled error with the lookup tables next to
    them, and the member names that [_errors_base.py] declares on each base
    for type checkers.  The names in a table refer to the classes of the same
    module. *)

From Stdlib Require Import ZArith Lia.
From stdpp Require Import base decidable option list gmap strings numbers.
From S2P Require Import Prelude.
From S2P Require Import ErrorsBase.

#[local] Open Scope string_scope.

(** A leaf's [class] statement in the catalog module [m]: [pass], [code = c],
    or [code = c] and [msg = t]. *)
Definition leaf (m name : string) : class_stmt := mkStmt m name 0 None None.
Definition leaf_code (m name : string) (c : Z) : class_stmt := mkStmt m name 0 (Some (Some c)) None.
Definition leaf_msg (m name : string) (c : Z) (t : string) : class_stmt :=
  mkStmt m name 0 (Some (Some c)) (Some (Some t)).

(** ** [_errors_catalog/solana.py] *)

Definition solana_classes_1 : list class_stmt := map (leaf "wake_sol._errors_catalog.solana") [
  "GenericError";
  "InvalidArgument";
  "InvalidInstructionData";
  "InvalidAccountData";
  "AccountDataTooSmall";
  "InsufficientFunds";
  "IncorrectProgramId";
  "MissingRequiredSignature";
  "AccountAlreadyInitialized";
  "UninitializedAccount";
  "UnbalancedInstruction";
  "ModifiedProgramId";
  "ExternalAccountLamportSpend";
  "ExternalAccountDataModified";
  "ReadonlyLamportChange";
  "ReadonlyDataModified";
  "DuplicateAccountIndex";
  "ExecutableModified";
  "RentEpochModified";
  "NotEnoughAccountKeys";
  "AccountDataSizeChanged";
  "AccountNotExecutable";
  "AccountBorrowFailed"].

Definition solana_classes_2 : list class_stmt := map (leaf "wake_sol._errors_catalog.solana") [
  "AccountBorrowOutstanding";
  "DuplicateAccountOutOfSync";
  "InvalidError";
  "ExecutableDataModified";
  "ExecutableLamportChange";
  "ExecutableAccountNotRentExempt";
  "UnsupportedProgramId";
  "CallDepth";
  "MissingAccount";
  "ReentrancyNotAllowed";
  "MaxSeedLengthExceeded";
  "InvalidSeeds";
  "InvalidRealloc";
  "ComputationalBudgetExceeded";
  "PrivilegeEscalation";
  "ProgramEnvironmentSetupFailure";
  "ProgramFailedToComplete";
  "ProgramFailedToCompile";
  "Immutable";
  "IncorrectAuthority";
  "BorshIoError";
  "AccountNotRentExempt";
  "InvalidAccountOwner"].

Definition solana_classes_3 : list class_stmt := map (leaf "wake_sol._errors_catalog.solana") [
  "ArithmeticOverflow";
  "UnsupportedSysvar";
  "IllegalOwner";
  "MaxAccountsDataAllocationsExceeded";
  "MaxAccountsExceeded";
  "MaxInstructionTraceLengthExceeded";
  "BuiltinProgramsMustConsumeComputeUnits";
  "AccountInUse";
  "AccountLoadedTwice";
  "AccountNotFound";
  "ProgramAccountNotFound";
  "InsufficientFundsForFee";
  "InvalidAccountForFee";
  "AlreadyProcessed";
  "BlockhashNotFound";
  "CallChainTooDeep";
  "MissingSignatureForFee";
  "InvalidAccountIndex";
  "SignatureFailure";
  "InvalidProgramForExecution";
  "SanitizeFailure";
  "ClusterMaintenance";
  "WouldExceedMaxBlockCostLimit"].

Definition solana_classes_4 : list class_stmt := map (leaf "wake_sol._errors_catalog.solana") [
  "UnsupportedVersion";
  "InvalidWritableAccount";
  "WouldExceedMaxAccountCostLimit";
  "WouldExceedAccountDataBlockLimit";
  "TooManyAccountLocks";
  "AddressLookupTableNotFound";
  "InvalidAddressLookupTableOwner";
  "InvalidAddressLookupTableData";
  "InvalidAddressLookupTableIndex";
  "InvalidRentPayingAccount";
  "WouldExceedMaxVoteCostLimit";
  "WouldExceedAccountDataTotalLimit";
  "DuplicateInstruction";
  "InsufficientFundsForRent";
  "MaxLoadedAccountsDataSizeExceeded";
  "InvalidLoadedAccountsDataSizeLimit";
  "ResanitizationNeeded";
  "ProgramExecutionTemporarilyRestricted";
  "UnbalancedTransaction";
  "ProgramCacheHitMaxLimit";
  "CommitCancelled"].

Definition solana_classes : list class_stmt :=
  (solana_classes_1 ++ solana_classes_2 ++ solana_classes_3 ++ solana_classes_4)%list.

Definition solana_BY_NAME : list (string * string) := [
  ("GenericError", "GenericError");
  ("InvalidArgument", "InvalidArgument");
  ("InvalidInstructionData", "InvalidInstructionData");
  ("InvalidAccountData", "InvalidAccountData");
  ("AccountDataTooSmall", "AccountDataTooSmall");
  ("InsufficientFunds", "InsufficientFunds");
  ("IncorrectProgramId", "IncorrectProgramId");
  ("MissingRequiredSignature", "MissingRequiredSignature");
  ("AccountAlreadyInitialized", "AccountAlreadyInitialized");
  ("UninitializedAccount", "UninitializedAccount");
  ("UnbalancedInstruction", "UnbalancedInstruction");
  ("ModifiedProgramId", "ModifiedProgramId");
  ("ExternalAccountLamportSpend", "ExternalAccountLamportSpend");
  ("ExternalAccountDataModified", "ExternalAccountDataModified");
  ("ReadonlyLamportChange", "ReadonlyLamportChange");
  ("ReadonlyDataModified", "ReadonlyDataModified");
  ("DuplicateAccountIndex", "DuplicateAccountIndex");
  ("ExecutableModified", "ExecutableModified");
  ("RentEpochModified", "RentEpochModified");
  ("NotEnoughAccountKeys", "NotEnoughAccountKeys");
  ("AccountDataSizeChanged", "AccountDataSizeChanged");
  ("AccountNotExecutable", "AccountNotExecutable");
  ("AccountBorrowFailed", "AccountBorrowFailed");
  ("AccountBorrowOutstanding", "AccountBorrowOutstanding");
  ("DuplicateAccountOutOfSync", "DuplicateAccountOutOfSync");
  ("InvalidError", "InvalidError");
  ("ExecutableDataModified", "ExecutableDataModified");
  ("ExecutableLamportChange", "ExecutableLamportChange");
  ("ExecutableAccountNotRentExempt", "ExecutableAccountNotRentExempt");
  ("UnsupportedProgramId", "UnsupportedProgramId");
  ("CallDepth", "CallDepth");
  ("MissingAccount", "MissingAccount");
  ("ReentrancyNotAllowed", "ReentrancyNotAllowed");
  ("MaxSeedLengthExceeded", "MaxSeedLengthExceeded");
  ("InvalidSeeds", "InvalidSeeds");
  ("InvalidRealloc", "InvalidRealloc");
  ("ComputationalBudgetExceeded", "ComputationalBudgetExceeded");
  ("PrivilegeEscalation", "PrivilegeEscalation");
  ("ProgramEnvironmentSetupFailure", "ProgramEnvironmentSetupFailure");
  ("ProgramFailedToComplete", "ProgramFailedToComplete");
  ("ProgramFailedToCompile", "ProgramFailedToCompile");
  ("Immutable", "Immutable");
  ("IncorrectAuthority", "IncorrectAuthority");
  ("BorshIoError", "BorshIoError");
  ("AccountNotRentExempt", "AccountNotRentExempt");
  ("InvalidAccountOwner", "InvalidAccountOwner");
  ("ArithmeticOverflow", "ArithmeticOverflow");
  ("UnsupportedSysvar", "UnsupportedSysvar");
  ("IllegalOwner", "IllegalOwner");
  ("MaxAccountsDataAllocationsExceeded", "MaxAccountsDataAllocationsExceeded");
  ("MaxAccountsExceeded", "MaxAccountsExceeded");
  ("MaxInstructionTraceLengthExceeded", "MaxInstructionTraceLengthExceeded");
  ("BuiltinProgramsMustConsumeComputeUnits", "BuiltinProgramsMustConsumeComputeUnits");
  ("AccountInUse", "AccountInUse");
  ("AccountLoadedTwice", "AccountLoadedTwice");
  ("AccountNotFound", "AccountNotFound");
  ("ProgramAccountNotFound", "ProgramAccountNotFound");
  ("InsufficientFundsForFee", "InsufficientFundsForFee");
  ("InvalidAccountForFee", "InvalidAccountForFee");
  ("AlreadyProcessed", "AlreadyProcessed");
  ("BlockhashNotFound", "BlockhashNotFound");
  ("CallChainTooDeep", "CallChainTooDeep");
  ("MissingSignatureForFee", "MissingSignatureForFee");
  ("InvalidAccountIndex", "InvalidAccountIndex");
  ("SignatureFailure", "SignatureFailure");
  ("InvalidProgramForExecution", "InvalidProgramForExecution");
  ("SanitizeFailure", "SanitizeFailure");
  ("ClusterMaintenance", "ClusterMaintenance");
  ("WouldExceedMaxBlockCostLimit", "WouldExceedMaxBlockCostLimit");
  ("UnsupportedVersion", "UnsupportedVersion");
  ("InvalidWritableAccount", "InvalidWritableAccount");
  ("WouldExceedMaxAccountCostLimit", "WouldExceedMaxAccountCostLimit");
  ("WouldExceedAccountDataBlockLimit", "WouldExceedAccountDataBlockLimit");
  ("TooManyAccountLocks", "TooManyAccountLocks");
  ("AddressLookupTableNotFound", "AddressLookupTableNotFound");
  ("InvalidAddressLookupTableOwner", "InvalidAddressLookupTableOwner");
  ("InvalidAddressLookupTableData", "InvalidAddressLookupTableData");
  ("InvalidAddressLookupTableIndex", "InvalidAddressLookupTableIndex");
  ("InvalidRentPayingAccount", "InvalidRentPayingAccount");
  ("WouldExceedMaxVoteCostLimit", "WouldExceedMaxVoteCostLimit");
  ("WouldExceedAccountDataTotalLimit", "WouldExceedAccountDataTotalLimit");
  ("DuplicateInstruction", "DuplicateInstruction");
  ("InsufficientFundsForRent", "InsufficientFundsForRent");
  ("MaxLoadedAccountsDataSizeExceeded", "MaxLoadedAccountsDataSizeExceeded");
  ("InvalidLoadedAccountsDataSizeLimit", "InvalidLoadedAccountsDataSizeLimit");
  ("ResanitizationNeeded", "ResanitizationNeeded");
  ("ProgramExecutionTemporarilyRestricted", "ProgramExecutionTemporarilyRestricted");
  ("UnbalancedTransaction", "UnbalancedTransaction");
  ("ProgramCacheHitMaxLimit", "ProgramCacheHitMaxLimit");
  ("CommitCancelled", "CommitCancelled")].

(** ** [_errors_catalog/anchor.py] *)

Definition anchor_classes_1 : list class_stmt := map (fun '(n, c) => leaf_code "wake_sol._errors_catalog.anchor" n c) [
  ("InstructionMissing", 100);
  ("InstructionFallbackNotFound", 101);
  ("InstructionDidNotDeserialize", 102);
  ("InstructionDidNotSerialize", 103);
  ("IdlInstructionStub", 1000);
  ("IdlInstructionInvalidProgram", 1001);
  ("IdlAccountNotEmpty", 1002);
  ("EventInstructionStub", 1500);
  ("ConstraintMut", 2000);
  ("ConstraintHasOne", 2001);
  ("ConstraintSigner", 2002);
  ("ConstraintRaw", 2003);
  ("ConstraintOwner", 2004);
  ("ConstraintRentExempt", 2005);
  ("ConstraintSeeds", 2006);
  ("ConstraintExecutable", 2007);
  ("ConstraintState", 2008);
  ("ConstraintAssociated", 2009);
  ("ConstraintAssociatedInit", 2010);
  ("ConstraintClose", 2011);
  ("ConstraintAddress", 2012);
  ("ConstraintZero", 2013);
  ("ConstraintTokenMint", 2014);
  ("ConstraintTokenOwner", 2015);
  ("ConstraintMintMintAuthority", 2016);
  ("ConstraintMintFreezeAuthority", 2017);
  ("ConstraintMintDecimals", 2018);
  ("ConstraintSpace", 2019);
  ("ConstraintAccountIsNone", 2020);
  ("ConstraintTokenTokenProgram", 2021);
  ("ConstraintMintTokenProgram", 2022);
  ("ConstraintAssociatedTokenTokenProgram", 2023);
  ("ConstraintMintGroupPointerExtension", 2024);
  ("ConstraintMintGroupPointerExtensionAuthority", 2025);
  ("ConstraintMintGroupPointerExtensionGroupAddress", 2026);
  ("ConstraintMintGroupMemberPointerExtension", 2027);
  ("ConstraintMintGroupMemberPointerExtensionAuthority", 2028);
  ("ConstraintMintGroupMemberPointerExtensionMemberAddress", 2029);
  ("ConstraintMintMetadataPointerExtension", 2030)].

Definition anchor_classes_2 : list class_stmt := map (fun '(n, c) => leaf_code "wake_sol._errors_catalog.anchor" n c) [
  ("ConstraintMintMetadataPointerExtensionAuthority", 2031);
  ("ConstraintMintMetadataPointerExtensionMetadataAddress", 2032);
  ("ConstraintMintCloseAuthorityExtension", 2033);
  ("ConstraintMintCloseAuthorityExtensionAuthority", 2034);
  ("ConstraintMintPermanentDelegateExtension", 2035);
  ("ConstraintMintPermanentDelegateExtensionDelegate", 2036);
  ("ConstraintMintTransferHookExtension", 2037);
  ("ConstraintMintTransferHookExtensionAuthority", 2038);
  ("ConstraintMintTransferHookExtensionProgramId", 2039);
  ("RequireViolated", 2500);
  ("RequireEqViolated", 2501);
  ("RequireKeysEqViolated", 2502);
  ("RequireNeqViolated", 2503);
  ("RequireKeysNeqViolated", 2504);
  ("RequireGtViolated", 2505);
  ("RequireGteViolated", 2506);
  ("AccountDiscriminatorAlreadySet", 3000);
  ("AccountDiscriminatorNotFound", 3001);
  ("AccountDiscriminatorMismatch", 3002);
  ("AccountDidNotDeserialize", 3003);
  ("AccountDidNotSerialize", 3004);
  ("AccountNotEnoughKeys", 3005);
  ("AccountNotMutable", 3006);
  ("AccountOwnedByWrongProgram", 3007);
  ("InvalidProgramId", 3008);
  ("InvalidProgramExecutable", 3009);
  ("AccountNotSigner", 3010);
  ("AccountNotSystemOwned", 3011);
  ("AccountNotInitialized", 3012);
  ("AccountNotProgramData", 3013);
  ("AccountNotAssociatedTokenAccount", 3014);
  ("AccountSysvarMismatch", 3015);
  ("AccountReallocExceedsLimit", 3016);
  ("AccountDuplicateReallocs", 3017);
  ("DeclaredProgramIdMismatch", 4100);
  ("TryingToInitPayerAsProgramAccount", 4101);
  ("InvalidNumericConversion", 4102);
  ("Deprecated", 5000)].

Definition anchor_classes : list class_stmt :=
  (anchor_classes_1 ++ anchor_classes_2)%list.

Definition anchor_BY_CODE : list (Z * string) := [
  (100, "InstructionMissing");
  (101, "InstructionFallbackNotFound");
  (102, "InstructionDidNotDeserialize");
  (103, "InstructionDidNotSerialize");
  (1000, "IdlInstructionStub");
  (1001, "IdlInstructionInvalidProgram");
  (1002, "IdlAccountNotEmpty");
  (1500, "EventInstructionStub");
  (2000, "ConstraintMut");
  (2001, "ConstraintHasOne");
  (2002, "ConstraintSigner");
  (2003, "ConstraintRaw");
  (2004, "ConstraintOwner");
  (2005, "ConstraintRentExempt");
  (2006, "ConstraintSeeds");
  (2007, "ConstraintExecutable");
  (2008, "ConstraintState");
  (2009, "ConstraintAssociated");
  (2010, "ConstraintAssociatedInit");
  (2011, "ConstraintClose");
  (2012, "ConstraintAddress");
  (2013, "ConstraintZero");
  (2014, "ConstraintTokenMint");
  (2015, "ConstraintTokenOwner");
  (2016, "ConstraintMintMintAuthority");
  (2017, "ConstraintMintFreezeAuthority");
  (2018, "ConstraintMintDecimals");
  (2019, "ConstraintSpace");
  (2020, "ConstraintAccountIsNone");
  (2021, "ConstraintTokenTokenProgram");
  (2022, "ConstraintMintTokenProgram");
  (2023, "ConstraintAssociatedTokenTokenProgram");
  (2024, "ConstraintMintGroupPointerExtension");
  (2025, "ConstraintMintGroupPointerExtensionAuthority");
  (2026, "ConstraintMintGroupPointerExtensionGroupAddress");
  (2027, "ConstraintMintGroupMemberPointerExtension");
  (2028, "ConstraintMintGroupMemberPointerExtensionAuthority");
  (2029, "ConstraintMintGroupMemberPointerExtensionMemberAddress");
  (2030, "ConstraintMintMetadataPointerExtension");
  (2031, "ConstraintMintMetadataPointerExtensionAuthority");
  (2032, "ConstraintMintMetadataPointerExtensionMetadataAddress");
  (2033, "ConstraintMintCloseAuthorityExtension");
  (2034, "ConstraintMintCloseAuthorityExtensionAuthority");
  (2035, "ConstraintMintPermanentDelegateExtension");
  (2036, "ConstraintMintPermanentDelegateExtensionDelegate");
  (2037, "ConstraintMintTransferHookExtension");
  (2038, "ConstraintMintTransferHookExtensionAuthority");
  (2039, "ConstraintMintTransferHookExtensionProgramId");
  (2500, "RequireViolated");
  (2501, "RequireEqViolated");
  (2502, "RequireKeysEqViolated");
  (2503, "RequireNeqViolated");
  (2504, "RequireKeysNeqViolated");
  (2505, "RequireGtViolated");
  (2506, "RequireGteViolated");
  (3000, "AccountDiscriminatorAlreadySet");
  (3001, "AccountDiscriminatorNotFound");
  (3002, "AccountDiscriminatorMismatch");
  (3003, "AccountDidNotDeserialize");
  (3004, "AccountDidNotSerialize");
  (3005, "AccountNotEnoughKeys");
  (3006, "AccountNotMutable");
  (3007, "AccountOwnedByWrongProgram");
  (3008, "InvalidProgramId");
  (3009, "InvalidProgramExecutable");
  (3010, "AccountNotSigner");
  (3011, "AccountNotSystemOwned");
  (3012, "AccountNotInitialized");
  (3013, "AccountNotProgramData");
  (3014, "AccountNotAssociatedTokenAccount");
  (3015, "AccountSysvarMismatch");
  (3016, "AccountReallocExceedsLimit");
  (3017, "AccountDuplicateReallocs");
  (4100, "DeclaredProgramIdMismatch");
  (4101, "TryingToInitPayerAsProgramAccount");
  (4102, "InvalidNumericConversion");
  (5000, "Deprecated")].

(** ** [_errors_catalog/system.py] *)

Definition system_classes : list class_stmt := map (fun '(n, c, t) => leaf_msg "wake_sol._errors_catalog.system" n c t) [
  ("AccountAlreadyInUse", 0, "an account with the same address already exists");
  ("ResultWithNegativeLamports", 1, "account does not have enough SOL to perform the operation");
  ("InvalidProgramId", 2, "cannot assign account to this program id");
  ("InvalidAccountDataLength", 3, "cannot allocate account data of this length");
  ("MaxSeedLengthExceeded", 4, "length of requested seed is too long");
  ("AddressWithSeedMismatch", 5, "provided address does not match the address derived from seed");
  ("NonceNoRecentBlockhashes", 6, "advancing stored nonce requires a populated RecentBlockhashes sysvar");
  ("NonceBlockhashNotExpired", 7, "stored nonce is still in recent_blockhashes");
  ("NonceUnexpectedBlockhashValue", 8, "specified nonce does not match stored nonce")].

Definition system_BY_CODE : list (Z * string) := [
  (0, "AccountAlreadyInUse");
  (1, "ResultWithNegativeLamports");
  (2, "InvalidProgramId");
  (3, "InvalidAccountDataLength");
  (4, "MaxSeedLengthExceeded");
  (5, "AddressWithSeedMismatch");
  (6, "NonceNoRecentBlockhashes");
  (7, "NonceBlockhashNotExpired");
  (8, "NonceUnexpectedBlockhashValue")].

(** ** [_errors_catalog/token.py] *)

Definition token_classes : list class_stmt := map (fun '(n, c, t) => leaf_msg "wake_sol._errors_catalog.token" n c t) [
  ("NotRentExempt", 0, "lamport balance below rent-exempt threshold");
  ("InsufficientFunds", 1, "insufficient funds");
  ("InvalidMint", 2, "invalid mint");
  ("MintMismatch", 3, "account not associated with this mint");
  ("OwnerMismatch", 4, "owner does not match");
  ("FixedSupply", 5, "fixed supply");
  ("AlreadyInUse", 6, "already in use");
  ("InvalidNumberOfProvidedSigners", 7, "invalid number of provided signers");
  ("InvalidNumberOfRequiredSigners", 8, "invalid number of required signers");
  ("UninitializedState", 9, "state is uninitialized");
  ("NativeNotSupported", 10, "instruction does not support native tokens");
  ("NonNativeHasBalance", 11, "non-native account can only be closed if its balance is zero");
  ("InvalidInstruction", 12, "invalid instruction");
  ("InvalidState", 13, "state is invalid for requested operation");
  ("Overflow", 14, "operation overflowed");
  ("AuthorityTypeNotSupported", 15, "account does not support specified authority type");
  ("MintCannotFreeze", 16, "this token mint cannot freeze accounts");
  ("AccountFrozen", 17, "account is frozen");
  ("MintDecimalsMismatch", 18, "the provided decimals value different from the mint decimals");
  ("NonNativeNotSupported", 19, "instruction does not support non-native tokens")].

Definition token_BY_CODE : list (Z * string) := [
  (0, "NotRentExempt");
  (1, "InsufficientFunds");
  (2, "InvalidMint");
  (3, "MintMismatch");
  (4, "OwnerMismatch");
  (5, "FixedSupply");
  (6, "AlreadyInUse");
  (7, "InvalidNumberOfProvidedSigners");
  (8, "InvalidNumberOfRequiredSigners");
  (9, "UninitializedState");
  (10, "NativeNotSupported");
  (11, "NonNativeHasBalance");
  (12, "InvalidInstruction");
  (13, "InvalidState");
  (14, "Overflow");
  (15, "AuthorityTypeNotSupported");
  (16, "MintCannotFreeze");
  (17, "AccountFrozen");
  (18, "MintDecimalsMismatch");
  (19, "NonNativeNotSupported")].

(** ** The members [_errors_base.py] declares under [TYPE_CHECKING] *)

Definition solana_members : list string := [
  "GenericError";
  "InvalidArgument";
  "InvalidInstructionData";
  "InvalidAccountData";
  "AccountDataTooSmall";
  "InsufficientFunds";
  "IncorrectProgramId";
  "MissingRequiredSignature";
  "AccountAlreadyInitialized";
  "UninitializedAccount";
  "UnbalancedInstruction";
  "ModifiedProgramId";
  "ExternalAccountLamportSpend";
  "ExternalAccountDataModified";
  "ReadonlyLamportChange";
  "ReadonlyDataModified";
  "DuplicateAccountIndex";
  "ExecutableModified";
  "RentEpochModified";
  "NotEnoughAccountKeys";
  "AccountDataSizeChanged";
  "AccountNotExecutable";
  "AccountBorrowFailed";
  "AccountBorrowOutstanding";
  "DuplicateAccountOutOfSync";
  "InvalidError";
  "ExecutableDataModified";
  "ExecutableLamportChange";
  "ExecutableAccountNotRentExempt";
  "UnsupportedProgramId";
  "CallDepth";
  "MissingAccount";
  "ReentrancyNotAllowed";
  "MaxSeedLengthExceeded";
  "InvalidSeeds";
  "InvalidRealloc";
  "ComputationalBudgetExceeded";
  "PrivilegeEscalation";
  "ProgramEnvironmentSetupFailure";
  "ProgramFailedToComplete";
  "ProgramFailedToCompile";
  "Immutable";
  "IncorrectAuthority";
  "BorshIoError";
  "AccountNotRentExempt";
  "InvalidAccountOwner";
  "ArithmeticOverflow";
  "UnsupportedSysvar";
  "IllegalOwner";
  "MaxAccountsDataAllocationsExceeded";
  "MaxAccountsExceeded";
  "MaxInstructionTraceLengthExceeded";
  "BuiltinProgramsMustConsumeComputeUnits";
  "AccountInUse";
  "AccountLoadedTwice";
  "AccountNotFound";
  "ProgramAccountNotFound";
  "InsufficientFundsForFee";
  "InvalidAccountForFee";
  "AlreadyProcessed";
  "BlockhashNotFound";
  "CallChainTooDeep";
  "MissingSignatureForFee";
  "InvalidAccountIndex";
  "SignatureFailure";
  "InvalidProgramForExecution";
  "SanitizeFailure";
  "ClusterMaintenance";
  "WouldExceedMaxBlockCostLimit";
  "UnsupportedVersion";
  "InvalidWritableAccount";
  "WouldExceedMaxAccountCostLimit";
  "WouldExceedAccountDataBlockLimit";
  "TooManyAccountLocks";
  "AddressLookupTableNotFound";
  "InvalidAddressLookupTableOwner";
  "InvalidAddressLookupTableData";
  "InvalidAddressLookupTableIndex";
  "InvalidRentPayingAccount";
  "WouldExceedMaxVoteCostLimit";
  "WouldExceedAccountDataTotalLimit";
  "DuplicateInstruction";
  "InsufficientFundsForRent";
  "MaxLoadedAccountsDataSizeExceeded";
  "InvalidLoadedAccountsDataSizeLimit";
  "ResanitizationNeeded";
  "ProgramExecutionTemporarilyRestricted";
  "UnbalancedTransaction";
  "ProgramCacheHitMaxLimit";
  "CommitCancelled"].

Definition anchor_members : list string := [
  "InstructionMissing";
  "InstructionFallbackNotFound";
  "InstructionDidNotDeserialize";
  "InstructionDidNotSerialize";
  "IdlInstructionStub";
  "IdlInstructionInvalidProgram";
  "IdlAccountNotEmpty";
  "EventInstructionStub";
  "ConstraintMut";
  "ConstraintHasOne";
  "ConstraintSigner";
  "ConstraintRaw";
  "ConstraintOwner";
  "ConstraintRentExempt";
  "ConstraintSeeds";
  "ConstraintExecutable";
  "ConstraintState";
  "ConstraintAssociated";
  "ConstraintAssociatedInit";
  "ConstraintClose";
  "ConstraintAddress";
  "ConstraintZero";
  "ConstraintTokenMint";
  "ConstraintTokenOwner";
  "ConstraintMintMintAuthority";
  "ConstraintMintFreezeAuthority";
  "ConstraintMintDecimals";
  "ConstraintSpace";
  "ConstraintAccountIsNone";
  "ConstraintTokenTokenProgram";
  "ConstraintMintTokenProgram";
  "ConstraintAssociatedTokenTokenProgram";
  "ConstraintMintGroupPointerExtension";
  "ConstraintMintGroupPointerExtensionAuthority";
  "ConstraintMintGroupPointerExtensionGroupAddress";
  "ConstraintMintGroupMemberPointerExtension";
  "ConstraintMintGroupMemberPointerExtensionAuthority";
  "ConstraintMintGroupMemberPointerExtensionMemberAddress";
  "ConstraintMintMetadataPointerExtension";
  "ConstraintMintMetadataPointerExtensionAuthority";
  "ConstraintMintMetadataPointerExtensionMetadataAddress";
  "ConstraintMintCloseAuthorityExtension";
  "ConstraintMintCloseAuthorityExtensionAuthority";
  "ConstraintMintPermanentDelegateExtension";
  "ConstraintMintPermanentDelegateExtensionDelegate";
  "ConstraintMintTransferHookExtension";
  "ConstraintMintTransferHookExtensionAuthority";
  "ConstraintMintTransferHookExtensionProgramId";
  "RequireViolated";
  "RequireEqViolated";
  "RequireKeysEqViolated";
  "RequireNeqViolated";
  "RequireKeysNeqViolated";
  "RequireGtViolated";
  "RequireGteViolated";
  "AccountDiscriminatorAlreadySet";
  "AccountDiscriminatorNotFound";
  "AccountDiscriminatorMismatch";
  "AccountDidNotDeserialize";
  "AccountDidNotSerialize";
  "AccountNotEnoughKeys";
  "AccountNotMutable";
  "AccountOwnedByWrongProgram";
  "InvalidProgramId";
  "InvalidProgramExecutable";
  "AccountNotSigner";
  "AccountNotSystemOwned";
  "AccountNotInitialized";
  "AccountNotProgramData";
  "AccountNotAssociatedTokenAccount";
  "AccountSysvarMismatch";
  "AccountReallocExceedsLimit";
  "AccountDuplicateReallocs";
  "DeclaredProgramIdMismatch";
  "TryingToInitPayerAsProgramAccount";
  "InvalidNumericConversion";
  "Deprecated"].

Definition system_members : list string := [
  "AccountAlreadyInUse";
  "ResultWithNegativeLamports";
  "InvalidProgramId";
  "InvalidAccountDataLength";
  "MaxSeedLengthExceeded";
  "AddressWithSeedMismatch";
  "NonceNoRecentBlockhashes";
  "NonceBlockhashNotExpired";
  "NonceUnexpectedBlockhashValue"].

Definition token_members : list string := [
  "NotRentExempt";
  "InsufficientFunds";
  "InvalidMint";
  "MintMismatch";
  "OwnerMismatch";
  "FixedSupply";
  "AlreadyInUse";
  "InvalidNumberOfProvidedSigners";
  "InvalidNumberOfRequiredSigners";
  "UninitializedState";
  "NativeNotSupported";
  "NonNativeHasBalance";
  "InvalidInstruction";
  "InvalidState";
  "Overflow";
  "AuthorityTypeNotSupported";
  "MintCannotFreeze";
  "AccountFrozen";
  "MintDecimalsMismatch";
  "NonNativeNotSupported"].
