(* ===== verification/Errors.v ===== *)
(** * Resolution of raw errors and the failure context managers ([_errors.py])

    The registry [_PROGRAM_BY_CODE] is the module's state.  A program id is its
    base58 text, the form in which the runtime passes it and in which
    [register_errors] stores it. *)

From Stdlib Require Import ZArith Lia.
From stdpp Require Import base decidable option list gmap strings numbers.
From S2P Require Import Prelude.
From S2P Require Import Values.
From S2P Require Import ErrorsBase.
From S2P Require Import ErrorsCatalog.

#[local] Open Scope string_scope.

Definition ANCHOR_USER_ERROR_OFFSET : Z := 6000.

(** ** The catalogs' lookup tables, as class objects *)

(** The module's global [name] once its [class] statements ran. *)
Definition catalog_global (base : eclass) (classes : list class_stmt) (name : string) : option eclass :=
  Subclass base <$> list.last (filter (fun s => cs_name s = name) classes).

(** The dict display [{key: name, ...}] (every name is bound, see
    [catalogs_bound]). *)
Definition catalog_dict {K} `{EqDecision K} (base : eclass) (classes : list class_stmt)
    (table : list (K * string)) : list (K * eclass) :=
  dict_of (omap (fun kn => pair kn.1 <$> catalog_global base classes kn.2) table).

Definition _SOLANA_BY_NAME : list (string * eclass) :=
  Eval vm_compute in catalog_dict SolanaError solana_classes solana_BY_NAME.
Definition _ANCHOR_BY_CODE : list (Z * eclass) :=
  Eval vm_compute in catalog_dict AnchorError anchor_classes anchor_BY_CODE.
Definition _SYSTEM_BY_CODE : list (Z * eclass) :=
  Eval vm_compute in catalog_dict SystemProgramError system_classes system_BY_CODE.
Definition _TOKEN_BY_CODE : list (Z * eclass) :=
  Eval vm_compute in catalog_dict TokenError token_classes token_BY_CODE.

(** ** [_attach_leaves] *)

(** The attributes set on classes, by class and name. *)
Definition class_attrs := list ((eclass * string) * eclass).

Definition setattr (base : eclass) (name : string) (cls : eclass) (a : class_attrs) : class_attrs :=
  dict_set (base, name) cls a.

(** [getattr(cls, name)]: the class, then its bases. *)
Fixpoint getattr (cls : eclass) (name : string) (a : class_attrs) : option eclass :=
  match attr_lookup (cls, name) a with
  | Some v => Some v
  | None => match cls with TransactionFailed => None | Subclass b _ => getattr b name a end
  end.

Definition attach_to (base : eclass) (leaves : list eclass) (a : class_attrs) : class_attrs :=
  foldl (fun a cls => setattr base (class_name cls) cls a) a leaves.

Definition _attach_leaves (a : class_attrs) : class_attrs :=
  attach_to TokenError _TOKEN_BY_CODE.*2
    (attach_to SystemProgramError _SYSTEM_BY_CODE.*2
       (attach_to AnchorError _ANCHOR_BY_CODE.*2
          (attach_to SolanaError _SOLANA_BY_NAME.*2 a))).

(** ** The builtin programs *)

Definition SYSTEM_PROGRAM_ID : string := "11111111111111111111111111111111".
Definition TOKEN_PROGRAM_ID : string := "TokenkegQfeZyiNwAJbNbGKPFXCWuBvf9Ss623VQ5DA".
Definition TOKEN_2022_PROGRAM_ID : string := "TokenzQdBNbLqP5VEhdkAS6EPFLC1PHnBqCXEpPxuEb".

Definition _BUILTIN_BY_PROGRAM : list (string * list (Z * eclass)) := [
  (SYSTEM_PROGRAM_ID, _SYSTEM_BY_CODE);
  (TOKEN_PROGRAM_ID, _TOKEN_BY_CODE);
  (TOKEN_2022_PROGRAM_ID, _TOKEN_BY_CODE)].

(** ** The registry *)

Notation registry := (gmap (option string * Z) eclass).

(** [base_cls.__subclasses__()]: the direct subclasses among the classes alive,
    in the order they were created. *)
Definition base_is (base_cls c : eclass) : bool :=
  match c with Subclass b _ => bool_decide (b = base_cls) | TransactionFailed => false end.

Definition __subclasses__ (base_cls : eclass) (live : list eclass) : list eclass :=
  List.filter (base_is base_cls) live.

Definition register_one (key : option string) (reg : registry) (sub : eclass) : registry :=
  match class_code sub with
  | Some code => <[(key, code) := sub]> reg
  | None => reg
  end.

Definition register_errors (base_cls : eclass) (program_id : option string) (live : list eclass)
    (reg : registry) : registry :=
  foldl (register_one program_id) reg (__subclasses__ base_cls live).

(** ** [build] *)

Definition build (reg : registry) (code : option Z) (native : option string)
    (instruction_index account_index : option Z) (program_id : option string) : failure :=
  match native with
  | Some n =>
      let cls := default SolanaError (attr_lookup n _SOLANA_BY_NAME) in
      new_failure cls None instruction_index account_index None
  | None =>
      match code with
      | Some code =>
          let make cls := new_failure cls (Some code) instruction_index account_index None in
          match program_id ≫= (fun p => attr_lookup p _BUILTIN_BY_PROGRAM) with
          | Some builtin =>
              match attr_lookup code builtin with
              | None => make UnknownError
              | Some cls => make cls
              end
          | None =>
              let cls := reg !! (program_id, code) in
              let cls := match cls with None => reg !! (None, code) | c => c end in
              let cls := match cls with
                         | None => if (code <? ANCHOR_USER_ERROR_OFFSET)%Z
                                   then attr_lookup code _ANCHOR_BY_CODE else None
                         | c => c
                         end in
              match cls with
              | None => make UnknownError
              | Some cls => make cls
              end
          end
      | None => new_failure TransactionFailed None instruction_index account_index None
      end
  end.

(** ** [must_fail] and [may_fail] *)

(** An argument of the context managers. *)
Inductive expected_arg :=
  | XBool (b : bool)
  | XClass (c : eclass)
  | XInt (z : Z)
  | XOther.   (** another class, or another object *)

Fixpoint split_loop (types : list eclass) (codes : gset Z) (expected : list expected_arg)
    : res (list eclass * gset Z) :=
  match expected with
  | [] => Ok (types, codes)
  | x :: rest =>
      match x with
      | XBool _ => Raise (TypeError "expected a TransactionFailed subclass or int code, got a bool")
      | XClass c => split_loop (types ++ [c])%list codes rest
      | XInt z => split_loop types ({[z]} ∪ codes) rest
      | XOther => Raise (TypeError "must_fail/may_fail takes TransactionFailed subclasses or int error codes")
      end
  end.

Definition _split_expected (expected : list expected_arg) : res (list eclass * gset Z) :=
  match expected with
  | [] => Ok ([TransactionFailed], ∅)
  | _ => split_loop [] ∅ expected
  end.

Definition _matches (e : failure) (types : list eclass) (codes : gset Z) : bool :=
  existsb (issubclass (f_type e)) types ||
  match f_code e with Some c => bool_decide (c ∈ codes) | None => false end.

(** How the body of a [with] statement ends. *)
Inductive outcome :=
  | Completed
  | Failed (e : failure)
  | Raised (x : exn).

(** How the [with] statement ends: it goes on with the wrapper's [value], or
    an exception leaves it. *)
Inductive with_result :=
  | Continues (value : option failure)
  | Propagates (e : failure)
  | Throws (x : exn).

Section ContextManagers.
Context {W : Type}.
Implicit Types (body : W -> outcome * W) (w : W).

Definition must_fail (expected : list expected_arg) body w : with_result * W :=
  match _split_expected expected with
  | Raise x => (Throws x, w)
  | Ok (types, codes) =>
      let '(o, w') := body w in
      (match o with
       | Failed e => if negb (_matches e types codes) then Propagates e else Continues (Some e)
       | Raised x => Throws x
       | Completed => Throws (AssertionError "expected a failure, but the transaction succeeded")
       end, w')
  end.

Definition may_fail (expected : list expected_arg) body w : with_result * W :=
  match _split_expected expected with
  | Raise x => (Throws x, w)
  | Ok (types, codes) =>
      let '(o, w') := body w in
      (match o with
       | Failed e => if negb (_matches e types codes) then Propagates e else Continues (Some e)
       | Raised x => Throws x
       | Completed => Continues None
       end, w')
  end.

End ContextManagers.
