(* ===== verification/ErrorsProps.v ===== *)
(** * Correctness of error resolution and of the failure context managers

    The class an error gets is determined by the history of registrations;
    registrations of other programs do not matter, nor does the order in which
    programs are imported; builtin programs never fall through; the bundled
    catalogs, their lookup tables and the declared members agree; [must_fail]
    and [may_fail] accept exactly the failures they name. *)

From Stdlib Require Import ZArith Lia.
From stdpp Require Import base decidable option list gmap strings numbers.
From S2P Require Import Prelude.
From S2P Require Import Values.
From S2P Require Import ErrorsBase.
From S2P Require Import ErrorsCatalog.
From S2P Require Import Errors.

#[local] Open Scope string_scope.

(** ** Histories of registrations *)

(** One call of [register_errors], with the classes alive at that time. *)
Record registration := mkReg {
  r_base : eclass;
  r_program : option string;
  r_live : list eclass;
}.

Definition register (reg : registry) (r : registration) : registry :=
  register_errors (r_base r) (r_program r) (r_live r) reg.

Definition register_all (hist : list registration) (reg : registry) : registry :=
  foldl register reg hist.

(** The classes a history registers, with their keys, oldest first. *)
Definition entries_of (r : registration) : list ((option string * Z) * eclass) :=
  omap (fun c => (fun code => ((r_program r, code), c)) <$> class_code c)
       (__subclasses__ (r_base r) (r_live r)).

Definition last_for (key : option string * Z) (es : list ((option string * Z) * eclass)) : option eclass :=
  list.last (filter (fun e => e.1 = key) es).*2.

Definition last_registered (hist : list registration) (key : option string * Z) : option eclass :=
  last_for key (flat_map entries_of hist).

(** *** The registry as a function of the history *)

Lemma last_for_app key es es' :
  last_for key (es ++ es')%list = match last_for key es' with Some c => Some c | None => last_for key es end.
Proof. unfold last_for. rewrite list.filter_app, fmap_app, list.last_app. done. Qed.

Lemma last_for_cons key k c es :
  last_for key ((k, c) :: es) =
  match last_for key es with Some c' => Some c' | None => if decide (k = key) then Some c else None end.
Proof.
  change ((k, c) :: es) with ([(k, c)] ++ es)%list. rewrite last_for_app. f_equal.
  unfold last_for. rewrite list.filter_cons. simpl. by case_decide.
Qed.

Lemma register_errors_lookup r reg key :
  register reg r !! key = match last_for key (entries_of r) with Some c => Some c | None => reg !! key end.
Proof.
  unfold register, register_errors, entries_of.
  generalize (__subclasses__ (r_base r) (r_live r)) as subs. intros subs. revert reg.
  induction subs as [|c subs IH]; intros reg; [done|]. simpl. rewrite IH. unfold register_one.
  destruct (class_code c) as [code|]; simpl; [|done].
  rewrite last_for_cons. destruct (last_for key _); [done|].
  case_decide as Hk; [subst key; by rewrite lookup_insert_eq|by rewrite lookup_insert_ne].
Qed.

Lemma register_all_lookup hist reg key :
  register_all hist reg !! key =
  match last_registered hist key with Some c => Some c | None => reg !! key end.
Proof.
  unfold register_all, last_registered. revert reg.
  induction hist as [|r hist IH]; intros reg; [done|]. simpl.
  rewrite IH, last_for_app, register_errors_lookup.
  by destruct (last_for key (flat_map _ _)).
Qed.

(** A registration only writes keys of its own program. *)
Lemma last_for_elem key es c : last_for key es = Some c -> (key, c) ∈ es.
Proof.
  intros (e & -> & [He Hin]%list_elem_of_filter)%last_Some_elem_of%list_elem_of_fmap.
  destruct e. simpl in He. by subst.
Qed.

Lemma last_for_program r key : key.1 <> r_program r -> last_for key (entries_of r) = None.
Proof.
  intros Hk. destruct (last_for key _) as [c|] eqn:E; [|done].
  apply last_for_elem, list_elem_of_omap in E as (c' & _ & Hc).
  apply fmap_Some in Hc as (code & _ & ?). by simplify_eq.
Qed.

(** ** Resolution as a function of the history *)

(** What the documentation promises for a code of program [p]: the class the
    program itself registered last, else the class registered last without a
    program, else the framework's, else [UnknownError]. *)
Definition resolve_code (hist : list registration) (p : option string) (code : Z) : eclass :=
  match last_registered hist (p, code) with
  | Some c => c
  | None =>
      match last_registered hist (None, code) with
      | Some c => c
      | None => if (code <? 6000)%Z then default UnknownError (attr_lookup code _ANCHOR_BY_CODE)
                else UnknownError
      end
  end.

Definition is_builtin (p : option string) : bool :=
  match p with
  | Some p => bool_decide (p ∈ [SYSTEM_PROGRAM_ID; TOKEN_PROGRAM_ID; TOKEN_2022_PROGRAM_ID])
  | None => false
  end.

Lemma builtin_lookup p :
  p ≫= (fun p => attr_lookup p _BUILTIN_BY_PROGRAM) =
  match p with
  | Some q => if is_builtin p then Some (if decide (q = SYSTEM_PROGRAM_ID) then _SYSTEM_BY_CODE else _TOKEN_BY_CODE)
              else None
  | None => None
  end.
Proof.
  destruct p as [p|]; [|done]. simpl mbind. unfold is_builtin, _BUILTIN_BY_PROGRAM.
  cbn [attr_lookup option_bind mbind].
  destruct (decide (SYSTEM_PROGRAM_ID = p)) as [->|H1].
  { rewrite bool_decide_true by set_solver. by rewrite decide_True. }
  rewrite (decide_False (P := p = SYSTEM_PROGRAM_ID)) by congruence.
  destruct (decide (TOKEN_PROGRAM_ID = p)) as [->|H2]; [by rewrite bool_decide_true by set_solver|].
  destruct (decide (TOKEN_2022_PROGRAM_ID = p)) as [->|H3]; [by rewrite bool_decide_true by set_solver|].
  rewrite bool_decide_false by set_solver. done.
Qed.

(** C11: After any sequence of registrations, a code of a program that is not a
    builtin resolves to the class that program registered last for it, else to
    the class registered last without a program, else to the Anchor framework
    class (codes below 6000), else to [UnknownError]; the error carries the code
    and the indices it was built with. *)
Theorem build_history hist code ix acct p :
  is_builtin p = false ->
  build (register_all hist ∅) (Some code) None ix acct p =
  mkFailure (resolve_code hist p code) (Some code) ix acct None.
Proof.
  intros Hb. unfold build, resolve_code. rewrite builtin_lookup.
  assert (Hm : match p with
               | Some q => if is_builtin p then Some (if decide (q = SYSTEM_PROGRAM_ID) then _SYSTEM_BY_CODE
                                                      else _TOKEN_BY_CODE) else None
               | None => None end = None) by (rewrite Hb; by destruct p).
  rewrite Hm, !register_all_lookup, !lookup_empty.
  unfold ANCHOR_USER_ERROR_OFFSET.
  destruct (last_registered hist (p, code)); [done|].
  destruct (last_registered hist (None, code)); [done|].
  destruct (code <? 6000)%Z; [|done].
  by destruct (attr_lookup code _ANCHOR_BY_CODE).
Qed.

(** Two programs that both define 6000: each gets its own class. *)
Definition demo_base (n : string) : eclass :=
  Subclass ProgramError (mkStmt ("pytypes." +:+ n) (n +:+ "Error") 0 None None).
Definition demo_leaf (n : string) (code : Z) : eclass :=
  Subclass (demo_base n) (mkStmt ("pytypes." +:+ n) "Bad" 0 (Some (Some code)) None).
Definition demo_reg (n : string) : registration :=
  mkReg (demo_base n) (Some n) [demo_base "A"; demo_leaf "A" 6000; demo_base "B"; demo_leaf "B" 6000].

Lemma build_history_witness :
  build (register_all [demo_reg "A"; demo_reg "B"] ∅) (Some 6000) None (Some 0) None (Some "A") =
    mkFailure (demo_leaf "A" 6000) (Some 6000) (Some 0) None None.
Proof.
  rewrite (build_history [demo_reg "A"; demo_reg "B"] 6000 (Some 0) None (Some "A")) by (vm_compute; reflexivity).
  vm_compute. reflexivity.
Defined.

(** The part of a history that a program can see: its own registrations and the
    unscoped ones. *)
Definition concerns (p : option string) (r : registration) : bool :=
  bool_decide (r_program r = p) || bool_decide (r_program r = None).

Lemma last_registered_concerns hist p q code :
  q = p \/ q = None ->
  last_registered (List.filter (concerns p) hist) (q, code) = last_registered hist (q, code).
Proof.
  intros Hq. unfold last_registered. induction hist as [|r hist IH]; [done|]. simpl.
  destruct (concerns p r) eqn:Hc; simpl; rewrite !last_for_app, IH; [done|].
  rewrite (last_for_program r); [by destruct (last_for (q, code) (flat_map entries_of hist))|].
  unfold concerns in Hc. apply orb_false_iff in Hc as [H1%bool_decide_eq_false H2%bool_decide_eq_false].
  simpl. destruct Hq; subst; congruence.
Qed.

(** Errors of one program never leak into another: the error built for a
    program depends only on that program's own registrations and the unscoped
    ones, whatever other programs registered before, between or after. *)
Theorem build_isolated hist hist' code native ix acct p :
  List.filter (concerns p) hist = List.filter (concerns p) hist' ->
  build (register_all hist ∅) code native ix acct p = build (register_all hist' ∅) code native ix acct p.
Proof.
  intros Hf. unfold build. destruct native; [done|]. destruct code as [code|]; [|done].
  destruct (p ≫= _); [done|].
  assert (Hl : forall q, q = p \/ q = None ->
            register_all hist ∅ !! (q, code) = register_all hist' ∅ !! (q, code)).
  { intros q Hq. rewrite !register_all_lookup.
    by rewrite <-(last_registered_concerns hist p q), Hf, last_registered_concerns. }
  by rewrite !Hl by auto.
Qed.

Lemma build_isolated_witness :
  build (register_all [demo_reg "B"; demo_reg "A"; demo_reg "B"] ∅) (Some 6000) None None None (Some "A") =
  build (register_all [demo_reg "A"] ∅) (Some 6000) None None None (Some "A").
Proof. apply build_isolated. vm_compute. reflexivity. Defined.

(** ** Import order *)

Lemma register_swap r1 r2 reg :
  r_program r1 <> r_program r2 ->
  register (register reg r1) r2 = register (register reg r2) r1.
Proof.
  intros Hp. apply map_eq. intros key. rewrite !register_errors_lookup.
  destruct (decide (key.1 = r_program r1)) as [H1|H1].
  - rewrite (last_for_program r2) by congruence. done.
  - rewrite (last_for_program r1) by done. done.
Qed.

(** The error classes do not depend on the order in which the generated
    modules are imported: registering distinct programs in any order gives the
    same registry. *)
Theorem import_order_irrelevant hist hist' reg :
  Permutation hist hist' -> NoDup (r_program <$> hist) -> register_all hist reg = register_all hist' reg.
Proof.
  intros Hp. revert reg. induction Hp as [|r l l' _ IH|r1 r2 l|l1 l2 l3 H12 IH1 H23 IH2]; intros reg Hn; [done| | |].
  - simpl in *. apply IH. by apply list.NoDup_cons in Hn as [_ ?].
  - simpl. f_equal. apply register_swap. simpl in Hn. apply list.NoDup_cons in Hn as [Hn _].
    intros E. apply Hn. rewrite <-E. by left.
  - rewrite IH1 by done. apply IH2. by rewrite <-H12.
Qed.

Lemma import_order_irrelevant_witness :
  register_all [demo_reg "A"; demo_reg "B"] ∅ = register_all [demo_reg "B"; demo_reg "A"] ∅.
Proof.
  apply import_order_irrelevant; [constructor|].
  apply (bool_decide_unpack _). vm_compute. exact I.
Defined.

(** ** Builtin programs *)

(** The rows of a builtin table: their classes carry the row's code and are
    program errors. *)
Definition builtin_row_ok (kc : Z * eclass) : Prop :=
  class_code kc.2 = Some kc.1 /\ issubclass kc.2 ProgramError = true /\
  issubclass kc.2 AnchorError = false /\ kc.2 <> UnknownError.

#[global] Instance builtin_row_ok_dec kc : Decision (builtin_row_ok kc).
Proof. unfold builtin_row_ok. apply _. Defined.

Lemma builtin_rows_ok : Forall builtin_row_ok (_SYSTEM_BY_CODE ++ _TOKEN_BY_CODE)%list.
Proof. apply (bool_decide_unpack _). vm_compute. exact I. Qed.

Lemma builtin_table_row p table code cls :
  attr_lookup p _BUILTIN_BY_PROGRAM = Some table -> attr_lookup code table = Some cls ->
  builtin_row_ok (code, cls).
Proof.
  intros Ht Hc%attr_lookup_elem. pose proof builtin_rows_ok as H. rewrite list.Forall_forall in H.
  apply H. apply attr_lookup_elem in Ht. unfold _BUILTIN_BY_PROGRAM in Ht.
  apply elem_of_app. rewrite !elem_of_cons, elem_of_nil in Ht.
  destruct Ht as [[=]|[[=]|[[=]|[]]]]; subst; auto.
Qed.

(** A code attributed to the System program or to SPL Token / Token-2022
    never falls through to the user or Anchor tables: whatever is registered,
    the error carries the code and is a catalogued error of a program with that
    very code, or [UnknownError] exactly when the program's table has no such
    code; an Anchor class is impossible. *)
Theorem builtin_no_fall_through reg code ix acct p table :
  attr_lookup p _BUILTIN_BY_PROGRAM = Some table ->
  let e := build reg (Some code) None ix acct (Some p) in
  f_code e = Some code /\
  (forall reg', build reg' (Some code) None ix acct (Some p) = e) /\
  issubclass (f_type e) AnchorError = false /\
  (f_type e = UnknownError <-> attr_lookup code table = None) /\
  (f_type e <> UnknownError ->
     issubclass (f_type e) ProgramError = true /\ class_code (f_type e) = Some code).
Proof.
  intros Ht e. subst e. unfold build. cbn [mbind option_bind]. rewrite Ht.
  destruct (attr_lookup code table) as [cls|] eqn:Hc; cbn.
  - destruct (builtin_table_row _ _ _ _ Ht Hc) as (? & ? & ? & ?). naive_solver.
  - repeat split; try done.
Qed.

Lemma builtin_no_fall_through_witness :
  f_type (build ∅ (Some 100) None None None (Some SYSTEM_PROGRAM_ID)) = UnknownError.
Proof.
  apply (builtin_no_fall_through ∅ 100 None None SYSTEM_PROGRAM_ID _SYSTEM_BY_CODE eq_refl).
  vm_compute. reflexivity.
Defined.

(** ** The catalogs *)

(** Every name a lookup table mentions is a class of its module. *)
Definition bound_in {K} (classes : list class_stmt) (table : list (K * string)) : bool :=
  forallb (fun kn => bool_decide (kn.2 ∈ cs_name <$> classes)) table.

(** A leaf [s] of [base] as the rest of the package sees it: [build] returns it
    for its raw error and [base.<name>] is that class. *)
Definition leaf_resolves (base : eclass) (s : class_stmt) (raw_code : option Z) (native : option string)
    (program : option string) : Prop :=
  f_type (build ∅ raw_code native None None program) = Subclass base s /\
  getattr base (cs_name s) (_attach_leaves []) = Some (Subclass base s).

(** The attributes after the module was imported, computed once. *)
Definition attached : class_attrs := Eval vm_compute in _attach_leaves [].

Lemma attached_eq : _attach_leaves [] = attached.
Proof. vm_compute. reflexivity. Qed.

Definition leaf_check (base : eclass) (s : class_stmt) (raw_code : option Z) (native : option string)
    (program : option string) : bool :=
  bool_decide (f_type (build ∅ raw_code native None None program) = Subclass base s) &&
  bool_decide (getattr base (cs_name s) attached = Some (Subclass base s)).

Lemma leaf_check_ok base s c n p : leaf_check base s c n p = true -> leaf_resolves base s c n p.
Proof.
  unfold leaf_check, leaf_resolves. rewrite attached_eq.
  intros [?%bool_decide_eq_true ?%bool_decide_eq_true]%andb_true_iff. done.
Qed.

Lemma leaves_checked {A} (f : A -> bool) (P : A -> Prop) l :
  (forall x, f x = true -> P x) -> forallb f l = true -> Forall P l.
Proof.
  intros Hf. induction l as [|x l IH]; simpl; [constructor|]. intros [? ?]%andb_true_iff. constructor; auto.
Qed.

Definition own (s : class_stmt) : option Z := match own_code s with Some c => c | None => None end.

(** The bundled catalogs hang together: each table names only classes of
    its module; the members declared for type checkers are exactly the classes,
    in order; and every one of the 196 leaf classes is what [build] returns for
    its name or code (under its program for the builtin ones) and what its base
    exposes as an attribute, also where catalogs share a name or a code. *)
Theorem catalogs_coherent :
  (bound_in solana_classes solana_BY_NAME && bound_in anchor_classes anchor_BY_CODE &&
   bound_in system_classes system_BY_CODE && bound_in token_classes token_BY_CODE) = true /\
  solana_members = cs_name <$> solana_classes /\ anchor_members = cs_name <$> anchor_classes /\
  system_members = cs_name <$> system_classes /\ token_members = cs_name <$> token_classes /\
  Forall (fun s => leaf_resolves SolanaError s None (Some (cs_name s)) None) solana_classes /\
  Forall (fun s => own s <> None /\ leaf_resolves AnchorError s (own s) None None) anchor_classes /\
  Forall (fun s => own s <> None /\ leaf_resolves SystemProgramError s (own s) None (Some SYSTEM_PROGRAM_ID))
    system_classes /\
  Forall (fun s => own s <> None /\ leaf_resolves TokenError s (own s) None (Some TOKEN_PROGRAM_ID) /\
                   leaf_resolves TokenError s (own s) None (Some TOKEN_2022_PROGRAM_ID)) token_classes.
Proof.
  repeat match goal with |- _ /\ _ => split end; [vm_compute; reflexivity.. | | | |].
  - eapply leaves_checked; [intros s; apply leaf_check_ok|]. vm_compute. reflexivity.
  - apply (leaves_checked (fun s => bool_decide (own s <> None) && leaf_check AnchorError s (own s) None None)).
    + intros s [?%bool_decide_eq_true ?%leaf_check_ok]%andb_true_iff. done.
    + vm_compute. reflexivity.
  - apply (leaves_checked (fun s => bool_decide (own s <> None) &&
             leaf_check SystemProgramError s (own s) None (Some SYSTEM_PROGRAM_ID))).
    + intros s [?%bool_decide_eq_true ?%leaf_check_ok]%andb_true_iff. done.
    + vm_compute. reflexivity.
  - apply (leaves_checked (fun s => bool_decide (own s <> None) &&
             (leaf_check TokenError s (own s) None (Some TOKEN_PROGRAM_ID) &&
              leaf_check TokenError s (own s) None (Some TOKEN_2022_PROGRAM_ID)))).
    + intros s [?%bool_decide_eq_true [?%leaf_check_ok ?%leaf_check_ok]%andb_true_iff]%andb_true_iff. done.
    + vm_compute. reflexivity.
Qed.

(** ** The context managers *)

Definition valid_arg (x : expected_arg) : bool :=
  match x with XClass _ | XInt _ => true | _ => false end.

(** The failures that the arguments name. *)
Definition named (xs : list expected_arg) (e : failure) : Prop :=
  xs = [] \/ (exists c, XClass c ∈ xs /\ issubclass (f_type e) c = true) \/
  (exists z, XInt z ∈ xs /\ f_code e = Some z).

Lemma split_loop_spec types codes xs :
  if forallb valid_arg xs
  then exists types' codes', split_loop types codes xs = Ok (types', codes') /\
         (forall c, c ∈ types' <-> c ∈ types \/ XClass c ∈ xs) /\
         (forall z, z ∈ codes' <-> z ∈ codes \/ XInt z ∈ xs)
  else exists m, split_loop types codes xs = Raise (TypeError m).
Proof.
  revert types codes. induction xs as [|x xs IH]; intros types codes; simpl.
  { exists types, codes. set_solver. }
  destruct x as [b|c|z|]; simpl; eauto.
  - specialize (IH (types ++ [c])%list codes). destruct (forallb valid_arg xs); [|done].
    destruct IH as (t & cs & -> & Ht & Hc). exists t, cs. split_and!; [done| |].
    + intros d. rewrite Ht, elem_of_app, list_elem_of_singleton, elem_of_cons. naive_solver.
    + intros d. rewrite Hc, elem_of_cons. naive_solver.
  - specialize (IH types ({[z]} ∪ codes)). destruct (forallb valid_arg xs); [|done].
    destruct IH as (t & cs & -> & Ht & Hc). exists t, cs. split_and!; [done| |].
    + intros d. rewrite Ht, elem_of_cons. naive_solver.
    + intros d. rewrite Hc, elem_of_union, elem_of_singleton, elem_of_cons. naive_solver.
Qed.

Lemma matches_true e types codes :
  _matches e types codes = true <->
  (exists c, c ∈ types /\ issubclass (f_type e) c = true) \/ (exists z, z ∈ codes /\ f_code e = Some z).
Proof.
  unfold _matches. rewrite orb_true_iff, existsb_exists.
  setoid_rewrite <-list_elem_of_In.
  destruct (f_code e) as [c|]; [rewrite bool_decide_eq_true|]; naive_solver.
Qed.

(** With valid arguments the managers match exactly the named failures. *)
Lemma split_expected_spec xs :
  if forallb valid_arg xs
  then exists types codes, _split_expected xs = Ok (types, codes) /\
         forall e, _matches e types codes = true <-> named xs e
  else exists m, _split_expected xs = Raise (TypeError m).
Proof.
  destruct xs as [|x xs]; simpl _split_expected.
  - exists [TransactionFailed], ∅. split; [done|]. intros e. rewrite matches_true.
    split; [by left|]. intros _. left. exists TransactionFailed. split; [by left|apply issubclass_root].
  - pose proof (split_loop_spec [] ∅ (x :: xs)) as H. unfold _split_expected.
    destruct (forallb valid_arg (x :: xs)); [|done].
    destruct H as (types & codes & Hs & Ht & Hc). exists types, codes. split; [done|].
    intros e. rewrite matches_true. unfold named. setoid_rewrite Ht. setoid_rewrite Hc.
    setoid_rewrite elem_of_nil. setoid_rewrite elem_of_empty. naive_solver.
Qed.

(** What both managers do with a body that ran: a failure is swallowed and
    handed to the wrapper exactly when it is named, any other exception goes
    through; [on_success] is where they differ. *)
Definition handles {W} (xs : list expected_arg) (body : W -> outcome * W) (w : W)
    (on_success : with_result -> Prop) (r : with_result * W) : Prop :=
  r.2 = (body w).2 /\
  match (body w).1 with
  | Failed e => (named xs e /\ r.1 = Continues (Some e)) \/ (~ named xs e /\ r.1 = Propagates e)
  | Raised x => r.1 = Throws x
  | Completed => on_success r.1
  end.

(** C12: [must_fail] and [may_fail] refuse a boolean or anything that is neither
    an error class nor an integer before the body runs; otherwise they run the
    body once, swallow exactly the failures that are named (by class or
    subclass, by code, or any failure without arguments), re-raise every other
    one, and let other exceptions through; a body that succeeds is an
    [AssertionError] for [must_fail] and no error for [may_fail]. *)
Theorem must_fail_may_fail_spec {W} xs (body : W -> outcome * W) w :
  if forallb valid_arg xs
  then handles xs body w (fun r => exists m, r = Throws (AssertionError m)) (must_fail xs body w) /\
       handles xs body w (fun r => r = Continues None) (may_fail xs body w)
  else exists m, must_fail xs body w = (Throws (TypeError m), w) /\
                 may_fail xs body w = (Throws (TypeError m), w).
Proof.
  pose proof (split_expected_spec xs) as H. unfold must_fail, may_fail, handles.
  destruct (forallb valid_arg xs); [|by destruct H as [m ->]; eauto].
  destruct H as (types & codes & -> & Hm). destruct (body w) as [[|e|x] w'] eqn:Hb; simpl; [eauto| |done].
  specialize (Hm e). destruct (_matches e types codes); simpl; naive_solver.
Qed.
