(* ===== verification/Fuzzing.v ===== *)
(** * The stateful fuzzing engine ([fuzzing.py])

    The code of the user's [FuzzTest] subclass (flows, preconditions,
    invariants, hooks) is arbitrary: functions that read [sequence_num] and
    [flow_num], change the world [W] (the SVM, the instance, the random source)
    and may raise.  [svm.reset], the [transaction_history] setter and the
    generator's weighted draw act on the world and are parameters. *)

From Stdlib Require Import ZArith Lia.
From stdpp Require Import base decidable option list gmap strings sorting pretty numbers.
From S2P Require Import Prelude.

#[local] Open Scope string_scope.

(** ** Per-flow statistics *)

Record leaf := mkLeaf {
  picked : Z;
  ran : Z;
  skipped : Z;
  reasons : gmap string Z;
}.

#[global] Instance leaf_eq_dec : EqDecision leaf.
Proof. solve_decision. Defined.

Definition zero_leaf : leaf := mkLeaf 0 0 0 ∅.

(** The registry's entry of a class. *)
Record entry := mkEntry {
  en_sequences : Z;
  en_steps : Z;
  en_flows : gmap string leaf;
}.

Definition zero_entry : entry := mkEntry 0 0 ∅.

Definition bump (k : string) (c : Z) (m : gmap string Z) : gmap string Z :=
  <[k := (default 0 (m !! k) + c)%Z]> m.

(** The loop over [s.get("reasons", {}).items()]. *)
Definition merge_reasons (dst src : gmap string Z) : gmap string Z :=
  foldl (fun m rc => bump rc.1 rc.2 m) dst (map_to_list src).

Definition merge_leaf (dst src : leaf) : leaf :=
  mkLeaf (picked dst + picked src) (ran dst + ran src) (skipped dst + skipped src)
    (merge_reasons (reasons dst) (reasons src)).

Definition _merge_flow_leaves (dst src : gmap string leaf) : gmap string leaf :=
  foldl (fun d fs => <[fs.1 := merge_leaf (default zero_leaf (d !! fs.1)) fs.2]> d) dst (map_to_list src).

Notation stats_registry := (gmap string entry).

Definition record_run_stats (name : string) (sequences_count flows_count : Z)
    (stats : gmap string leaf) (r : stats_registry) : stats_registry :=
  let e := default zero_entry (r !! name) in
  <[name := mkEntry (en_sequences e + sequences_count) (en_steps e + sequences_count * flows_count)
              (_merge_flow_leaves (en_flows e) stats)]> r.

Definition merge_entry (d e : entry) : entry :=
  mkEntry (en_sequences d + en_sequences e) (en_steps d + en_steps e)
    (_merge_flow_leaves (en_flows d) (en_flows e)).

Definition merge_session_stats (dst src : stats_registry) : stats_registry :=
  foldl (fun d ne => <[ne.1 := merge_entry (default zero_entry (d !! ne.1)) ne.2]> d) dst (map_to_list src).

(** ** [build_stats_table]: the rows added to the table and the warnings *)

Inductive stats_warning :=
  | NeverPicked (fname : string)
  | NeverRan (fname : string) (picks : Z).

Definition str_le (a b : string) : Prop := String.leb a b = true.
#[global] Instance str_le_dec a b : Decision (str_le a b).
Proof. unfold str_le. apply _. Defined.

Definition sorted_keys {A} (m : gmap string A) : list string := merge_sort str_le (map_to_list m).*1.

Definition reasons_cell (m : gmap string Z) : string :=
  String.concat ", " ((fun r => r +:+ ":" +:+ pretty (default 0 (m !! r))) <$> sorted_keys m).

Definition stats_row (fname : string) (s : leaf) : list string :=
  [fname; pretty (picked s); pretty (ran s); pretty (skipped s); reasons_cell (reasons s)].

Definition stats_warnings (fname : string) (s : leaf) : list stats_warning :=
  if (picked s =? 0)%Z then [NeverPicked fname]
  else if (ran s =? 0)%Z then [NeverRan fname (picked s)]
  else [].

Definition build_stats_table (flows_stats : gmap string leaf) : list (list string) * list stats_warning :=
  let names := sorted_keys flows_stats in
  let at_ f := default zero_leaf (flows_stats !! f) in
  ((fun f => stats_row f (at_ f)) <$> names, flat_map (fun f => stats_warnings f (at_ f)) names).

(** ** The last failure *)

Record fuzz_failure := mkFuzzFailure {
  ff_class : string;
  ff_sequence : Z;
  ff_flow : Z;
  ff_failing : string;
  ff_trace : list string;
}.

(** The module's state. *)
Record session := mkSession {
  _session_stats : stats_registry;
  _last_fuzz_failure : option fuzz_failure;
}.

Definition clear_last_fuzz_failure (s : session) : session := mkSession (_session_stats s) None.
Definition _set_last_fuzz_failure (f : fuzz_failure) (s : session) : session :=
  mkSession (_session_stats s) (Some f).
Definition get_session_stats (s : session) : stats_registry := _session_stats s.
Definition get_last_fuzz_failure (s : session) : option fuzz_failure := _last_fuzz_failure s.

(** ** The user's test class *)

(** Code that runs with [sequence_num] and [flow_num] readable on [self]. *)
Definition user (W A : Type) : Type := Z -> Z -> W -> res A * W.

(** A function object; the tags are the attributes the decorators set.  Its
    result is [Some s] when it returns a string. *)
Record pyfunc (W : Type) := mkFn {
  fn_id : nat;
  __name__ : string;
  fn_flow : bool;
  fn_weight : Z;
  fn_max_times : option Z;
  fn_precondition : option (user W bool);
  fn_invariant : bool;
  fn_period : Z;
  fn_call : user W (option string);
}.
Arguments mkFn {W}.
Arguments fn_id {W}.
Arguments __name__ {W}.
Arguments fn_flow {W}.
Arguments fn_weight {W}.
Arguments fn_max_times {W}.
Arguments fn_precondition {W}.
Arguments fn_invariant {W}.
Arguments fn_period {W}.
Arguments fn_call {W}.

(** [@flow(weight=, max_times=, precondition=)]. *)
Definition flow {W} (weight : Z) (max_times : option Z) (precondition : option (user W bool))
    (fn : pyfunc W) : pyfunc W :=
  mkFn (fn_id fn) (__name__ fn) true weight
    (match max_times with Some m => Some m | None => fn_max_times fn end)
    (match precondition with Some p => Some p | None => fn_precondition fn end)
    (fn_invariant fn) (fn_period fn) (fn_call fn).

(** [@invariant(period=)]. *)
Definition invariant {W} (period : Z) (fn : pyfunc W) : pyfunc W :=
  mkFn (fn_id fn) (__name__ fn) (fn_flow fn) (fn_weight fn) (fn_max_times fn) (fn_precondition fn)
    true period (fn_call fn).

(** The class: its attributes by name ([None]: not callable), the constructor
    and the lifecycle hooks. *)
Record fuzz_class (W : Type) := mkFuzzClass {
  fc_name : string;
  fc_is_fuzz_test : bool;
  fc_dir : gmap string (option (pyfunc W));
  fc_new : W -> res unit * W;
  pre_sequence : user W unit;
  post_sequence : user W unit;
  pre_flow : pyfunc W -> user W unit;
  post_flow : pyfunc W -> user W unit;
  pre_invariants : user W unit;
  post_invariants : user W unit;
  pre_invariant : pyfunc W -> user W unit;
  post_invariant : pyfunc W -> user W unit;
}.
Arguments fc_name {W}.
Arguments fc_is_fuzz_test {W}.
Arguments fc_dir {W}.
Arguments fc_new {W}.
Arguments pre_sequence {W}.
Arguments post_sequence {W}.
Arguments pre_flow {W}.
Arguments post_flow {W}.
Arguments pre_invariants {W}.
Arguments post_invariants {W}.
Arguments pre_invariant {W}.
Arguments post_invariant {W}.

Definition _methods_with {W} (cls : fuzz_class W) (attr : pyfunc W -> bool) : list (pyfunc W) :=
  omap (fun name => match fc_dir cls !! name with
                    | Some (Some m) => if attr m then Some m else None
                    | _ => None
                    end) (sorted_keys (fc_dir cls)).

(** ** The engine *)

(** The locals of one sequence, the instance's counters and the world. *)
Record seq_state (W : Type) := mkSeq {
  sq_world : W;
  _sequence_num : Z;
  _flow_num : Z;
  flows_counter : gmap nat Z;
  invariant_periods : gmap nat Z;
  sq_trace : list string;
  sq_current : string;
  sq_stats : gmap string leaf;
}.
Arguments mkSeq {W}.
Arguments sq_world {W}.
Arguments _sequence_num {W}.
Arguments _flow_num {W}.
Arguments flows_counter {W}.
Arguments invariant_periods {W}.
Arguments sq_trace {W}.
Arguments sq_current {W}.
Arguments sq_stats {W}.

(** Code that may raise; the state reached survives the exception. *)
Definition FM (W A : Type) : Type := seq_state W -> res A * seq_state W.

#[global] Instance FM_ret {W} : MRet (FM W) := fun A a s => (Ok a, s).
#[global] Instance FM_bind {W} : MBind (FM W) := fun A B f m s =>
  match m s with
  | (Ok a, s') => f a s'
  | (Raise e, s') => (Raise e, s')
  end.

Definition fraise {W A} (e : exn) : FM W A := fun s => (Raise e, s).
Definition modify {W} (f : seq_state W -> seq_state W) : FM W unit := fun s => (Ok tt, f s).

(** A call of user code: [sequence_num] and [flow_num] are the instance's. *)
Definition call {W A} (u : user W A) : FM W A := fun s =>
  let '(r, w) := u (_sequence_num s) (_flow_num s) (sq_world s) in
  (r, mkSeq w (_sequence_num s) (_flow_num s) (flows_counter s) (invariant_periods s)
        (sq_trace s) (sq_current s) (sq_stats s)).

Definition set_flow_num {W} (step : Z) (s : seq_state W) : seq_state W :=
  mkSeq (sq_world s) (_sequence_num s) step (flows_counter s) (invariant_periods s)
    (sq_trace s) (sq_current s) (sq_stats s).
Definition set_current {W} (c : string) (s : seq_state W) : seq_state W :=
  mkSeq (sq_world s) (_sequence_num s) (_flow_num s) (flows_counter s) (invariant_periods s)
    (sq_trace s) c (sq_stats s).
Definition append_trace {W} (n : string) (s : seq_state W) : seq_state W :=
  mkSeq (sq_world s) (_sequence_num s) (_flow_num s) (flows_counter s) (invariant_periods s)
    (sq_trace s ++ [n])%list (sq_current s) (sq_stats s).
Definition update_stats {W} (n : string) (f : leaf -> leaf) (s : seq_state W) : seq_state W :=
  mkSeq (sq_world s) (_sequence_num s) (_flow_num s) (flows_counter s) (invariant_periods s)
    (sq_trace s) (sq_current s) (alter f n (sq_stats s)).
Definition count_flow {W} (f : pyfunc W) (s : seq_state W) : seq_state W :=
  mkSeq (sq_world s) (_sequence_num s) (_flow_num s)
    (<[fn_id f := (default 0 (flows_counter s !! fn_id f) + 1)%Z]> (flows_counter s))
    (invariant_periods s) (sq_trace s) (sq_current s) (sq_stats s).
Definition set_period {W} (i : pyfunc W) (z : Z) (s : seq_state W) : seq_state W :=
  mkSeq (sq_world s) (_sequence_num s) (_flow_num s) (flows_counter s)
    (<[fn_id i := z]> (invariant_periods s)) (sq_trace s) (sq_current s) (sq_stats s).

Definition pick_leaf (l : leaf) : leaf := mkLeaf (picked l + 1) (ran l) (skipped l) (reasons l).
Definition skip_leaf (r : string) (l : leaf) : leaf :=
  mkLeaf (picked l) (ran l) (skipped l + 1) (bump r 1 (reasons l)).
Definition run_leaf (l : leaf) : leaf := mkLeaf (picked l) (ran l + 1) (skipped l) (reasons l).

Section Engine.
Context {W : Type}.
(** The draw of [random.choices] (an index, from the weights), [svm.reset] and
    the [svm.transaction_history] setter. *)
Context (draw : list Z -> W -> nat * W).
Context (svm_reset : W -> res unit * W).
Context (set_transaction_history : bool -> W -> res unit * W).
Implicit Types (s : seq_state W) (f : pyfunc W) (cls : fuzz_class W).

(** [not hasattr(f, "max_times") or flows_counter[f] < f.max_times]. *)
Definition under_cap s f : bool :=
  match fn_max_times f with
  | None => true
  | Some m => (default 0 (flows_counter s !! fn_id f) <? m)%Z
  end.

(** [not hasattr(f, "precondition") or f.precondition(instance)]. *)
Definition precondition_holds f : FM W bool :=
  match fn_precondition f with None => mret true | Some p => call p end.

(** The list comprehension [valid]. *)
Fixpoint valid_flows (flows : list (pyfunc W)) : FM W (list (pyfunc W)) :=
  match flows with
  | [] => mret []
  | f :: rest => fun s =>
      (if under_cap s f
       then ok ← precondition_holds f;
            vs ← valid_flows rest;
            mret (if ok : bool then f :: vs else vs)
       else valid_flows rest) s
  end.

(** The list comprehension [gated], run for the message only: it calls the
    preconditions once more. *)
Fixpoint gated_flows (flows : list (pyfunc W)) : FM W (list string) :=
  match flows with
  | [] => mret []
  | f :: rest =>
      match fn_precondition f with
      | None => gated_flows rest
      | Some p => ok ← call p; gs ← gated_flows rest;
                  mret (if ok : bool then gs else __name__ f :: gs)
      end
  end.

(** [sf.random.choices(valid, weights=...)[0]]. *)
Definition choices (valid : list (pyfunc W)) : FM W (pyfunc W) := fun s =>
  let weights := fn_weight <$> valid in
  if (foldr Z.add 0 weights <=? 0)%Z then (Raise (ValueError "Total of weights must be greater than zero"), s)
  else
    let '(i, w) := draw weights (sq_world s) in
    let s' := mkSeq w (_sequence_num s) (_flow_num s) (flows_counter s) (invariant_periods s)
                (sq_trace s) (sq_current s) (sq_stats s) in
    match valid !! i with
    | Some f => (Ok f, s')
    | None => (Raise IndexError, s')
    end.

Definition run_flow cls f : FM W unit :=
  _ ← modify (set_current ("flow " +:+ __name__ f));
  _ ← modify (append_trace (__name__ f));
  _ ← modify (update_stats (__name__ f) pick_leaf);
  _ ← call (pre_flow cls f);
  ret ← call (fn_call f);
  _ ← call (post_flow cls f);
  match ret with
  | Some r => modify (update_stats (__name__ f) (skip_leaf r))
  | None => _ ← modify (count_flow f); modify (update_stats (__name__ f) run_leaf)
  end.

(** [if invariant_periods[inv] == 0: ...]. *)
Definition check_invariant cls (inv : pyfunc W) : FM W unit :=
  _ ← modify (set_current ("invariant " +:+ __name__ inv));
  _ ← call (pre_invariant cls inv);
  _ ← call (fn_call inv);
  call (post_invariant cls inv).

Definition period_of s (inv : pyfunc W) : Z := default 0 (invariant_periods s !! fn_id inv).

Definition advance_period (inv : pyfunc W) : FM W unit := modify (fun s =>
  let p := (period_of s inv + 1)%Z in
  set_period inv (if (fn_period inv <=? p)%Z then 0%Z else p) s).

Definition invariant_turn cls (inv : pyfunc W) : FM W unit := fun s =>
  (if (period_of s inv =? 0)%Z
   then _ ← check_invariant cls inv; advance_period inv
   else advance_period inv) s.

Fixpoint invariant_loop cls (invs : list (pyfunc W)) : FM W unit :=
  match invs with
  | [] => mret tt
  | inv :: rest => _ ← invariant_turn cls inv; invariant_loop cls rest
  end.

(** One iteration of the step loop. *)
Definition fuzz_step cls (flows invariants : list (pyfunc W)) (step : Z) : FM W unit :=
  _ ← modify (set_flow_num step);
  valid ← valid_flows flows;
  match valid with
  | [] => _ ← gated_flows flows; fraise (RuntimeError "no runnable flow this step.")
  | _ =>
      chosen ← choices valid;
      _ ← run_flow cls chosen;
      _ ← call (pre_invariants cls);
      _ ← invariant_loop cls invariants;
      call (post_invariants cls)
  end.

Fixpoint fuzz_steps cls (flows invariants : list (pyfunc W)) (n : nat) (step : Z) : FM W unit :=
  match n with
  | O => mret tt
  | S n => _ ← fuzz_step cls flows invariants step; fuzz_steps cls flows invariants n (step + 1)
  end.

(** The body of the [try]. *)
Definition sequence_body cls (flows invariants : list (pyfunc W)) (flows_count : Z) : FM W unit :=
  _ ← fuzz_steps cls flows invariants (Z.to_nat flows_count) 0;
  call (post_sequence cls).

(** How a sequence ends: it raised before the [try], or its body ended. *)
Inductive seq_end :=
  | NotStarted (e : exn) (w : W)
  | Ended (r : res unit) (s : seq_state W).

Definition run_sequence cls (flows invariants : list (pyfunc W)) (flows_count seq : Z)
    (stats : gmap string leaf) (w : W) : seq_end :=
  match svm_reset w with
  | (Raise e, w) => NotStarted e w
  | (Ok _, w) =>
      match pre_sequence cls seq 0%Z w with
      | (Raise e, w) => NotStarted e w
      | (Ok _, w) =>
          let '(r, s) := sequence_body cls flows invariants flows_count (mkSeq w seq 0 ∅ ∅ [] "" stats) in
          Ended r s
      end
  end.

Fixpoint run_sequences cls (flows invariants : list (pyfunc W)) (sequences_count flows_count : Z)
    (n : nat) (seq : Z) (stats : gmap string leaf) (w : W) (ses : session) : res unit * W * session :=
  match n with
  | O => (Ok tt, w,
          mkSession (record_run_stats (fc_name cls) sequences_count flows_count stats (_session_stats ses))
            (_last_fuzz_failure ses))
  | S n =>
      match run_sequence cls flows invariants flows_count seq stats w with
      | NotStarted e w => (Raise e, w, ses)
      | Ended (Ok _) s =>
          run_sequences cls flows invariants sequences_count flows_count n (seq + 1)
            (sq_stats s) (sq_world s) ses
      | Ended (Raise e) s =>
          let ses := _set_last_fuzz_failure
                       (mkFuzzFailure (fc_name cls) (_sequence_num s) (_flow_num s) (sq_current s) (sq_trace s)) ses in
          (Raise e, sq_world s,
           mkSession (record_run_stats (fc_name cls) sequences_count flows_count (sq_stats s) (_session_stats ses))
             (_last_fuzz_failure ses))
      end
  end.

Definition initial_stats (flows : list (pyfunc W)) : gmap string leaf :=
  foldl (fun m f => <[__name__ f := zero_leaf]> m) ∅ flows.

Definition _run cls (sequences_count flows_count : Z) (transaction_history : bool) (w : W) (ses : session)
    : res unit * W * session :=
  let ses := clear_last_fuzz_failure ses in
  if negb (fc_is_fuzz_test cls) then (Raise (TypeError "must subclass FuzzTest"), w, ses) else
  match set_transaction_history transaction_history w with
  | (Raise e, w) => (Raise e, w, ses)
  | (Ok _, w) =>
      match fc_new cls w with
      | (Raise e, w) => (Raise e, w, ses)
      | (Ok _, w) =>
          let flows := _methods_with cls fn_flow in
          let invariants := _methods_with cls fn_invariant in
          match flows with
          | [] => (Raise (ValueError "defines no @flow methods"), w, ses)
          | _ => run_sequences cls flows invariants sequences_count flows_count
                   (Z.to_nat sequences_count) 0 (initial_stats flows) w ses
          end
      end
  end.

End Engine.
