(* ===== verification/FuzzingProps.v ===== *)
(** * Correctness of the fuzzing engine

    A small Hoare logic for the engine's monad; the accounting of the
    statistics, the [max_times] caps, the schedule of the invariants, the
    failure context, and the aggregation of statistics across workers. *)

From Stdlib Require Import ZArith Lia.
From stdpp Require Import base decidable option list gmap strings sorting pretty numbers.
From S2P Require Import Prelude.
From S2P Require Import Maps.
From S2P Require Import Fuzzing.

#[local] Open Scope string_scope.

(** ** Triples: on success [Q], on an exception [E] *)

Definition triple {W A} (P : seq_state W -> Prop) (m : FM W A) (Q : A -> seq_state W -> Prop)
    (E : seq_state W -> Prop) : Prop :=
  forall s, P s -> match m s with (Ok a, s') => Q a s' | (Raise _, s') => E s' end.

Lemma triple_ret {W A} (P : seq_state W -> Prop) (a : A) (Q : A -> seq_state W -> Prop) E :
  (forall s, P s -> Q a s) -> triple P (mret a) Q E.
Proof. intros H s Hs. by apply H. Qed.

Lemma triple_bind {W A B} P (m : FM W A) (f : A -> FM W B) R Q E :
  triple P m R E -> (forall a, triple (R a) (f a) Q E) -> triple P (m ≫= f) Q E.
Proof.
  intros Hm Hf s Hs. specialize (Hm s Hs). unfold mbind, FM_bind.
  destruct (m s) as [[a|e] s']; [by apply Hf|done].
Qed.

Lemma triple_conseq {W A} (P P' : seq_state W -> Prop) (m : FM W A) Q Q' (E E' : seq_state W -> Prop) :
  triple P m Q E -> (forall s, P' s -> P s) -> (forall a s, Q a s -> Q' a s) -> (forall s, E s -> E' s) ->
  triple P' m Q' E'.
Proof.
  intros H HP HQ HE s Hs. specialize (H s (HP s Hs)). destruct (m s) as [[a|e] s']; auto.
Qed.

Lemma triple_modify {W} (P : seq_state W -> Prop) (f : seq_state W -> seq_state W) Q E :
  (forall s, P s -> Q tt (f s)) -> triple P (modify f) Q E.
Proof. intros H s Hs. by apply H. Qed.

Lemma triple_raise {W A} (P : seq_state W -> Prop) e (Q : A -> seq_state W -> Prop) (E : seq_state W -> Prop) :
  (forall s, P s -> E s) -> triple P (fraise e) Q E.
Proof. intros H s Hs. by apply H. Qed.

(** A state predicate that user code cannot change: it ignores the world. *)
Definition set_world {W} (w : W) (s : seq_state W) : seq_state W :=
  mkSeq w (_sequence_num s) (_flow_num s) (flows_counter s) (invariant_periods s)
    (sq_trace s) (sq_current s) (sq_stats s).

Definition stable {W} (P : seq_state W -> Prop) : Prop := forall w s, P s -> P (set_world w s).

Lemma triple_call {W A} (P : seq_state W -> Prop) (u : user W A) :
  stable P -> triple P (call u) (fun _ => P) P.
Proof.
  intros HP s Hs. unfold call. destruct (u _ _ _) as [[a|e] w]; by apply HP.
Qed.

(** ** Sums over statistics *)

Definition sum_over {A} (g : A -> Z) (m : gmap string A) : Z := map_fold (fun _ x acc => (g x + acc)%Z) 0%Z m.

Lemma sum_over_insert {A} (g : A -> Z) m k x :
  m !! k = None -> sum_over g (<[k := x]> m) = (g x + sum_over g m)%Z.
Proof.
  intros Hk. unfold sum_over. apply (map_fold_insert_L (fun _ x acc => (g x + acc)%Z)); [|done].
  intros. lia.
Qed.

Lemma sum_over_lookup {A} (g : A -> Z) m k x :
  m !! k = Some x -> sum_over g m = (g x + sum_over g (delete k m))%Z.
Proof.
  intros Hk. rewrite <-(insert_delete_id m k x Hk) at 1. apply sum_over_insert, lookup_delete_eq.
Qed.

Lemma sum_over_alter {A} (g : A -> Z) (h : A -> A) m k x :
  m !! k = Some x -> sum_over g (alter h k m) = (sum_over g m + g (h x) - g x)%Z.
Proof.
  intros Hk. rewrite (sum_over_lookup g m k x Hk), (sum_over_lookup g (alter h k m) k (h x)).
  - rewrite delete_alter_eq. lia.
  - by rewrite lookup_alter_eq, Hk.
Qed.

(** Setting a key adds its value and takes back the one it had, if any. *)
Lemma sum_over_set (m : gmap string Z) k x :
  sum_over id (<[k := x]> m) = (sum_over id m + x - default 0 (m !! k))%Z.
Proof.
  destruct (m !! k) as [y|] eqn:Hk.
  - rewrite (sum_over_lookup id m k y Hk), <-(insert_delete_eq m k x), sum_over_insert; simpl; [lia|].
    apply lookup_delete_eq.
  - rewrite sum_over_insert by done. simpl. lia.
Qed.

Section Engine.
Context {W : Type}.
Context (draw : list Z -> W -> nat * W).
Context (svm_reset : W -> res unit * W).
Context (set_transaction_history : bool -> W -> res unit * W).
Implicit Types (s : seq_state W) (f : pyfunc W) (cls : fuzz_class W) (P : seq_state W -> Prop).

(** *** The parts of a step *)

Lemma set_world_twice w w' s : set_world w' (set_world w s) = set_world w' s.
Proof. done. Qed.

Lemma set_world_same s : set_world (sq_world s) s = s.
Proof. by destruct s. Qed.

Lemma call_world {A} (u : user W A) s : exists r w, call u s = (r, set_world w s).
Proof. unfold call. destruct (u _ _ _) as [r w]. by exists r, w. Qed.

(** Choosing the runnable flows only runs preconditions; every flow it keeps is
    a flow below its cap. *)
Lemma valid_flows_world flows s :
  exists r w, valid_flows flows s = (r, set_world w s) /\
    forall vs, r = Ok vs -> forall f, f ∈ vs -> f ∈ flows /\ under_cap s f = true.
Proof.
  revert s. induction flows as [|f flows IH]; intros s; simpl.
  { exists (Ok []), (sq_world s). rewrite set_world_same. split; [done|]. intros vs [= <-] f Hf. by apply elem_of_nil in Hf. }
  destruct (under_cap s f) eqn:Hc.
  - assert (Hp : exists r w, precondition_holds f s = (r, set_world w s)).
    { unfold precondition_holds. destruct (fn_precondition f); [apply call_world|].
      exists (Ok true), (sq_world s). by rewrite set_world_same. }
    destruct Hp as (r & w & Hp). unfold mbind, FM_bind. rewrite Hp.
    destruct r as [ok|e]; [|by exists (Raise e), w].
    destruct (IH (set_world w s)) as (r & w' & -> & Hv).
    destruct r as [vs|e]; [|by exists (Raise e), w'].
    exists (Ok (if ok then f :: vs else vs)), w'. split; [done|]. intros vs' [= <-] g Hg.
    assert (Hg' : g = f \/ g ∈ vs) by (destruct ok; [by apply elem_of_cons in Hg|by right]).
    destruct Hg' as [->|Hg']; [split; [by left|done]|].
    destruct (Hv vs eq_refl g Hg'). split; [by right|done].
  - destruct (IH s) as (r & w & -> & Hv). exists r, w. split; [done|]. intros vs Hr g Hg.
    destruct (Hv vs Hr g Hg). split; [by right|done].
Qed.

Lemma gated_flows_world flows s : exists r w, gated_flows flows s = (r, set_world w s).
Proof.
  revert s. induction flows as [|f flows IH]; intros s; simpl.
  { exists (Ok []), (sq_world s). by rewrite set_world_same. }
  destruct (fn_precondition f) as [p|]; [|apply IH]. unfold mbind, FM_bind.
  destruct (call_world p s) as (r & w & ->). destruct r as [ok|e]; [|by exists (Raise e), w].
  destruct (IH (set_world w s)) as (r & w' & ->). destruct r as [gs|e]; [|by exists (Raise e), w'].
  eexists _, w'. done.
Qed.

Lemma choices_world vs s :
  exists r w, choices draw vs s = (r, set_world w s) /\ forall f, r = Ok f -> f ∈ vs.
Proof.
  unfold choices. destruct (_ <=? 0)%Z.
  { eexists _, (sq_world s). rewrite set_world_same. split; [done|]. done. }
  destruct (draw _ _) as [i w]. destruct (vs !! i) as [f|] eqn:Hi.
  - exists (Ok f), w. split; [done|]. intros g [= <-]. by eapply list_elem_of_lookup_2.
  - eexists _, w. split; [done|]. done.
Qed.

(** Picking a flow: either nothing but the world changed and the step raises,
    or a flow of the class below its cap is run next. *)
Lemma pick_triple flows (P : seq_state W -> Prop) (Q : unit -> seq_state W -> Prop) E
    (rest : pyfunc W -> FM W unit) :
  stable P -> (forall s, P s -> E s) ->
  (forall f, f ∈ flows -> triple (fun s => P s /\ under_cap s f = true) (rest f) Q E) ->
  triple P (valid ← valid_flows flows;
            match valid with
            | [] => _ ← gated_flows flows; fraise (RuntimeError "no runnable flow this step.")
            | _ => chosen ← choices draw valid; rest chosen
            end) Q E.
Proof.
  intros HP HE Hrest s Hs. unfold mbind, FM_bind at 1.
  destruct (valid_flows_world flows s) as (r & w & -> & Hv).
  destruct r as [vs|e]; [|by apply HE, HP]. specialize (Hv vs eq_refl).
  destruct vs as [|v vs].
  - unfold FM_bind. destruct (gated_flows_world flows (set_world w s)) as (r & w' & ->).
    destruct r; simpl; apply HE, HP, HP, Hs.
  - unfold FM_bind. destruct (choices_world (v :: vs) (set_world w s)) as (r & w' & -> & Hc).
    destruct r as [f|e]; [|apply HE, HP, HP, Hs]. specialize (Hc f eq_refl).
    destruct (Hv f Hc) as [Hf Hcap]. apply (Hrest f Hf). split; [by apply HP, HP|done].
Qed.

(** ** The invariant of a sequence *)

Definition total_picked (m : gmap string leaf) : Z := sum_over picked m.
Definition total_reasons (l : leaf) : Z := sum_over id (reasons l).
Definition runs_of (m : gmap string leaf) (n : string) : Z := default 0 (ran <$> m !! n).
Definition counter_of s f : Z := default 0 (flows_counter s !! fn_id f).

(** The flows are distinct functions with distinct names. *)
Definition distinct_flows (flows : list (pyfunc W)) : Prop :=
  forall f g, f ∈ flows -> g ∈ flows -> (fn_id f = fn_id g \/ __name__ f = __name__ g) -> f = g.

(** A leaf is balanced up to the picks still running: every pick ran or was
    skipped, and every skip has a reason. *)
Definition balanced (open_ : Z) (l : leaf) : Prop :=
  picked l = (ran l + skipped l + open_)%Z /\ skipped l = total_reasons l /\
  (0 <= ran l /\ 0 <= skipped l)%Z.

Definition is_open (pending : option string) (n : string) : Z := if decide (pending = Some n) then 1%Z else 0%Z.

Section Sequence.
Context (seq0 : Z) (flows : list (pyfunc W)) (stats0 : gmap string leaf).
Context (Hdistinct : distinct_flows flows).
Context (Hdom : forall f, f ∈ flows -> is_Some (stats0 !! __name__ f)).
Context (Hbal : forall n l, stats0 !! n = Some l -> balanced 0 l).

(** After [k] finished steps, with the flow [pending] picked and not yet
    accounted for: [j] is [flow_num]. *)
Record seq_inv (j : Z) (k : nat) (pending : option string) (s : seq_state W) : Prop := {
  inv_sequence_num : _sequence_num s = seq0;
  inv_flow_num : _flow_num s = j;
  inv_trace_len : length (sq_trace s) = (k + if pending then 1 else 0)%nat;
  inv_trace : Forall (fun n => n ∈ __name__ <$> flows) (sq_trace s);
  inv_dom : dom (sq_stats s) = dom stats0;
  inv_total : total_picked (sq_stats s) = (total_picked stats0 + Z.of_nat (length (sq_trace s)))%Z;
  inv_balanced : forall n l, sq_stats s !! n = Some l -> balanced (is_open pending n) l;
  inv_counter : forall f, f ∈ flows ->
    runs_of (sq_stats s) (__name__ f) = (runs_of stats0 (__name__ f) + counter_of s f)%Z;
  inv_cap : forall f m, f ∈ flows -> fn_max_times f = Some m -> (counter_of s f <= Z.max 0 m)%Z;
}.

Lemma seq_inv_ext j k p s s' :
  seq_inv j k p s -> _sequence_num s' = _sequence_num s -> _flow_num s' = _flow_num s -> sq_trace s' = sq_trace s -> sq_stats s' = sq_stats s ->
  flows_counter s' = flows_counter s -> seq_inv j k p s'.
Proof.
  intros [] H0 H1 H2 H3 H4. unfold counter_of in *.
  split; unfold counter_of; rewrite ?H0, ?H1, ?H2, ?H3, ?H4; auto.
Qed.

Lemma seq_inv_stable j k p : stable (seq_inv j k p).
Proof. intros w s H. by eapply seq_inv_ext. Qed.

Lemma seq_inv_start w : seq_inv 0 0 None (mkSeq w seq0 0 ∅ ∅ [] "" stats0).
Proof using Hbal.
  split; unfold counter_of; cbn.
  - done.
  - done.
  - done.
  - constructor.
  - done.
  - lia.
  - intros n l Hl. by apply Hbal in Hl.
  - intros f Hf. rewrite lookup_empty. simpl. lia.
  - intros f m _ _. rewrite lookup_empty. simpl. lia.
Qed.

(** The three updates of a step. *)
Lemma dom_alter_eq {A} (h : A -> A) n (m : gmap string A) : dom (alter h n m) = dom m.
Proof. apply dom_alter_L. Qed.

Lemma seq_inv_leaf j k p s f :
  seq_inv j k p s -> f ∈ flows -> exists l, sq_stats s !! __name__ f = Some l.
Proof using Hdom.
  intros H Hf. destruct (Hdom f Hf) as [l0 Hl0]. apply elem_of_dom_2 in Hl0.
  rewrite <-(inv_dom _ _ _ _ H) in Hl0. by apply elem_of_dom in Hl0.
Qed.

Lemma runs_of_alter (h : leaf -> leaf) (m : gmap string leaf) n n' :
  (forall l, ran (h l) = ran l) -> runs_of (alter h n m) n' = runs_of m n'.
Proof.
  intros Hh. unfold runs_of. destruct (decide (n' = n)) as [->|Hn].
  - rewrite lookup_alter_eq. destruct (m !! n); simpl; [by rewrite Hh|done].
  - by rewrite lookup_alter_ne by done.
Qed.

Lemma balanced_alter (h : leaf -> leaf) (m : gmap string leaf) n p p' :
  (forall n l, m !! n = Some l -> balanced (is_open p n) l) ->
  (forall l, balanced (is_open p n) l -> balanced (is_open p' n) (h l)) ->
  (forall n', n' <> n -> is_open p' n' = is_open p n') ->
  forall n' l, alter h n m !! n' = Some l -> balanced (is_open p' n') l.
Proof.
  intros Hm Hh Hp n' l. destruct (decide (n' = n)) as [->|Hn].
  - rewrite lookup_alter_eq. destruct (m !! n) as [l'|] eqn:E; simpl; [|done]. intros [= <-]. by apply Hh, Hm.
  - rewrite lookup_alter_ne by done. intros Hl. rewrite Hp by done. by apply Hm.
Qed.

Lemma is_open_other p n n' : p = Some n -> n' <> n -> is_open p n' = 0%Z.
Proof. intros -> Hn. unfold is_open. rewrite decide_False; [done|congruence]. Qed.
Lemma is_open_self n : is_open (Some n) n = 1%Z.
Proof. unfold is_open. by rewrite decide_True. Qed.

Lemma seq_inv_pick j k s f c :
  f ∈ flows -> seq_inv j k None s ->
  seq_inv j k (Some (__name__ f))
    (update_stats (__name__ f) pick_leaf (append_trace (__name__ f) (set_current c s))).
Proof using Hdom.
  intros Hf H. destruct (seq_inv_leaf _ _ _ _ _ H Hf) as [l Hl]. pose proof H as [].
  split; unfold counter_of in *; simpl.
  - done.
  - done.
  - rewrite length_app. simpl. lia.
  - apply Forall_app. split; [done|]. constructor; [|constructor]. by apply list_elem_of_fmap_2.
  - by rewrite dom_alter_eq.
  - unfold total_picked in *. rewrite (sum_over_alter _ _ _ _ _ Hl), length_app. simpl. lia.
  - apply (balanced_alter _ _ _ None); [done| |].
    + intros l'. rewrite is_open_self. unfold balanced, total_reasons. simpl. change (is_open None _) with 0%Z. lia.
    + intros n' Hn. by rewrite (is_open_other _ (__name__ f)).
  - intros g Hg. rewrite runs_of_alter by done. auto.
  - done.
Qed.

Lemma total_alter_same (h : leaf -> leaf) m n :
  (forall l, picked (h l) = picked l) -> total_picked (alter h n m) = total_picked m.
Proof.
  intros Hh. destruct (m !! n) as [l|] eqn:E.
  - unfold total_picked. rewrite (sum_over_alter _ _ _ _ _ E), Hh. lia.
  - by rewrite alter_id by naive_solver.
Qed.

Lemma seq_inv_skip j k s n r :
  seq_inv j k (Some n) s -> seq_inv j (S k) None (update_stats n (skip_leaf r) s).
Proof.
  intros []. split; unfold counter_of in *; simpl.
  - done.
  - done.
  - lia.
  - done.
  - by rewrite dom_alter_eq.
  - by rewrite total_alter_same.
  - apply (balanced_alter _ _ _ (Some n)); [done| |].
    + intros l. rewrite is_open_self. unfold balanced, total_reasons, skip_leaf, bump. simpl.
      change (is_open None n) with 0%Z. rewrite sum_over_set. lia.
    + intros n' Hn. by rewrite (is_open_other (Some n) n).
  - intros g Hg. rewrite runs_of_alter by done. auto.
  - done.
Qed.

Lemma seq_inv_ran j k s f :
  f ∈ flows -> under_cap s f = true -> seq_inv j k (Some (__name__ f)) s ->
  seq_inv j (S k) None (update_stats (__name__ f) run_leaf (count_flow f s)).
Proof using Hdistinct Hdom.
  intros Hf Hcap H. destruct (seq_inv_leaf _ _ _ _ _ H Hf) as [l Hl]. pose proof H as [].
  split; unfold counter_of in *; simpl.
  - done.
  - done.
  - lia.
  - done.
  - by rewrite dom_alter_eq.
  - by rewrite total_alter_same.
  - apply (balanced_alter _ _ _ (Some (__name__ f))); [done| |].
    + intros l'. rewrite is_open_self. unfold balanced, total_reasons. simpl. change (is_open None _) with 0%Z. lia.
    + intros n' Hn. by rewrite (is_open_other (Some (__name__ f)) (__name__ f)).
  - intros g Hg. unfold runs_of. destruct (decide (fn_id g = fn_id f)) as [E|Hn];
      [assert (g = f) as -> by (apply Hdistinct; auto); clear E|].
    + rewrite lookup_alter_eq, Hl, lookup_insert_eq. simpl. specialize (inv_counter0 f Hf).
      unfold runs_of in inv_counter0. rewrite Hl in inv_counter0. simpl in inv_counter0. lia.
    + rewrite lookup_alter_ne, lookup_insert_ne by (intros E; apply Hn; f_equal; by apply Hdistinct; auto).
      by apply inv_counter0.
  - intros g m Hg Hm. destruct (decide (fn_id g = fn_id f)) as [E|Hn];
      [assert (g = f) as -> by (apply Hdistinct; auto); clear E|].
    + rewrite lookup_insert_eq. simpl. unfold under_cap in Hcap. rewrite Hm in Hcap. zify_bools. lia.
    + rewrite lookup_insert_ne by congruence. by apply inv_cap0.
Qed.

(** *** The invariant through the code of a sequence *)

Lemma triple_call_inv {A} j k p (u : user W A) (E : seq_state W -> Prop) :
  (forall s, seq_inv j k p s -> E s) ->
  triple (seq_inv j k p) (call u) (fun _ => seq_inv j k p) E.
Proof.
  intros HE. eapply triple_conseq; [apply (triple_call (seq_inv j k p)), seq_inv_stable| | |]; auto.
Qed.

(** What holds when step [j] raises: the trace ends with the flow of this step,
    or this step did not pick one yet. *)
Definition failed_at (j : Z) (s : seq_state W) : Prop :=
  exists k p, seq_inv j k p s /\ (Z.of_nat k <= j + 1 /\ j <= Z.of_nat k /\ (p <> None -> Z.of_nat k = j))%Z.

Lemma run_flow_inv cls k f :
  f ∈ flows ->
  triple (fun s => seq_inv (Z.of_nat k) k None s /\ under_cap s f = true) (run_flow cls f)
    (fun _ => seq_inv (Z.of_nat k) (S k) None) (failed_at (Z.of_nat k)).
Proof using Hdistinct Hdom.
  intros Hf. set (P := fun s => seq_inv (Z.of_nat k) k (Some (__name__ f)) s /\ under_cap s f = true).
  assert (HP : stable P) by (intros w s [H1 H2]; split; [by apply seq_inv_stable|done]).
  assert (HE : forall s, P s -> failed_at (Z.of_nat k) s).
  { intros s [H _]. exists k, (Some (__name__ f)). split; [done|lia]. }
  assert (Hcall : forall A (u : user W A), triple P (call u) (fun _ => P) (failed_at (Z.of_nat k))).
  { intros A u. eapply triple_conseq; [by apply (triple_call P)| | |]; auto. }
  intros s [Hs Hc]. unfold run_flow.
  set (rest := (_ ← call (pre_flow cls f); _)).
  change (match rest (update_stats (__name__ f) pick_leaf
            (append_trace (__name__ f) (set_current ("flow " +:+ __name__ f) s)))
          with (Ok _, s') => seq_inv (Z.of_nat k) (S k) None s' | (Raise _, s') => failed_at (Z.of_nat k) s' end).
  assert (Hr : triple P rest (fun _ => seq_inv (Z.of_nat k) (S k) None) (failed_at (Z.of_nat k))).
  { unfold rest. do 3 (eapply triple_bind; [apply Hcall|intros ?]).
    destruct a0 as [r|].
    - apply triple_modify. intros s' [H _]. by apply seq_inv_skip.
    - intros s' [H Hc']. apply (seq_inv_ran _ k _ f); done. }
  apply Hr. split; [by apply seq_inv_pick|done].
Qed.

Lemma invariant_loop_inv cls k invs :
  triple (seq_inv (Z.of_nat k) (S k) None) (invariant_loop cls invs)
    (fun _ => seq_inv (Z.of_nat k) (S k) None) (failed_at (Z.of_nat k)).
Proof.
  assert (HE : forall s, seq_inv (Z.of_nat k) (S k) None s -> failed_at (Z.of_nat k) s).
  { intros s H. exists (S k), None. split; [done|split_and!; [lia|lia|done]]. }
  induction invs as [|inv invs IH]; simpl; [by apply triple_ret|].
  eapply triple_bind; [|intros ?; exact IH]. intros s Hs. unfold invariant_turn.
  assert (Ha : triple (seq_inv (Z.of_nat k) (S k) None) (advance_period inv)
                 (fun _ => seq_inv (Z.of_nat k) (S k) None) (failed_at (Z.of_nat k))).
  { apply triple_modify. intros s' H. by eapply seq_inv_ext. }
  destruct (_ =? 0)%Z; [|by apply Ha].
  revert s Hs. change (triple (seq_inv (Z.of_nat k) (S k) None) (_ ← check_invariant cls inv; advance_period inv)
                 (fun _ => seq_inv (Z.of_nat k) (S k) None) (failed_at (Z.of_nat k))).
  eapply triple_bind; [|intros ?; exact Ha]. unfold check_invariant.
  eapply (triple_bind _ _ _ (fun _ => seq_inv (Z.of_nat k) (S k) None));
    [apply triple_modify; intros s' H; by eapply seq_inv_ext|intros ?].
  do 2 (eapply triple_bind; [apply triple_call_inv, HE|intros ?]). apply triple_call_inv, HE.
Qed.

Lemma fuzz_step_inv cls invs j k :
  triple (seq_inv j k None) (fuzz_step draw cls flows invs (Z.of_nat k))
    (fun _ => seq_inv (Z.of_nat k) (S k) None) (failed_at (Z.of_nat k)).
Proof using Hdistinct Hdom.
  assert (HE : forall s, seq_inv (Z.of_nat k) (S k) None s -> failed_at (Z.of_nat k) s).
  { intros s H. exists (S k), None. split; [done|split_and!; [lia|lia|done]]. }
  unfold fuzz_step. eapply triple_bind.
  { apply (triple_modify _ _ (fun _ => seq_inv (Z.of_nat k) k None)). intros s []. by split. }
  intros ?. apply pick_triple; [apply seq_inv_stable| |].
  { intros s H. exists k, None. split; [done|split_and!; [lia|lia|done]]. }
  intros f Hf. eapply triple_bind; [by apply run_flow_inv|intros ?].
  eapply triple_bind; [apply triple_call_inv, HE|intros ?].
  eapply triple_bind; [apply invariant_loop_inv|intros ?]. apply triple_call_inv, HE.
Qed.

(** [flow_num] after [k] steps. *)
Definition last_step (k : nat) : Z := Z.max 0 (Z.of_nat k - 1).

Lemma fuzz_steps_inv cls invs n k :
  triple (seq_inv (last_step k) k None) (fuzz_steps draw cls flows invs n (Z.of_nat k))
    (fun _ => seq_inv (last_step (k + n)) (k + n) None)
    (fun s => exists j, (0 <= j < Z.of_nat (k + n))%Z /\ failed_at j s).
Proof using Hdistinct Hdom.
  revert k. induction n as [|n IH]; intros k; simpl.
  - rewrite Nat.add_0_r. by apply triple_ret.
  - eapply triple_bind.
    + eapply triple_conseq; [apply (fuzz_step_inv cls invs (last_step k) k)|done| |].
      * intros a s H. exact H.
      * intros s H. exists (Z.of_nat k). split; [lia|done].
    + intros ?. replace (Z.of_nat k + 1)%Z with (Z.of_nat (S k)) by lia.
      replace (k + S n)%nat with (S k + n)%nat by lia.
      eapply triple_conseq; [apply IH| |done|done].
      intros s H. unfold last_step. replace (Z.max 0 (Z.of_nat (S k) - 1)) with (Z.of_nat k) by lia. done.
Qed.

Lemma sequence_body_inv cls invs flows_count :
  (0 <= flows_count)%Z ->
  triple (seq_inv 0 0 None) (sequence_body draw cls flows invs flows_count)
    (fun _ => seq_inv (last_step (Z.to_nat flows_count)) (Z.to_nat flows_count) None)
    (fun s => exists j, (0 <= j <= Z.max 0 (flows_count - 1))%Z /\ failed_at j s).
Proof using Hdistinct Hdom.
  intros Hn. unfold sequence_body.
  eapply triple_bind.
  - eapply triple_conseq; [apply (fuzz_steps_inv cls invs (Z.to_nat flows_count) 0)|done| |].
    + intros a s H. exact H.
    + intros s (j & Hj & Hf). exists j. split; [lia|done].
  - intros ?. eapply triple_call_inv. intros s H. exists (last_step (Z.to_nat flows_count)).
    unfold last_step. split; [lia|]. exists (Z.to_nat flows_count), None. split; [done|]. split_and!; [lia|lia|done].
Qed.
End Sequence.

(** ** Whole runs *)

(** What a run leaves behind.  A completed run: no failure, and statistics in
    which every pick ran or was skipped with a reason, with one pick per step
    of every sequence.  A run that raised inside a sequence: the failure context
    of the step that raised and the partial statistics.  A run that raised
    elsewhere: nothing. *)
Definition run_outcome (cls : fuzz_class W) (flows : list (pyfunc W)) (sequences_count flows_count : Z)
    (before : stats_registry) (r : res unit) (after : session) : Prop :=
  match r, _last_fuzz_failure after with
  | Ok _, Some _ => False
  | Ok _, None => exists stats,
      _session_stats after = record_run_stats (fc_name cls) sequences_count flows_count stats before /\
      dom stats = list_to_set (__name__ <$> flows) /\
      total_picked stats = (sequences_count * flows_count)%Z /\
      forall n l, stats !! n = Some l -> balanced 0 l
  | Raise _, None => _session_stats after = before
  | Raise _, Some c => exists stats,
      _session_stats after = record_run_stats (fc_name cls) sequences_count flows_count stats before /\
      dom stats = list_to_set (__name__ <$> flows) /\
      total_picked stats = (ff_sequence c * flows_count + Z.of_nat (length (ff_trace c)))%Z /\
      (forall n l, stats !! n = Some l -> balanced 0 l \/ balanced 1 l) /\
      ff_class c = fc_name cls /\
      (0 <= ff_sequence c < sequences_count /\ 0 <= ff_flow c <= Z.max 0 (flows_count - 1))%Z /\
      (ff_flow c <= Z.of_nat (length (ff_trace c)) <= ff_flow c + 1)%Z /\
      Forall (fun n => n ∈ __name__ <$> flows) (ff_trace c)
  end.

(** The statistics between two sequences. *)
Definition between (flows : list (pyfunc W)) (picks : Z) (stats : gmap string leaf) : Prop :=
  dom stats = list_to_set (__name__ <$> flows) /\ total_picked stats = picks /\
  forall n l, stats !! n = Some l -> balanced 0 l.

Lemma between_dom flows picks stats f : between flows picks stats -> f ∈ flows -> is_Some (stats !! __name__ f).
Proof.
  intros (Hd & _ & _) Hf. apply elem_of_dom. rewrite Hd. apply elem_of_list_to_set.
  by apply list_elem_of_fmap_2.
Qed.

Lemma is_open_cases p n l : balanced (is_open p n) l -> balanced 0 l \/ balanced 1 l.
Proof. unfold is_open. case_decide; auto. Qed.

Lemma run_sequence_ends cls flows invs flows_count seq stats w picks :
  distinct_flows flows -> (0 <= flows_count)%Z -> between flows picks stats ->
  match run_sequence draw svm_reset cls flows invs flows_count seq stats w with
  | NotStarted _ _ => True
  | Ended (Ok _) s => seq_inv seq flows stats (last_step (Z.to_nat flows_count)) (Z.to_nat flows_count) None s
  | Ended (Raise _) s => exists j, (0 <= j <= Z.max 0 (flows_count - 1))%Z /\ failed_at seq flows stats j s
  end.
Proof.
  intros Hd Hn Hb. unfold run_sequence.
  destruct (svm_reset w) as [[?|e] w1]; [|done].
  destruct (pre_sequence cls seq 0%Z w1) as [[?|e] w2]; [|done].
  pose proof (sequence_body_inv seq flows stats Hd (fun f => between_dom flows picks stats f Hb)
                cls invs flows_count Hn (mkSeq w2 seq 0 ∅ ∅ [] "" stats)
                (seq_inv_start seq flows stats (proj2 (proj2 Hb)) w2)) as H.
  by destruct (sequence_body _ _ _ _ _ _) as [[[]|e] s].
Qed.

Lemma run_sequences_outcome cls flows invs sc fc n seq stats w ses r w' ses' :
  distinct_flows flows -> (0 <= fc)%Z -> (0 <= seq)%Z -> (seq + Z.of_nat n = sc)%Z ->
  between flows (seq * fc) stats -> _last_fuzz_failure ses = None ->
  run_sequences draw svm_reset cls flows invs sc fc n seq stats w ses = (r, w', ses') ->
  run_outcome cls flows sc fc (_session_stats ses) r ses'.
Proof.
  intros Hd Hfc. revert seq stats w ses. induction n as [|n IH]; intros seq stats w ses Hs Hsc Hb Hl; simpl.
  { intros [= <- <- <-]. unfold run_outcome. simpl. rewrite Hl. exists stats.
    destruct Hb as (Hb1 & Hb2 & Hb3). split_and!; auto. rewrite Hb2. f_equal. lia. }
  pose proof (run_sequence_ends cls flows invs fc seq stats w _ Hd Hfc Hb) as He.
  destruct Hb as (Hb1 & Hb2 & Hb3).
  destruct (run_sequence _ _ _ _ _ _ _ _ _) as [e w1|[[]|e] s].
  - intros [= <- <- <-]. unfold run_outcome. by rewrite Hl.
  - apply IH; [lia|lia| |done]. destruct He. split_and!; [by rewrite inv_dom0| |done].
    rewrite inv_total0, inv_trace_len0, Hb2. lia.
  - intros [= <- <- <-]. unfold run_outcome. simpl.
    destruct He as (j & Hj & k & p & [] & Hk).
    assert (Hlen : (_flow_num s <= Z.of_nat (length (sq_trace s)) <= _flow_num s + 1)%Z).
    { rewrite inv_flow_num0, inv_trace_len0. destruct p; [|lia]. specialize (proj2 (proj2 Hk) ltac:(done)). lia. }
    exists (sq_stats s). split; [done|]. split; [by rewrite inv_dom0|].
    split; [rewrite inv_total0, Hb2, inv_sequence_num0; lia|].
    split; [intros m l Hm; eapply is_open_cases; by apply inv_balanced0|].
    split; [done|]. split; [lia|]. done.
Qed.

Lemma initial_stats_between flows : between flows 0 (initial_stats flows).
Proof.
  unfold initial_stats.
  assert (H : forall fs (m : gmap string leaf), (forall n l, m !! n = Some l -> l = zero_leaf) ->
    (forall n l, foldl (fun m f => <[__name__ f := zero_leaf]> m) m fs !! n = Some l -> l = zero_leaf) /\
    dom (foldl (fun (m : gmap string leaf) f => <[__name__ f := zero_leaf]> m) m fs) =
      dom m ∪ list_to_set (__name__ <$> fs)).
  { induction fs as [|f fs IH]; intros m Hm; simpl; [split; [done|set_solver]|].
    destruct (IH (<[__name__ f := zero_leaf]> m)) as [H1 H2].
    { intros n l. destruct (decide (n = __name__ f)) as [->|Hn].
      - rewrite lookup_insert_eq. congruence.
      - rewrite lookup_insert_ne by done. apply Hm. }
    split; [done|]. rewrite H2, dom_insert_L. set_solver. }
  destruct (H flows ∅) as [H1 H2]; [done|]. split_and!.
  - rewrite H2. set_solver.
  - unfold total_picked, sum_over.
    assert (Hz : forall m : gmap string leaf, (forall n l, m !! n = Some l -> l = zero_leaf) -> sum_over picked m = 0%Z).
    { intros m. induction m as [|k l m Hk IH] using map_ind; intros Hm; [done|].
      rewrite sum_over_insert, IH by (try done; intros n l' Hl'; apply (Hm n); rewrite lookup_insert_ne; congruence).
      by rewrite (Hm k l) by apply lookup_insert_eq. }
    by apply Hz.
  - intros n l ->%H1. done.
Qed.
End Engine.

(** ** Accounting of a run *)


(** A counter incremented by one flow, checked by one invariant. *)
Definition demo_flow : pyfunc Z :=
  flow 100 (Some 2) None (mkFn 0 "increment" false 0 None None false 0
    (fun _ _ w => (Ok None, (w + 1)%Z))).
Definition demo_skip : pyfunc Z :=
  flow 100 None None (mkFn 1 "idle" false 0 None None false 0 (fun _ _ w => (Ok (Some "nothing to do"), w))).
Definition demo_inv : pyfunc Z :=
  invariant 2 (mkFn 2 "below" false 0 None None false 0
    (fun _ _ w => (if (w <? 10)%Z then Ok None else Raise (AssertionError "below"), w))).
Definition nop : user Z unit := fun _ _ w => (Ok tt, w).
Definition demo_class : fuzz_class Z :=
  mkFuzzClass Z "Demo" true
    {["increment" := Some demo_flow; "idle" := Some demo_skip; "below" := Some demo_inv; "x" := None]}
    (fun w => (Ok tt, w)) nop nop (fun _ => nop) (fun _ => nop) nop nop (fun _ => nop) (fun _ => nop).

(** The draw takes the last runnable flow. *)
Definition demo_draw (ws : list Z) (w : Z) : nat * Z := ((length ws - 1)%nat, w).
Definition demo_run (w : Z) :=
  _run demo_draw (fun _ => (Ok tt, w)) (fun _ w => (Ok tt, w)) demo_class 3 5 false 0%Z (mkSession ∅ None).

Lemma demo_flows : _methods_with demo_class fn_flow = [demo_skip; demo_flow].
Proof. vm_compute. reflexivity. Qed.

Lemma demo_distinct : distinct_flows (_methods_with demo_class fn_flow).
Proof.
  rewrite demo_flows. intros f g Hf Hg.
  apply elem_of_cons in Hf as [->|[->|Hf]%elem_of_cons]; [| |by apply elem_of_nil in Hf];
  apply elem_of_cons in Hg as [->|[->|Hg]%elem_of_cons]; try (by apply elem_of_nil in Hg); try done;
  intros [H|H]; discriminate H.
Qed.


(** ** [max_times] *)

(** In every sequence, completed or not, a flow runs at most [max_times]
    times (skips not counted), and the engine's counter is exactly the number of
    runs it added to the statistics. *)
Theorem max_times_respected {W} draw svm_reset (cls : fuzz_class W) flows invs fc seq stats picks w r s :
  distinct_flows flows -> (0 <= fc)%Z -> between flows picks stats ->
  run_sequence draw svm_reset cls flows invs fc seq stats w = Ended r s ->
  forall f, f ∈ flows ->
    (runs_of (sq_stats s) (__name__ f) - runs_of stats (__name__ f) = counter_of s f)%Z /\
    forall m, fn_max_times f = Some m -> (counter_of s f <= Z.max 0 m)%Z.
Proof.
  intros Hd Hfc Hb Hr. pose proof (run_sequence_ends draw svm_reset cls flows invs fc seq stats w picks Hd Hfc Hb) as H.
  rewrite Hr in H.
  assert (Hi : exists j k p, seq_inv seq flows stats j k p s).
  { destruct r as [[]|e]; [by eexists _, _, _|]. destruct H as (j & _ & k & p & H & _). by exists j, k, p. }
  destruct Hi as (j & k & p & []). intros f Hf. split; [|by auto].
  rewrite inv_counter0 by done. lia.
Qed.

Lemma demo_distinct' : distinct_flows [demo_flow; demo_skip].
Proof. pose proof demo_distinct as H. rewrite demo_flows in H. intros f g Hf Hg. apply H; set_solver. Qed.

Definition demo_sequence : seq_end :=
  run_sequence demo_draw (fun w => (Ok tt, w)) demo_class [demo_flow; demo_skip] [demo_inv] 5 0
    (initial_stats [demo_flow; demo_skip]) 0%Z.
Definition demo_end : seq_state Z :=
  match demo_sequence with Ended _ s => s | NotStarted _ w => mkSeq w 0 0 ∅ ∅ [] "" ∅ end.

Lemma max_times_respected_witness : (counter_of demo_end demo_flow <= 2)%Z.
Proof.
  apply (proj2 (max_times_respected demo_draw (fun w => (Ok tt, w)) demo_class [demo_flow; demo_skip] [demo_inv]
           5 0 (initial_stats [demo_flow; demo_skip]) 0 0%Z (Ok tt) demo_end demo_distinct' ltac:(lia)
           (initial_stats_between _) ltac:(vm_compute; reflexivity) demo_flow ltac:(left)) 2 eq_refl).
Defined.

(** ** The schedule of the invariants *)

Section Schedule.
Context {W : Type}.
Context (draw : list Z -> W -> nat * W).
Implicit Types (s : seq_state W) (cls : fuzz_class W) (p : gmap nat Z).

Definition set_periods p s : seq_state W :=
  mkSeq (sq_world s) (_sequence_num s) (_flow_num s) (flows_counter s) p (sq_trace s) (sq_current s) (sq_stats s).

(** The reference: at step [k], the invariants whose period divides [k], in
    order; no counters. *)
Definition due (k : Z) (inv : pyfunc W) : bool := (k mod Z.max 1 (fn_period inv) =? 0)%Z.

Fixpoint scheduled_loop cls (k : Z) (invs : list (pyfunc W)) : FM W unit :=
  match invs with
  | [] => mret tt
  | inv :: rest => _ ← (if due k inv then check_invariant cls inv else mret tt); scheduled_loop cls k rest
  end.

Definition scheduled_step cls (flows invs : list (pyfunc W)) (step : Z) : FM W unit :=
  _ ← modify (set_flow_num step);
  valid ← valid_flows flows;
  match valid with
  | [] => _ ← gated_flows flows; fraise (RuntimeError "no runnable flow this step.")
  | _ =>
      chosen ← choices draw valid;
      _ ← run_flow cls chosen;
      _ ← call (pre_invariants cls);
      _ ← scheduled_loop cls step invs;
      call (post_invariants cls)
  end.

Fixpoint scheduled_steps cls (flows invs : list (pyfunc W)) (n : nat) (step : Z) : FM W unit :=
  match n with
  | O => mret tt
  | S n => _ ← scheduled_step cls flows invs step; scheduled_steps cls flows invs n (step + 1)
  end.

(** Code that neither reads nor writes the period counters. *)
Definition blind {A} (m : FM W A) : Prop :=
  forall p s, m (set_periods p s) = ((m s).1, set_periods p (m s).2).

Lemma blind_ret {A} (a : A) : blind (mret a).
Proof. done. Qed.

Lemma blind_bind {A B} (m : FM W A) (f : A -> FM W B) : blind m -> (forall a, blind (f a)) -> blind (m ≫= f).
Proof.
  intros Hm Hf p s. unfold mbind, FM_bind. rewrite Hm. destruct (m s) as [[a|e] s']; simpl; [apply Hf|done].
Qed.

Lemma blind_call {A} (u : user W A) : blind (call u).
Proof. intros p s. unfold call. simpl. by destruct (u _ _ _). Qed.

Lemma blind_modify f : (forall p s, f (set_periods p s) = set_periods p (f s)) -> blind (modify f).
Proof. intros H p s. unfold modify. by rewrite H. Qed.

Lemma blind_raise {A} e : blind (@fraise W A e).
Proof. done. Qed.

Lemma blind_valid_flows flows : blind (valid_flows flows).
Proof.
  induction flows as [|f flows IH]; [apply blind_ret|]. intros p s. simpl.
  change (under_cap (set_periods p s) f) with (under_cap s f). destruct (under_cap s f); [|apply IH].
  revert p s. change (blind (ok ← precondition_holds f; vs ← valid_flows flows;
                             mret (if ok : bool then f :: vs else vs))).
  apply blind_bind.
  - unfold precondition_holds. destruct (fn_precondition f); [apply blind_call|apply blind_ret].
  - intros ok. apply blind_bind; [done|]. intros vs. apply blind_ret.
Qed.

Lemma blind_gated_flows flows : blind (gated_flows flows).
Proof.
  induction flows as [|f flows IH]; simpl; [apply blind_ret|].
  destruct (fn_precondition f); [|done]. apply blind_bind; [apply blind_call|]. intros ok.
  apply blind_bind; [done|]. intros gs. apply blind_ret.
Qed.

Lemma blind_choices vs : blind (choices draw vs).
Proof.
  intros p s. unfold choices. simpl. destruct (_ <=? 0)%Z; [done|]. destruct (draw _ _) as [i w].
  by destruct (vs !! i).
Qed.

Lemma blind_run_flow cls f : blind (run_flow cls f).
Proof.
  unfold run_flow. repeat (apply blind_bind; [first [by apply blind_modify|apply blind_call]|intros ?]).
  destruct a3 as [r|]; [by apply blind_modify|]. apply blind_bind; [by apply blind_modify|intros ?].
  by apply blind_modify.
Qed.

Lemma blind_check_invariant cls inv : blind (check_invariant cls inv).
Proof.
  unfold check_invariant. repeat (apply blind_bind; [first [by apply blind_modify|apply blind_call]|intros ?]).
  apply blind_call.
Qed.

(** The counters at step [k]. *)
Definition on_schedule (k : Z) (invs : list (pyfunc W)) p : Prop :=
  forall inv, inv ∈ invs -> default 0%Z (p !! fn_id inv) = (k mod Z.max 1 (fn_period inv))%Z.

Lemma period_advance k q : (0 <= k)%Z ->
  (if (q <=? k mod Z.max 1 q + 1)%Z then 0 else k mod Z.max 1 q + 1)%Z = ((k + 1) mod Z.max 1 q)%Z.
Proof.
  intros Hk. set (n := Z.max 1 q). pose proof (Z.mod_pos_bound k n ltac:(lia)) as Hb.
  pose proof (Z.div_mod k n ltac:(lia)) as Hd. destruct (q <=? _)%Z eqn:E; zify_bools.
  - apply (Z.mod_unique_pos _ _ (k / n + 1)); [lia|]. rewrite Z.mul_add_distr_l. lia.
  - apply (Z.mod_unique_pos _ _ (k / n)); lia.
Qed.

Lemma invariant_turn_scheduled cls k inv p s :
  (0 <= k)%Z -> default 0%Z (p !! fn_id inv) = (k mod Z.max 1 (fn_period inv))%Z ->
  let m := (if due k inv then check_invariant cls inv else mret tt) in
  exists p', invariant_turn cls inv (set_periods p s) = ((m s).1, set_periods p' (m s).2) /\
    ((m s).1 = Ok tt -> p' = <[fn_id inv := ((k + 1) mod Z.max 1 (fn_period inv))%Z]> p).
Proof.
  intros Hk Hp m. unfold invariant_turn.
  assert (Hq : forall s, period_of (set_periods p s) inv = (k mod Z.max 1 (fn_period inv))%Z) by done.
  rewrite Hq. unfold m, due.
  assert (Ha : forall s, advance_period inv (set_periods p s) =
                 (Ok tt, set_periods (<[fn_id inv := ((k + 1) mod Z.max 1 (fn_period inv))%Z]> p) s)).
  { intros s'. unfold advance_period, modify. rewrite Hq, period_advance by done. done. }
  destruct (_ =? 0)%Z.
  - unfold mbind, FM_bind. rewrite blind_check_invariant.
    destruct (check_invariant cls inv s) as [[[]|e] s']; simpl; [|by exists p].
    rewrite Ha. by eexists.
  - rewrite Ha. by eexists.
Qed.

Lemma invariant_loop_scheduled cls k invs p s :
  (0 <= k)%Z -> NoDup (fn_id <$> invs) -> on_schedule k invs p ->
  let m := scheduled_loop cls k invs in
  exists p', invariant_loop cls invs (set_periods p s) = ((m s).1, set_periods p' (m s).2) /\
    ((m s).1 = Ok tt -> on_schedule (k + 1) invs p' /\
       forall i, i ∉ fn_id <$> invs -> p' !! i = p !! i).
Proof.
  intros Hk. revert p s. induction invs as [|inv invs IH]; intros p s Hn Hp; simpl.
  { exists p. split; [done|]. intros _. split; [|done]. intros i Hi. by apply elem_of_nil in Hi. }
  apply list.NoDup_cons in Hn as [Hi Hn].
  destruct (invariant_turn_scheduled cls k inv p s Hk (Hp inv ltac:(left))) as (p1 & Ht & Hp1).
  set (m := (if due k inv then check_invariant cls inv else mret tt)) in *.
  unfold mbind, FM_bind. rewrite Ht. destruct (m s) as [[[]|e] s1]; simpl in *; [|by exists p1].
  specialize (Hp1 eq_refl). subst p1.
  destruct (IH (<[fn_id inv := ((k + 1) mod Z.max 1 (fn_period inv))%Z]> p) s1 Hn) as (p2 & -> & Hp2).
  { intros i Hin. rewrite lookup_insert_ne; [apply Hp; by right|].
    intros E. apply Hi. rewrite E. by apply list_elem_of_fmap_2. }
  exists p2. split; [done|]. intros Hok. destruct (Hp2 Hok) as [H1 H2]. split.
  - intros i [->|Hin]%elem_of_cons; [|by apply H1]. rewrite H2, lookup_insert_eq by done. done.
  - intros i Hi'. rewrite H2, lookup_insert_ne; [done| |]; set_solver.
Qed.

Lemma fuzz_step_scheduled cls flows invs k p s :
  (0 <= k)%Z -> NoDup (fn_id <$> invs) -> on_schedule k invs p ->
  let m := scheduled_step cls flows invs k in
  exists p', fuzz_step draw cls flows invs k (set_periods p s) = ((m s).1, set_periods p' (m s).2) /\
    ((m s).1 = Ok tt -> on_schedule (k + 1) invs p').
Proof.
  intros Hk Hn Hp. unfold fuzz_step, scheduled_step.
  unfold mbind, FM_bind, modify at 1.
  change (set_flow_num k (set_periods p s)) with (set_periods p (set_flow_num k s)).
  rewrite blind_valid_flows. cbn [modify].
  destruct (valid_flows flows (set_flow_num k s)) as [[vs|e] s1]; simpl; [|by exists p].
  destruct vs as [|v vs].
  { rewrite blind_gated_flows. destruct (gated_flows flows s1) as [[gs|e] s2]; simpl; by exists p. }
  rewrite blind_choices. destruct (choices draw (v :: vs) s1) as [[f|e] s2]; simpl; [|by exists p].
  rewrite blind_run_flow. destruct (run_flow cls f s2) as [[[]|e] s3]; simpl; [|by exists p].
  rewrite blind_call. destruct (call (pre_invariants cls) s3) as [[[]|e] s4]; simpl; [|by exists p].
  destruct (invariant_loop_scheduled cls k invs p s4 Hk Hn Hp) as (p1 & -> & H1).
  destruct (scheduled_loop cls k invs s4) as [[[]|e] s5]; simpl in *; [|by exists p1].
  rewrite blind_call. exists p1. split; [done|]. intros _. by apply H1.
Qed.

Lemma fuzz_steps_scheduled cls flows invs n k p s :
  (0 <= k)%Z -> NoDup (fn_id <$> invs) -> on_schedule k invs p ->
  let m := scheduled_steps cls flows invs n k in
  exists p', fuzz_steps draw cls flows invs n k (set_periods p s) = ((m s).1, set_periods p' (m s).2).
Proof.
  revert k p s. induction n as [|n IH]; intros k p s Hk Hn Hp; simpl; [by exists p|].
  destruct (fuzz_step_scheduled cls flows invs k p s Hk Hn Hp) as (p1 & Hs & H1).
  unfold mbind, FM_bind. rewrite Hs.
  destruct (scheduled_step cls flows invs k s) as [[[]|e] s1]; simpl in *; [|by exists p1].
  apply IH; [lia|done|by apply H1].
Qed.
End Schedule.

(** C14: The engine's countdown per invariant implements the documented
    schedule: the steps of a sequence behave, on every input and every outcome,
    as the engine that keeps no counters and at step [k] checks, in order,
    exactly the invariants whose period divides [k] (a period below 1 counting
    as 1); only the counters themselves differ. *)
Theorem invariant_schedule {W} draw (cls : fuzz_class W) flows invs n w seq stats :
  NoDup (fn_id <$> invs) ->
  let s0 := mkSeq w seq 0 ∅ ∅ [] "" stats in
  let spec := scheduled_steps draw cls flows invs n 0 s0 in
  exists periods, fuzz_steps draw cls flows invs n 0 s0 = (spec.1, set_periods periods spec.2).
Proof.
  intros Hn s0 spec. unfold spec. change s0 with (set_periods ∅ s0) at 1.
  apply fuzz_steps_scheduled; [done|done|].
  intros inv _. rewrite lookup_empty. simpl. by rewrite Z.mod_0_l by lia.
Qed.

Lemma invariant_schedule_witness :
  exists periods, fuzz_steps demo_draw demo_class [demo_flow; demo_skip] [demo_inv] 5 0 (mkSeq 0%Z 0 0 ∅ ∅ [] "" ∅) =
    (Ok tt, set_periods periods
       (scheduled_steps demo_draw demo_class [demo_flow; demo_skip] [demo_inv] 5 0 (mkSeq 0%Z 0 0 ∅ ∅ [] "" ∅)).2).
Proof.
  apply (invariant_schedule demo_draw demo_class [demo_flow; demo_skip] [demo_inv] 5 0%Z 0 ∅).
  apply (bool_decide_unpack _). vm_compute. exact I.
Defined.

(** ** Aggregation across workers *)

Lemma merge_reasons_eq a b : merge_reasons a b = merge_into Z.add 0%Z a b.
Proof. done. Qed.
Lemma merge_flow_leaves_eq a b : _merge_flow_leaves a b = merge_into merge_leaf zero_leaf a b.
Proof. done. Qed.
Lemma merge_session_stats_eq a b : merge_session_stats a b = merge_into merge_entry zero_entry a b.
Proof. done. Qed.

Lemma merge_leaf_swap x a b : merge_leaf (merge_leaf x a) b = merge_leaf (merge_leaf x b) a.
Proof.
  unfold merge_leaf. simpl. rewrite !merge_reasons_eq. f_equal; try lia.
  apply merge_into_swap. lia.
Qed.

Lemma merge_entry_swap x a b : merge_entry (merge_entry x a) b = merge_entry (merge_entry x b) a.
Proof.
  unfold merge_entry. simpl. rewrite !merge_flow_leaves_eq. f_equal; try lia.
  apply merge_into_swap, merge_leaf_swap.
Qed.

(** The counts a registry reports for one flow of one class. *)
Definition leaf_at (r : stats_registry) (name fname : string) : leaf :=
  default zero_leaf (en_flows (default zero_entry (r !! name)) !! fname).
Definition reason_count (reason : string) (l : leaf) : Z := default 0%Z (reasons l !! reason).

(** A count of a flow that adds up over leaves adds up over registries. *)
Lemma leaf_at_sum (h : leaf -> Z) name fname dst src :
  (forall a b, h (merge_leaf a b) = (h a + h b)%Z) -> h zero_leaf = 0%Z ->
  h (leaf_at (merge_session_stats dst src) name fname) = (h (leaf_at dst name fname) + h (leaf_at src name fname))%Z.
Proof.
  intros Hh Hz. unfold leaf_at. rewrite merge_session_stats_eq.
  apply (merge_into_sum merge_entry zero_entry (fun e => h (default zero_leaf (en_flows e !! fname)))).
  - intros a b. unfold merge_entry. simpl. rewrite merge_flow_leaves_eq. by apply merge_into_sum.
  - simpl. by rewrite lookup_empty.
Qed.

Definition sum_list (zs : list Z) : Z := foldr Z.add 0%Z zs.

Lemma leaf_at_sum_all (h : leaf -> Z) name fname regs dst :
  (forall a b, h (merge_leaf a b) = (h a + h b)%Z) -> h zero_leaf = 0%Z ->
  h (leaf_at (foldl merge_session_stats dst regs) name fname) =
  (h (leaf_at dst name fname) + sum_list ((fun r => h (leaf_at r name fname)) <$> regs))%Z.
Proof.
  intros Hh Hz. revert dst. induction regs as [|r regs IH]; intros dst; [symmetry; apply Z.add_0_r|].
  cbn [foldl]. rewrite IH, leaf_at_sum by done. symmetry. apply Z.add_assoc.
Qed.

Lemma merge_all_perm regs regs' dst :
  Permutation regs regs' -> foldl merge_session_stats dst regs = foldl merge_session_stats dst regs'.
Proof.
  intros Hp. revert dst. induction Hp as [| | |l1 l2 l3 _ IH1 _ IH2]; intros dst; simpl; [done|done| |by rewrite IH1].
  f_equal. rewrite !merge_session_stats_eq. apply merge_into_swap, merge_entry_swap.
Qed.

(** Aggregating the registries of any number of workers sums every count at
    its leaf: the picks, runs, skips and skip reasons of each flow in the
    aggregate are the sums over the workers, and the order in which the workers
    report makes no difference to the aggregate. *)
Theorem aggregation_sums regs name fname reason :
  let agg := leaf_at (foldl merge_session_stats ∅ regs) name fname in
  let sum h := sum_list ((fun r => h (leaf_at r name fname)) <$> regs) in
  picked agg = sum picked /\ ran agg = sum ran /\ skipped agg = sum skipped /\
  reason_count reason agg = sum (reason_count reason) /\
  Forall (fun regs' => foldl merge_session_stats ∅ regs' = foldl merge_session_stats ∅ regs) (permutations regs).
Proof.
  intros agg sum. unfold agg, sum. rewrite !leaf_at_sum_all by done.
  rewrite (leaf_at_sum_all (reason_count reason)).
  - split_and!; try done. apply list.Forall_forall. intros regs' Hp%permutations_Permutation.
    by apply merge_all_perm.
  - intros a b. unfold reason_count, merge_leaf. simpl. rewrite merge_reasons_eq.
    by apply (merge_into_sum Z.add 0%Z id).
  - done.
Qed.

(** ** The failing step of a run without a runnable flow

    The label of the failing step is the last flow or invariant that was
    started; when a step raises before it picks a flow, that is one of an
    earlier step, which passed. *)
Definition capped_class : fuzz_class Z :=
  mkFuzzClass Z "Capped" true {["increment" := Some demo_flow]} (fun w => (Ok tt, w))
    nop nop (fun _ => nop) (fun _ => nop) nop nop (fun _ => nop) (fun _ => nop).

Lemma stale_failing_label :
  let '(r, _, ses) := _run demo_draw (fun w => (Ok tt, w)) (fun _ w => (Ok tt, w)) capped_class 1 3 false 0%Z
                        (mkSession ∅ None) in
  r = Raise (RuntimeError "no runnable flow this step.") /\
  _last_fuzz_failure ses = Some (mkFuzzFailure "Capped" 0 2 "flow increment" ["increment"; "increment"]).
Proof. vm_compute. done. Qed.
