(* ===== verification/CallTrace.v ===== *)
(** * Rendering a call trace ([call_trace.py])

    A frame is the structured trace node of the runtime.  A [Text] of the rich
    library is the sequence of pieces appended to it with their styles, a
    [Tree] its label and branches: what the module hands to the library, whose
    layout of them is not modelled. *)

From Stdlib Require Import ZArith Lia.
From Stdlib Require Import Strings.Byte Strings.Ascii.
From stdpp Require Import base decidable option list gmap strings pretty numbers.
From S2P Require Import Prelude.
From S2P Require Import Bytes.
From S2P Require Import Values.
From S2P Require Import Labels.
From S2P Require Import Interface.
From S2P Require Import ErrorsBase.
From S2P Require Import Errors.

#[local] Open Scope string_scope.

(** ** Strings *)

(** [b in a] and [a.find(b)]: whether [b] starts somewhere in [a]. *)
Fixpoint contains (b a : string) : bool :=
  String.prefix b a || match a with EmptyString => false | String _ a' => contains b a' end.

Definition ascii_space (c : ascii) : bool :=
  let n := N_of_ascii c in ((9 <=? n) && (n <=? 13) || (28 <=? n) && (n <=? 32))%N.

Fixpoint lstrip_str (s : string) : string :=
  match s with
  | String c s' => if ascii_space c then lstrip_str s' else s
  | EmptyString => EmptyString
  end.

(** [s.strip()]; only its beginning matters to the callers that test prefixes. *)
Definition strip_str (s : string) : string := String.rev (lstrip_str (String.rev (lstrip_str s))).

(** [s.split("\n")]. *)
Fixpoint split_lines (s : string) : list string :=
  match s with
  | EmptyString => [""]
  | String c s' =>
      if decide (c = "010"%char) then "" :: split_lines s'
      else match split_lines s' with l :: ls => String c l :: ls | [] => [String c ""] end
  end.

(** The value of a hexadecimal digit. *)
Definition hex_digit (c : ascii) : option Z :=
  let n := Z.of_N (N_of_ascii c) in
  (if (48 <=? n) && (n <=? 57) then Some (n - 48)
   else if (97 <=? n) && (n <=? 102) then Some (n - 87)
   else if (65 <=? n) && (n <=? 70) then Some (n - 55)
   else None)%Z.

(** The longest run of hexadecimal digits at the start: [int(group, 16)]. *)
Fixpoint hex_run (acc : Z) (s : string) : Z :=
  match s with
  | String c s' => match hex_digit c with Some d => hex_run (acc * 16 + d) s' | None => acc end
  | EmptyString => acc
  end.

Definition hex_group (s : string) : option Z :=
  match s with
  | String c s' => match hex_digit c with Some d => Some (hex_run d s') | None => None end
  | EmptyString => None
  end.

(** [a.removeprefix(b)] when [a] starts with [b]. *)
Fixpoint after_prefix (b a : string) : option string :=
  match b, a with
  | EmptyString, _ => Some a
  | String c b', String d a' => if decide (c = d) then after_prefix b' a' else None
  | _, _ => None
  end.

Definition custom_prefix : string := "custom program error: 0x".

(** [_CUSTOM_ERR_RE.search(raw)]: the leftmost place where the prefix is
    followed by a digit, and the longest run of digits there. *)
Fixpoint custom_err_search (s : string) : option Z :=
  match after_prefix custom_prefix s ≫= hex_group with
  | Some code => Some code
  | None => match s with EmptyString => None | String _ s' => custom_err_search s' end
  end.

(** [format(z, ",")]. *)
Fixpoint commas (k : nat) (rev_digits : list ascii) : list ascii :=
  match rev_digits with
  | [] => []
  | c :: r => match k with
              | O => ","%char :: c :: commas 2 r
              | S k => c :: commas k r
              end
  end.
Definition format_commas (z : Z) : string :=
  (if (z <? 0)%Z then "-" else "") +:+
  String.string_of_list_ascii (reverse (commas 3 (reverse (String.list_ascii_of_string (pretty (Z.abs z)))))).

Definition hex_char (z : Z) : ascii :=
  ascii_of_N (Z.to_N (if (z <? 10)%Z then z + 48 else z + 87)).
(** [bs.hex()]. *)
Definition hex (bs : bytes) : string :=
  String.string_of_list_ascii (flat_map (fun b => [hex_char (Z_of_byte b / 16); hex_char (Z_of_byte b mod 16)]%Z) bs).

(** ** Frames *)

Record frame_account := mkFrameAccount { fa_pubkey : string; fa_is_signer : bool; fa_is_writable : bool }.

(** An emitted event: a decoded instance of an event dataclass, with its fields
    in order, or an [UnknownEvent]. *)
Inductive frame_event :=
  | EvInstance (cls : string) (fields : list (string * pyval))
  | EvUnknown (discriminator data : bytes).

Inductive frame := mkFrame {
  fr_program_id : string;
  fr_data : bytes;
  fr_accounts : list frame_account;
  fr_status : string;
  fr_compute_units : option Z;
  fr_logs : list string;
  fr_events : list frame_event;
  fr_raw_return_value : option bytes;
  fr_error : option string;
  fr_inner : list frame;
}.

Record trace := mkTrace {
  tr_success : bool;
  tr_compute_units_consumed : Z;
  tr_error : option string;
  tr_instructions : list frame;
}.

(** ** Texts and trees *)

Notation Text := (list (string * string)).
Inductive tree := Tree (label : list Text) (branches : list tree).

Definition _PROGRAM : string := "bold magenta".
Definition _INSTRUCTION : string := "bold cyan".
Definition _UNKNOWN : string := "dim red".
Definition _ROLE : string := "cyan".
Definition _REPR : string := "blue".
Definition _NUMBER : string := "green".
Definition _FLAG : string := "yellow".
Definition _PUNCT : string := "dim".
Definition _LOG : string := "white".
Definition _ERROR : string := "bold red".
Definition _CU : string := "cyan".
Definition _RETURN : string := "green".
Definition _EVENT : string := "bright_yellow".

(** [_STATUS.get(status, ("?", _PUNCT))]. *)
Definition _STATUS (status : string) : string * string :=
  if decide (status = "success") then ("✓", "bold green")
  else if decide (status = "failed") then ("✗", "bold red")
  else ("?", _PUNCT).

(** ** The failure logic *)

(** A falsy [str | None] is [None] or empty. *)
Definition truthy (s : option string) : option string :=
  match s with Some s => if decide (s = "") then None else Some s | None => None end.

Definition _is_error_log (s : string) : bool :=
  let t := strip_str s in
  String.prefix "AnchorError" t || String.prefix "panicked at" t || String.prefix "Error:" t ||
  contains "Error Message:" t || contains "Error Code:" t || contains "Error Number:" t.

Definition _custom_error_code (raw : option string) : option Z :=
  match truthy raw with None => None | Some raw => custom_err_search raw end.

Fixpoint _propagates_child_error (node : frame) (code : Z) : bool :=
  existsb (fun child => bool_decide (_custom_error_code (fr_error child) = Some code)
                        || _propagates_child_error child code) (fr_inner node).

Fixpoint _any_failed_frame (n : frame) : bool :=
  bool_decide (fr_status n = "failed") || existsb _any_failed_frame (fr_inner n).
Definition _any_failed (nodes : list frame) : bool := existsb _any_failed_frame nodes.

Section Render.
Context `{Native}.
(** The decode registry, the labels, the error registry, and [repr] and [str]
    of the values and exceptions the module does not format itself. *)
Context (reg : Interface.registry) (lab : labels) (errs : gmap (option string * Z) eclass).
Context (repr : pyval -> string) (str_exn : exn -> string).

Definition _decode_error (node : frame) : option Text :=
  match truthy (fr_error node) with
  | None => None
  | Some raw =>
      match _custom_error_code (Some raw) with
      | Some code =>
          if _propagates_child_error node code then None
          else Some [(failure_str (build errs (Some code) None None None (Some (fr_program_id node))), _ERROR)]
      | None => Some [(raw, _ERROR)]
      end
  end.

Definition _fmt_value (value : pyval) : Text :=
  match value with
  | VPubkey k => [(resolve_label (address_to_str k) lab, _REPR)]
  | VNone => [("None", _PUNCT)]
  | VBool b => [(if b then "True" else "False", _NUMBER)]
  | VInt z | VIntEnum _ z => [(format_commas z, _NUMBER)]
  | VBytes bs => [("0x" +:+ hex bs, _NUMBER)]
  | _ => [(repr value, "")]
  end.

(** [", "]-separated [key=value] pairs. *)
Fixpoint fmt_items (first : bool) (items : list (string * pyval)) : Text :=
  match items with
  | [] => []
  | (key, value) :: rest =>
      ((if first then [] else [(", ", _PUNCT)]) ++ [(key, _PUNCT); ("=", _PUNCT)] ++ _fmt_value value
         ++ fmt_items false rest)%list
  end.

Definition _header (node : frame) (dec : DecodedInstruction) : Text :=
  let program := match truthy (di_program_name dec) with
                 | Some p => p
                 | None => resolve_label (fr_program_id node) lab
                 end in
  ([(program, _PROGRAM); ("::", _PUNCT)] ++
   match truthy (di_name dec) with
   | Some n => [(n, _INSTRUCTION)]
   | None => [("<" +:+ pretty (Z.of_nat (length (fr_data node))) +:+ " bytes>", _UNKNOWN)]
   end ++ [("(", _PUNCT)] ++ fmt_items true (di_args dec) ++ [(")", _PUNCT)])%list.

Definition _account_line (index : nat) (role : option string) (account : frame_account) : Text :=
  let flags := (if fa_is_signer account then "S" else "") +:+ (if fa_is_writable account then "W" else "") in
  ([("  ", ""); (match role with Some r => r | None => "#" +:+ pretty (Z.of_nat index) end, _ROLE);
    (": ", _PUNCT); (resolve_label (fa_pubkey account) lab, _REPR)] ++
   (if decide (flags = "") then [] else [(" [" +:+ flags +:+ "]", _FLAG)]))%list.

Definition _log_line (text : string) : Text := [("  ", ""); ("▸ ", _LOG); (text, _LOG)].

Definition _decode_return (node : frame) : option Text :=
  match fr_raw_return_value node with
  | None | Some [] => None
  | Some raw =>
      match decode_return_value reg (fr_program_id node) (Some (fr_data node)) raw with
      | Ok v => Some (_fmt_value v)
      | Raise _ => Some [("0x" +:+ hex raw, _NUMBER)]
      end
  end.

Definition _event_line (ev : frame_event) : Text :=
  match ev with
  | EvUnknown disc data =>
      [("  ", ""); ("⚡ ", _EVENT);
       ("<unknown event 0x" +:+ hex disc +:+ ": " +:+ pretty (Z.of_nat (length data)) +:+ " bytes>", _PUNCT)]
  | EvInstance cls fields =>
      ([("  ", ""); ("⚡ ", _EVENT); (cls, _EVENT); ("(", _PUNCT)] ++ fmt_items true fields ++ [(")", _PUNCT)])%list
  end.

Definition _undecodable_header (node : frame) (exc : exn) : Text :=
  [(resolve_label (fr_program_id node) lab, _PROGRAM); ("::", _PUNCT);
   ("<undecodable: " +:+ str_exn exc +:+ ">", _UNKNOWN)].

(** The lines of a node's logs that are shown. *)
Definition shown_logs (node : frame) : list string :=
  List.filter (fun sub => negb (bool_decide (fr_status node = "failed") && _is_error_log sub))
    (flat_map split_lines (fr_logs node)).

Definition _node_renderable (node : frame) : list Text :=
  let '(header, names) :=
    match decode_instruction reg lab (fr_program_id node) (fr_data node) (length (fr_accounts node)) with
    | Ok dec => (_header node dec, di_account_names dec)
    | Raise exc => (_undecodable_header node exc, [])
    end in
  let '(glyph, glyph_style) := _STATUS (fr_status node) in
  let header := (header ++ [(" ", ""); (glyph, glyph_style)] ++
                 match fr_compute_units node with
                 | Some cu => [("  [" +:+ format_commas cu +:+ " CU]", _CU)]
                 | None => []
                 end)%list in
  let lines := imap (fun i acc => _account_line i (names !! i ≫= id) acc) (fr_accounts node) in
  let logs := _log_line <$> shown_logs node in
  let events := _event_line <$> fr_events node in
  let arrow style t := ("  ➞ ", style) :: t in
  let tail := (match _decode_return node with Some t => [arrow _RETURN t] | None => [] end ++
               match _decode_error node with Some t => [arrow _ERROR t] | None => [] end)%list in
  (header :: lines ++ logs ++ events ++ tail)%list.

Fixpoint _add_node (node : frame) : tree := Tree (_node_renderable node) (map _add_node (fr_inner node)).

Definition _rich (t : trace) : tree :=
  let status :=
    ([(if tr_success t then "✓ " else "✗ ", if tr_success t then "bold green" else "bold red");
      ("Transaction", "bold"); ("  " +:+ format_commas (tr_compute_units_consumed t) +:+ " CU", _PUNCT)] ++
     match tr_success t, truthy (tr_error t), _any_failed (tr_instructions t) with
     | false, Some e, false => [("  " +:+ e, _ERROR)]
     | _, _, _ => []
     end)%list in
  Tree [status] (map _add_node (tr_instructions t)).

End Render.
