(* ===== verification/CallTraceProps.v ===== *)
(** * Correctness of the rendered failures

    A custom error is shown on the frames that originated it and only there; a
    failed transaction never renders without a visible failure. *)

From Stdlib Require Import ZArith Lia.
From Stdlib Require Import Strings.Byte Strings.Ascii.
From stdpp Require Import base decidable option list gmap strings pretty numbers.
From S2P Require Import Prelude.
From S2P Require Import Bytes.
From S2P Require Import Values.
From S2P Require Import Labels.
From S2P Require Import Interface.
From S2P Require Import ErrorsBase.
From S2P Require Import Errors.
From S2P Require Import CallTrace.

#[local] Open Scope string_scope.

(** ** Frames as trees *)

Lemma frame_tree_ind (P : frame -> Prop) :
  (forall f, Forall P (fr_inner f) -> P f) -> forall f, P f.
Proof.
  intros H. fix IH 1. intros [pid d a st cu lg ev rv er inner]. apply H. simpl.
  induction inner as [|c cs IHc]; constructor; [apply IH|exact IHc].
Qed.

(** The frames below a frame, at any depth. *)
Fixpoint descendants (f : frame) : list frame := flat_map (fun c => c :: descendants c) (fr_inner f).

Definition all_frames (fs : list frame) : list frame := flat_map (fun f => f :: descendants f) fs.

Lemma elem_of_descendants f d : d ∈ descendants f <-> d ∈ all_frames (fr_inner f).
Proof. by destruct f. Qed.

Lemma elem_of_flat_map {A B} (g : A -> list B) l y : y ∈ flat_map g l <-> exists x, x ∈ l /\ y ∈ g x.
Proof. rewrite list_elem_of_In, in_flat_map. by setoid_rewrite list_elem_of_In. Qed.

Lemma elem_of_all_frames fs d : d ∈ all_frames fs <-> exists f, f ∈ fs /\ (d = f \/ d ∈ descendants f).
Proof. unfold all_frames. rewrite elem_of_flat_map. by setoid_rewrite elem_of_cons. Qed.

Lemma descendants_trans f d e : d ∈ descendants f -> e ∈ descendants d -> e ∈ descendants f.
Proof.
  revert d. induction f as [f IH] using frame_tree_ind. intros d Hd He.
  apply elem_of_descendants, elem_of_all_frames in Hd as (c & Hc & Hd).
  apply elem_of_descendants, elem_of_all_frames. exists c. split; [done|]. right.
  destruct Hd as [->|Hd]; [done|]. rewrite list.Forall_forall in IH. by apply (IH c Hc d).
Qed.

(** ** Propagation *)

Definition fails_with (code : Z) (f : frame) : Prop := _custom_error_code (fr_error f) = Some code.

Lemma propagates_spec f code :
  _propagates_child_error f code = true <-> exists d, d ∈ descendants f /\ fails_with code d.
Proof.
  induction f as [f IH] using frame_tree_ind. rewrite list.Forall_forall in IH.
  setoid_rewrite elem_of_descendants. setoid_rewrite elem_of_all_frames.
  assert (E : _propagates_child_error f code =
    existsb (fun c => bool_decide (_custom_error_code (fr_error c) = Some code)
                      || _propagates_child_error c code) (fr_inner f)) by (by destruct f).
  rewrite E, existsb_exists. setoid_rewrite <-list_elem_of_In. setoid_rewrite orb_true_iff.
  setoid_rewrite bool_decide_eq_true. split.
  - intros (c & Hc & [Hf|Hp]); [exists c; split; [exists c; auto|done]|].
    apply IH in Hp as (d & Hd & Hf); [|done]. exists d. split; [exists c; auto|done].
  - intros (d & (c & Hc & Hd) & Hf). exists c. split; [done|]. destruct Hd as [->|Hd]; [by left|].
    right. apply IH; [done|]. by exists d.
Qed.

(** A deepest frame with the code exists in any subtree with it. *)
Lemma originates f code :
  (exists d, (d = f \/ d ∈ descendants f) /\ fails_with code d) ->
  exists o, (o = f \/ o ∈ descendants f) /\ fails_with code o /\ _propagates_child_error o code = false.
Proof.
  induction f as [f IH] using frame_tree_ind. rewrite list.Forall_forall in IH. intros (d & Hd & Hf).
  destruct (_propagates_child_error f code) eqn:Hp.
  - apply propagates_spec in Hp as (e & He & Hef).
    apply elem_of_descendants, elem_of_all_frames in He as (c & Hc & He).
    destruct (IH c Hc (ex_intro _ e (conj He Hef))) as (o & Ho & Hof & Hop). exists o. split; [|done].
    right. apply elem_of_descendants, elem_of_all_frames. by exists c.
  - destruct Hd as [->|Hd]; [by exists f; auto|].
    assert (H : _propagates_child_error f code = true) by (apply propagates_spec; by exists d). congruence.
Qed.

Lemma code_truthy err code : _custom_error_code err = Some code -> exists raw, truthy err = Some raw /\ _custom_error_code (Some raw) = Some code.
Proof.
  unfold _custom_error_code, truthy. destruct err as [raw|]; [|done].
  case_decide as E; [done|]. intros H. exists raw. split; [done|]. by rewrite decide_False.
Qed.

(** ** An error is shown where it originated *)

Section Shown.
Context (errs : gmap (option string * Z) eclass).

(** The frame's [➞] line names the error class of its own program. *)
Definition shows (f : frame) (code : Z) : Prop :=
  _decode_error errs f =
  Some [(failure_str (build errs (Some code) None None None (Some (fr_program_id f))), _ERROR)].

Lemma decode_error_code f code :
  fails_with code f ->
  if _propagates_child_error f code then _decode_error errs f = None else shows f code.
Proof.
  intros Hf. unfold shows, _decode_error.
  destruct (code_truthy _ _ Hf) as (raw & -> & ->). by destruct (_propagates_child_error f code).
Qed.
End Shown.

(** C34: Of the frames that failed with one custom code, exactly those show it
    (decoded under their own program) below which no frame failed with that
    code; the frames that only propagated it show nothing.  So whenever a frame
    failed with a code, that frame or one below it shows it, and no two frames
    of one call chain show the same code. *)
Theorem error_shown_at_origin errs f code :
  fails_with code f ->
  (_decode_error errs f = None <-> exists d, d ∈ descendants f /\ fails_with code d) /\
  (exists o, (o = f \/ o ∈ descendants f) /\ fails_with code o /\ shows errs o code) /\
  (forall d, d ∈ descendants f -> fails_with code d -> shows errs f code -> ~ shows errs d code).
Proof.
  intros Hf. pose proof (decode_error_code errs f code Hf) as Hs. pose proof (propagates_spec f code) as Hp.
  split_and!.
  - unfold shows in Hs. destruct (_propagates_child_error f code); [tauto|].
    split; [congruence|]. intros Hd. apply Hp in Hd. done.
  - destruct (originates f code) as (o & Ho & Hof & Hop); [exists f; auto|].
    exists o. split_and!; [done..|]. pose proof (decode_error_code errs o code Hof) as Hso. by rewrite Hop in Hso.
  - intros d Hd Hdf Hsf. unfold shows in Hsf. assert (Hpt : _propagates_child_error f code = true) by (apply Hp; by exists d).
    rewrite Hpt, Hsf in Hs. discriminate.
Qed.

Definition demo_frame (pid : string) (err : option string) (inner : list frame) : frame :=
  mkFrame pid [] [] "failed" None [] [] None err inner.
Definition demo_cpi : frame :=
  demo_frame "Outer" (Some "custom program error: 0x1770")
    [demo_frame TOKEN_PROGRAM_ID (Some "custom program error: 0x1770") []].

Lemma error_shown_at_origin_witness : _decode_error ∅ demo_cpi = None.
Proof.
  apply (error_shown_at_origin ∅ demo_cpi 6000); [vm_compute; reflexivity|].
  exists (demo_frame TOKEN_PROGRAM_ID (Some "custom program error: 0x1770") []).
  split; [left|vm_compute; reflexivity].
Defined.

(** ** A failure is never lost *)

Lemma any_failed_spec fs : _any_failed fs = true <-> exists f, f ∈ all_frames fs /\ fr_status f = "failed".
Proof.
  unfold _any_failed. rewrite existsb_exists. setoid_rewrite <-list_elem_of_In.
  setoid_rewrite elem_of_all_frames.
  assert (Hf : forall f, _any_failed_frame f = true <->
            exists d, (d = f \/ d ∈ descendants f) /\ fr_status d = "failed").
  { induction f as [f IH] using frame_tree_ind. rewrite list.Forall_forall in IH.
    assert (E : _any_failed_frame f =
      bool_decide (fr_status f = "failed") || existsb _any_failed_frame (fr_inner f)) by (by destruct f).
    rewrite E, orb_true_iff, bool_decide_eq_true, existsb_exists. setoid_rewrite <-list_elem_of_In.
    setoid_rewrite elem_of_descendants. setoid_rewrite elem_of_all_frames. split.
    - intros [Hs|(c & Hc & Hs)]; [exists f; auto|]. apply IH in Hs as (d & Hd & Hs); [|done].
      exists d. split; [|done]. right. by exists c.
    - intros (d & [->|(c & Hc & Hd)] & Hs); [by left|]. right. exists c. split; [done|].
      apply IH; [done|]. by exists d. }
  setoid_rewrite Hf. naive_solver.
Qed.

(** The nodes of a rendered tree below its root. *)
Fixpoint tree_nodes (t : tree) : list (list Text) := match t with Tree l bs => l :: flat_map tree_nodes bs end.

Section Rendered.
Context `{Native}.
Context (reg : Interface.registry) (lab : labels) (errs : gmap (option string * Z) eclass).
Context (repr : pyval -> string) (str_exn : exn -> string).

(** Every frame is rendered, in order. *)
Lemma add_node_nodes f :
  tree_nodes (_add_node reg lab errs repr str_exn f) =
  _node_renderable reg lab errs repr str_exn <$> (f :: descendants f).
Proof.
  induction f as [f IH] using frame_tree_ind.
  assert (E : _add_node reg lab errs repr str_exn f =
    Tree (_node_renderable reg lab errs repr str_exn f) (map (_add_node reg lab errs repr str_exn) (fr_inner f)))
    by (by destruct f).
  assert (Ed : descendants f = all_frames (fr_inner f)) by (by destruct f).
  rewrite E, fmap_cons, Ed. cbn [tree_nodes]. f_equal. clear E Ed. unfold all_frames.
  induction IH as [|c cs Hc _ IHc]; [done|]. cbn [map flat_map]. by rewrite Hc, IHc, fmap_app.
Qed.

(** The first line of a failed frame carries the failure glyph. *)
Lemma failed_glyph f :
  fr_status f = "failed" ->
  exists header rest, _node_renderable reg lab errs repr str_exn f = header :: rest /\ ("✗", "bold red") ∈ header.
Proof.
  intros Hf. unfold _node_renderable.
  destruct (match decode_instruction _ _ _ _ _ with Ok dec => _ | Raise exc => _ end) as [header names].
  rewrite Hf. cbn. eexists _, _. split; [done|]. apply elem_of_app. right. right. left.
Qed.
End Rendered.

(** The line a failed frame is marked with. *)
Definition marked_failed (lines : list Text) : Prop :=
  exists header rest, lines = header :: rest /\ ("✗", "bold red") ∈ header.

(** The rendered trace of a failed transaction has one node per frame, in
    the order of execution, and always shows the failure: if some frame failed,
    that frame's node is marked, and otherwise the transaction's error is on the
    root line. *)
Theorem failure_visible `{Native} reg lab errs repr str_exn t e :
  tr_success t = false -> truthy (tr_error t) = Some e ->
  exists status branches, _rich reg lab errs repr str_exn t = Tree [status] branches /\
    flat_map tree_nodes branches =
      _node_renderable reg lab errs repr str_exn <$> all_frames (tr_instructions t) /\
    if _any_failed (tr_instructions t)
    then exists lines, lines ∈ flat_map tree_nodes branches /\ marked_failed lines
    else ("  " +:+ e, _ERROR) ∈ status.
Proof.
  intros Hs He. unfold _rich. rewrite Hs, He. eexists _, _. split; [done|].
  assert (Hn : flat_map tree_nodes (map (_add_node reg lab errs repr str_exn) (tr_instructions t)) =
               _node_renderable reg lab errs repr str_exn <$> all_frames (tr_instructions t)).
  { unfold all_frames. induction (tr_instructions t) as [|f fs IH]; [done|]. cbn [map flat_map].
    by rewrite add_node_nodes, IH, fmap_app. }
  split; [done|]. destruct (_any_failed (tr_instructions t)) eqn:Ha.
  - apply any_failed_spec in Ha as (f & Hf & Hst). rewrite Hn.
    exists (_node_renderable reg lab errs repr str_exn f). split; [by apply list_elem_of_fmap_2|].
    by apply failed_glyph.
  - apply elem_of_app. right. by left.
Qed.

Definition demo_trace : trace := mkTrace false 150 (Some "Custom(6000)") [demo_cpi].

Lemma failure_visible_witness :
  exists status branches, @_rich toy_native [] labels_init ∅ (fun _ => "?") (fun _ => "!") demo_trace = Tree [status] branches /\
    length (flat_map tree_nodes branches) = 2%nat.
Proof.
  destruct (@failure_visible toy_native [] labels_init ∅ (fun _ => "?") (fun _ => "!") demo_trace "Custom(6000)")
    as (status & branches & Hr & Hn & _); [reflexivity|vm_compute; reflexivity|].
  exists status, branches. split; [exact Hr|]. rewrite Hn. reflexivity.
Defined.
