(* ===== verification/Coverage.v ===== *)
(** * Coverage reports ([coverage.py])

    The LCOV text format, the merging of reports and the check that reports
    describe the same build.  Text is a list of code points; a report is
    [{path: {line: hits}}].  Files are given with their text and the parsed
    sidecar, so reading and writing them is passing them in and out. *)

From Stdlib Require Import ZArith Lia.
From Stdlib Require Import Strings.Byte Strings.Ascii.
From stdpp Require Import base decidable option list gmap strings sorting numbers.
From S2P Require Import Prelude.
From S2P Require Import Bytes.
From S2P Require Import Utf8.
From S2P Require Import Floats.
From S2P Require Import Values.

(** ** Text *)

(** A literal of the source. *)
Definition u (s : string) : ustr := (fun c => Z.of_N (N_of_ascii c)) <$> String.list_ascii_of_string s.

(** The line boundaries of [str.splitlines]. *)
Definition is_newline (c : Z) : bool :=
  ((10 <=? c) && (c <=? 13)) || ((28 <=? c) && (c <=? 30)) || (c =? 0x85) || (c =? 0x2028) || (c =? 0x2029).

Fixpoint splitlines_from (line : ustr) (s : ustr) : list ustr :=
  match s with
  | [] => match line with [] => [] | _ => [line] end
  | c :: s' =>
      if is_newline c
      then line :: match s' with
                   | c' :: s'' => if (c =? 13) && (c' =? 10) then splitlines_from [] s'' else splitlines_from [] s'
                   | [] => []
                   end
      else splitlines_from (line ++ [c]) s'
  end.
Definition splitlines (s : ustr) : list ustr := splitlines_from [] s.

Fixpoint join (sep : ustr) (ls : list ustr) : ustr :=
  match ls with
  | [] => []
  | [l] => l
  | l :: ls => l ++ sep ++ join sep ls
  end.

(** [s.startswith(p)], with the rest [s[len(p):]]. *)
Fixpoint removeprefix (p s : ustr) : option ustr :=
  match p, s with
  | [], _ => Some s
  | c :: p, d :: s => if c =? d then removeprefix p s else None
  | _, [] => None
  end.

(** [s.partition(sep)] for one character: the parts before and after it. *)
Fixpoint partition_at (sep : Z) (s : ustr) : ustr * ustr :=
  match s with
  | [] => ([], [])
  | c :: s => if c =? sep then ([], s) else let '(a, b) := partition_at sep s in (c :: a, b)
  end.

(** [str(n)]: the digits of a natural number, then the sign. *)
Fixpoint digits (fuel : nat) (n : Z) : ustr :=
  match fuel with
  | O => []
  | S fuel => if n <? 10 then [48 + n] else digits fuel (n / 10) ++ [48 + n mod 10]
  end.
Definition nat_str (n : Z) : ustr := digits (S (Z.to_nat (Z.log2 n))) n.
Definition int_str (z : Z) : ustr := if z <? 0 then 45 :: nat_str (- z) else nat_str z.

(** The order of [sorted] on text. *)
Fixpoint ustr_leb (a b : ustr) : bool :=
  match a, b with
  | [], _ => true
  | _, [] => false
  | c :: a, d :: b => (c <? d) || ((c =? d) && ustr_leb a b)
  end.
Definition ustr_le (a b : ustr) : Prop := ustr_leb a b = true.
#[global] Instance ustr_le_dec a b : Decision (ustr_le a b).
Proof. unfold ustr_le. apply _. Defined.

(** ** Reports *)

Abbreviation Lines := (gmap Z Z).
Abbreviation FileLines := (gmap ustr Lines).

Definition hits (f : FileLines) (path : ustr) (line : Z) : Z :=
  default 0 (f !! path ≫= (fun ls => ls !! line)).

(** [into[n] = into.get(n, 0) + count]. *)
Definition add_hits (m : Lines) (nc : Z * Z) : Lines := <[nc.1 := default 0 (m !! nc.1) + nc.2]> m.

(** *** [parse_lcov] *)

(** [current] is the dict of the open record, [out[path]]: its path. *)
Record lcov_state := mkLcov { ls_out : FileLines; ls_current : option ustr }.

(** [count.split(",")[0]]. *)
Definition first_field (s : ustr) : ustr := (partition_at 44 s).1.

Definition parse_line (st : lcov_state) (raw : ustr) : lcov_state :=
  let line := strip raw in
  match removeprefix (u "SF:") line with
  | Some path =>
      mkLcov (match ls_out st !! path with Some _ => ls_out st | None => <[path := ∅]> (ls_out st) end) (Some path)
  | None =>
      match removeprefix (u "DA:") line, ls_current st with
      | Some rest, Some path =>
          let '(number, count) := partition_at 44 rest in
          match parse_int number, parse_int (first_field count) with
          | Some n, Some c =>
              mkLcov (<[path := add_hits (default ∅ (ls_out st !! path)) (n, c)]> (ls_out st)) (Some path)
          | _, _ => st
          end
      | _, _ =>
          if decide (line = u "end_of_record") then mkLcov (ls_out st) None else st
      end
  end.

Definition parse_lcov (text : ustr) : FileLines :=
  ls_out (foldl parse_line (mkLcov ∅ None) (splitlines text)).

(** *** [format_lcov] *)

Definition da_line (nc : Z * Z) : ustr := u "DA:" ++ int_str nc.1 ++ u "," ++ int_str nc.2.

Definition sorted_lines (m : Lines) : list (Z * Z) :=
  (fun n => (n, default 0 (m !! n))) <$> merge_sort Z.le (map_to_list m).*1.

Definition record_lines (path : ustr) (m : Lines) : list ustr :=
  [u "TN:"; u "SF:" ++ path] ++ (da_line <$> sorted_lines m) ++
  [u "LF:" ++ int_str (Z.of_nat (size m));
   u "LH:" ++ int_str (Z.of_nat (length (List.filter (fun nc => negb (nc.2 =? 0)) (map_to_list m))));
   u "end_of_record"].

Definition sorted_paths (f : FileLines) : list ustr := merge_sort ustr_le (map_to_list f).*1.

Definition format_lcov (files : FileLines) : ustr :=
  let out := flat_map (fun path => record_lines path (default ∅ (files !! path))) (sorted_paths files) in
  join [10] out ++ match out with [] => [] | _ => [10] end.

(** *** Merging *)

Definition merge_lines (into lines : Lines) : Lines := foldl add_hits into (map_to_list lines).

(** The loop over [files.items()] shared by [merge_lcov] and [merge_reports]. *)
Definition merge_files (merged files : FileLines) : FileLines :=
  foldl (fun m fl => <[fl.1 := merge_lines (default ∅ (m !! fl.1)) fl.2]> m) merged (map_to_list files).

(** The sidecar of a report: the build of each program, [""] when unknown.
    [{}] when it is missing or unreadable. *)
Record build_info := mkBuild { text_sha256 : string; instructions_total : Z }.
Abbreviation meta := (list (string * build_info)).

(** An input of [merge_lcov]: its name, text and sidecar. *)
Record lcov_file := mkLcovFile { lf_name : string; lf_text : ustr; lf_meta : meta }.

(** The loop of [_check_builds] over one sidecar: [seen] keeps the first digest
    of every program with the file it came from. *)
Fixpoint check_meta (force : bool) (name : string) (m : meta) (seen : list (string * (string * string)))
    : res (list (string * (string * string))) :=
  match m with
  | [] => Ok seen
  | (pid, info) :: m =>
      if decide (text_sha256 info = ""%string) then check_meta force name m seen
      else
        match attr_lookup pid seen with
        | Some (digest, _) =>
            if negb (bool_decide (digest = text_sha256 info)) && negb force
            then Raise (ValueError "contain different builds of program")
            else check_meta force name m seen
        | None => check_meta force name m (dict_set pid (text_sha256 info, name) seen)
        end
  end.

Fixpoint check_all (force : bool) (inputs : list lcov_file) (seen : list (string * (string * string)))
    : res (list (string * (string * string))) :=
  match inputs with
  | [] => Ok seen
  | i :: inputs => seen ← check_meta force (lf_name i) (lf_meta i) seen; check_all force inputs seen
  end.

Definition _check_builds (inputs : list lcov_file) (force : bool) : res unit :=
  _ ← check_all force inputs []; Ok tt.

(** The names the final warning lists. *)
Definition unchecked (inputs : list lcov_file) : list string :=
  omap (fun i => match lf_meta i with [] => Some (lf_name i) | _ => None end) inputs.

Definition update_meta (combined m : meta) : meta := foldl (fun d p => dict_set p.1 p.2 d) combined m.

(** [merge_lcov]: the number of files, the text and the sidecar written. *)
Definition merge_lcov (inputs : list lcov_file) (force : bool) : res (Z * ustr * option meta) :=
  _ ← _check_builds inputs force;
  let merged := foldl (fun m i => merge_files m (parse_lcov (lf_text i))) ∅ inputs in
  let combined := foldl update_meta [] (lf_meta <$> inputs) in
  Ok (Z.of_nat (size merged), format_lcov merged,
      match combined with [] => None | _ => Some combined end).

(** *** [merge_reports] *)

Record program_cov := mkProgramCov {
  pc_program_id : string;
  instructions_covered : Z;
  lines_resolved : Z;
  has_debug_info : bool;
  text_mismatch : bool;
  pc_other : list (string * string);   (** the entries the merge does not read *)
}.

Record cov_report := mkReport { cr_files : FileLines; cr_programs : list program_cov }.

Definition merge_program (known p : program_cov) : program_cov :=
  mkProgramCov (pc_program_id known) (Z.max (instructions_covered known) (instructions_covered p))
    (Z.max (lines_resolved known) (lines_resolved p)) (has_debug_info known || has_debug_info p)
    (text_mismatch known || text_mismatch p) (pc_other known).

Definition add_program (d : list (string * program_cov)) (p : program_cov) : list (string * program_cov) :=
  match attr_lookup (pc_program_id p) d with
  | None => dict_set (pc_program_id p) p d
  | Some known => dict_set (pc_program_id p) (merge_program known p) d
  end.

Definition program_le (a b : program_cov) : Prop := String.leb (pc_program_id a) (pc_program_id b) = true.
#[global] Instance program_le_dec a b : Decision (program_le a b).
Proof. unfold program_le. apply _. Defined.

Definition merge_reports (dst src : cov_report) : cov_report :=
  mkReport (merge_files (cr_files dst) (cr_files src))
    (merge_sort program_le
       (foldl add_program (dict_of ((fun p => (pc_program_id p, p)) <$> cr_programs dst)) (cr_programs src)).*2).
