(* ===== verification/CoverageProps.v ===== *)
(** * Correctness of the coverage reports

    The LCOV text of a report parses back to the report; merging reports sums
    the hits of every line and is refused exactly when the inputs describe
    different builds of a program. *)

From Stdlib Require Import ZArith Lia.
From Stdlib Require Import Strings.Byte Strings.Ascii.
From stdpp Require Import base decidable option list gmap strings sorting numbers.
From S2P Require Import Prelude.
From S2P Require Import Maps.
From S2P Require Import Bytes.
From S2P Require Import Utf8.
From S2P Require Import Floats.
From S2P Require Import Values.
From S2P Require Import Coverage.

(** ** Decimal numbers *)

Definition is_digit (c : Z) : Prop := 48 <= c <= 57.

Lemma digit_Some c : is_digit c -> digit c = Some (c - 48).
Proof. unfold is_digit, digit. intros H. by rewrite (proj2 (Z.leb_le _ _)), (proj2 (Z.leb_le _ _)) by lia. Qed.

Lemma parse_digits_app acc s c v :
  Forall is_digit s -> is_digit c -> parse_digits acc s = Some v ->
  parse_digits acc (s ++ [c]) = Some (v * 10 + (c - 48)).
Proof.
  intros Hs Hc. revert acc. induction Hs as [|d s Hd _ IH]; intros acc; simpl.
  - intros [= ->]. by rewrite digit_Some.
  - rewrite digit_Some by done. apply IH.
Qed.

Lemma parse_nat_app s c v :
  Forall is_digit s -> is_digit c -> parse_nat s = Some v -> parse_nat (s ++ [c]) = Some (v * 10 + (c - 48)).
Proof.
  intros Hs Hc. destruct Hs as [|d s Hd Hs]; simpl; [done|]. rewrite digit_Some by done. simpl.
  by apply parse_digits_app.
Qed.

Lemma digits_spec fuel n :
  0 <= n < 2 ^ Z.of_nat fuel -> (0 < fuel)%nat ->
  Forall is_digit (digits fuel n) /\ parse_nat (digits fuel n) = Some n /\ digits fuel n <> [].
Proof.
  revert n. induction fuel as [|fuel IH]; intros n Hn Hf; [lia|]. cbn [digits].
  destruct (n <? 10) eqn:E; zify_bools.
  - assert (Hd : is_digit (48 + n)) by (unfold is_digit; lia). split_and!; [by apply list.Forall_singleton| |done].
    simpl. rewrite digit_Some by done. simpl. f_equal. lia.
  - assert (Hp : 2 ^ Z.of_nat (S fuel) = 2 * 2 ^ Z.of_nat fuel) by (rewrite Nat2Z.inj_succ, Z.pow_succ_r; lia).
    assert (Hfuel : (0 < fuel)%nat) by (destruct fuel; [cbn in Hp; lia|lia]).
    destruct (IH (n / 10)) as (H1 & H2 & H3); [|done|].
    { pose proof (Z.div_mod n 10 ltac:(lia)). pose proof (Z.mod_pos_bound n 10 ltac:(lia)).
      split; [apply Z.div_pos; lia|]. apply Z.div_lt_upper_bound; lia. }
    pose proof (Z.mod_pos_bound n 10 ltac:(lia)) as Hm.
    assert (Hd : is_digit (48 + n mod 10)) by (unfold is_digit; lia). split_and!.
    + apply Forall_app. split; [done|by apply list.Forall_singleton].
    + rewrite (parse_nat_app _ _ _ H1 Hd H2). f_equal. pose proof (Z.div_mod n 10 ltac:(lia)). lia.
    + by destruct (digits fuel (n / 10)).
Qed.

Lemma nat_str_spec n : 0 <= n ->
  Forall is_digit (nat_str n) /\ parse_nat (nat_str n) = Some n /\ nat_str n <> [].
Proof.
  intros Hn. apply digits_spec; [|lia]. split; [done|].
  rewrite Nat2Z.inj_succ, Z2Nat.id by apply Z.log2_nonneg.
  destruct (decide (n = 0)) as [->|Hz]; [done|]. apply Z.log2_spec. lia.
Qed.

(** ** Whitespace and lines *)

(** Text that [strip] leaves alone: it neither starts nor ends with a space. *)
Definition trimmed (s : ustr) : Prop :=
  (forall c s', s = c :: s' -> is_space c = false) /\ (forall c s', s = s' ++ [c] -> is_space c = false).

Lemma lstrip_trimmed s : (forall c s', s = c :: s' -> is_space c = false) -> lstrip s = s.
Proof. destruct s as [|c s]; intros H; [done|]. simpl. by rewrite (H c s). Qed.

Lemma strip_trimmed s : trimmed s -> strip s = s.
Proof.
  intros [H1 H2]. unfold strip. rewrite (lstrip_trimmed s H1), lstrip_trimmed; [apply reverse_involutive|].
  intros c s' E. apply (H2 c (reverse s')). by rewrite <-(reverse_involutive s), E, reverse_cons.
Qed.

Lemma digit_not_space c : is_digit c -> is_space c = false.
Proof.
  unfold is_digit, is_space. intros H. apply not_true_iff_false. rewrite !orb_true_iff, !andb_true_iff, !Z.leb_le, !Z.eqb_eq. lia.
Qed.

Lemma Forall_trimmed s : Forall (fun c => is_space c = false) s -> trimmed s.
Proof.
  intros H. split; intros c s' ->.
  - by inversion H.
  - apply Forall_app in H as [_ H]. by inversion H.
Qed.

Lemma int_str_chars z : Forall (fun c => is_space c = false /\ is_newline c = false /\ c <> 44) (int_str z) /\ int_str z <> [].
Proof.
  assert (Hd : forall c, is_digit c -> is_space c = false /\ is_newline c = false /\ c <> 44).
  { intros c Hc. split_and!; [by apply digit_not_space| |unfold is_digit in Hc; lia].
    unfold is_digit in Hc. unfold is_newline. apply not_true_iff_false.
    rewrite !orb_true_iff, !andb_true_iff, !Z.leb_le, !Z.eqb_eq. lia. }
  unfold int_str. destruct (z <? 0) eqn:E; zify_bools.
  - destruct (nat_str_spec (- z)) as (H1 & _ & _); [lia|]. split; [|done]. constructor; [done|].
    eapply list.Forall_impl; [exact H1|done].
  - destruct (nat_str_spec z) as (H1 & _ & H3); [lia|]. split; [|done]. eapply list.Forall_impl; [exact H1|done].
Qed.

(** [int(str(z))] is [z]. *)
Lemma parse_int_str z : parse_int (int_str z) = Some z.
Proof.
  unfold parse_int. rewrite strip_trimmed.
  2:{ apply Forall_trimmed. eapply list.Forall_impl; [apply int_str_chars|naive_solver]. }
  unfold int_str. destruct (z <? 0) eqn:E; zify_bools.
  - destruct (nat_str_spec (- z)) as (_ & -> & _); [lia|]. simpl. f_equal. lia.
  - destruct (nat_str_spec z) as (H1 & H2 & H3); [lia|]. rewrite <-H2.
    destruct H1 as [|c s Hc Hs]; [done|]. unfold is_digit in Hc.
    assert (Hcase : c <> 45 /\ c <> 43) by lia. destruct Hcase as [Hc1 Hc2].
    repeat (case_match; try done; try lia).
Qed.

(** A path that the text format can carry: one line, no space at its end. *)
Definition ends_clean (s : ustr) : Prop := forall c s', s = s' ++ [c] -> is_space c = false.
Definition one_line (s : ustr) : Prop := Forall (fun c => is_newline c = false) s.
Definition clean_path (path : ustr) : Prop := one_line path /\ ends_clean path.

Lemma ends_clean_app a b : Forall (fun c => is_space c = false) a -> ends_clean b -> ends_clean (a ++ b).
Proof.
  intros Ha Hb c s'. destruct b as [|d b _] using rev_ind.
  - rewrite app_nil_r. intros ->. apply Forall_app in Ha as [_ Ha]. by inversion Ha.
  - rewrite app_assoc. intros [_ <-]%app_inj_tail. by apply (Hb d b).
Qed.

(** A line that starts with a literal. *)
Lemma trimmed_tagged c a b :
  Forall (fun c => is_space c = false) (c :: a) -> ends_clean b -> trimmed ((c :: a) ++ b).
Proof.
  intros Ha Hb. split; [|by apply ends_clean_app].
  intros d s' [= <- _]. by inversion Ha.
Qed.

Lemma int_str_clean z : ends_clean (int_str z) /\ one_line (int_str z).
Proof.
  destruct (int_str_chars z) as [H _]. split.
  - intros c s' E. rewrite E in H. apply Forall_app in H as [_ H]. inversion H. naive_solver.
  - eapply list.Forall_impl; [exact H|naive_solver].
Qed.

(** *** Lines of a text *)

Definition lines_text (ls : list ustr) : ustr := flat_map (fun l => l ++ [10]) ls.

Lemma splitlines_from_line acc l rest :
  one_line l -> splitlines_from acc (l ++ 10 :: rest) = (acc ++ l) :: splitlines_from [] rest.
Proof.
  intros Hl. revert acc. induction Hl as [|c l Hc _ IH]; intros acc; simpl.
  - rewrite app_nil_r. by destruct rest.
  - rewrite Hc, IH, <-app_assoc. done.
Qed.

Lemma splitlines_lines ls : Forall one_line ls -> splitlines (lines_text ls) = ls.
Proof.
  unfold splitlines, lines_text. induction 1 as [|l ls Hl _ IH]; [done|]. cbn [flat_map].
  rewrite <-app_assoc. simpl. rewrite splitlines_from_line by done. simpl. by rewrite IH.
Qed.

Lemma join_lines ls : ls <> [] -> join [10] ls ++ [10] = lines_text ls.
Proof.
  unfold lines_text. induction ls as [|l ls IH]; [done|]. intros _. destruct ls as [|l' ls].
  - simpl. by rewrite app_nil_r.
  - cbn [flat_map] in *. rewrite <-IH by done. simpl. by rewrite <-!app_assoc.
Qed.

(** *** The lines of a record *)

Lemma parse_other st t l :
  trimmed l -> removeprefix (u "SF:") l = None -> removeprefix (u "DA:") l = None -> l <> u "end_of_record" ->
  t = l -> parse_line st t = st.
Proof.
  intros Ht H1 H2 H3 ->. unfold parse_line. rewrite strip_trimmed, H1, H2 by done.
  by rewrite decide_False.
Qed.

Lemma parse_SF out path :
  clean_path path -> out !! path = None ->
  parse_line (mkLcov out None) (u "SF:" ++ path) = mkLcov (<[path := ∅]> out) (Some path).
Proof.
  intros [_ Hc] Ho. unfold parse_line.
  rewrite strip_trimmed by (apply (trimmed_tagged 83 [70; 58]); [by repeat constructor|done]).
  replace (removeprefix (u "SF:") (u "SF:" ++ path)) with (Some path) by reflexivity.
  cbn [ls_out]. by rewrite Ho.
Qed.

Lemma partition_app sep a b :
  Forall (fun c => c <> sep) a -> partition_at sep (a ++ sep :: b) = (a, b).
Proof.
  induction 1 as [|c a Hc _ IH]; simpl; [by rewrite Z.eqb_refl|].
  by rewrite (proj2 (Z.eqb_neq c sep) Hc), IH.
Qed.

Lemma first_field_whole a : Forall (fun c => c <> 44) a -> first_field a = a.
Proof.
  unfold first_field. induction 1 as [|c a Hc _ IH]; [done|]. simpl.
  rewrite (proj2 (Z.eqb_neq c 44) Hc). destruct (partition_at 44 a). simpl in *. by rewrite IH.
Qed.

Lemma int_str_no_comma z : Forall (fun c => c <> 44) (int_str z).
Proof. eapply list.Forall_impl; [apply int_str_chars|naive_solver]. Qed.

Lemma parse_DA out path nc :
  parse_line (mkLcov out (Some path)) (da_line nc) =
  mkLcov (<[path := add_hits (default ∅ (out !! path)) nc]> out) (Some path).
Proof.
  destruct nc as [n c]. unfold parse_line, da_line. cbn [fst snd].
  rewrite strip_trimmed.
  2:{ apply (trimmed_tagged 68 [65; 58]); [by repeat constructor|]. rewrite app_assoc.
      apply ends_clean_app; [|apply int_str_clean]. apply Forall_app. split; [|by repeat constructor].
      eapply list.Forall_impl; [apply int_str_chars|naive_solver]. }
  set (rest := int_str n ++ u "," ++ int_str c).
  replace (removeprefix (u "SF:") (u "DA:" ++ rest)) with (@None ustr) by reflexivity.
  replace (removeprefix (u "DA:") (u "DA:" ++ rest)) with (Some rest) by reflexivity.
  cbn [ls_current]. unfold rest. change (u "," ++ int_str c) with (44 :: int_str c).
  rewrite partition_app by apply int_str_no_comma.
  rewrite first_field_whole by apply int_str_no_comma. by rewrite !parse_int_str.
Qed.

Lemma parse_count_line st (t : Z) z :
  (t = 70 \/ t = 72) -> parse_line st ((76 :: t :: [58]) ++ int_str z) = st.
Proof.
  intros Ht. eapply parse_other; [| | | |reflexivity].
  - apply trimmed_tagged; [|apply int_str_clean]. destruct Ht as [-> | ->]; by repeat constructor.
  - by destruct Ht as [-> | ->].
  - by destruct Ht as [-> | ->].
  - by destruct Ht as [-> | ->].
Qed.

Lemma parse_DAs out path m ncs :
  foldl parse_line (mkLcov (<[path := m]> out) (Some path)) (da_line <$> ncs) =
  mkLcov (<[path := foldl add_hits m ncs]> out) (Some path).
Proof.
  revert m. induction ncs as [|nc ncs IH]; intros m; [done|]. rewrite fmap_cons. cbn [foldl].
  rewrite parse_DA, lookup_insert_eq, insert_insert_eq. apply IH.
Qed.

Lemma foldl_add_hits_sorted m : foldl add_hits ∅ (sorted_lines m) = m.
Proof.
  change add_hits with (add_item (K := Z) Z.add 0). unfold sorted_lines. rewrite add_items_fresh.
  - apply list_to_map_keys, merge_sort_Permutation.
  - done.
  - rewrite <-list_fmap_compose, (list_fmap_ext _ id), list_fmap_id by done.
    rewrite merge_sort_Permutation. apply NoDup_fst_map_to_list.
Qed.

(** A record adds its file to the report and closes. *)
Lemma parse_record out path m :
  clean_path path -> out !! path = None ->
  foldl parse_line (mkLcov out None) (record_lines path m) = mkLcov (<[path := m]> out) None.
Proof.
  intros Hc Ho. unfold record_lines. rewrite !foldl_app. cbn [foldl].
  replace (parse_line (mkLcov out None) (u "TN:")) with (mkLcov out None) by reflexivity.
  rewrite parse_SF, parse_DAs, foldl_add_hits_sorted by done.
  rewrite (parse_count_line _ 70) by auto. rewrite (parse_count_line _ 72) by auto. reflexivity.
Qed.

Lemma parse_records (f : FileLines) paths out :
  Forall clean_path paths -> NoDup paths -> (forall p, p ∈ paths -> out !! p = None) ->
  foldl parse_line (mkLcov out None) (flat_map (fun p => record_lines p (default ∅ (f !! p))) paths) =
  mkLcov (foldl (fun m p => <[p := default ∅ (f !! p)]> m) out paths) None.
Proof.
  intros Hc. revert out. induction Hc as [|p paths Hp _ IH]; intros out Hn Ho; [done|].
  apply list.NoDup_cons in Hn as [Hnp Hn]. cbn [flat_map foldl]. rewrite foldl_app, parse_record by (try done; apply Ho; by left).
  apply IH; [done|]. intros q Hq. rewrite lookup_insert_ne by set_solver. apply Ho. by right.
Qed.

Lemma one_line_u s c : Forall (fun c => is_newline c = false) (u s) -> one_line c -> one_line (u s ++ c).
Proof. intros H1 H2. by apply Forall_app. Qed.

Lemma record_one_line path m : one_line path -> Forall one_line (record_lines path m).
Proof.
  intros Hp. assert (Hi : forall z, one_line (int_str z)) by (intros; apply int_str_clean).
  unfold record_lines. apply Forall_app. split; [|apply Forall_app; split].
  - constructor; [by repeat constructor|]. apply list.Forall_singleton, one_line_u; [by repeat constructor|done].
  - apply Forall_fmap. apply list.Forall_forall. intros [n c] _. unfold da_line. cbn [fst snd].
    apply one_line_u; [by repeat constructor|]. apply Forall_app. split; [apply Hi|].
    apply one_line_u; [by repeat constructor|apply Hi].
  - constructor; [apply one_line_u; [by repeat constructor|apply Hi]|].
    constructor; [apply one_line_u; [by repeat constructor|apply Hi]|].
    apply list.Forall_singleton. by repeat constructor.
Qed.

Lemma insert_all_paths (f : FileLines) : foldl (fun m p => <[p := default ∅ (f !! p)]> m) ∅ (sorted_paths f) = f.
Proof.
  assert (H : forall l (out : FileLines), foldl (fun m p => <[p := default ∅ (f !! p)]> m) out l =
            foldl (add_item (fun _ x => x) ∅) out ((fun p => (p, default ∅ (f !! p))) <$> l)).
  { induction l as [|p l IH]; intros out; [done|]. apply IH. }
  rewrite H, add_items_fresh; [|done|].
  - apply list_to_map_keys, merge_sort_Permutation.
  - rewrite <-list_fmap_compose, (list_fmap_ext _ id), list_fmap_id by done.
    unfold sorted_paths. rewrite merge_sort_Permutation. apply NoDup_fst_map_to_list.
Qed.

(** The report a text was made from. *)
Lemma parse_format files :
  (forall path, is_Some (files !! path) -> clean_path path) -> parse_lcov (format_lcov files) = files.
Proof.
  intros Hc.
  assert (Hp : Forall clean_path (sorted_paths files)).
  { apply list.Forall_forall. unfold sorted_paths. intros p. rewrite merge_sort_Permutation.
    intros ([p' m] & -> & Hm)%list_elem_of_fmap. apply Hc. simpl. apply elem_of_map_to_list in Hm. by eexists. }
  set (ls := flat_map (fun path => record_lines path (default ∅ (files !! path))) (sorted_paths files)).
  assert (Hl : Forall one_line ls).
  { unfold ls. induction Hp as [|p ps [Hp _] _ IH]; [constructor|]. cbn [flat_map]. apply Forall_app.
    split; [by apply record_one_line|done]. }
  assert (Ht : format_lcov files = lines_text ls).
  { unfold format_lcov. fold ls. destruct ls; [done|]. by apply join_lines. }
  unfold parse_lcov. rewrite Ht, splitlines_lines by done. unfold ls. rewrite parse_records; [|done| |].
  - simpl. apply insert_all_paths.
  - unfold sorted_paths. rewrite merge_sort_Permutation. apply NoDup_fst_map_to_list.
  - done.
Qed.

(** ** What parsing returns *)

Lemma splitlines_from_one_line n acc s :
  (length s <= n)%nat -> one_line acc -> Forall one_line (splitlines_from acc s).
Proof.
  revert acc s. induction n as [|n IH]; intros acc s Hn Ha.
  { destruct s; [|simpl in Hn; lia]. simpl. destruct acc; [constructor|by apply list.Forall_singleton]. }
  destruct s as [|c s]; simpl; [destruct acc; [constructor|by apply list.Forall_singleton]|].
  simpl in Hn. destruct (is_newline c) eqn:Hc.
  - constructor; [done|]. destruct s as [|c' s]; [constructor|]. simpl in Hn.
    destruct (_ && _); apply IH; simpl; try lia; constructor.
  - apply IH; [lia|]. apply Forall_app. split; [done|by apply list.Forall_singleton].
Qed.

Lemma lstrip_suffix s : exists t, s = t ++ lstrip s.
Proof.
  induction s as [|c s [t IH]]; simpl; [by exists []|]. destruct (is_space c); [|by exists []].
  exists (c :: t). simpl. by rewrite <-IH.
Qed.

Lemma lstrip_head s c s' : lstrip s = c :: s' -> is_space c = false.
Proof.
  induction s as [|d s IH]; simpl; [done|]. destruct (is_space d) eqn:E; [done|]. by intros [= <- <-].
Qed.

Lemma one_line_strip s : one_line s -> one_line (strip s).
Proof.
  assert (Hl : forall s, one_line s -> one_line (lstrip s)).
  { intros t Ht. destruct (lstrip_suffix t) as [p Hp]. unfold one_line in *. rewrite Hp in Ht. by apply Forall_app in Ht as [_ ?]. }
  assert (Hr : forall s, one_line s -> one_line (reverse s)) by (intros t; apply list.Forall_reverse).
  intros Hs. unfold strip. auto.
Qed.

Lemma ends_clean_strip s : ends_clean (strip s).
Proof.
  intros c s' E. unfold strip in E. apply (f_equal reverse) in E.
  rewrite reverse_involutive, reverse_snoc in E. by eapply lstrip_head.
Qed.

Lemma removeprefix_app p s r : removeprefix p s = Some r -> s = p ++ r.
Proof.
  revert s. induction p as [|c p IH]; intros s; simpl; [by intros [= ->]|].
  destruct s as [|d s]; [done|]. destruct (c =? d) eqn:E; [|done]. zify_bools. subst. intros H%IH. by subst.
Qed.

Lemma parsed_path_clean raw path : one_line raw -> removeprefix (u "SF:") (strip raw) = Some path -> clean_path path.
Proof.
  intros Hr Hp%removeprefix_app. pose proof (one_line_strip _ Hr) as Ho. pose proof (ends_clean_strip raw) as He.
  rewrite Hp in Ho, He. split; [by apply Forall_app in Ho as [_ ?]|].
  intros c s' ->. by apply (He c (u "SF:" ++ s')).
Qed.

Definition clean_report (f : FileLines) : Prop := forall path, is_Some (f !! path) -> clean_path path.

Lemma clean_insert f path m : clean_report f -> clean_path path -> clean_report (<[path := m]> f).
Proof.
  intros Hf Hp q [x Hx]. destruct (decide (q = path)) as [->|Hq]; [done|].
  rewrite lookup_insert_ne in Hx by done. apply Hf. by eexists.
Qed.

Lemma parse_line_clean st raw :
  one_line raw -> clean_report (ls_out st) -> (forall p, ls_current st = Some p -> clean_path p) ->
  clean_report (ls_out (parse_line st raw)) /\ (forall p, ls_current (parse_line st raw) = Some p -> clean_path p).
Proof.
  intros Hr Ho Hc. unfold parse_line. destruct (removeprefix (u "SF:") (strip raw)) as [path|] eqn:E.
  { apply parsed_path_clean in E; [|done]. split; simpl; [|by intros p [= <-]].
    destruct (ls_out st !! path); [done|by apply clean_insert]. }
  destruct (removeprefix (u "DA:") (strip raw)) as [rest|]; [destruct (ls_current st) as [path|] eqn:Ec|].
  - destruct (partition_at 44 rest) as [number count].
    destruct (parse_int number); [|by rewrite Ec]. destruct (parse_int (first_field count)); [|by rewrite Ec].
    split; simpl; [|by intros p [= <-]; apply Hc]. apply clean_insert; [done|by apply Hc].
  - case_decide; simpl; [done|by rewrite Ec].
  - case_decide; simpl; [done|]. done.
Qed.

Lemma parse_lcov_clean text : clean_report (parse_lcov text).
Proof.
  unfold parse_lcov.
  pose proof (splitlines_from_one_line (length text) [] text ltac:(lia) ltac:(constructor)) as Hl.
  assert (H : forall ls st, Forall one_line ls -> clean_report (ls_out st) ->
            (forall p, ls_current st = Some p -> clean_path p) -> clean_report (ls_out (foldl parse_line st ls))).
  { induction ls as [|l ls IH]; intros st Hls Ho Hc; [done|]. inversion Hls; subst. simpl.
    destruct (parse_line_clean st l) as [H3 H4]; auto. }
  apply H; [exact Hl| |done]. intros p [x Hx]. simpl in Hx. by rewrite lookup_empty in Hx.
Qed.

(** ** Sums *)

Lemma merge_files_eq a b : merge_files a b = merge_into merge_lines ∅ a b.
Proof. done. Qed.
Lemma merge_lines_eq a b : merge_lines a b = merge_into Z.add 0 a b.
Proof. done. Qed.

Lemma hits_default f path n : hits f path n = default 0 (default ∅ (f !! path) !! n).
Proof. unfold hits. destruct (f !! path); [done|]. simpl. by rewrite lookup_empty. Qed.

Lemma merge_files_hits a b path n : hits (merge_files a b) path n = hits a path n + hits b path n.
Proof.
  rewrite !hits_default, merge_files_eq.
  apply (merge_into_sum merge_lines ∅ (fun ls => default 0 (ls !! n))).
  - intros x y. rewrite merge_lines_eq. apply (merge_into_sum Z.add 0 id); done.
  - by rewrite lookup_empty.
Qed.

Lemma merge_files_clean a b : clean_report a -> clean_report b -> clean_report (merge_files a b).
Proof.
  intros Ha Hb path. rewrite merge_files_eq, merge_into_lookup.
  destruct (b !! path) eqn:E; [intros _; apply Hb; by eexists|apply Ha].
Qed.

Definition merge_all (texts : list ustr) : FileLines := foldl (fun m t => merge_files m (parse_lcov t)) ∅ texts.

Lemma merge_all_spec texts acc :
  clean_report acc ->
  let r := foldl (fun m t => merge_files m (parse_lcov t)) acc texts in
  clean_report r /\
  forall path n, hits r path n = hits acc path n + foldr Z.add 0 ((fun t => hits (parse_lcov t) path n) <$> texts).
Proof.
  revert acc. induction texts as [|t texts IH]; intros acc Hc; cbn [foldl].
  { split; [done|]. intros path n. symmetry. apply Z.add_0_r. }
  destruct (IH (merge_files acc (parse_lcov t))) as [H1 H2].
  { apply merge_files_clean; [done|apply parse_lcov_clean]. }
  split; [done|]. intros path n. rewrite H2, merge_files_hits. symmetry. apply Z.add_assoc.
Qed.

(** ** The build check *)

(** The builds the sidecars name, and when they agree. *)
Definition builds_of (m : meta) : list (string * string) :=
  omap (fun pi => if decide (text_sha256 pi.2 = ""%string) then None else Some (pi.1, text_sha256 pi.2)) m.
Definition builds (inputs : list lcov_file) : list (string * string) := flat_map (fun i => builds_of (lf_meta i)) inputs.
Definition consistent (bs : list (string * string)) : Prop :=
  forall pid d d', (pid, d) ∈ bs -> (pid, d') ∈ bs -> d = d'.

(** [seen] holds the digest of every program met so far. *)
Definition seen_ok (seen : list (string * (string * string))) (bs : list (string * string)) : Prop :=
  forall pid d, (pid, d) ∈ bs <-> exists name, attr_lookup pid seen = Some (d, name).

Lemma seen_consistent seen bs : seen_ok seen bs -> consistent bs.
Proof. intros Hs pid d d' [n H1]%Hs [n' H2]%Hs. congruence. Qed.

(** One sidecar: it is accepted with the builds it adds, or they conflict. *)
Lemma check_meta_spec name m seen bs :
  seen_ok seen bs ->
  match check_meta false name m seen with
  | Ok seen' => seen_ok seen' (bs ++ builds_of m)
  | Raise e => (exists t, e = ValueError t) /\ ~ consistent (bs ++ builds_of m)
  end.
Proof.
  revert seen bs. induction m as [|[pid info] m IH]; intros seen bs Hs; simpl; [by rewrite app_nil_r|].
  case_decide as Hd; [by apply IH|].
  destruct (attr_lookup pid seen) as [[digest from]|] eqn:El.
  - assert (Hin : (pid, digest) ∈ bs) by (apply Hs; eauto). case_bool_decide as Hq; simpl.
    + subst digest. replace (bs ++ (pid, text_sha256 info) :: builds_of m)
        with ((bs ++ [(pid, text_sha256 info)]) ++ builds_of m) by (by rewrite <-app_assoc).
      apply IH. intros q d. rewrite elem_of_app, list_elem_of_singleton, (Hs q d).
      split; [intros [?|[= -> ->]]; eauto|by left].
    + split; [eauto|]. intros Hc. apply Hq. apply (Hc pid); set_solver.
  - replace (bs ++ (pid, text_sha256 info) :: builds_of m)
      with ((bs ++ [(pid, text_sha256 info)]) ++ builds_of m) by (by rewrite <-app_assoc).
    apply IH. intros q d. rewrite elem_of_app, list_elem_of_singleton. rewrite lookup_dict_set.
    case_decide as Hq; [subst q|].
    + assert (Hno : forall d', (pid, d') ∉ bs) by (intros d' [n Hn]%Hs; congruence).
      split; [intros [H|[= ->]]; [by destruct (Hno d)|eauto]|]. intros [n [= -> _]]. by right.
    + rewrite (Hs q d). naive_solver.
Qed.

Lemma check_all_spec inputs seen bs :
  seen_ok seen bs ->
  match check_all false inputs seen with
  | Ok seen' => seen_ok seen' (bs ++ builds inputs)
  | Raise e => (exists t, e = ValueError t) /\ ~ consistent (bs ++ builds inputs)
  end.
Proof.
  revert seen bs. induction inputs as [|i inputs IH]; intros seen bs Hs; simpl; [by rewrite app_nil_r|].
  pose proof (check_meta_spec (lf_name i) (lf_meta i) seen bs Hs) as Hm.
  destruct (check_meta _ _ _ _) as [seen'|e]; simpl; rewrite app_assoc; [by apply IH|].
  destruct Hm as [He Hc]. split; [done|]. intros Hc'. apply Hc. intros pid d d' H1 H2. apply (Hc' pid); set_solver.
Qed.

Lemma check_forced inputs seen : exists seen', check_all true inputs seen = Ok seen'.
Proof.
  revert seen. induction inputs as [|i inputs IH]; intros seen; simpl; [by eexists|].
  assert (Hm : forall m seen, exists seen', check_meta true (lf_name i) m seen = Ok seen').
  { induction m as [|[pid info] m IHm]; intros s; simpl; [by eexists|]. case_decide; [done|].
    destruct (attr_lookup pid s) as [[]|]; [|done]. by rewrite andb_false_r. }
  destruct (Hm (lf_meta i) seen) as [seen' ->]. apply IH.
Qed.

(** Merging the reports of workers sums their line hits too. *)
Lemma merge_reports_hits dst src path line :
  hits (cr_files (merge_reports dst src)) path line = hits (cr_files dst) path line + hits (cr_files src) path line.
Proof. apply merge_files_hits. Qed.

(** ** The theorems *)

(** C36: the LCOV text of a report parses back to that report, for all line
    numbers and counts and every path that fits on one line and does not end in
    a space; and what parsing returns from any text at all is such a report, so
    formatting and parsing it again changes nothing. *)
Theorem lcov_roundtrip :
  (forall files, clean_report files -> parse_lcov (format_lcov files) = files) /\
  (forall text, parse_lcov (format_lcov (parse_lcov text)) = parse_lcov text).
Proof.
  split; [intros files; apply parse_format|]. intros text. apply parse_format, parse_lcov_clean.
Qed.

Definition sample_report : FileLines := {[ u "src/lib.rs" := {[ 12 := 3; 7 := 0 ]} ]}.

Lemma lcov_roundtrip_witness : parse_lcov (format_lcov sample_report) = sample_report.
Proof.
  apply (proj1 lcov_roundtrip sample_report). intros path [x Hx].
  unfold sample_report in Hx. apply lookup_singleton_Some in Hx as [<- _].
  split; [by repeat constructor|]. exact (proj2 (Forall_trimmed (u "src/lib.rs") ltac:(by repeat constructor))).
Defined.

(** C35: [merge_lcov] is refused exactly when it is not forced and two of its
    inputs name different builds of one program.  Otherwise the text it writes
    parses to the line-by-line sum of the inputs, and it returns the number of
    files in that text. *)
Theorem merge_lcov_spec inputs force :
  match merge_lcov inputs force with
  | Raise e => force = false /\ (exists t, e = ValueError t) /\ ~ consistent (builds inputs)
  | Ok (n, text, _) =>
      (force = true \/ consistent (builds inputs)) /\
      n = Z.of_nat (size (parse_lcov text)) /\
      forall path line,
        hits (parse_lcov text) path line =
        foldr Z.add 0 ((fun i => hits (parse_lcov (lf_text i)) path line) <$> inputs)
  end.
Proof.
  unfold merge_lcov, _check_builds.
  set (merged := foldl (fun m i => merge_files m (parse_lcov (lf_text i))) ∅ inputs).
  assert (Hmerged : merged = foldl (fun m t => merge_files m (parse_lcov t)) ∅ (lf_text <$> inputs)).
  { unfold merged. generalize (∅ : FileLines). induction inputs as [|i rest IH]; intros m; [done|]. apply IH. }
  destruct (merge_all_spec (lf_text <$> inputs) ∅) as [Hc Hh].
  { intros p [x Hx]. by rewrite lookup_empty in Hx. }
  rewrite <-Hmerged in Hc, Hh.
  assert (Hsum : forall path line, hits merged path line =
            foldr Z.add 0 ((fun i => hits (parse_lcov (lf_text i)) path line) <$> inputs)).
  { intros path line. rewrite Hh, <-list_fmap_compose. unfold hits at 1. rewrite lookup_empty. done. }
  assert (Hok : (force = true \/ consistent (builds inputs)) ->
    (force = true \/ consistent (builds inputs)) /\
    Z.of_nat (size merged) = Z.of_nat (size (parse_lcov (format_lcov merged))) /\
    forall path line, hits (parse_lcov (format_lcov merged)) path line =
      foldr Z.add 0 ((fun i => hits (parse_lcov (lf_text i)) path line) <$> inputs)).
  { intros Hf. rewrite parse_format by done. done. }
  destruct force.
  - destruct (check_forced inputs []) as [seen ->]. simpl. apply Hok. by left.
  - pose proof (check_all_spec inputs [] []) as Hs. specialize (Hs ltac:(intros pid d; split; [by intros ?%elem_of_nil|by intros [? ?]])).
    destruct (check_all false inputs []) as [seen|e]; simpl in *; [|done].
    apply Hok. right. by eapply seen_consistent.
Qed.
