(* ===== verification/GenTypes.v ===== *)
(** * IDL types to annotations ([_gen/types.py], [_gen/idl.py])

    Type nodes are JSON values.  [_norm_type_node] brings the spellings of the
    IDL versions to one shape; [map_type] lowers a normalized node to the source
    text of a Python annotation and records the symbols it uses. *)

From Stdlib Require Import ZArith Lia.
From Stdlib Require Import Strings.Ascii.
From stdpp Require Import base decidable option list gmap strings pretty numbers.
From S2P Require Import Prelude.
From S2P Require Import Values.

#[local] Open Scope string_scope.

(** ** JSON *)

Inductive json :=
  | JNull
  | JBool (b : bool)
  | JInt (z : Z)
  | JFloat
  | JStr (s : string)
  | JArr (xs : list json)
  | JObj (kvs : list (string * json)).

(** [node[key]] of a dict. *)
Definition jget (key : string) (kvs : list (string * json)) : res json :=
  match attr_lookup key kvs with Some v => Ok v | None => Raise (KeyError key) end.

Definition has_key (key : string) (kvs : list (string * json)) : bool :=
  match attr_lookup key kvs with Some _ => true | None => false end.

(** ** Normalization *)

Fixpoint _norm_type_node (node : json) : res json :=
  match node with
  | JStr s => Ok (JStr (if decide (s = "publicKey") then "pubkey" else s))
  | JObj kvs =>
      (* the value of [key] normalized, by recursion along the pairs *)
      let norm_at (key : string) :=
        (fix go (kvs : list (string * json)) : res json :=
           match kvs with
           | [] => Raise (KeyError key)
           | (k, v) :: rest => if decide (k = key) then _norm_type_node v else go rest
           end) kvs in
      if has_key "defined" kvs then
        d ← jget "defined" kvs;
        match d with
        | JStr name => Ok (JObj [("defined", JObj [("name", JStr name)])])
        | JObj dk => Ok (JObj [("defined", JObj [("name", default JNull (attr_lookup "name" dk))])])
        | _ => Raise (AttributeError "get")
        end
      else if has_key "option" kvs then x ← norm_at "option"; Ok (JObj [("option", x)])
      else if has_key "coption" kvs then x ← norm_at "coption"; Ok (JObj [("coption", x)])
      else if has_key "vec" kvs then x ← norm_at "vec"; Ok (JObj [("vec", x)])
      else if has_key "array" kvs then
        (fix go (kvs : list (string * json)) : res json :=
           match kvs with
           | [] => Raise (KeyError "array")
           | (k, v) :: rest =>
               if decide (k = "array") then
                 match v with
                 | JArr [elem; n] => x ← _norm_type_node elem; Ok (JObj [("array", JArr [x; n])])
                 | _ => Raise (ValueError "unpack")
                 end
               else go rest
           end) kvs
      else Ok node
  | _ => Ok node
  end.

(** ** The mapper *)

Definition _SCALARS : list string :=
  ["u8"; "u16"; "u32"; "u64"; "u128"; "i8"; "i16"; "i32"; "i64"; "i128"; "f32"; "f64"].

Definition _REJECTED_SCALARS : list string := ["u256"; "i256"; "char"].

Record Usage := mkUsage {
  aliases : gset string;
  typing : gset string;
  carriers : gset string;
  defined : gset string;
}.

Definition use_alias (n : string) (us : Usage) : Usage := mkUsage ({[n]} ∪ aliases us) (typing us) (carriers us) (defined us).
Definition use_typing (n : string) (us : Usage) : Usage := mkUsage (aliases us) ({[n]} ∪ typing us) (carriers us) (defined us).
Definition use_carrier (n : string) (us : Usage) : Usage := mkUsage (aliases us) (typing us) ({[n]} ∪ carriers us) (defined us).
Definition use_defined (n : string) (us : Usage) : Usage := mkUsage (aliases us) (typing us) (carriers us) ({[n]} ∪ defined us).

Definition _is_option (node : json) : bool :=
  match node with JObj kvs => has_key "option" kvs | _ => false end.

(** [name.isidentifier()] on ASCII names. *)
Definition ident_start (c : ascii) : bool :=
  let n := N_of_ascii c in
  ((65 <=? n) && (n <=? 90) || (97 <=? n) && (n <=? 122) || (n =? 95))%N.
Definition ident_char (c : ascii) : bool :=
  ident_start c || (let n := N_of_ascii c in ((48 <=? n) && (n <=? 57))%N).
Definition isidentifier (s : string) : bool :=
  match String.list_ascii_of_string s with
  | [] => false
  | c :: cs => ident_start c && forallb ident_char cs
  end.

Definition map_scalar (node : string) (us : Usage) : res (string * Usage) :=
  if decide (node ∈ _SCALARS) then Ok (node, use_alias node us)
  else if decide (node = "pubkey") then Ok ("pubkey", use_alias "pubkey" us)
  else if decide (node = "bool") then Ok ("bool", us)
  else if decide (node = "string") then Ok ("str", us)
  else if decide (node = "bytes") then Ok ("bytes", us)
  else if decide (node ∈ _REJECTED_SCALARS) then Raise (GenError "IDL scalar is an engine-extension type")
  else Raise (GenError "unsupported IDL scalar").

(** [f"{n}"] of a value that passed [isinstance(n, int)]. *)
Definition int_literal (n : json) : option string :=
  match n with
  | JInt z => Some (pretty z)
  | JBool b => Some (if b then "True" else "False")
  | _ => None
  end.

(** [node["defined"]["name"]], checked. *)
Definition defined_name (d : json) : res string :=
  match d with
  | JObj dk =>
      name ← jget "name" dk;
      match name with
      | JStr s => if negb (bool_decide (s = "")) && isidentifier s then Ok s
                  else Raise (GenError "defined type name is not a usable Python identifier")
      | JNull | JBool false | JInt 0 | JArr [] | JObj [] =>
          Raise (GenError "defined type name is not a usable Python identifier")
      | _ => Raise (AttributeError "isidentifier")
      end
  | _ => Raise (TypeError "indices")
  end.

(** [elem == "u8"]. *)
Definition is_u8 (elem : json) : bool := match elem with JStr s => bool_decide (s = "u8") | _ => false end.

(** [map_type]; [chain] is set for the option nodes of an [Opt] chain, where
    the code calls [_map_opt_chain]. *)
Fixpoint map_node (chain : bool) (node : json) (us : Usage) : res (string * Usage) :=
  match node with
  | JStr s => map_scalar s us
  | JObj kvs =>
      let at_key (key : string) (chain : bool) (us : Usage) : res (string * Usage) :=
        (fix go (kvs : list (string * json)) : res (string * Usage) :=
           match kvs with
           | [] => Raise (KeyError key)
           | (k, v) :: rest => if decide (k = key) then map_node chain v us else go rest
           end) kvs in
      if has_key "option" kvs then
        let inner := default JNull (attr_lookup "option" kvs) in
        if chain then
          '(t, us) ← at_key "option" (_is_option inner) (use_carrier "Opt" us);
          Ok ("Opt[" +:+ t +:+ "]", us)
        else if _is_option inner then
          '(t, us) ← at_key "option" true (use_carrier "Opt" us);
          Ok ("Opt[" +:+ t +:+ "]", us)
        else
          '(t, us) ← at_key "option" false (use_typing "Optional" us);
          Ok ("Optional[" +:+ t +:+ "]", us)
      else if has_key "vec" kvs then
        '(t, us) ← at_key "vec" false us;
        Ok ("list[" +:+ t +:+ "]", us)
      else if has_key "array" kvs then
        (fix go (kvs : list (string * json)) : res (string * Usage) :=
           match kvs with
           | [] => Raise (KeyError "array")
           | (k, v) :: rest =>
               if decide (k = "array") then
                 match v with
                 | JArr [elem; n] =>
                     match int_literal n with
                     | None => Raise (GenError "array length must be an integer")
                     | Some lit =>
                         let us := use_typing "Annotated" us in
                         if is_u8 elem then Ok ("Annotated[bytes, " +:+ lit +:+ "]", us)
                         else '(t, us) ← map_node false elem us;
                              Ok ("Annotated[list[" +:+ t +:+ "], " +:+ lit +:+ "]", us)
                     end
                 | _ => Raise (ValueError "unpack")
                 end
               else go rest
           end) kvs
      else if has_key "defined" kvs then
        d ← jget "defined" kvs;
        name ← defined_name d;
        Ok (name, use_defined name us)
      else if has_key "coption" kvs then Raise (GenError "COption is SPL-Pack-only")
      else if has_key "generic" kvs then Raise (GenError "generic type parameter is not monomorphizable")
      else Raise (GenError "unsupported IDL type node")
  | _ => Raise (GenError "unsupported IDL type node")
  end.

Definition map_type : json -> Usage -> res (string * Usage) := map_node false.

(** [_map_opt_chain] on an option node. *)
Definition _map_opt_chain : json -> Usage -> res (string * Usage) := map_node true.
