(* ===== verification/GenTypesProps.v ===== *)
(** * Correctness of the type mapper

    What [map_type] emits for an IDL type evaluates to an annotation that the
    compiler accepts and lowers to a node with the wire layout of that type,
    with nested options kept distinct; every symbol it mentions is recorded. *)

From Stdlib Require Import ZArith Lia.
From Stdlib Require Import Strings.Ascii.
From stdpp Require Import base decidable option list gmap strings pretty numbers.
From S2P Require Import Prelude.
From S2P Require Import Bytes.
From S2P Require Import Values.
From S2P Require Import Aliases.
From S2P Require Import Codec.
From S2P Require Import Ir.
From S2P Require Import Compile.
From S2P Require Import GenTypes.

#[local] Open Scope string_scope.

(** ** JSON *)

Fixpoint jsize (j : json) : nat :=
  match j with
  | JArr xs => S (list_sum (map jsize xs))
  | JObj kvs => S (list_sum (map (fun kv => jsize kv.2) kvs))
  | _ => 1
  end.

Lemma jsize_attr k kvs v : attr_lookup k kvs = Some v -> (jsize v < jsize (JObj kvs))%nat.
Proof.
  intros H%attr_lookup_elem. pose proof (list_sum_ge (fun kv : string * json => jsize kv.2) _ _ H). simpl in *. lia.
Qed.

Lemma jsize_pair x y : (jsize x < jsize (JArr [x; y]))%nat.
Proof. simpl. lia. Qed.

(** The loops over the pairs of a dict are lookups. *)
Lemma go_lookup {A} (f : json -> res A) key kvs :
  (fix go (kvs : list (string * json)) : res A :=
     match kvs with
     | [] => Raise (KeyError key)
     | (k, v) :: rest => if decide (k = key) then f v else go rest
     end) kvs = match attr_lookup key kvs with Some v => f v | None => Raise (KeyError key) end.
Proof. induction kvs as [|[k v] kvs IH]; [done|]. simpl. by case_decide. Qed.

(** ** The wire layout of an IDL type *)

Inductive wty :=
  | WInt (nbytes : nat) (signed : bool)
  | WFloat (nbytes : nat)
  | WBool | WString | WBytes | WPubkey
  | WFixedBytes (n : Z)
  | WOption (w : wty)
  | WVec (w : wty)
  | WArray (w : wty) (n : Z)
  | WClass (name : string).

Definition alias_of_name (s : string) : option alias :=
  attr_lookup s [("u8", u8); ("u16", u16); ("u32", u32); ("u64", u64); ("u128", u128);
                 ("i8", i8); ("i16", i16); ("i32", i32); ("i64", i64); ("i128", i128);
                 ("f32", f32); ("f64", f64)].

(** The IDL's scalars, independently of the aliases. *)
Definition idl_scalar (s : string) : option wty :=
  attr_lookup s [("u8", WInt 1 false); ("u16", WInt 2 false); ("u32", WInt 4 false); ("u64", WInt 8 false);
                 ("u128", WInt 16 false); ("i8", WInt 1 true); ("i16", WInt 2 true); ("i32", WInt 4 true);
                 ("i64", WInt 8 true); ("i128", WInt 16 true); ("f32", WFloat 4); ("f64", WFloat 8);
                 ("bool", WBool); ("string", WString); ("bytes", WBytes); ("pubkey", WPubkey)].

(** Python's integers include the booleans. *)
Definition int_value (n : json) : option Z :=
  match n with JInt z => Some z | JBool b => Some (if b then 1 else 0)%Z | _ => None end.

(** The layout a type node stands for.  A dict with several of the keys is read
    by the first of [option], [vec], [array], [defined]. *)
Inductive idl_wire : json -> wty -> Prop :=
  | IW_scalar s w : idl_scalar s = Some w -> idl_wire (JStr s) w
  | IW_option kvs v w : attr_lookup "option" kvs = Some v -> idl_wire v w -> idl_wire (JObj kvs) (WOption w)
  | IW_vec kvs v w :
      attr_lookup "option" kvs = None -> attr_lookup "vec" kvs = Some v -> idl_wire v w ->
      idl_wire (JObj kvs) (WVec w)
  | IW_bytes kvs n z :
      attr_lookup "option" kvs = None -> attr_lookup "vec" kvs = None ->
      attr_lookup "array" kvs = Some (JArr [JStr "u8"; n]) -> int_value n = Some z ->
      idl_wire (JObj kvs) (WFixedBytes z)
  | IW_array kvs elem n z w :
      attr_lookup "option" kvs = None -> attr_lookup "vec" kvs = None ->
      attr_lookup "array" kvs = Some (JArr [elem; n]) -> elem <> JStr "u8" -> int_value n = Some z ->
      idl_wire elem w -> idl_wire (JObj kvs) (WArray w z)
  | IW_defined kvs dk name :
      attr_lookup "option" kvs = None -> attr_lookup "vec" kvs = None -> attr_lookup "array" kvs = None ->
      attr_lookup "defined" kvs = Some (JObj dk) -> attr_lookup "name" dk = Some (JStr name) ->
      idl_wire (JObj kvs) (WClass name).

Lemma idl_wire_unique node w w' : idl_wire node w -> idl_wire node w' -> w = w'.
Proof.
  intros H. revert w'. induction H; inversion 1; simplify_eq; try done; f_equal; auto.
Qed.

Definition is_woption (w : wty) : bool := match w with WOption _ => true | _ => false end.

(** ** Annotations *)

Inductive int_text : string -> Z -> Prop :=
  | IT_int z : int_text (pretty z) z
  | IT_true : int_text "True" 1
  | IT_false : int_text "False" 0.

(** What Python evaluates the source text of an annotation to, in a module that
    imports the symbols and defines the classes it mentions. *)
Inductive evaluates : string -> ann -> Prop :=
  | EV_alias s al : alias_of_name s = Some al -> evaluates s (AAlias al)
  | EV_pubkey : evaluates "pubkey" APubkey
  | EV_bool : evaluates "bool" ABool
  | EV_str : evaluates "str" AStr
  | EV_bytes : evaluates "bytes" ABytes
  | EV_optional s a : evaluates s a -> evaluates ("Optional[" +:+ s +:+ "]") (AUnion [a; ANoneType])
  | EV_opt s a : evaluates s a -> evaluates ("Opt[" +:+ s +:+ "]") (AOpt a)
  | EV_list s a : evaluates s a -> evaluates ("list[" +:+ s +:+ "]") (AList a)
  | EV_fixed t n : int_text t n -> evaluates ("Annotated[bytes, " +:+ t +:+ "]") (AAnnotated ABytes (Some n))
  | EV_array s a t n : evaluates s a -> int_text t n ->
      evaluates ("Annotated[list[" +:+ s +:+ "], " +:+ t +:+ "]") (AAnnotated (AList a) (Some n))
  | EV_class name : isidentifier name = true -> evaluates name (AClass name).

(** Annotations whose value may be [None]. *)
Definition nullable_ann (a : ann) : bool := match a with AUnion _ | AOpt _ => true | _ => false end.

(** The layout an annotation stands for.  An [Optional] never wraps another
    option: every level of a chain of options is an [Opt].  The flag says that
    the option enclosing this one is an [Opt] already. *)
Inductive ann_wire : bool -> ann -> wty -> Prop :=
  | AW_int c al n sg : int_spec al = Some (n, sg) -> ann_wire c (AAlias al) (WInt n sg)
  | AW_float c al n : int_spec al = None -> float_spec al = Some n -> ann_wire c (AAlias al) (WFloat n)
  | AW_pubkey c : ann_wire c APubkey WPubkey
  | AW_bool c : ann_wire c ABool WBool
  | AW_str c : ann_wire c AStr WString
  | AW_bytes c : ann_wire c ABytes WBytes
  | AW_optional a w : ann_wire false a w -> is_woption w = false -> ann_wire false (AUnion [a; ANoneType]) (WOption w)
  | AW_opt c a w : c || is_woption w = true -> ann_wire (is_woption w) a w -> ann_wire c (AOpt a) (WOption w)
  | AW_list c a w : ann_wire false a w -> ann_wire c (AList a) (WVec w)
  | AW_fixed c n : ann_wire c (AAnnotated ABytes (Some n)) (WFixedBytes n)
  | AW_array c a w n : ann_wire false a w -> ann_wire c (AAnnotated (AList a) (Some n)) (WArray w n)
  | AW_class c name : ann_wire c (AClass name) (WClass name).

Lemma ann_wire_nullable c a w : ann_wire c a w -> nullable_ann a = is_woption w.
Proof. by destruct 1. Qed.

(** The symbols an annotation mentions are recorded. *)
Fixpoint covers (us : Usage) (a : ann) : Prop :=
  match a with
  | AAlias al => exists s, alias_of_name s = Some al /\ s ∈ aliases us
  | APubkey => "pubkey" ∈ aliases us
  | AUnion [x; _] => "Optional" ∈ typing us /\ covers us x
  | AOpt x => "Opt" ∈ carriers us /\ covers us x
  | AList x => covers us x
  | AAnnotated x _ => "Annotated" ∈ typing us /\ covers us x
  | AClass c => c ∈ defined us
  | _ => True
  end.

Definition usage_le (us us' : Usage) : Prop :=
  aliases us ⊆ aliases us' /\ typing us ⊆ typing us' /\ carriers us ⊆ carriers us' /\ defined us ⊆ defined us'.

#[global] Instance usage_le_preorder : PreOrder usage_le.
Proof. split; unfold usage_le; [intros us|intros us1 us2 us3]; set_solver. Qed.

Lemma covers_mono us us' a : usage_le us us' -> covers us a -> covers us' a.
Proof.
  intros (H1 & H2 & H3 & H4). revert a. fix IH 1. intros [] Hc; simpl in *; try done.
  - destruct Hc as (s & ? & ?). exists s. split; [done|set_solver].
  - set_solver.
  - destruct Hc as [? ?]. split; [set_solver|by apply IH].
  - destruct Hc as [? ?]. split; [set_solver|by apply IH].
  - destruct args as [|x [|y [|]]]; try done. destruct Hc as [? ?]. split; [set_solver|by apply IH].
  - by apply IH.
  - set_solver.
Qed.

(** ** The mapper *)

(** What a successful lowering gives. *)
Definition lowered (chain : bool) (node : json) (us : Usage) (r : string * Usage) : Prop :=
  exists a w, idl_wire node w /\ evaluates r.1 a /\ ann_wire chain a w /\ covers r.2 a /\ usage_le us r.2 /\
    is_woption w = _is_option node.

Lemma int_literal_value n t : int_literal n = Some t -> exists z, int_value n = Some z /\ int_text t z.
Proof.
  destruct n as [|[]|z| | | |]; simpl; intros [= <-]; eexists; split; try reflexivity; constructor.
Qed.

Lemma map_scalar_lowered chain s us r : map_scalar s us = Ok r -> lowered chain (JStr s) us r.
Proof.
  unfold map_scalar. intros H. case_decide as Hs.
  { injection H as <-.
    assert (Hal : exists al w, alias_of_name s = Some al /\ idl_scalar s = Some w /\ ann_wire chain (AAlias al) w /\ is_woption w = false).
    { unfold _SCALARS in Hs. repeat (apply elem_of_cons in Hs as [->|Hs];
        [eexists _, _; split_and!; [reflexivity..|by first [apply AW_int|apply AW_float]|reflexivity]|]). by apply elem_of_nil in Hs. }
    destruct Hal as (al & w & H1 & H2 & H3 & H4). exists (AAlias al), w.
    split_and!; [by constructor|by constructor|done| |unfold usage_le; simpl; set_solver|done].
    simpl. exists s. split; [done|set_solver]. }
  repeat case_decide; simplify_eq;
    (eexists _, _; split_and!; [by apply IW_scalar|constructor|constructor|simpl; set_solver|
       unfold usage_le; simpl; set_solver|done]).
Qed.

(** [_map_array] on the value of ["array"]. *)
Definition map_array (v : json) (us : Usage) : res (string * Usage) :=
  match v with
  | JArr [elem; n] =>
      match int_literal n with
      | None => Raise (GenError "array length must be an integer")
      | Some lit =>
          let us := use_typing "Annotated" us in
          if is_u8 elem then Ok ("Annotated[bytes, " +:+ lit +:+ "]", us)
          else '(t, us) ← map_node false elem us;
               Ok ("Annotated[list[" +:+ t +:+ "], " +:+ lit +:+ "]", us)
      end
  | _ => Raise (ValueError "unpack")
  end.

(** The clauses of the mapper on a dict, in the code's order. *)
Lemma map_node_obj chain kvs us :
  map_node chain (JObj kvs) us =
  match attr_lookup "option" kvs, attr_lookup "vec" kvs, attr_lookup "array" kvs, attr_lookup "defined" kvs with
  | Some inner, _, _, _ =>
      if chain || _is_option inner
      then '(t, us) ← map_node (_is_option inner) inner (use_carrier "Opt" us); Ok ("Opt[" +:+ t +:+ "]", us)
      else '(t, us) ← map_node false inner (use_typing "Optional" us); Ok ("Optional[" +:+ t +:+ "]", us)
  | None, Some v, _, _ => '(t, us) ← map_node false v us; Ok ("list[" +:+ t +:+ "]", us)
  | None, None, Some v, _ => map_array v us
  | None, None, None, Some d => name ← defined_name d; Ok (name, use_defined name us)
  | None, None, None, None =>
      if has_key "coption" kvs then Raise (GenError "COption is SPL-Pack-only")
      else if has_key "generic" kvs then Raise (GenError "generic type parameter is not monomorphizable")
      else Raise (GenError "unsupported IDL type node")
  end.
Proof.
  cbn [map_node]. rewrite (go_lookup (fun v => map_array v us)). cbv zeta.
  rewrite !go_lookup. unfold has_key, jget.
  destruct (attr_lookup "option" kvs) as [inner|]; simpl.
  { by destruct chain, (_is_option inner). }
  destruct (attr_lookup "vec" kvs); [done|]. destruct (attr_lookup "array" kvs); [done|].
  by destruct (attr_lookup "defined" kvs).
Qed.

Lemma defined_name_ok d name :
  defined_name d = Ok name -> isidentifier name = true /\ exists dk, d = JObj dk /\ attr_lookup "name" dk = Some (JStr name).
Proof.
  destruct d; try discriminate. simpl. unfold jget. destruct (attr_lookup "name" kvs) as [v|] eqn:E; [|discriminate].
  simpl. intros H. repeat case_match; simplify_eq. zify_bools. eauto.
Qed.

(** An option of a lowered type. *)
Lemma lowered_opt chain kvs inner us r :
  attr_lookup "option" kvs = Some inner -> chain || _is_option inner = true ->
  lowered (_is_option inner) inner (use_carrier "Opt" us) r ->
  lowered chain (JObj kvs) us ("Opt[" +:+ r.1 +:+ "]", r.2).
Proof.
  intros Hk Hi (a & w & H1 & H2 & H3 & H4 & H5 & H6). exists (AOpt a), (WOption w).
  split_and!; [by eapply IW_option|by constructor|by constructor; rewrite H6| | |].
  - split; [|done]. destruct H5 as (_ & _ & H5 & _). simpl in H5. set_solver.
  - etrans; [|exact H5]. unfold usage_le. simpl. set_solver.
  - simpl. unfold has_key. by rewrite Hk.
Qed.

Lemma lowered_optional kvs inner us r :
  attr_lookup "option" kvs = Some inner -> _is_option inner = false ->
  lowered false inner (use_typing "Optional" us) r ->
  lowered false (JObj kvs) us ("Optional[" +:+ r.1 +:+ "]", r.2).
Proof.
  intros Hk Hi (a & w & H1 & H2 & H3 & H4 & H5 & H6). exists (AUnion [a; ANoneType]), (WOption w).
  split_and!; [by eapply IW_option|by constructor|by constructor; [|rewrite H6]| | |].
  - split; [|done]. destruct H5 as (_ & H5 & _). simpl in H5. set_solver.
  - etrans; [|exact H5]. unfold usage_le. simpl. set_solver.
  - simpl. unfold has_key. by rewrite Hk.
Qed.

Lemma is_u8_false elem : is_u8 elem = false -> elem <> JStr "u8".
Proof. by intros H ->. Qed.

Lemma lowered_array chain kvs v us r :
  attr_lookup "option" kvs = None -> attr_lookup "vec" kvs = None ->
  attr_lookup "array" kvs = Some v -> map_array v us = Ok r ->
  (forall elem n us r, v = JArr [elem; n] -> map_node false elem us = Ok r -> lowered false elem us r) ->
  lowered chain (JObj kvs) us r.
Proof.
  intros Ho Hv Hk Hm IH. unfold map_array in Hm.
  destruct v as [| | | | |[|elem [|n [|]]]|]; try discriminate.
  destruct (int_literal n) as [t|] eqn:Ht; [|discriminate]. apply int_literal_value in Ht as (z & Hz & Ht).
  assert (Hu : usage_le us (use_typing "Annotated" us)) by (unfold usage_le; simpl; set_solver).
  assert (Hn : _is_option (JObj kvs) = false) by (simpl; unfold has_key; by rewrite Ho).
  destruct (is_u8 elem) eqn:Hu8.
  - assert (elem = JStr "u8") as -> by (destruct elem; try done; simpl in Hu8; apply bool_decide_eq_true in Hu8; by subst).
    injection Hm as <-. exists (AAnnotated ABytes (Some z)), (WFixedBytes z).
    split_and!; [by eapply IW_bytes|by constructor|constructor| |done|by rewrite Hn]. simpl. split; [set_solver|done].
  - destruct (map_node false elem (use_typing "Annotated" us)) as [[t' us']|e] eqn:He; [|discriminate].
    injection Hm as <-. destruct (IH _ _ _ _ eq_refl He) as (a & w & H1 & H2 & H3 & H4 & H5 & _). simpl in *.
    exists (AAnnotated (AList a) (Some z)), (WArray w z).
    split; [by eapply IW_array; eauto using is_u8_false|]. split_and!; [by constructor|by constructor| |by etrans|exact (eq_sym Hn)].
    simpl. split; [|done]. destruct H5 as (_ & H5 & _). simpl in H5. set_solver.
Qed.

Lemma map_node_lowered n : forall chain node us r,
  (jsize node < n)%nat -> map_node chain node us = Ok r -> lowered chain node us r.
Proof.
  induction n as [|n IH]; intros chain node us r Hn Hm; [lia|].
  destruct node as [| | | |s| |kvs]; try discriminate; [by apply map_scalar_lowered|].
  rewrite map_node_obj in Hm.
  destruct (attr_lookup "option" kvs) as [inner|] eqn:Eo.
  { pose proof (jsize_attr _ _ _ Eo) as Hs. destruct (chain || _is_option inner) eqn:Ec; inv_ok; destruct a as [t us']; inv_ok.
    - by apply (lowered_opt chain kvs inner us (t, us')), IH; [| |lia|].
    - apply orb_false_iff in Ec as [-> Ec]. by apply (lowered_optional kvs inner us (t, us')), IH; [| |lia|]. }
  assert (Hno : _is_option (JObj kvs) = false) by (simpl; unfold has_key; by rewrite Eo).
  destruct (attr_lookup "vec" kvs) as [v|] eqn:Ev.
  { pose proof (jsize_attr _ _ _ Ev) as Hs. inv_ok. destruct a as [t us']. inv_ok.
    destruct (IH false v us (t, us')) as (a & w & H1 & H2 & H3 & H4 & H5 & _); [lia|done|].
    exists (AList a), (WVec w). split_and!; [by eapply IW_vec|by constructor|by constructor|done|done|by rewrite Hno]. }
  destruct (attr_lookup "array" kvs) as [v|] eqn:Ea.
  { pose proof (jsize_attr _ _ _ Ea) as Hs. eapply lowered_array; [done..|].
    intros elem m us' r' -> He. pose proof (jsize_pair elem m). apply (IH false); [lia|done]. }
  destruct (attr_lookup "defined" kvs) as [d|] eqn:Ed; [|by repeat case_match].
  inv_ok. apply defined_name_ok in E as (Hi & dk & -> & Hd).
  exists (AClass a), (WClass a). split_and!; [by eapply IW_defined|by constructor|constructor| |unfold usage_le; simpl; set_solver|by rewrite Hno].
  simpl. set_solver.
Qed.

(** ** Compiling what was emitted *)

Definition nullable (nd : node) : bool := match nd with OptionNode _ | OptNode _ => true | _ => false end.

Section Compiles.
Context (env : cenv) (ct : string -> TM node).

(** The layout of a compiled node.  A present value of an [OptionNode] is its
    payload, so its payload must not be [None] itself. *)
Inductive node_wire : node -> wty -> Prop :=
  | NW_int al n sg : node_wire (IntNode al n sg) (WInt n sg)
  | NW_float al n : node_wire (FloatNode al n) (WFloat n)
  | NW_bool : node_wire BoolNode WBool
  | NW_str : node_wire StrNode WString
  | NW_bytes : node_wire BytesNode WBytes
  | NW_pubkey : node_wire PubkeyNode WPubkey
  | NW_fixed n : node_wire (FixedBytesNode n) (WFixedBytes n)
  | NW_option nd w : node_wire nd w -> nullable nd = false -> node_wire (OptionNode nd) (WOption w)
  | NW_opt nd w : node_wire nd w -> node_wire (OptNode nd) (WOption w)
  | NW_vec nd w : node_wire nd w -> node_wire (VecNode nd) (WVec w)
  | NW_array id nd w n : node_wire nd w -> node_wire (FixedArrayNode id nd n) (WArray w n)
  | NW_class nd cls st st' : ct cls st = (Ok nd, st') -> node_wire nd (WClass cls).

(** The classes of the module compile, to struct or enum nodes. *)
Definition classes_compile (us : Usage) : Prop :=
  forall cls, cls ∈ defined us -> class_of env cls <> CPlain /\
    forall st, exists nd st', ct cls st = (Ok nd, st') /\ nullable nd = false.

Lemma ann_wire_compiles us c a w :
  classes_compile us -> ann_wire c a w -> covers us a ->
  forall st, exists nd st', compile_field_with env ct a st = (Ok nd, st') /\ node_wire nd w /\
    nullable nd = is_woption w.
Proof.
  intros Hus. induction 1 as [c al n sg Hi|c al n Hi Hf| | | | |a w Ha IH Hn|c a w _ _ IH|c a w _ IH|c n|c a w n _ IH|c name];
    intros Hc st; simpl in Hc |- *.
  - rewrite Hi. by eexists _, _; split_and!; [done|constructor|].
  - rewrite Hi, Hf. by eexists _, _; split_and!; [done|constructor|].
  - by eexists _, _; split_and!; [done|constructor|].
  - by eexists _, _; split_and!; [done|constructor|].
  - by eexists _, _; split_and!; [done|constructor|].
  - by eexists _, _; split_and!; [done|constructor|].
  - destruct Hc as [_ Hc]. destruct (IH Hc st) as (nd & st' & Hok & Hw & Hnn).
    assert (Hnone : is_NoneType a = false) by (clear -Ha; by inversion Ha).
    rewrite Hnone. unfold mbind, TM_bind. rewrite Hok. eexists _, _. split_and!; [done|constructor; [done|by rewrite Hnn]|done].
  - destruct Hc as [_ Hc]. destruct (IH Hc st) as (nd & st' & Hok & Hw & _).
    unfold mbind, TM_bind. rewrite Hok. eexists _, _. split_and!; [done|by constructor|done].
  - destruct (IH Hc st) as (nd & st' & Hok & Hw & _).
    unfold mbind, TM_bind. rewrite Hok. eexists _, _. split_and!; [done|by constructor|done].
  - by eexists _, _; split_and!; [done|constructor|].
  - destruct Hc as [_ Hc]. destruct (IH Hc st) as (nd & st' & Hok & Hw & _).
    unfold mbind, TM_bind. rewrite Hok. eexists _, _. split_and!; [done|by constructor|done].
  - destruct (Hus name Hc) as [Hp Hct]. destruct (Hct st) as (nd & st' & Hok & Hn).
    destruct (class_of env name); try done; exists nd, st'; (split_and!; [done|by eapply NW_class|done]).
Qed.
End Compiles.

(** What the generator emits for an IDL type is right.  Whenever
    [map_type] accepts a type node, the text evaluates to an annotation whose
    symbols are all recorded for the import block, and if the classes it names
    compile, the compiler accepts it (no error surfaces at import) and lowers it
    to a node with the wire layout of the IDL type, in which no [Optional] hides
    a nested option. *)
Theorem map_type_sound env ct node us s us' :
  map_type node us = Ok (s, us') -> classes_compile env ct us' ->
  exists a w, idl_wire node w /\ evaluates s a /\ covers us' a /\ usage_le us us' /\
    forall st, exists nd st', compile_field_with env ct a st = (Ok nd, st') /\ node_wire ct nd w.
Proof.
  intros Hm Hc. destruct (map_node_lowered (S (jsize node)) false node us (s, us')) as (a & w & H1 & H2 & H3 & H4 & H5 & _).
  - lia.
  - done.
  - exists a, w. split_and!; [done..|]. intros st.
    destruct (ann_wire_compiles env ct us' false a w Hc H3 H4 st) as (nd & st' & Hok & Hw & _). eauto.
Qed.

Definition empty_usage : Usage := mkUsage ∅ ∅ ∅ ∅.
(** [Option<Option<Vec<[u8; 4]>>>]. *)
Definition demo_node : json :=
  JObj [("option", JObj [("option", JObj [("vec", JObj [("array", JArr [JStr "u8"; JInt 4])])])])].

Lemma map_type_sound_witness :
  exists a w, idl_wire demo_node w /\ evaluates "Opt[Opt[list[Annotated[bytes, 4]]]]" a.
Proof.
  destruct (map_type_sound {| classes := []; vtags := [] |} (fun _ s => (Raise OutOfFuel, s)) demo_node empty_usage
              "Opt[Opt[list[Annotated[bytes, 4]]]]"
              (mkUsage ∅ ({["Annotated"]} ∪ ∅) ({["Opt"]} ∪ ({["Opt"]} ∪ ∅)) ∅)) as (a & w & H1 & H2 & _).
  - vm_compute. reflexivity.
  - intros cls Hc. simpl in Hc. set_solver.
  - eauto.
Defined.

(** ** Normalization *)

Definition norm_array (v : json) : res json :=
  match v with
  | JArr [elem; n] => x ← _norm_type_node elem; Ok (JObj [("array", JArr [x; n])])
  | _ => Raise (ValueError "unpack")
  end.

Definition norm_defined (d : json) : res json :=
  match d with
  | JStr name => Ok (JObj [("defined", JObj [("name", JStr name)])])
  | JObj dk => Ok (JObj [("defined", JObj [("name", default JNull (attr_lookup "name" dk))])])
  | _ => Raise (AttributeError "get")
  end.

Lemma norm_obj kvs :
  _norm_type_node (JObj kvs) =
  match attr_lookup "defined" kvs, attr_lookup "option" kvs, attr_lookup "coption" kvs,
        attr_lookup "vec" kvs, attr_lookup "array" kvs with
  | Some d, _, _, _, _ => norm_defined d
  | None, Some v, _, _, _ => x ← _norm_type_node v; Ok (JObj [("option", x)])
  | None, None, Some v, _, _ => x ← _norm_type_node v; Ok (JObj [("coption", x)])
  | None, None, None, Some v, _ => x ← _norm_type_node v; Ok (JObj [("vec", x)])
  | None, None, None, None, Some v => norm_array v
  | None, None, None, None, None => Ok (JObj kvs)
  end.
Proof.
  cbn [_norm_type_node]. rewrite (go_lookup norm_array). cbv zeta. rewrite !go_lookup. unfold has_key, jget.
  destruct (attr_lookup "defined" kvs); [done|]. destruct (attr_lookup "option" kvs); [done|].
  destruct (attr_lookup "coption" kvs); [done|]. destruct (attr_lookup "vec" kvs); [done|].
  by destruct (attr_lookup "array" kvs).
Qed.

(** Normalizing brings a node to a shape that normalizing leaves alone. *)
Lemma norm_idempotent node node' : _norm_type_node node = Ok node' -> _norm_type_node node' = Ok node'.
Proof.
  assert (H : forall n node node', (jsize node < n)%nat -> _norm_type_node node = Ok node' -> _norm_type_node node' = Ok node').
  2:{ apply (H (S (jsize node))). lia. }
  induction n as [|n IH]; intros nd nd' Hn Hm; [lia|].
  destruct nd as [| | | |s| |kvs]; try (injection Hm as <-; reflexivity).
  { injection Hm as <-. simpl. repeat case_decide; try done. }
  pose proof (norm_obj kvs) as E. rewrite E in Hm.
  destruct (attr_lookup "defined" kvs) as [d|] eqn:E1.
  { unfold norm_defined in Hm. destruct d; try discriminate; injection Hm as <-; reflexivity. }
  assert (Hrec : forall key v (mk : json -> json), attr_lookup key kvs = Some v ->
            (forall x, _norm_type_node (mk x) = (y ← _norm_type_node x; Ok (mk y))) ->
            (x ← _norm_type_node v; Ok (mk x)) = Ok nd' -> _norm_type_node nd' = Ok nd').
  { intros key v mk Hk Hmk H. inv_ok. pose proof (jsize_attr _ _ _ Hk).
    rewrite Hmk, (IH v _ ltac:(lia) E0). done. }
  destruct (attr_lookup "option" kvs) as [v|] eqn:E2;
    [by apply (Hrec "option" v (fun x => JObj [("option", x)]) E2); [intros; rewrite norm_obj|]|].
  destruct (attr_lookup "coption" kvs) as [v|] eqn:E3;
    [by apply (Hrec "coption" v (fun x => JObj [("coption", x)]) E3); [intros; rewrite norm_obj|]|].
  destruct (attr_lookup "vec" kvs) as [v|] eqn:E4;
    [by apply (Hrec "vec" v (fun x => JObj [("vec", x)]) E4); [intros; rewrite norm_obj|]|].
  destruct (attr_lookup "array" kvs) as [v|] eqn:E5; [|injection Hm as <-; by rewrite norm_obj, E1, E2, E3, E4, E5].
  unfold norm_array in Hm. destruct v as [| | | | |[|elem [|m [|]]]|]; try discriminate.
  pose proof (jsize_attr _ _ _ E5). pose proof (jsize_pair elem m). inv_ok.
  rewrite norm_obj. simpl. by rewrite (IH elem _ ltac:(lia) E0).
Qed.
