(* ===== verification/Stdio.v ===== *)
(** * Standard streams of a worker ([_tee.py], [_mp_worker.py])

    [sys.stdout] and [sys.stderr], the [Tee] objects of [_tee.py] (shared: while
    one is installed, the stream variable is the object itself), the
    [redirect_stdout]/[redirect_stderr] context managers of the standard
    library, and the worker's [_setup_stdio]/[_cleanup_stdio]. *)

From stdpp Require Import base decidable option list gmap strings.
From S2P Require Import Prelude.

Inductive which := Out | Err.
#[global] Instance which_eq_dec : EqDecision which.
Proof. solve_decision. Defined.

(** What a stream variable can be bound to. *)
Inductive stream :=
  | SConsole (w : which)
  | SFile (path : string)
  | STee (id : nat).
#[global] Instance stream_eq_dec : EqDecision stream.
Proof. solve_decision. Defined.

(** A [Tee] object: its class, file name, [self.stream] and whether [self.fp]
    is open. *)
Record tee := mkTee { te_class : which; te_filename : string; te_stream : option stream; te_fp : bool }.

(** The process's streams, the tee objects created so far and what has been
    written. *)
Record stdio := mkStdio {
  sd_stdout : stream;
  sd_stderr : stream;
  sd_tees : list tee;
  sd_console : list (which * string);
  sd_files : gmap string (list string);
}.

Definition get_stream (w : which) (d : stdio) : stream :=
  match w with Out => sd_stdout d | Err => sd_stderr d end.
Definition set_stream (w : which) (s : stream) (d : stdio) : stdio :=
  match w with
  | Out => mkStdio s (sd_stderr d) (sd_tees d) (sd_console d) (sd_files d)
  | Err => mkStdio (sd_stdout d) s (sd_tees d) (sd_console d) (sd_files d)
  end.
Definition set_tee (id : nat) (t : tee) (d : stdio) : stdio :=
  mkStdio (sd_stdout d) (sd_stderr d) (<[id := t]> (sd_tees d)) (sd_console d) (sd_files d).

(** [StdoutTee(filename)], [StderrTee(filename)]: the mode is ["a"]. *)
Definition new_tee (w : which) (filename : string) (d : stdio) : nat * stdio :=
  (length (sd_tees d),
   mkStdio (sd_stdout d) (sd_stderr d) (sd_tees d ++ [mkTee w filename None false]) (sd_console d) (sd_files d)).

Definition tee_enter (id : nat) (d : stdio) : stdio :=
  match sd_tees d !! id with
  | Some t => set_stream (te_class t) (STee id)
                (set_tee id (mkTee (te_class t) (te_filename t) (Some (get_stream (te_class t) d)) true) d)
  | None => d
  end.

Definition tee_close (id : nat) (d : stdio) : stdio :=
  match sd_tees d !! id with
  | Some t =>
      let d := match te_stream t with Some s => set_stream (te_class t) s d | None => d end in
      set_tee id (mkTee (te_class t) (te_filename t) None false) d
  | None => d
  end.

(** [s.write(message)]; a tee writes to its stream and then to its file.  The
    fuel bounds the chain of tees: without it a tee installed on itself
    recurses for ever ([RecursionError]). *)
Fixpoint write (fuel : nat) (s : stream) (message : string) (d : stdio) : res stdio :=
  match fuel with
  | O => Raise (RuntimeError "maximum recursion depth exceeded")
  | S fuel =>
      match s with
      | SConsole w =>
          Ok (mkStdio (sd_stdout d) (sd_stderr d) (sd_tees d) (sd_console d ++ [(w, message)]) (sd_files d))
      | SFile p =>
          Ok (mkStdio (sd_stdout d) (sd_stderr d) (sd_tees d) (sd_console d)
                (<[p := default [] (sd_files d !! p) ++ [message]]> (sd_files d)))
      | STee id =>
          match sd_tees d !! id with
          | Some (mkTee _ p (Some s') true) =>
              d ← write fuel s' message d;
              Ok (mkStdio (sd_stdout d) (sd_stderr d) (sd_tees d) (sd_console d)
                    (<[p := default [] (sd_files d !! p) ++ [message]]> (sd_files d)))
          | _ => Raise (AttributeError "write")
          end
      end
  end.

(** A context manager of the list [_ctx_managers].  [redirect_stdout] keeps the
    stack of the streams it replaced. *)
Inductive ctx_manager :=
  | CMRedirect (w : which) (target : stream) (old_targets : list stream)
  | CMTee (id : nat).

Definition cm_enter (cm : ctx_manager) (d : stdio) : ctx_manager * stdio :=
  match cm with
  | CMRedirect w t olds => (CMRedirect w t (get_stream w d :: olds), set_stream w t d)
  | CMTee id => (cm, tee_enter id d)
  end.

Definition cm_exit (cm : ctx_manager) (d : stdio) : stdio :=
  match cm with
  | CMRedirect w t (old :: _) => set_stream w old d
  | CMRedirect w t [] => d
  | CMTee id => tee_close id d
  end.

Fixpoint enter_all (cms : list ctx_manager) (d : stdio) : list ctx_manager * stdio :=
  match cms with
  | [] => ([], d)
  | cm :: cms =>
      let '(cm, d) := cm_enter cm d in
      let '(cms, d) := enter_all cms d in
      (cm :: cms, d)
  end.

(** The stdio part of a worker: [_tee], [_log_file], [_ctx_managers]. *)
Record worker_stdio := mkWStdio {
  wd_tee : bool;
  wd_log_file : string;
  wd_ctx_managers : list ctx_manager;
  wd_io : stdio;
}.

Definition _setup_stdio (w : worker_stdio) : worker_stdio :=
  let '(new, d) :=
    if wd_tee w
    then let '(o, d) := new_tee Out (wd_log_file w) (wd_io w) in
         let '(e, d) := new_tee Err (wd_log_file w) d in
         ([CMTee o; CMTee e], d)
    else ([CMRedirect Out (SFile (wd_log_file w)) []; CMRedirect Err (SFile (wd_log_file w)) []], wd_io w) in
  let '(cms, d) := enter_all (wd_ctx_managers w ++ new) d in
  mkWStdio (wd_tee w) (wd_log_file w) cms d.

Definition _cleanup_stdio (w : worker_stdio) : worker_stdio :=
  mkWStdio (wd_tee w) (wd_log_file w) [] (foldl (fun d cm => cm_exit cm d) (wd_io w) (wd_ctx_managers w)).

(** ** Lemmas *)

Lemma tee_close_idem id d : tee_close id (tee_close id d) = tee_close id d.
Proof.
  unfold tee_close at 2 3. destruct (sd_tees d !! id) as [t|] eqn:E; [|unfold tee_close; by rewrite E].
  assert (id < length (sd_tees d))%nat by (apply lookup_lt_is_Some; eauto).
  set (d' := match te_stream t with Some _ => _ | None => _ end).
  assert (sd_tees d' = sd_tees d) as Ht by (subst d'; by destruct (te_stream t), (te_class t)).
  unfold tee_close, set_tee; simpl. rewrite list_lookup_insert_eq by by rewrite Ht. simpl.
  by rewrite list_insert_insert_eq.
Qed.

Lemma get_set_same w s d : get_stream w (set_stream w s d) = s.
Proof. by destruct w. Qed.
Lemma get_set_other w s d w' : w' <> w -> get_stream w' (set_stream w s d) = get_stream w' d.
Proof. by destruct w, w'. Qed.

(** The stream variables after a worker's redirection, and after undoing it. *)
Definition streams (w : worker_stdio) : stream * stream := (sd_stdout (wd_io w), sd_stderr (wd_io w)).

(** Redirecting and cleaning up restores both streams, whatever they were
    bound to before. *)
Lemma setup_cleanup w :
  wd_ctx_managers w = [] ->
  streams (_cleanup_stdio (_setup_stdio w)) = streams w /\ wd_ctx_managers (_cleanup_stdio (_setup_stdio w)) = [].
Proof.
  destruct w as [[] log cms [o e tees con files]]; simpl; intros ->; [|done].
  unfold _setup_stdio, streams; simpl.
  assert (forall (a b : tee), (tees ++ [a]) ++ [b] = tees ++ [a; b]) as Hsnoc by (intros; by rewrite <- app_assoc).
  rewrite length_app, Hsnoc; simpl. unfold tee_enter; simpl.
  rewrite list_lookup_middle by done; simpl.
  rewrite insert_app_r_alt, Nat.sub_diag by done; simpl.
  rewrite lookup_app_r by lia. replace (length tees + 1 - length tees)%nat with 1%nat by lia; simpl.
  rewrite insert_app_r_alt by lia. replace (length tees + 1 - length tees)%nat with 1%nat by lia; simpl.
  unfold tee_close; simpl. rewrite list_lookup_middle by done; simpl.
  rewrite insert_app_r_alt, Nat.sub_diag by done; simpl.
  rewrite lookup_app_r by lia. by replace (length tees + 1 - length tees)%nat with 1%nat by lia.
Qed.
