(* ===== verification/Hex.v ===== *)
(** * Hexadecimal text of bytes: [bytes.hex] and [bytes.fromhex] *)

From Stdlib Require Import ZArith Lia.
From Stdlib Require Import Strings.Byte.
From stdpp Require Import base option list.
From S2P Require Import Prelude.
From S2P Require Import Bytes.
From S2P Require Import Utf8.

Definition hex_code (n : Z) : Z := if n <? 10 then 48 + n else 87 + n.

Definition byte_hex (b : byte) : ustr := [hex_code (Z_of_byte b / 16); hex_code (Z_of_byte b mod 16)].

(** [bs.hex()]. *)
Definition bytes_hex (bs : bytes) : ustr := flat_map byte_hex bs.

Definition hex_value (c : Z) : option Z :=
  if (48 <=? c) && (c <=? 57) then Some (c - 48)
  else if (97 <=? c) && (c <=? 102) then Some (c - 87)
  else if (65 <=? c) && (c <=? 70) then Some (c - 55)
  else None.

Definition ascii_space (c : Z) : bool := ((9 <=? c) && (c <=? 13)) || (c =? 32).

(** [bytes.fromhex(s)]: pairs of digits, whitespace allowed between them. *)
Fixpoint fromhex (s : ustr) : option bytes :=
  match s with
  | [] => Some []
  | c :: s' =>
      if ascii_space c then fromhex s'
      else
        match s' with
        | c' :: s'' =>
            hi ← hex_value c; lo ← hex_value c'; bs ← fromhex s''; Some (byte_of_Z (16 * hi + lo) :: bs)
        | [] => None
        end
  end.

Lemma fromhex_byte b s : fromhex (byte_hex b ++ s) = (cons b) <$> fromhex s.
Proof. destruct b; simpl; by destruct (fromhex s). Qed.

Lemma fromhex_hex bs : fromhex (bytes_hex bs) = Some bs.
Proof.
  induction bs as [|b bs IH]; [done|].
  change (bytes_hex (b :: bs)) with (byte_hex b ++ bytes_hex bs). by rewrite fromhex_byte, IH.
Qed.

Lemma bytes_hex_inj bs bs' : bytes_hex bs = bytes_hex bs' -> bs = bs'.
Proof. intros He. apply (f_equal fromhex) in He. rewrite !fromhex_hex in He. by injection He. Qed.
