(* ===== verification/MpServer.v ===== *)
(** * The parallel runner: messages and server ([_mp_serial.py], [_mp_server.py])

    [wake-sol test -P N] runs a server and [N] workers.  Workers put messages on
    one queue; each has a pipe to the server.  This file models the messages,
    the serialization of reports, and the server: the collection handshake, the
    distribution of the tests, the event loop one message at a time, the attach
    negotiation and the summary.  [MpWorker] models the other end and [MpSystem]
    the two running together. *)

From Stdlib Require Import ZArith Lia QArith.
From Stdlib Require Import Strings.Byte.
From stdpp Require Import base decidable option list gmap strings sorting numbers pretty.
From S2P Require Import Prelude.
From S2P Require Import Bytes.
From S2P Require Import Utf8.
From S2P Require Import Hex.
From S2P Require Import Values.
From S2P Require Import Fuzzing.
From S2P Require Import Coverage.
#[local] Open Scope string_scope.
#[local] Open Scope Z_scope.

(** ** What comes from pytest, pickle and rich

    A test report keeps the attributes the runner reads; the rest is [rp_body].
    How pytest and pickle turn reports and exceptions into bytes is a parameter:
    [None] is a failure of [pickle.dumps]. *)
Inductive outcome := Passed | Failed | Skipped.
#[global] Instance outcome_eq_dec : EqDecision outcome.
Proof. solve_decision. Defined.

Record TestReport := mkTestReport {
  rp_nodeid : string;
  rp_outcome : outcome;
  rp_wasxfail : bool;
  rp_body : string;
}.
#[global] Instance TestReport_eq_dec : EqDecision TestReport.
Proof. solve_decision. Defined.

(** The triple [(type, value, tb)] of an exception. *)
Record exc_info := mkExcInfo { ei_type : string; ei_value : string; ei_tb : string }.
#[global] Instance exc_info_eq_dec : EqDecision exc_info.
Proof. solve_decision. Defined.

(** [(type, Exception(repr(value)), tb)]. *)
Definition repr_standin (e : exc_info) : exc_info :=
  mkExcInfo (ei_type e) ("Exception(" +:+ ei_value e +:+ ")") (ei_tb e).

(** The result of pytest's hook: the letter, the word and, when the word comes
    as a pair, its markup. *)
Record test_status := mkStatus { st_letter : string; st_word : string; st_markup : option (list string) }.

Class Pytest := {
  pickled : Type;
  report_json : Type;
  pickle_report : TestReport -> option pickled;
  unpickle_report : pickled -> res TestReport;
  report_to_json : TestReport -> report_json;
  report_from_json : report_json -> res TestReport;
  pickle_exc : exc_info -> option pickled;
  unpickle_exc : pickled -> res exc_info;
  report_teststatus : TestReport -> test_status;
}.

(** What the runner relies on: pickling is lossless, and the JSON form keeps
    what the session counts (it may replace the representation of a failure). *)
Definition same_result (a b : TestReport) : Prop :=
  rp_nodeid a = rp_nodeid b /\ rp_outcome a = rp_outcome b /\ rp_wasxfail a = rp_wasxfail b.

Class PytestLaws `{Pytest} : Prop := {
  unpickle_pickle r p : pickle_report r = Some p -> unpickle_report p = Ok r;
  from_to_json r : exists r', report_from_json (report_to_json r) = Ok r' /\ same_result r r';
}.

#[global] Instance same_result_equiv : Equivalence same_result.
Proof. split; unfold same_result; [intros ? | intros ? ? | intros ? ? ?]; intuition congruence. Qed.

Section Runner.
Context `{Pytest}.

(** ** Queue messages *)

(** [(filename, lineno, function_name, snippet)] of a breakpoint. *)
Record bp_info := mkBp { bp_filename : string; bp_lineno : Z; bp_function : string; bp_snippet : string }.

(** A warning as the hook receives it. *)
Record warning := mkWarning { wn_message : string; wn_when : string; wn_nodeid : string; wn_location : string }.

Inductive msg :=
  | MProtocol (index : nat) (nodeid : string)
  | MReportPickle (index : nat) (payload : pickled)
  | MReportJson (index : nat) (payload : report_json)
  | MException (index : nat) (payload : pickled)
  | MBreakpoint (index : nat) (payload : bp_info)
  | MWarning (index : nat) (w : warning)
  | MInternalError (index : nat) (payload : pickled)
  | MFuzzStats (index : nat) (stats : stats_registry)
  | MCoverage (index : nat) (report : cov_report)
  | MCrashLog (index : nat) (nodeid relpath : string)
  | MKeyboardInterrupt (index : nat)
  | MSessionFinish (index : nat) (exitstatus : Z)
  | MUnknown (kind : string) (index : nat).

(** [msg[1]]. *)
Definition msg_index (m : msg) : nat :=
  match m with
  | MProtocol i _ | MReportPickle i _ | MReportJson i _ | MException i _ | MBreakpoint i _ | MWarning i _
  | MInternalError i _ | MFuzzStats i _ | MCoverage i _ | MCrashLog i _ _ | MKeyboardInterrupt i
  | MSessionFinish i _ | MUnknown _ i => i
  end.

(** ** [_mp_serial] *)

Definition dump_report (index : nat) (report : TestReport) : msg :=
  match pickle_report report with
  | Some bytes => MReportPickle index bytes
  | None => MReportJson index (report_to_json report)
  end.

Definition load_report (m : msg) : option (res TestReport) :=
  match m with
  | MReportJson _ payload => Some (report_from_json payload)
  | MReportPickle _ payload => Some (unpickle_report payload)
  | _ => None
  end.

(** ** The server's configuration *)

Inductive distribution := Uniform | Duplicated | OtherDist (name : string).

Record server_config := mkServerConfig {
  sc_proc_count : nat;
  sc_seeds : list (list byte);
  sc_dist : distribution;
  sc_worker_args : list ustr;
  sc_logs_dir : ustr;
  sc_attach : bool;
  sc_attach_first : bool;
  sc_coverage_report : option ustr;
  sc_coverage_sync : Q;
  sc_is_terminal : bool;    (** [self._console.is_terminal] *)
  sc_stdin_isatty : bool;   (** [sys.stdin.isatty()] *)
  sc_verbose : Z;           (** [session.config.option.verbose] *)
  sc_writable : bool;       (** whether the report's path can be written *)
}.

(** [progress is not None]. *)
Definition has_progress (c : server_config) : bool := sc_is_terminal c && negb (sc_attach_first c).

(** *** [pytest_sessionstart]: what each forked worker is given *)

Record worker_spec := mkWorkerSpec {
  wp_args : list ustr;
  wp_index : nat;
  wp_log_dir : ustr;
  wp_crash_dir : ustr;
  wp_seed : list byte;
  wp_attach : bool;
  wp_tee : bool;
}.

(** [crashes_root] is [logs_dir.parent / "crashes"]. *)
Definition spawn_worker (c : server_config) (crashes_root : ustr) (i : nat) : res worker_spec :=
  match sc_seeds c !! i with
  | None => Raise IndexError
  | Some seed =>
      Ok (mkWorkerSpec (sc_worker_args c ++ [u "--seed"; bytes_hex seed]) i (sc_logs_dir c)
            (crashes_root ++ u "/process-" ++ int_str (Z.of_nat i)) seed (sc_attach c)
            (sc_attach_first c && bool_decide (i = 0%nat)))
  end.

Definition pytest_sessionstart (c : server_config) (crashes_root : ustr) : res (list worker_spec) :=
  mapM_res (spawn_worker c crashes_root) (seq 0 (sc_proc_count c)).

(** *** The handshake and the distribution of the tests *)

(** The loop [for i in range(1, proc_count)]: the first worker whose list
    differs. *)
Definition first_mismatch (collected : list (list string)) : option nat :=
  match collected with
  | [] => None
  | c0 :: rest => fst <$> list_find (fun c => c <> c0) rest
  end.

Definition py_range (a b : nat) : list nat := seq a (b - a).

Definition assign (dist : distribution) (proc_count n i : nat) : res (list nat) :=
  match dist with
  | Uniform =>
      let step := (n / proc_count)%nat in
      if bool_decide (i = proc_count - 1)%nat then Ok (py_range (i * step) n)
      else Ok (py_range (i * step) ((i + 1) * step))
  | Duplicated => Ok (py_range 0 n)
  | OtherDist _ => Raise (RuntimeError "unknown distribution")
  end.

(** The part of [pytest_runtestloop] before the event loop: the index list each
    worker is sent, or the failure raised.  [testsfailed] counts the server's
    own collection errors. *)
Inductive start_result :=
  | StInterrupted (testsfailed : Z)
  | StCollectOnly
  | StDifferentTests (worker : nat)
  | StFailed (e : exn)
  | StAssigned (lists : list (list nat)).

Definition start_loop (c : server_config) (testsfailed : Z) (continue_on_errors collectonly : bool)
    (collected : list (list string)) : start_result :=
  if negb (testsfailed =? 0) && negb continue_on_errors then StInterrupted testsfailed
  else if collectonly then StCollectOnly
  else
    match first_mismatch collected with
    | Some i => StDifferentTests (S i)
    | None =>
        let n := length (default [] (head collected)) in
        match mapM_res (assign (sc_dist c) (sc_proc_count c) n) (seq 0 (sc_proc_count c)) with
        | Ok lists => StAssigned lists
        | Raise e => StFailed e
        end
    end.

(** ** The event loop *)

(** What the server shows, writes and passes on, in order. *)
Inductive sevent :=
  | EProgress (index : nat) (description : string)
  | EPlain (text : string)
  | EStop
  | EStart
  | ERenderException (index : nat) (e : exc_info)
  | ERenderBreakpoint (index : nat) (b : bp_info)
  | EWarning (w : warning)
  | EInternalError (index : nat) (e : exc_info)
  | EWrote (path : ustr) (lcov : ustr)
  | EWroteMeta (path : ustr) (m : meta)
  | EReplay (r : TestReport).

Record server := mkServer {
  sv_processes : gset nat;
  sv_fuzz_stats : stats_registry;
  sv_crash_logs : list (nat * string * string);
  sv_worker_coverage : gmap nat cov_report;
  sv_current_tests : gmap nat (option string);
  sv_test_reports : gmap nat (list (string * string));
  sv_reports : list TestReport;
  sv_keyboard_interrupt : list bool;
  sv_stdin : list ustr;        (** the lines the user has still to type *)
  sv_events : list sevent;
}.

Definition initial_server (n : nat) (stdin : list ustr) : server :=
  mkServer (set_seq 0 n) ∅ [] ∅ (list_to_map ((fun i => (i, None)) <$> seq 0 n))
    (list_to_map ((fun i => (i, [])) <$> seq 0 n)) [] (replicate n false) stdin [].

Definition upd_events (f : list sevent -> list sevent) (s : server) : server :=
  mkServer (sv_processes s) (sv_fuzz_stats s) (sv_crash_logs s) (sv_worker_coverage s) (sv_current_tests s)
    (sv_test_reports s) (sv_reports s) (sv_keyboard_interrupt s) (sv_stdin s) (f (sv_events s)).
Definition emit (es : list sevent) (s : server) : server := upd_events (fun l => (l ++ es)%list) s.

(** *** Progress rows *)

Definition progress_description (index : nat) (current : option string) (letters : list (string * string)) : string :=
  let running := match current with Some t => "running " +:+ t | None => "starting" end in
  "#" +:+ pretty index +:+ " " +:+ running +:+ " " +:+ String.concat "" (snd <$> letters).

Definition _update_progress (c : server_config) (index : nat) (s : server) : res server :=
  if has_progress c
  then match sv_test_reports s !! index with
       | Some letters =>
           Ok (emit [EProgress index (progress_description index (default None (sv_current_tests s !! index)) letters)] s)
       | None => Raise (KeyError "test_reports")
       end
  else Ok s.

Definition _plain_status (index : nat) (interrupted : bool) (exitstatus : Z) : string :=
  "#" +:+ pretty index +:+ (if interrupted then " interrupted" else if exitstatus =? 0 then " finished" else " failed").

Definition finish_description (index : nat) (interrupted : bool) (exitstatus : Z) : string :=
  "#" +:+ pretty index +:+
  (if interrupted then " interrupted [yellow]!"
   else if exitstatus =? 0 then " finished [green]OK" else " failed [red]X").

(** *** [_process_teststatus] *)

Definition default_markup (r : TestReport) : list string :=
  match rp_outcome r with
  | Passed => if rp_wasxfail r then ["yellow"] else ["green"]
  | Failed => ["red"]
  | Skipped => ["yellow"]
  end.

Definition status_token (c : server_config) (r : TestReport) : option string :=
  let st := report_teststatus r in
  if bool_decide (st_letter st = "") && bool_decide (st_word st = "") then None
  else
    let markup := default (default_markup r) (st_markup st) in
    let msg_start := String.concat "" ((fun m => "[" +:+ m +:+ "]") <$> markup) in
    let msg_end := String.concat "" ((fun m => "[/" +:+ m +:+ "]") <$> reverse markup) in
    Some (msg_start +:+ (if sc_verbose c <=? 0 then st_letter st else st_word st) +:+ msg_end).

Definition _process_teststatus (c : server_config) (index : nat) (r : TestReport) (s : server) : res server :=
  match status_token c r with
  | None => Ok s
  | Some token =>
      match sv_test_reports s !! index with
      | None => Raise (KeyError "test_reports")
      | Some letters =>
          Ok (mkServer (sv_processes s) (sv_fuzz_stats s) (sv_crash_logs s) (sv_worker_coverage s)
                (sv_current_tests s) (<[index := dict_set (rp_nodeid r) token letters]> (sv_test_reports s))
                (sv_reports s) (sv_keyboard_interrupt s) (sv_stdin s) (sv_events s))
      end
  end.

(** *** Coverage *)

Definition empty_report : cov_report := mkReport ∅ [].

(** The slots merged afresh, in the order of the worker indexes. *)
Definition _merged_coverage (slots : gmap nat cov_report) : cov_report :=
  foldl (fun merged i => merge_reports merged (default empty_report (slots !! i))) empty_report
    (merge_sort le (map_to_list slots).*1).

(** [p.get(...)] for the two entries the sidecar keeps. *)
Definition build_of (p : program_cov) : build_info :=
  mkBuild (default "" (attr_lookup "text_sha256" (pc_other p)))
    (match attr_lookup "instructions_total" (pc_other p) with
     | Some t => default 0 (parse_int (u t)) | None => 0 end).

Definition _meta_path (lcov : ustr) : ustr := (lcov ++ u ".meta.json")%list.

(** [_write_meta]: the sidecar's contents. *)
Definition meta_of (r : cov_report) : meta :=
  dict_of ((fun p => (pc_program_id p, build_of p)) <$> cr_programs r).

(** The file count, or [None] when there is no path or it cannot be written. *)
Definition _write_coverage_report (c : server_config) (s : server) : option Z * server :=
  match sc_coverage_report c with
  | None => (None, s)
  | Some path =>
      let merged := _merged_coverage (sv_worker_coverage s) in
      if sc_writable c
      then (Some (Z.of_nat (size (cr_files merged))),
            emit [EWrote path (format_lcov (cr_files merged)); EWroteMeta (_meta_path path) (meta_of merged)] s)
      else (None, s)
  end.

(** *** Attach negotiation *)

(** [str.lower] on the letters of ASCII: no other code point is lowered to [y]
    or [n], the only answers compared with. *)
Definition lower (s : ustr) : ustr :=
  (fun ch => if (65 <=? ch) && (ch <=? 90) then ch + 32 else ch) <$> s.

(** Lines are read until one is [y] or [n]; the end of input declines. *)
Fixpoint _prompt_attach (stdin : list ustr) : bool * list ustr :=
  match stdin with
  | [] => (false, [])
  | line :: stdin =>
      let response := lower (strip line) in
      if decide (response = u "y") then (true, stdin)
      else if decide (response = u "n") then (false, stdin)
      else _prompt_attach stdin
  end.

(** [_negotiate] up to [conn.recv()]: the decision sent to the worker, and
    whether the user was asked (so that the progress rows restart after it). *)
Definition _negotiate (c : server_config) (index : nat) (render : sevent) (s : server) : res (bool * bool * server) :=
  let prompt := has_progress c && sc_stdin_isatty c in
  let '(attach, s) :=
    if prompt
    then let '(a, rest) := _prompt_attach (sv_stdin s) in
         (a, emit [EStop; render]
               (mkServer (sv_processes s) (sv_fuzz_stats s) (sv_crash_logs s) (sv_worker_coverage s)
                  (sv_current_tests s) (sv_test_reports s) (sv_reports s) (sv_keyboard_interrupt s) rest (sv_events s)))
    else (false, s) in
  if bool_decide (index ∈ sv_processes s) then Ok (attach, prompt, s) else Raise (KeyError "processes").

(** *** One message *)

(** After a message the loop goes on, or waits for the worker's ack having
    sent [attach]. *)
Inductive reaction :=
  | Continue (s : server)
  | AwaitAck (index : nat) (attach prompted : bool) (s : server).

Definition reaction_server (r : reaction) : server :=
  match r with Continue s | AwaitAck _ _ _ s => s end.

Definition await (index : nat) (r : res (bool * bool * server)) : res reaction :=
  match r with
  | Ok (attach, prompt, s) => Ok (AwaitAck index attach prompt s)
  | Raise e => Raise e
  end.

Definition add_report (r : TestReport) (s : server) : server :=
  mkServer (sv_processes s) (sv_fuzz_stats s) (sv_crash_logs s) (sv_worker_coverage s) (sv_current_tests s)
    (sv_test_reports s) (sv_reports s ++ [r]) (sv_keyboard_interrupt s) (sv_stdin s) (sv_events s).

Definition on_report (c : server_config) (index : nat) (loaded : res TestReport) (s : server) : res reaction :=
  report ← loaded;
  s ← _process_teststatus c index report (add_report report s);
  s ← _update_progress c index s;
  Ok (Continue s).

Definition handle (c : server_config) (m : msg) (s : server) : res reaction :=
  match m with
  | MProtocol i nodeid =>
      let s := mkServer (sv_processes s) (sv_fuzz_stats s) (sv_crash_logs s) (sv_worker_coverage s)
                 (<[i := Some nodeid]> (sv_current_tests s)) (sv_test_reports s) (sv_reports s)
                 (sv_keyboard_interrupt s) (sv_stdin s) (sv_events s) in
      s ← _update_progress c i s; Ok (Continue s)
  | MReportPickle i payload => on_report c i (unpickle_report payload) s
  | MReportJson i payload => on_report c i (report_from_json payload) s
  | MException i payload =>
      e ← unpickle_exc payload;
      await i (_negotiate c i (ERenderException i e) s)
  | MBreakpoint i b => await i (_negotiate c i (ERenderBreakpoint i b) s)
  | MWarning _ w => Ok (Continue (emit [EWarning w] s))
  | MInternalError i payload =>
      e ← unpickle_exc payload;
      Ok (Continue (emit [EInternalError i e] s))
  | MFuzzStats _ stats =>
      Ok (Continue (mkServer (sv_processes s) (merge_session_stats (sv_fuzz_stats s) stats) (sv_crash_logs s)
            (sv_worker_coverage s) (sv_current_tests s) (sv_test_reports s) (sv_reports s)
            (sv_keyboard_interrupt s) (sv_stdin s) (sv_events s)))
  | MCoverage i report =>
      let s := mkServer (sv_processes s) (sv_fuzz_stats s) (sv_crash_logs s)
                 (<[i := report]> (sv_worker_coverage s)) (sv_current_tests s) (sv_test_reports s) (sv_reports s)
                 (sv_keyboard_interrupt s) (sv_stdin s) (sv_events s) in
      Ok (Continue (if Qle_bool (sc_coverage_sync c) 0 then s else (_write_coverage_report c s).2))
  | MCrashLog i nodeid relpath =>
      Ok (Continue (mkServer (sv_processes s) (sv_fuzz_stats s) (sv_crash_logs s ++ [(i, nodeid, relpath)])
            (sv_worker_coverage s) (sv_current_tests s) (sv_test_reports s) (sv_reports s)
            (sv_keyboard_interrupt s) (sv_stdin s) (sv_events s)))
  | MKeyboardInterrupt i =>
      if bool_decide (i < length (sv_keyboard_interrupt s))%nat
      then Ok (Continue (mkServer (sv_processes s) (sv_fuzz_stats s) (sv_crash_logs s) (sv_worker_coverage s)
             (sv_current_tests s) (sv_test_reports s) (sv_reports s)
             (<[i := true]> (sv_keyboard_interrupt s)) (sv_stdin s) (sv_events s)))
      else Raise IndexError
  | MSessionFinish i exitstatus =>
      match sv_keyboard_interrupt s !! i with
      | None => Raise IndexError
      | Some interrupted =>
          let s := emit [if has_progress c then EProgress i (finish_description i interrupted exitstatus)
                         else EPlain (_plain_status i interrupted exitstatus)] s in
          if bool_decide (i ∈ sv_processes s)
          then Ok (Continue (mkServer (sv_processes s ∖ {[i]}) (sv_fuzz_stats s) (sv_crash_logs s)
                 (sv_worker_coverage s) (sv_current_tests s) (sv_test_reports s) (sv_reports s)
                 (sv_keyboard_interrupt s) (sv_stdin s) (sv_events s)))
          else Raise (KeyError "processes")
      end
  | MUnknown _ _ => Ok (Continue s)
  end.

(** The ack (or the end of the pipe): the progress rows resume. *)
Definition resume (prompted : bool) (s : server) : server := if prompted then emit [EStart] s else s.

(** *** The end of the loop *)

Inductive loop_result :=
  | RunDone                    (** [return True] *)
  | RunInterrupted             (** [raise KeyboardInterrupt] *)
  | RunFailed (e : exn).

(** The [finally]: every buffered report is replayed into the session. *)
Definition replay (s : server) : server := emit (EReplay <$> sv_reports s) s.

Definition end_loop (s : server) : loop_result * server :=
  (if existsb id (sv_keyboard_interrupt s) then RunInterrupted else RunDone, replay s).

(** The whole loop on a queue whose messages are known and whose acks arrive:
    it stops when no process is left. *)
Fixpoint run_loop (c : server_config) (ms : list msg) (s : server) : option (loop_result * server) :=
  if bool_decide (sv_processes s = ∅) then Some (end_loop s)
  else
    match ms with
    | [] => None                (* blocked in [queue.get()] *)
    | m :: ms =>
        match handle c m s with
        | Ok (Continue s) => run_loop c ms s
        | Ok (AwaitAck _ _ prompted s) => run_loop c ms (resume prompted s)
        | Raise e => Some (RunFailed e, replay s)
        end
    end.

(** ** Teardown

    The processes still in the table are interrupted and waited for.  [started]
    tells whether [p.pid] is set and [running] whether the process can still be
    signalled. *)
Inductive teardown :=
  | TCancelJoinThread
  | TInterrupt (index : nat)
  | TJoin (index : nat)
  | TCloseConn (index : nat)
  | TCloseQueue.

Definition teardown_worker (started running : nat -> bool) (i : nat) : list teardown :=
  ((if started i && running i then [TInterrupt i] else []) ++ [TJoin i; TCloseConn i])%list.

Definition pytest_sessionfinish (started running : nat -> bool) (s : server) : list teardown :=
  ([TCancelJoinThread] ++ flat_map (teardown_worker started running) (merge_sort le (elements (sv_processes s))) ++
   [TCloseQueue])%list.

(** ** The terminal summary *)

Definition seed_line (c : server_config) (i : nat) : res ustr :=
  match sc_seeds c !! i with
  | None => Raise IndexError
  | Some seed =>
      Ok (u "  #" ++ int_str (Z.of_nat i) ++ u ": " ++ bytes_hex seed ++ u "   (reproduce: pytest --seed " ++
          bytes_hex seed ++ u ")")%list
  end.

Definition crash_line (l : nat * string * string) : string :=
  let '(i, nodeid, relpath) := l in "  #" +:+ pretty i +:+ " " +:+ nodeid +:+ ": " +:+ relpath.

Definition dist_name (d : distribution) : string :=
  match d with Uniform => "uniform" | Duplicated => "duplicated" | OtherDist n => n end.

(** The aggregated tables, one per class, in the order of the names. *)
Definition _print_fuzz_stats (c : server_config) (s : server)
    : list (string * (list (list string) * list stats_warning)) :=
  (fun name =>
     let entry := default zero_entry (sv_fuzz_stats s !! name) in
     (name +:+ " — aggregated flow stats across " +:+ pretty (sc_proc_count c) +:+ " workers (" +:+
      pretty (en_sequences entry) +:+ " sequences, " +:+ pretty (en_steps entry) +:+ " flow-steps)",
      build_stats_table (en_flows entry)))
  <$> sorted_keys (sv_fuzz_stats s).

(** [_print_coverage]: the heading and the closing line around the table, and
    the server after writing the report. *)
Definition _print_coverage (c : server_config) (s : server) : option (string * option ustr) * server :=
  if decide (sv_worker_coverage s = ∅) then (None, s)
  else
    let heading := "Coverage (merged from " +:+ pretty (size (sv_worker_coverage s)) +:+ " of " +:+
                   pretty (sc_proc_count c) +:+ " workers):" in
    match sc_coverage_report c with
    | None => (Some (heading, None), s)
    | Some path =>
        match _write_coverage_report c s with
        | (None, s) => (Some (heading, Some (u "  " ++ [0x26A0] ++ u " could not write " ++ path)%list), s)
        | (Some n, s) => (Some (heading, Some (u "  wrote " ++ path ++ u " (" ++ int_str n ++ u " file(s))")%list), s)
        end
    end.

Record summary_lines := mkSummary {
  sm_tables : list (string * (list (list string) * list stats_warning));
  sm_heading : string;
  sm_seeds : list ustr;
  sm_coverage : option (string * option ustr);
  sm_crash_logs : list string;
}.

Definition pytest_terminal_summary (c : server_config) (s : server) : res (summary_lines * server) :=
  seeds ← mapM_res (seed_line c) (seq 0 (sc_proc_count c));
  let '(cov, s') := _print_coverage c s in
  Ok (mkSummary (_print_fuzz_stats c s)
        ("Ran " +:+ pretty (sc_proc_count c) +:+ " workers, dist=" +:+ dist_name (sc_dist c) +:+ ". Per-worker seeds:")
        seeds cov
        (match sv_crash_logs s with [] => [] | logs => "Crash logs:" :: (crash_line <$> logs) end),
      s').

End Runner.
