(* ===== verification/MpWorker.v ===== *)
(** * The parallel runner: workers ([_mp_worker.py])

    A worker's plugin runs its handlers in a pytest session and talks to the
    server over the queue and its pipe.  A run of a worker is a [wprog], the
    sequence of its queue and pipe operations, which branches on what it
    receives; the handlers are written in a monad [W] that threads the plugin's
    state and exceptions, in the order of the source.  What pytest, the tests
    and the user do is the input: each test is the list of hooks it triggers. *)

From Stdlib Require Import ZArith Lia.
From Stdlib Require Import Strings.Ascii.
From stdpp Require Import base decidable option list gmap strings pretty.
From S2P Require Import Prelude.
From S2P Require Import Stdio.
From S2P Require Import Fuzzing.
From S2P Require Import Coverage.
From S2P Require Import MpServer.
#[local] Open Scope string_scope.
#[local] Open Scope Z_scope.

(** Acknowledgements on the pipe. *)
Inductive ack := ExceptionHandled | BreakpointHandled.

Section Worker.
Context `{Pytest}.

(** ** Operations on the queue and the pipe *)
Inductive wprog :=
  | WDone
  | WPut (m : msg) (k : wprog)              (** [queue.put(m)]: waits for room *)
  | WTryPut (m : msg) (k : wprog)           (** [queue.put(m, timeout=...)], dropped on failure *)
  | WSend (a : ack) (k : wprog)             (** [conn.send(a)] *)
  | WRecv (k : bool -> wprog) (sigint : wprog).
      (** [conn.recv()]: the decision; or SIGINT arrives while it waits *)

(** ** The plugin's state *)
Record wstate := mkWState {
  ws_keyboard_interrupt : bool;
  ws_exception_handled : bool;
  ws_breakpoint_ack_pending : bool;
  ws_breakpoint_atexit_armed : bool;
  ws_stdio : worker_stdio;
  ws_debugged : list string;      (** debugger sessions opened, for the record *)
}.

(** Exceptions that leave a handler. *)
Inductive wexn :=
  | WExit                       (** [pytest.exit(..., returncode=0)] *)
  | WFailed (m : string)        (** [session.Failed] *)
  | WInterrupted (m : string)   (** [session.Interrupted] *)
  | WError (e : exc_info).      (** anything else *)

(** State, exceptions and the rest of the run. *)
Definition W (A : Type) : Type := wstate -> (wexn + A -> wstate -> wprog) -> wprog.

#[global] Instance W_ret : MRet W := fun A a s k => k (inr a) s.
#[global] Instance W_bind : MBind W := fun A B f m s k =>
  m s (fun r s => match r with inl e => k (inl e) s | inr a => f a s k end).

Definition wraise {A} (e : wexn) : W A := fun s k => k (inl e) s.
Definition wget : W wstate := fun s k => k (inr s) s.
Definition wmodify (f : wstate -> wstate) : W unit := fun s k => k (inr tt) (f s).
Definition put (m : msg) : W unit := fun s k => WPut m (k (inr tt) s).
Definition try_put (m : msg) : W unit := fun s k => WTryPut m (k (inr tt) s).
Definition send (a : ack) : W unit := fun s k => WSend a (k (inr tt) s).

(** [try: m finally: fin]. *)
Definition try_finally {A} (m : W A) (fin : W unit) : W A := fun s k =>
  m s (fun r s => fin s (fun r' s => match r' with inl e => k (inl e) s | inr _ => k r s end)).

Definition set_keyboard (s : wstate) : wstate :=
  mkWState true (ws_exception_handled s) (ws_breakpoint_ack_pending s) (ws_breakpoint_atexit_armed s)
    (ws_stdio s) (ws_debugged s).
Definition set_handled (b : bool) (s : wstate) : wstate :=
  mkWState (ws_keyboard_interrupt s) b (ws_breakpoint_ack_pending s) (ws_breakpoint_atexit_armed s)
    (ws_stdio s) (ws_debugged s).
Definition set_pending (b : bool) (s : wstate) : wstate :=
  mkWState (ws_keyboard_interrupt s) (ws_exception_handled s) b (ws_breakpoint_atexit_armed s)
    (ws_stdio s) (ws_debugged s).
Definition set_armed (s : wstate) : wstate :=
  mkWState (ws_keyboard_interrupt s) (ws_exception_handled s) (ws_breakpoint_ack_pending s) true
    (ws_stdio s) (ws_debugged s).
Definition on_stdio (f : worker_stdio -> worker_stdio) (s : wstate) : wstate :=
  mkWState (ws_keyboard_interrupt s) (ws_exception_handled s) (ws_breakpoint_ack_pending s)
    (ws_breakpoint_atexit_armed s) (f (ws_stdio s)) (ws_debugged s).
Definition log_debug (what : string) (s : wstate) : wstate :=
  mkWState (ws_keyboard_interrupt s) (ws_exception_handled s) (ws_breakpoint_ack_pending s)
    (ws_breakpoint_atexit_armed s) (ws_stdio s) (ws_debugged s ++ [what]).

(** ** The worker's configuration

    Beside the constructor's arguments: pytest's options, and what the session
    will answer (the statistics and the coverage when the loop ends, the exit
    status pytest computes). *)
Record worker_config := mkWorkerConfig {
  wc_index : nat;
  wc_attach : bool;
  wc_proc_count : Z;                       (** [coverage_proc_count(config)] *)
  wc_live : option cov_report;             (** the first snapshot, when live export is on *)
  wc_final_stats : stats_registry;
  wc_final_report : option cov_report;     (** [collect_coverage(config)] *)
  wc_exitstatus : wexn + unit -> Z;
}.

(** Decoding of the [-1] that stands for all workers. *)
Definition _COVERAGE_ALL : Z := -1.
Definition _collects_coverage (c : worker_config) : bool :=
  (wc_proc_count c =? _COVERAGE_ALL) || (Z.of_nat (wc_index c) <? wc_proc_count c).

(** The handler of SIGINT, run when the signal arrives. *)
Definition sigint_handler {A} (c : worker_config) : W A :=
  wmodify set_keyboard;;
  put (MKeyboardInterrupt (wc_index c));;
  wraise WExit.

Definition recv (c : worker_config) : W bool := fun s k =>
  WRecv (fun b => k (inr b) s) (sigint_handler c s k).

(** ** Interactive debugging *)

(** [pickle.dumps], with the exception it raises. *)
Definition dumps (e : exc_info) : W pickled :=
  match pickle_exc e with
  | Some p => mret p
  | None => wraise (WError (mkExcInfo "PicklingError" (ei_type e) ""))
  end.

Definition dumps_or_repr (e : exc_info) : W pickled :=
  match pickle_exc e with
  | Some p => mret p
  | None => dumps (repr_standin e)
  end.

(** The triple arrives as three optional values; [dbg] is what
    [attach_debugger] raises, if it does. *)
Definition _exception_handler (c : worker_config) (e : option exc_info) (dbg : option exc_info) : W unit :=
  s ← wget;
  if ws_keyboard_interrupt s then mret tt
  else if ws_exception_handled s then mret tt
  else
    wmodify (set_handled true);;
    wmodify (on_stdio _cleanup_stdio);;
    match e with
    | None => wraise (WError (mkExcInfo "AssertionError" "" ""))
    | Some e =>
        pickled ← dumps_or_repr e;
        put (MException (wc_index c) pickled);;
        attach ← recv c;
        try_finally
          (if (attach : bool)
           then wmodify (log_debug (ei_value e));;
                match dbg with Some err => wraise (WError err) | None => mret tt end
           else mret tt)
          (wmodify (on_stdio _setup_stdio);;
           send ExceptionHandled)
    end.

(** [_breakpoint_hook]: returns with the debugger armed on the caller's frame;
    the session ends at the user's command ([_finish_breakpoint]) or at exit. *)
Definition _breakpoint_hook (c : worker_config) (b : bp_info) : W unit :=
  wmodify (on_stdio _cleanup_stdio);;
  put (MBreakpoint (wc_index c) b);;
  attach ← recv c;
  if (attach : bool)
  then wmodify (set_pending true);;
       wmodify set_armed;;
       wmodify (log_debug (bp_function b))
  else wmodify (on_stdio _setup_stdio);;
       send BreakpointHandled.

Definition _ack_breakpoint : W unit :=
  s ← wget;
  if ws_breakpoint_ack_pending s
  then wmodify (set_pending false);; send BreakpointHandled
  else mret tt.

Definition _finish_breakpoint : W unit :=
  wmodify (on_stdio _setup_stdio);;
  _ack_breakpoint.

(** ** Forwarded hooks *)

Definition pytest_runtest_logreport (c : worker_config) (r : TestReport) : W unit :=
  s ← wget;
  if ws_keyboard_interrupt s then mret tt else put (dump_report (wc_index c) r).

Definition _coverage_sink (c : worker_config) (r : cov_report) : W unit := try_put (MCoverage (wc_index c) r).
Definition _crashlog_sink (c : worker_config) (nodeid relpath : string) : W unit :=
  put (MCrashLog (wc_index c) nodeid relpath).
Definition pytest_warning_recorded (c : worker_config) (w : warning) : W unit := put (MWarning (wc_index c) w).

Definition pytest_internalerror (c : worker_config) (e : exc_info) : W unit :=
  pickled ← dumps_or_repr e;
  put (MInternalError (wc_index c) pickled).

Definition pytest_runtest_setup : W unit := wmodify (set_handled false).
Definition pytest_runtest_protocol (c : worker_config) (nodeid : string) : W unit :=
  put (MProtocol (wc_index c) nodeid).
Definition pytest_sessionfinish (c : worker_config) (exitstatus : Z) : W unit :=
  put (MSessionFinish (wc_index c) exitstatus).

(** ** The run loop *)

(** What happens while a test runs: hooks of pytest, calls of user code
    ([breakpoint()]), commands that leave the debugger (continue, quit or end of
    input, typed in a debugger that an accepted breakpoint has created), and
    signals. *)
Inductive hook :=
  | HSetup
  | HReport (r : TestReport)
  | HException (e : option exc_info) (dbg : option exc_info)
  | HBreakpoint (b : bp_info)
  | HPdbExit
  | HWarning (w : warning)
  | HCrashLog (nodeid relpath : string)
  | HSnapshot (r : cov_report)
  | HSigint.

Definition run_hook (c : worker_config) (h : hook) : W unit :=
  match h with
  | HSetup => pytest_runtest_setup
  | HReport r => pytest_runtest_logreport c r
  | HException e dbg => if wc_attach c then _exception_handler c e dbg else mret tt
  | HBreakpoint b => _breakpoint_hook c b
  | HPdbExit => s ← wget; if ws_breakpoint_atexit_armed s then _finish_breakpoint else mret tt
  | HWarning w => pytest_warning_recorded c w
  | HCrashLog n p => _crashlog_sink c n p
  | HSnapshot r => if _collects_coverage c then _coverage_sink c r else mret tt
  | HSigint => sigint_handler c
  end.

Fixpoint run_hooks (c : worker_config) (hs : list hook) : W unit :=
  match hs with
  | [] => mret tt
  | h :: hs => run_hook c h;; run_hooks c hs
  end.

(** A collected test: its node id, what happens when it runs (it depends on the
    next test, for which pytest keeps the shared fixtures alive), and the session
    flags after it. *)
Record item := mkItem {
  it_nodeid : string;
  it_hooks : option string -> list hook;
  it_shouldfail : option string;
  it_shouldstop : option string;
}.

Definition run_item (c : worker_config) (it : item) (nextitem : option item) : W unit :=
  pytest_runtest_protocol c (it_nodeid it);;
  run_hooks c (it_hooks it (it_nodeid <$> nextitem));;
  match it_shouldfail it with
  | Some m => wraise (WFailed m)
  | None => match it_shouldstop it with
            | Some m => wraise (WInterrupted m)
            | None => mret tt
            end
  end.

Fixpoint run_items (c : worker_config) (items : list item) (indexes : list nat) : W unit :=
  match indexes with
  | [] => mret tt
  | i :: indexes =>
      let out_of_range := WError (mkExcInfo "IndexError" "list index out of range" "") in
      match items !! i, indexes with
      | Some it, [] => run_item c it None
      | Some it, j :: _ =>
          match items !! j with
          | Some next => run_item c it (Some next);; run_items c items indexes
          | None => wraise out_of_range
          end
      | None, _ => wraise out_of_range
      end
  end.

Definition finally_reports (c : worker_config) : W unit :=
  put (MFuzzStats (wc_index c) (wc_final_stats c));;
  if _collects_coverage c
  then match wc_final_report c with
       | Some r => put (MCoverage (wc_index c) r)
       | None => mret tt
       end
  else mret tt.

(** [pytest_runtestloop], with the index list the server sent. *)
Definition pytest_runtestloop (c : worker_config) (testsfailed : Z) (continue_on_errors collectonly : bool)
    (items : list item) (indexes : list nat) : W unit :=
  if negb (testsfailed =? 0) && negb continue_on_errors
  then wraise (WInterrupted (pretty testsfailed +:+ (if testsfailed =? 1 then " error" else " errors") +:+ " during collection"))
  else if collectonly then mret tt
  else
    match wc_live c with
    | Some r => if _collects_coverage c then _coverage_sink c r else mret tt
    | None => mret tt
    end;;
    try_finally (run_items c items indexes) (finally_reports c).

(** [pytest_collection_finish]: the list sent over the pipe. *)
Definition pytest_collection_finish (items : list item) : list string := it_nodeid <$> items.

(** ** A whole session

    pytest reports an unexpected exception through [pytest_internalerror] and
    then finishes the session; interpreter exit runs the [atexit] fallback. *)
Definition end_session (c : worker_config) (r : wexn + unit) : W unit :=
  try_finally
    (match r with inl (WError e) => pytest_internalerror c e | _ => mret tt end)
    (pytest_sessionfinish c (wc_exitstatus c r)).

Definition session_end (c : worker_config) (r : wexn + unit) (s : wstate) : wprog :=
  end_session c r s (fun _ s => (if ws_breakpoint_atexit_armed s then _ack_breakpoint else mret tt) s (fun _ _ => WDone)).

(** [pytest_configure] redirects the streams, [pytest_runtestloop] runs, the
    session finishes. *)
Definition initial_wstate (tee : bool) (log_file : string) : wstate :=
  mkWState false false false false
    (_setup_stdio (mkWStdio tee log_file [] (mkStdio (SConsole Out) (SConsole Err) [] [] ∅))) [].

Definition worker_session (c : worker_config) (tee : bool) (log_file : string) (testsfailed : Z)
    (continue_on_errors collectonly : bool) (items : list item) (indexes : list nat) : wprog :=
  pytest_runtestloop c testsfailed continue_on_errors collectonly items indexes (initial_wstate tee log_file)
    (session_end c).

(** ** [_source_snippet] *)

Fixpoint enum_from {A} (n : Z) (l : list A) : list (Z * A) :=
  match l with [] => [] | x :: l => (n, x) :: enum_from (n + 1) l end.

Definition rjust (width : nat) (s : string) : string :=
  String.string_of_list_ascii (replicate (width - String.length s) " "%char) +:+ s.

(** Python slices clamp their bounds; both are non-negative here or clamped by
    the code, except [end_line] which may be negative. *)
Definition py_slice {A} (l : list A) (a b : Z) : list A :=
  let n := Z.of_nat (length l) in
  let norm z := if z <? 0 then Z.max 0 (z + n) else Z.min z n in
  let a := norm a in let b := norm b in
  take (Z.to_nat (b - a)) (drop (Z.to_nat a) l).

(** [source] is [inspect.getsourcelines(frame)], [None] when it raises. *)
Definition _source_snippet (source : option (list string * Z)) (co_filename : string) (lineno : Z) : string :=
  match source with
  | None => co_filename +:+ ":" +:+ pretty lineno +:+ String "010" EmptyString
  | Some (source_lines, starting_line_no) =>
      let lines_to_show := 10 in
      let relative_lineno := lineno - starting_line_no in
      let start_line := Z.max 0 (relative_lineno - lines_to_show / 2) in
      let end_line := Z.min (Z.of_nat (length source_lines)) (relative_lineno + lines_to_show / 2) in
      let subset := py_slice source_lines start_line end_line in
      let width := String.length (pretty (starting_line_no + end_line)) in
      String.concat ""
        ((fun p : Z * string =>
            let '(idx, line) := p in
            let abs_no := starting_line_no + start_line + idx in
            let marker := if start_line + idx =? relative_lineno then "-->" else "   " in
            marker +:+ " " +:+ rjust width (pretty abs_no) +:+ " " +:+ line) <$> enum_from 0 subset)
  end.

End Worker.
