(* ===== verification/MpSystem.v ===== *)
(** * The parallel runner: server and workers together

    The event loop of [_mp_server] and the workers of [_mp_worker] as one
    transition system: a bounded queue (the source bounds it to 1000), a pipe in
    each direction per worker, and a scheduler that picks who moves.  [sy_log] is
    the history of the queue, kept for the statements. *)

From Stdlib Require Import ZArith Lia.
From stdpp Require Import base decidable option list gmap strings relations.
From S2P Require Import Prelude.
From S2P Require Import Stdio.
From S2P Require Import Utf8.
From S2P Require Import Values.
From S2P Require Import Coverage.
From S2P Require Import MpServer.
From S2P Require Import MpWorker.
#[local] Open Scope nat_scope.

Section System.
Context `{Pytest} (c : server_config) (cap : nat).

(** A worker process: what it has still to do and its pipe. *)
Record wproc := mkProc { pr_prog : wprog; pr_in : list bool; pr_out : list ack }.

(** Where the server is: in the loop, waiting for an ack in [_negotiate], or
    out of the loop. *)
Inductive phase :=
  | PLoop (s : server)
  | PAwait (index : nat) (prompted : bool) (s : server)
  | PEnd (r : loop_result) (s : server).

Record sys := mkSys {
  sy_queue : list msg;
  sy_phase : phase;
  sy_workers : list wproc;
  sy_log : list msg;
}.

Definition push (m : msg) (s : sys) (ws : list wproc) : sys :=
  mkSys (sy_queue s ++ [m]) (sy_phase s) ws (sy_log s ++ [m]).
Definition has_room (s : sys) : bool := bool_decide (length (sy_queue s) < cap).

Definition worker_step (i : nat) (s : sys) : option sys :=
  w ← sy_workers s !! i;
  let set p inp out := <[i := mkProc p inp out]> (sy_workers s) in
  match pr_prog w with
  | WDone => None
  | WPut m k => if has_room s then Some (push m s (set k (pr_in w) (pr_out w))) else None
  | WTryPut m k =>
      Some (if has_room s then push m s (set k (pr_in w) (pr_out w))
            else mkSys (sy_queue s) (sy_phase s) (set k (pr_in w) (pr_out w)) (sy_log s))
  | WSend a k => Some (mkSys (sy_queue s) (sy_phase s) (set k (pr_in w) (pr_out w ++ [a])) (sy_log s))
  | WRecv k _ =>
      match pr_in w with
      | b :: inp => Some (mkSys (sy_queue s) (sy_phase s) (set (k b) inp (pr_out w)) (sy_log s))
      | [] => None
      end
  end.

(** SIGINT delivered to a worker blocked in [conn.recv()]. *)
Definition sigint_step (i : nat) (s : sys) : option sys :=
  w ← sy_workers s !! i;
  match pr_prog w with
  | WRecv _ k => Some (mkSys (sy_queue s) (sy_phase s) (<[i := mkProc k (pr_in w) (pr_out w)]> (sy_workers s)) (sy_log s))
  | _ => None
  end.

(** [conn.send(attach)]. *)
Definition deliver (i : nat) (attach : bool) (ws : list wproc) : list wproc :=
  alter (fun w => mkProc (pr_prog w) (pr_in w ++ [attach]) (pr_out w)) i ws.

Definition server_step (s : sys) : option sys :=
  match sy_phase s with
  | PLoop sv =>
      if bool_decide (sv_processes sv = ∅)
      then let '(r, sv) := end_loop sv in Some (mkSys (sy_queue s) (PEnd r sv) (sy_workers s) (sy_log s))
      else
        match sy_queue s with
        | [] => None
        | m :: q =>
            match handle c m sv with
            | Ok (Continue sv) => Some (mkSys q (PLoop sv) (sy_workers s) (sy_log s))
            | Ok (AwaitAck i attach prompted sv) =>
                Some (mkSys q (PAwait i prompted sv) (deliver i attach (sy_workers s)) (sy_log s))
            | Raise e => Some (mkSys q (PEnd (RunFailed e) (replay sv)) (sy_workers s) (sy_log s))
            end
        end
  | PAwait i prompted sv =>
      w ← sy_workers s !! i;
      match pr_out w, pr_prog w with
      | _ :: out, _ =>
          Some (mkSys (sy_queue s) (PLoop (resume prompted sv))
                  (<[i := mkProc (pr_prog w) (pr_in w) out]> (sy_workers s)) (sy_log s))
      | [], WDone => Some (mkSys (sy_queue s) (PLoop (resume prompted sv)) (sy_workers s) (sy_log s))  (* EOFError *)
      | [], _ => None
      end
  | PEnd _ _ => None
  end.

Inductive choice := CServer | CWorker (i : nat) | CSigint (i : nat).

Definition sys_step (ch : choice) (s : sys) : option sys :=
  match ch with
  | CServer => server_step s
  | CWorker i => worker_step i s
  | CSigint i => sigint_step i s
  end.

(** Steps other than a signal that interrupts a negotiation. *)
Definition step (s s' : sys) : Prop := exists ch, (forall i, ch <> CSigint i) /\ sys_step ch s = Some s'.

Fixpoint run_schedule (chs : list choice) (s : sys) : option sys :=
  match chs with
  | [] => Some s
  | ch :: chs => s ← sys_step ch s; run_schedule chs s
  end.

(** ** The start: every worker has received its list *)
Record worker_input := mkInput {
  wi_config : worker_config;
  wi_tee : bool;
  wi_log : string;
  wi_testsfailed : Z;
  wi_continue : bool;
  wi_collectonly : bool;
  wi_items : list item;
  wi_indexes : list nat;
}.

Definition worker_prog (wi : worker_input) : wprog :=
  worker_session (wi_config wi) (wi_tee wi) (wi_log wi) (wi_testsfailed wi) (wi_continue wi) (wi_collectonly wi)
    (wi_items wi) (wi_indexes wi).

Definition start_system (stdin : list ustr) (ins : list worker_input) : sys :=
  mkSys [] (PLoop (initial_server (length ins) stdin)) ((fun wi => mkProc (worker_prog wi) [] []) <$> ins) [].

(** ** Termination: every step lowers a measure *)

Fixpoint wsize (p : wprog) : nat :=
  match p with
  | WDone => 0
  | WPut _ k | WTryPut _ k | WSend _ k => S (wsize k)
  | WRecv k sig => S (max (max (wsize (k true)) (wsize (k false))) (wsize sig))
  end.

Definition phase_weight (p : phase) : nat :=
  match p with PEnd _ _ => 0 | PLoop _ => 1 | PAwait _ _ _ => 2 end.

Definition workers_size (ws : list wproc) : nat := sum_list_with (fun w => wsize (pr_prog w)) ws.

Definition measure (s : sys) : nat :=
  3 * workers_size (sy_workers s) + 2 * length (sy_queue s) + phase_weight (sy_phase s).

Lemma workers_size_insert ws i w w' :
  ws !! i = Some w ->
  workers_size (<[i := w']> ws) + wsize (pr_prog w) = workers_size ws + wsize (pr_prog w').
Proof.
  revert i; induction ws as [|v ws IH]; intros [|i]; simpl; try done; unfold workers_size in *; simpl.
  - intros [= ->]. lia.
  - intros Hi. specialize (IH _ Hi). lia.
Qed.

Lemma workers_size_deliver i b ws : workers_size (deliver i b ws) = workers_size ws.
Proof.
  revert i; induction ws as [|v ws IH]; intros [|i]; unfold workers_size in *; simpl; try done.
  f_equal. apply (IH i).
Qed.

Lemma sys_step_measure ch s s' : sys_step ch s = Some s' -> measure s' < measure s.
Proof.
  unfold measure. destruct ch as [|i|i]; simpl.
  - unfold server_step. destruct (sy_phase s) as [sv|i p sv|]; [| |done].
    + case_bool_decide; [intros [= <-]; simpl; lia|].
      destruct (sy_queue s) as [|m q]; [done|].
      destruct (handle c m sv) as [[sv'|i a p sv']|e]; intros [= <-]; simpl; try lia.
      rewrite workers_size_deliver. lia.
    + intros (w & Hw & Hs)%bind_Some.
      destruct (pr_out w) as [|a out].
      * destruct (pr_prog w); simplify_eq; simpl; lia.
      * injection Hs as <-; simpl.
        pose proof (workers_size_insert _ _ _ (mkProc (pr_prog w) (pr_in w) out) Hw). simpl in *. lia.
  - unfold worker_step, push. intros (w & Hw & Hs)%bind_Some.
    destruct (pr_prog w) as [|m k|m k|a k|k sig] eqn:E; [done| | | |].
    1-2: pose proof (workers_size_insert _ _ _ (mkProc k (pr_in w) (pr_out w)) Hw) as Hsz;
      repeat case_match; simplify_eq; rewrite E in Hsz; simpl in *; rewrite ?length_app; simpl; lia.
    { pose proof (workers_size_insert _ _ _ (mkProc k (pr_in w) (pr_out w ++ [a])) Hw) as Hsz.
      injection Hs as <-. rewrite E in Hsz; simpl in *. lia. }
    destruct (pr_in w) as [|b inp]; [done|]. injection Hs as <-; simpl.
    pose proof (workers_size_insert _ _ _ (mkProc (k b) inp (pr_out w)) Hw) as Hsz.
    rewrite E in Hsz; simpl in Hsz. destruct b; lia.
  - unfold sigint_step. intros (w & Hw & Hs)%bind_Some.
    destruct (pr_prog w) as [| | | |k sig] eqn:E; simplify_eq; simpl.
    pose proof (workers_size_insert _ _ _ (mkProc sig (pr_in w) (pr_out w)) Hw) as Hsz.
    rewrite E in Hsz; simpl in Hsz. lia.
Qed.

Lemma step_measure s s' : step s s' -> measure s' < measure s.
Proof. intros (ch & _ & Hs). by eapply sys_step_measure. Qed.

End System.
