(* ===== verification/MpTyping.v ===== *)
(** * The parallel runner: the protocol a worker follows

    [wt i p]: the program [p] of worker [i] tags every message with its index,
    follows each negotiation message by waiting for the decision and then
    sending exactly one ack, and ends by putting its finish message.  The
    handlers of [_mp_worker.py] produce only such programs. *)

From Stdlib Require Import ZArith Lia.
From stdpp Require Import base decidable option list gmap strings.
From S2P Require Import Prelude.
From S2P Require Import Stdio.
From S2P Require Import Fuzzing.
From S2P Require Import Coverage.
From S2P Require Import MpServer.
From S2P Require Import MpWorker.
#[local] Open Scope nat_scope.

Section Protocol.
Context `{Pytest}.

Definition negotiates (m : msg) : bool :=
  match m with MException _ _ | MBreakpoint _ _ => true | _ => false end.
Definition finishes (m : msg) : bool := match m with MSessionFinish _ _ => true | _ => false end.

(** The payload can be rebuilt by the server. *)
Definition loadable (m : msg) : Prop :=
  match m with
  | MReportPickle _ p => exists r, unpickle_report p = Ok r
  | MReportJson _ p => exists r, report_from_json p = Ok r
  | MException _ p | MInternalError _ p => exists e, unpickle_exc p = Ok e
  | _ => True
  end.

(** A message that does not ask for an answer. *)
Definition plain (i : nat) (m : msg) : Prop :=
  msg_index m = i /\ negotiates m = false /\ finishes m = false /\ loadable m.

Inductive wt (i : nat) : wprog -> Prop :=
  | wt_finish st : wt i (WPut (MSessionFinish i st) WDone)
  | wt_put m k : plain i m -> wt i k -> wt i (WPut m k)
  | wt_try m k : plain i m -> wt i k -> wt i (WTryPut m k)
  | wt_ask m kb sig af kf :
      msg_index m = i -> negotiates m = true -> loadable m ->
      (forall b, kb b = WSend (af b) (kf b)) -> (forall b, wt i (kf b)) -> wt i (WPut m (WRecv kb sig)).

Hint Constructors wt : wake.

(** ** Handlers that follow the protocol *)

(** No ack is owed. *)
Definition quiet (s : wstate) : Prop := ws_breakpoint_ack_pending s = false.

Definition tame {A} (i : nat) (m : W A) : Prop := forall s k,
  quiet s -> (forall r s', quiet s' -> wt i (k r s')) -> wt i (m s k).

Lemma tame_ret {A} i (a : A) : tame i (mret a).
Proof. intros s k Hs Hk. by apply Hk. Qed.
Lemma tame_raise {A} i e : tame i (@wraise _ A e).
Proof. intros s k Hs Hk. by apply Hk. Qed.
Lemma tame_bind {A B} i (m : W A) (f : A -> W B) : tame i m -> (forall a, tame i (f a)) -> tame i (m ≫= f).
Proof.
  intros Hm Hf s k Hs Hk. apply Hm; [done|]. intros [e|a] s' Hs'; [by apply Hk|]. by apply Hf.
Qed.
Lemma tame_get i : tame i wget.
Proof. intros s k Hs Hk. by apply Hk. Qed.
Lemma tame_modify i f : (forall s, ws_breakpoint_ack_pending (f s) = ws_breakpoint_ack_pending s) -> tame i (wmodify f).
Proof. intros Hf s k Hs Hk. apply Hk. unfold quiet. by rewrite Hf. Qed.
Lemma tame_put i m : plain i m -> tame i (put m).
Proof. intros Hm s k Hs Hk. apply wt_put; [done|]. by apply Hk. Qed.
Lemma tame_try_put i m : plain i m -> tame i (try_put m).
Proof. intros Hm s k Hs Hk. apply wt_try; [done|]. by apply Hk. Qed.
Lemma tame_finally {A} i (m : W A) fin : tame i m -> tame i fin -> tame i (try_finally m fin).
Proof.
  intros Hm Hf s k Hs Hk. apply Hm; [done|]. intros r s' Hs'. apply Hf; [done|].
  intros [e|[]] s'' Hs''; by apply Hk.
Qed.

Hint Resolve tame_ret tame_raise tame_bind tame_get tame_put tame_try_put tame_finally : wake.

(** What the completion theorem relies on: reports survive their transport
    ([PytestLaws]) and an exception that pickles can be rebuilt. *)
Context {HL : PytestLaws}.
Hypothesis exceptions_load : forall e p, pickle_exc e = Some p -> exists e', unpickle_exc p = Ok e'.

Lemma dump_report_plain i r : plain i (dump_report i r).
Proof using HL.
  unfold dump_report. destruct (pickle_report r) as [p|] eqn:E.
  - apply unpickle_pickle in E. by repeat split; simpl; eauto.
  - destruct (from_to_json r) as (r' & E' & _). by repeat split; simpl; eauto.
Qed.

Lemma tame_dumps {A} i e (f : pickled -> W A) :
  (forall p, (exists e', unpickle_exc p = Ok e') -> tame i (f p)) -> tame i (dumps e ≫= f).
Proof using exceptions_load.
  intros Hf. unfold dumps. destruct (pickle_exc e) as [p|] eqn:E; intros s k Hs Hk; simpl.
  - apply Hf; eauto.
  - by apply Hk.
Qed.

Lemma tame_dumps_or_repr {A} i e (f : pickled -> W A) :
  (forall p, (exists e', unpickle_exc p = Ok e') -> tame i (f p)) -> tame i (dumps_or_repr e ≫= f).
Proof using exceptions_load.
  intros Hf. unfold dumps_or_repr. destruct (pickle_exc e) as [p|] eqn:E; [|by apply tame_dumps].
  intros s k Hs Hk; simpl. apply Hf; eauto.
Qed.

(** The negotiation of an exception: one question, one ack. *)
Lemma tame_exception_handler wc e dbg : tame (wc_index wc) (_exception_handler wc e dbg).
Proof using exceptions_load.
  unfold _exception_handler. apply tame_bind; [apply tame_get|intros s].
  destruct (ws_keyboard_interrupt s); [apply tame_ret|].
  destruct (ws_exception_handled s); [apply tame_ret|].
  apply tame_bind; [by apply tame_modify|intros _].
  apply tame_bind; [by apply tame_modify|intros _].
  destruct e as [e|]; [|apply tame_raise].
  apply tame_dumps_or_repr. intros p Hp. clear s. intros s k Hs Hk.
  set (s1 := on_stdio _setup_stdio s). set (s2 := on_stdio _setup_stdio (log_debug (ei_value e) s)).
  apply wt_ask with (af := fun _ => ExceptionHandled)
    (kf := fun b : bool => if b then k (match dbg with Some err => inl (WError err) | None => inr tt end) s2
                    else k (inr tt) s1); try done.
  - by intros [|]; destruct dbg.
  - intros [|]; by apply Hk.
Qed.

(** A debugger that is left without a breakpoint of its own owes nothing. *)
Lemma tame_pdb_exit wc : tame (wc_index wc) (run_hook wc HPdbExit).
Proof.
  simpl. apply tame_bind; [apply tame_get|intros s].
  destruct (ws_breakpoint_atexit_armed s); [|apply tame_ret].
  unfold _finish_breakpoint. apply tame_bind; [by apply tame_modify|intros _].
  intros s' k Hs' Hk. unfold _ack_breakpoint.
  change (wt (wc_index wc) ((if ws_breakpoint_ack_pending s'
      then wmodify (set_pending false);; send BreakpointHandled else mret tt) s' k)).
  rewrite Hs'. by apply Hk.
Qed.

(** A breakpoint whose debugger is left by a command: one question, one ack. *)
Lemma tame_breakpoint {A} wc b (rest : W A) :
  tame (wc_index wc) rest ->
  tame (wc_index wc) (run_hook wc (HBreakpoint b);; (run_hook wc HPdbExit;; rest)).
Proof.
  intros Hrest s k Hs Hk.
  set (s0 := on_stdio _cleanup_stdio s).
  set (s1 := on_stdio _setup_stdio s0).
  set (s2 := on_stdio _setup_stdio (log_debug (bp_function b) (set_armed (set_pending true s0)))).
  apply wt_ask with (af := fun _ => BreakpointHandled)
    (kf := fun b : bool => if b then rest (set_pending false s2) k
                    else (run_hook wc HPdbExit;; rest) s1 k); try done.
  - by intros [|].
  - intros [|]; [by apply Hrest|].
    by apply (tame_bind _ _ _ (tame_pdb_exit wc) (fun _ => Hrest)).
Qed.

(** Every breakpoint of a test is left at once: between the breakpoint and the
    command that leaves the debugger the test does not run on. *)
Fixpoint paced (hs : list hook) : bool :=
  match hs with
  | [] => true
  | HBreakpoint _ :: HPdbExit :: hs => paced hs
  | HBreakpoint _ :: _ => false
  | _ :: hs => paced hs
  end.

Lemma tame_hook wc h : (forall b, h <> HBreakpoint b) -> tame (wc_index wc) (run_hook wc h).
Proof using exceptions_load HL.
  destruct h; intros Hb; simpl; try by apply tame_put.
  - by apply tame_modify.
  - unfold pytest_runtest_logreport. apply tame_bind; [apply tame_get|intros s].
    destruct (ws_keyboard_interrupt s); [apply tame_ret|]. apply tame_put, dump_report_plain.
  - destruct (wc_attach wc); [apply tame_exception_handler|apply tame_ret].
  - by destruct (Hb b).
  - apply (tame_pdb_exit wc).
  - destruct (_collects_coverage wc); [by apply tame_try_put|apply tame_ret].
  - unfold sigint_handler. apply tame_bind; [by apply tame_modify|intros _].
    apply tame_bind; [by apply tame_put|intros _; apply tame_raise].
Qed.

Lemma tame_hooks wc hs : paced hs = true -> tame (wc_index wc) (run_hooks wc hs).
Proof using exceptions_load HL.
  remember (length hs) as n eqn:Hn. revert hs Hn.
  induction n as [n IH] using lt_wf_ind; intros hs -> Hp.
  destruct hs as [|h hs]; [apply tame_ret|].
  destruct (match h with HBreakpoint _ => true | _ => false end) eqn:Eb.
  - destruct h as [| | |b| | | | |]; try done. destruct hs as [|[] hs]; try done. simpl in Hp.
    apply tame_breakpoint. eapply IH; [|done|done]. simpl; lia.
  - apply tame_bind; [apply tame_hook; intros b ->; done|intros _].
    eapply IH; [|done|by destruct h]. simpl; lia.
Qed.

Definition paced_item (it : item) : Prop := forall next, paced (it_hooks it next) = true.

Lemma tame_item wc it next : paced_item it -> tame (wc_index wc) (run_item wc it next).
Proof using exceptions_load HL.
  intros Hp. unfold run_item. apply tame_bind; [by apply tame_put|intros _].
  apply tame_bind; [apply tame_hooks, Hp|intros _].
  destruct (it_shouldfail it); [apply tame_raise|]. destruct (it_shouldstop it); auto with wake.
Qed.

Lemma tame_items wc items indexes : Forall paced_item items -> tame (wc_index wc) (run_items wc items indexes).
Proof using exceptions_load HL.
  intros Hp. assert (forall i it, items !! i = Some it -> paced_item it) as Hpi
    by (intros; by eapply list.Forall_lookup_1).
  induction indexes as [|i js IH]; simpl; [apply tame_ret|].
  destruct (items !! i) as [it|] eqn:E; [|apply tame_raise].
  destruct js as [|j js]; [apply tame_item; eauto|].
  destruct (items !! j) as [next|]; [|apply tame_raise].
  apply tame_bind; [apply tame_item; eauto|intros _; exact IH].
Qed.

Lemma tame_finally_reports wc : tame (wc_index wc) (finally_reports wc).
Proof.
  apply tame_bind; [by apply tame_put|intros _].
  destruct (_collects_coverage wc); [|apply tame_ret].
  destruct (wc_final_report wc); [by apply tame_put|apply tame_ret].
Qed.

Lemma tame_runtestloop wc tf cont co items indexes :
  Forall paced_item items -> tame (wc_index wc) (pytest_runtestloop wc tf cont co items indexes).
Proof using exceptions_load HL.
  intros Hp. unfold pytest_runtestloop. destruct (_ && _); [apply tame_raise|].
  destruct co; [apply tame_ret|]. apply tame_bind.
  - destruct (wc_live wc); [|apply tame_ret].
    destruct (_collects_coverage wc); [by apply tame_try_put|apply tame_ret].
  - intros _. apply tame_finally; [by apply tame_items|apply tame_finally_reports].
Qed.

(** The end of the session puts the finish message, then exits owing no ack. *)
Lemma session_end_wt wc r s : quiet s -> wt (wc_index wc) (session_end wc r s).
Proof using exceptions_load.
  intros Hs. unfold session_end, end_session, try_finally.
  set (fin := fun (r0 : wexn + unit) (s0 : wstate) => (if ws_breakpoint_atexit_armed s0 then _ack_breakpoint else mret tt) s0 (fun _ _ => WDone)).
  assert (forall r0 s0, quiet s0 -> fin r0 s0 = WDone) as Hfin.
  { intros r0 s0 Hq. unfold fin. destruct (ws_breakpoint_atexit_armed s0); [|done].
    change ((if ws_breakpoint_ack_pending s0 then wmodify (set_pending false);; send BreakpointHandled
             else mret tt) s0 (fun _ _ => WDone) = WDone). by rewrite Hq. }
  assert (tame (wc_index wc) (match r with inl (WError e) => pytest_internalerror wc e | _ => mret tt end)) as Ht.
  { destruct r as [[]|]; try apply tame_ret. apply tame_dumps_or_repr. intros p Hp. by apply tame_put. }
  apply Ht; [done|]. intros r0 s0 Hs0.
  change (wt (wc_index wc) (WPut (MSessionFinish (wc_index wc) (wc_exitstatus wc r)) (fin r0 s0))).
  rewrite Hfin by done. constructor.
Qed.

Lemma worker_session_wt wc tee log tf cont co items indexes :
  Forall paced_item items -> wt (wc_index wc) (worker_session wc tee log tf cont co items indexes).
Proof using exceptions_load HL.
  intros Hp. apply tame_runtestloop; [done|done|]. intros r s Hs. by apply session_end_wt.
Qed.

End Protocol.
