(* ===== verification/MpProps.v ===== *)
(** * The parallel runner: no deadlock, termination and delivery *)

From Stdlib Require Import ZArith Lia QArith.
From stdpp Require Import base decidable option list gmap strings relations.
From S2P Require Import Prelude.
From S2P Require Import Utf8.
From S2P Require Import Values.
From S2P Require Import Stdio.
From S2P Require Import Fuzzing.
From S2P Require Import Coverage.
From S2P Require Import MpServer.
From S2P Require Import MpWorker.
From S2P Require Import MpSystem.
From S2P Require Import MpTyping.
#[local] Open Scope nat_scope.

(** ** What one message does to the server *)
Section Handle.
Context `{Pytest} (c : server_config) (n : nat).

(** The bookkeeping that keeps the loop's indexing in range. *)
Record sv_ok (sv : server) : Prop := mkSvOk {
  ok_processes : forall i, i ∈ sv_processes sv -> i < n;
  ok_keyboard : length (sv_keyboard_interrupt sv) = n;
  ok_reports : forall i, i < n -> is_Some (sv_test_reports sv !! i);
}.

Lemma initial_ok stdin : sv_ok (initial_server n stdin).
Proof.
  split; simpl.
  - intros i Hi. apply elem_of_set_seq in Hi. lia.
  - apply length_replicate.
  - intros i Hi. exists []. apply elem_of_list_to_map_1.
    + rewrite <- list_fmap_compose. simpl. rewrite list_fmap_id. apply NoDup_seq.
    + apply list_elem_of_fmap. exists i. split; [done|]. apply elem_of_seq. lia.
Qed.

(** The server after a step keeps its processes and its tables in range. *)
Definition same_shape (sv sv' : server) : Prop :=
  sv_processes sv' = sv_processes sv /\
  length (sv_keyboard_interrupt sv') = length (sv_keyboard_interrupt sv) /\
  forall i, is_Some (sv_test_reports sv !! i) -> is_Some (sv_test_reports sv' !! i).

Lemma same_shape_ok sv sv' : same_shape sv sv' -> sv_ok sv -> sv_ok sv'.
Proof.
  intros (Hp & Hk & Hr) [H1 H2 H3]. split.
  - by rewrite Hp.
  - by rewrite Hk.
  - auto.
Qed.

Lemma update_progress_shape i sv :
  is_Some (sv_test_reports sv !! i) -> exists sv', _update_progress c i sv = Ok sv' /\ same_shape sv sv'.
Proof.
  intros [l Hl]. unfold _update_progress. destruct (has_progress c).
  - rewrite Hl. eexists; split; [done|]. by repeat split.
  - exists sv. by repeat split.
Qed.

Lemma process_teststatus_shape i r sv :
  is_Some (sv_test_reports sv !! i) -> exists sv', _process_teststatus c i r sv = Ok sv' /\ same_shape sv sv' /\
    sv_reports sv' = sv_reports sv.
Proof.
  intros [l Hl]. unfold _process_teststatus. destruct (status_token c r); [|by exists sv].
  rewrite Hl. eexists; split; [done|]. split; [|done]. repeat split; simpl.
  intros j Hj. destruct (decide (i = j)) as [->|]; [rewrite lookup_insert_eq; eauto|by rewrite lookup_insert_ne].
Qed.

Lemma on_report_shape i r sv :
  is_Some (sv_test_reports sv !! i) -> exists sv', on_report c i (Ok r) sv = Ok (Continue sv') /\ same_shape sv sv'.
Proof.
  intros Hi. unfold on_report; simpl.
  destruct (process_teststatus_shape i r (add_report r sv)) as (s1 & -> & (P1 & K1 & R1) & _); [done|]; simpl.
  destruct (update_progress_shape i s1) as (s2 & -> & (P2 & K2 & R2)); [by apply R1|]; simpl.
  eexists; split; [done|]. split; [|split].
  - by rewrite P2, P1.
  - by rewrite K2, K1.
  - intros j Hj. by apply R2, R1.
Qed.

Lemma handle_plain i m sv :
  sv_ok sv -> i < n -> plain i m -> exists sv', handle c m sv = Ok (Continue sv') /\ same_shape sv sv'.
Proof.
  intros Hok Hi (Hm & Hneg & Hfin & Hload).
  assert (is_Some (sv_test_reports sv !! i)) as Hr by by apply Hok.
  destruct m; simpl in *; subst; try discriminate.
  - destruct (update_progress_shape i (mkServer (sv_processes sv) (sv_fuzz_stats sv) (sv_crash_logs sv)
      (sv_worker_coverage sv) (<[i := Some nodeid]> (sv_current_tests sv)) (sv_test_reports sv) (sv_reports sv)
      (sv_keyboard_interrupt sv) (sv_stdin sv) (sv_events sv))) as (s' & -> & Hs'); [done|]. by eexists.
  - destruct Hload as [r ->]. by apply on_report_shape.
  - destruct Hload as [r ->]. by apply on_report_shape.
  - by eexists; repeat split.
  - destruct Hload as [e ->]. by eexists; repeat split.
  - by eexists; repeat split.
  - eexists; split; [done|]. destruct (Qle_bool _ _); [by repeat split|].
    unfold _write_coverage_report. destruct (sc_coverage_report c); [|by repeat split].
    destruct (sc_writable c); by repeat split.
  - by eexists; repeat split.
  - rewrite bool_decide_true by by rewrite (ok_keyboard _ Hok).
    eexists; split; [done|]. repeat split; simpl; [|done]. by rewrite length_insert.
  - by eexists; repeat split.
Qed.

Lemma negotiate_shape i e sv :
  i ∈ sv_processes sv -> exists a p sv', _negotiate c i e sv = Ok (a, p, sv') /\ same_shape sv sv'.
Proof.
  intros Hi. unfold _negotiate. destruct (_ && _).
  - destruct (_prompt_attach (sv_stdin sv)) as [a rest].
    rewrite bool_decide_true by done. eexists _, _, _; split; [done|]. by repeat split.
  - rewrite bool_decide_true by done. eexists _, _, _; split; [done|]. by repeat split.
Qed.

Lemma handle_negotiates i m sv :
  msg_index m = i -> negotiates m = true -> loadable m -> i ∈ sv_processes sv ->
  exists a p sv', handle c m sv = Ok (AwaitAck i a p sv') /\ same_shape sv sv'.
Proof.
  intros Hm Hneg Hload Hi. destruct m; simpl in *; subst; try discriminate.
  - destruct Hload as [e ->]; simpl.
    destruct (negotiate_shape i (ERenderException i e) sv Hi) as (a & p & sv' & -> & Hs). by eexists _, _, _.
  - destruct (negotiate_shape i (ERenderBreakpoint i payload) sv Hi) as (a & p & sv' & -> & Hs). by eexists _, _, _.
Qed.

Lemma handle_finish i st sv :
  sv_ok sv -> i ∈ sv_processes sv ->
  exists sv', handle c (MSessionFinish i st) sv = Ok (Continue sv') /\ sv_ok sv' /\
    sv_processes sv' = sv_processes sv ∖ {[i]}.
Proof.
  intros Hok Hi. simpl.
  destruct (lookup_lt_is_Some_2 (sv_keyboard_interrupt sv) i) as [b ->].
  { rewrite (ok_keyboard _ Hok). by apply Hok. }
  rewrite bool_decide_true by done. eexists; split; [done|]. split; [|done].
  destruct Hok as [H1 H2 H3]. split; simpl; [|done|done].
  intros j Hj. apply H1. set_solver.
Qed.

Lemma resume_shape p sv : same_shape sv (resume p sv).
Proof. destruct p; by repeat split. Qed.

Lemma same_shape_trans a b d : same_shape a b -> same_shape b d -> same_shape a d.
Proof. intros (? & ? & ?) (? & ? & ?). split; [congruence|split; [congruence|auto]]. Qed.
End Handle.

(** ** The protocol between a worker, its pipe and the queue *)
Section Invariant.
Context `{Pytest} (c : server_config) (cap : nat).

(** The messages of worker [i] on the queue. *)
Definition qof (i : nat) (q : list msg) : list msg := filter (fun m => msg_index m = i) q.

Lemma qof_snoc_same i q m : msg_index m = i -> qof i (q ++ [m]) = qof i q ++ [m].
Proof. intros Hm. unfold qof. rewrite list.filter_app, list.filter_cons_True by done. done. Qed.
Lemma qof_snoc_other i q m : msg_index m <> i -> qof i (q ++ [m]) = qof i q.
Proof. intros Hm. unfold qof. rewrite list.filter_app, list.filter_cons_False by done. apply app_nil_r. Qed.
Lemma qof_cons_same i q m : msg_index m = i -> qof i (m :: q) = m :: qof i q.
Proof. intros Hm. unfold qof. by rewrite list.filter_cons_True. Qed.
Lemma qof_cons_other i q m : msg_index m <> i -> qof i (m :: q) = qof i q.
Proof. intros Hm. unfold qof. by rewrite list.filter_cons_False. Qed.

(** What a worker has queued agrees with where its program stands. *)
Inductive wq (i : nat) : wprog -> list msg -> Prop :=
  | wq_run p q : wt i p -> Forall (plain i) q -> wq i p q
  | wq_asked kb sig af kf m q :
      Forall (plain i) q -> msg_index m = i -> negotiates m = true -> loadable m ->
      (forall b, kb b = WSend (af b) (kf b)) -> (forall b, wt i (kf b)) -> wq i (WRecv kb sig) (q ++ [m])
  | wq_finished st q : Forall (plain i) q -> wq i WDone (q ++ [MSessionFinish i st]).

(** The stages of a negotiation: [awaited] when the server waits for this
    worker's ack, [alive] while the server counts it. *)
Inductive wstat (i : nat) : wproc -> list msg -> bool -> bool -> Prop :=
  | st_idle p q : wq i p q -> wstat i (mkProc p [] []) q false true
  | st_answered kb sig af kf b :
      (forall b, kb b = WSend (af b) (kf b)) -> (forall b, wt i (kf b)) ->
      wstat i (mkProc (WRecv kb sig) [b] []) [] true true
  | st_acking a k : wt i k -> wstat i (mkProc (WSend a k) [] []) [] true true
  | st_acked a p q : wq i p q -> wstat i (mkProc p [] [a]) q true true
  | st_over : wstat i (mkProc WDone [] []) [] false false.

Lemma wq_put i m k q : wq i (WPut m k) q -> msg_index m = i /\ wq i k (q ++ [m]).
Proof.
  inversion 1 as [p q' Hwt Hq| |]; subst. inversion Hwt; subst; simpl.
  - split; [done|]. by constructor.
  - match goal with Hp : plain _ _ |- _ => pose proof Hp as [? _] end. split; [done|].
    constructor; [done|]. apply Forall_app; split; [done|]. by constructor.
  - split; [done|]. by econstructor.
Qed.

Lemma wq_try i m k q : wq i (WTryPut m k) q -> msg_index m = i /\ wq i k (q ++ [m]) /\ wq i k q.
Proof.
  inversion 1 as [p q' Hwt Hq| |]; subst. inversion Hwt; subst.
  match goal with Hp : plain _ _ |- _ => pose proof Hp as [? _] end. split; [done|]. split; constructor; try done.
  apply Forall_app; split; [done|]. by constructor.
Qed.

Lemma wq_send i a k q : ~ wq i (WSend a k) q.
Proof. inversion 1 as [p q' Hwt Hq| |]; subst. inversion Hwt. Qed.

Lemma wq_cons i p m q :
  wq i p (m :: q) ->
  (plain i m /\ wq i p q) \/
  (exists kb sig af kf, p = WRecv kb sig /\ q = [] /\ msg_index m = i /\ negotiates m = true /\ loadable m /\
     (forall b, kb b = WSend (af b) (kf b)) /\ (forall b, wt i (kf b))) \/
  (exists st, p = WDone /\ q = [] /\ m = MSessionFinish i st).
Proof.
  inversion 1 as [p' q' Hwt Hq|kb sig af kf m' q' Hq Hi Hn Hl Hb Hk Hp Heq|st q' Hq Hp Heq]; subst.
  - inversion Hq; subst. left. split; [done|]. by constructor.
  - destruct q' as [|m0 q']; simpl in Heq; injection Heq as -> Heq; subst.
    + right; left. by repeat eexists.
    + inversion Hq; subst. left. split; [done|]. by econstructor.
  - destruct q' as [|m0 q']; simpl in Heq; injection Heq as <- Heq; subst.
    + right; right. by repeat eexists.
    + inversion Hq; subst. left. split; [done|]. by constructor.
Qed.

Definition awaiting (ph : phase) (i : nat) : bool :=
  match ph with PAwait j _ _ => bool_decide (i = j) | _ => false end.
Definition phase_server (ph : phase) : server :=
  match ph with PLoop s | PAwait _ _ s | PEnd _ s => s end.

Record inv (n : nat) (s : sys) : Prop := mkInv {
  inv_length : length (sy_workers s) = n;
  inv_server : sv_ok n (phase_server (sy_phase s));
  inv_worker : forall i w, sy_workers s !! i = Some w ->
    wstat i w (qof i (sy_queue s)) (awaiting (sy_phase s) i) (bool_decide (i ∈ sv_processes (phase_server (sy_phase s))));
  inv_queue : Forall (fun m => msg_index m < n) (sy_queue s);
  inv_end : forall r sv, sy_phase s = PEnd r sv -> (forall e, r <> RunFailed e) /\ sv_processes sv = ∅;
  inv_await : forall i p sv, sy_phase s = PAwait i p sv -> i < n;
}.

(** ** Preservation *)

Lemma inv_worker_step n i s s' : inv n s -> worker_step cap i s = Some s' -> inv n s'.
Proof.
  intros Hinv (w & Hw & Hs)%bind_Some. destruct Hinv as [Hlen Hsv Hws Hq Hend Haw].
  pose proof (Hws _ _ Hw) as Hi.
  assert (i < n) as Hin by (rewrite <- Hlen; by eapply lookup_lt_Some).
  (* the two shapes of the new state: a message is pushed, or it is not *)
  assert (forall m k inp out, msg_index m = i ->
    wstat i (mkProc k inp out) (qof i (sy_queue s) ++ [m]) (awaiting (sy_phase s) i)
      (bool_decide (i ∈ sv_processes (phase_server (sy_phase s)))) ->
    inv n (push m s (<[i := mkProc k inp out]> (sy_workers s)))) as Hpush.
  { intros m k inp out Hm Hst. split; simpl; try done.
    - by rewrite length_insert.
    - intros j w' Hj. apply list_lookup_insert_Some in Hj as [(<- & <- & _)|(Hne & Hj)].
      + by rewrite qof_snoc_same.
      + rewrite qof_snoc_other by congruence. by apply Hws.
    - apply Forall_app; split; [done|]. constructor; [congruence|done]. }
  assert (forall w', wstat i w' (qof i (sy_queue s)) (awaiting (sy_phase s) i)
      (bool_decide (i ∈ sv_processes (phase_server (sy_phase s)))) ->
    inv n (mkSys (sy_queue s) (sy_phase s) (<[i := w']> (sy_workers s)) (sy_log s))) as Hkeep.
  { intros w' Hst. split; simpl; try done.
    - by rewrite length_insert.
    - intros j w'' Hj. apply list_lookup_insert_Some in Hj as [(<- & <- & _)|(Hne & Hj)]; [done|]. by apply Hws. }
  (* a worker that owes no answer, with or without an ack on its way *)
  assert (forall p out, wq i p (qof i (sy_queue s)) ->
    (forall p' q', wq i p' q' -> wstat i (mkProc p' [] out) q' (awaiting (sy_phase s) i)
      (bool_decide (i ∈ sv_processes (phase_server (sy_phase s))))) ->
    w = mkProc p [] out -> inv n s') as Hrun.
  { intros p out Hp Hst ->. simpl in Hs. destruct p as [|m k|m k|a k|k sig]; simpl in Hs; try done.
    - destruct (has_room cap s); [|done]. injection Hs as <-. destruct (wq_put _ _ _ _ Hp) as [Hm Hq'].
      apply Hpush; auto.
    - destruct (wq_try _ _ _ _ Hp) as (Hm & Hq' & Hq''). destruct (has_room cap s); injection Hs as <-; auto.
    - by apply wq_send in Hp. }
  remember (qof i (sy_queue s)) as qi eqn:Eq. remember (awaiting (sy_phase s) i) as aw eqn:Ea.
  remember (bool_decide _) as al eqn:El in Hi, Hpush, Hkeep, Hrun.
  destruct Hi as [p q Hp|kb sig af kf b Hkb Hkf|a k Hk|a p q Hp|]; simpl in Hs.
  - apply (Hrun p []); auto using st_idle.
  - injection Hs as <-. apply Hkeep. rewrite Hkb. by constructor.
  - injection Hs as <-. apply Hkeep. constructor. by constructor.
  - apply (Hrun p [a]); auto using st_acked.
  - done.
Qed.

(** A worker whose first queued message is [m] is idle, and the server counts
    it. *)
Lemma wstat_head i w m q al :
  wstat i w (m :: q) false al -> exists p, w = mkProc p [] [] /\ al = true /\ wq i p (m :: q).
Proof. inversion 1; subst. eauto. Qed.

Lemma inv_server_step n s s' : inv n s -> server_step c s = Some s' -> inv n s'.
Proof.
  intros [Hlen Hsv Hws Hq Hend Haw] Hs. unfold server_step in Hs.
  destruct (sy_phase s) as [sv|i p sv|r sv] eqn:Eph; simpl in *; [| |done].
  - case_bool_decide as Hempty.
    { injection Hs as <-. split; simpl; try done.
      - by apply same_shape_ok with sv.
      - intros r sv' [= <- <-]. split; [|done]. intros e. by destruct (existsb _ _). }
    destruct (sy_queue s) as [|m q] eqn:Equeue; [done|].
    inversion Hq as [|? ? Hmn Hqn]; subst.
    set (i := msg_index m) in *.
    destruct (lookup_lt_is_Some_2 (sy_workers s) i) as [w Hw]; [lia|].
    pose proof (Hws _ _ Hw) as Hst. rewrite qof_cons_same in Hst by done.
    apply wstat_head in Hst as (p & -> & Halive & Hp).
    apply bool_decide_eq_true in Halive.
    assert (forall sv', (forall j, j <> i -> (j ∈ sv_processes sv' <-> j ∈ sv_processes sv)) -> sv_ok (length (sy_workers s)) sv' ->
      wstat i (mkProc p [] []) (qof i q) false (bool_decide (i ∈ sv_processes sv')) ->
      inv (length (sy_workers s)) (mkSys q (PLoop sv') (sy_workers s) (sy_log s))) as Hcont.
    { intros sv' Hsame Hok Hst. split; simpl; try done. intros j w' Hj. destruct (decide (j = i)) as [->|Hne].
      - assert (w' = mkProc p [] []) as -> by congruence. done.
      - specialize (Hws _ _ Hj). rewrite qof_cons_other in Hws by exact (not_eq_sym Hne).
        by rewrite (bool_decide_ext _ _ (Hsame j Hne)). }
    destruct (wq_cons _ _ _ _ Hp) as [[Hplain Hp']|[(kb & sig & af & kf & -> & Hq0 & _ & Hneg & Hload & Hkb & Hkf)|(st & -> & Hq0 & Hm)]].
    + destruct (handle_plain c (length (sy_workers s)) i m sv Hsv Hmn Hplain) as (sv' & Hh & Hshape).
      rewrite Hh in Hs. injection Hs as <-. pose proof Hshape as [Hproc _].
      apply Hcont; [by rewrite Hproc|by eapply same_shape_ok|]. rewrite Hproc, bool_decide_true by done. by constructor.
    + destruct (handle_negotiates c i m sv eq_refl Hneg Hload Halive) as (a & pr & sv' & Hh & Hshape).
      rewrite Hh in Hs. injection Hs as <-. pose proof Hshape as [Hproc _].
      split; simpl; try done.
      * unfold deliver. by rewrite length_alter.
      * by eapply same_shape_ok.
      * unfold deliver. intros j w' Hj. rewrite Hproc. destruct (decide (j = i)) as [->|Hne].
        -- rewrite list_lookup_alter_eq, Hw in Hj. injection Hj as <-; simpl.
           rewrite Hq0, !bool_decide_true by done. by econstructor.
        -- rewrite list_lookup_alter_ne in Hj by done. specialize (Hws _ _ Hj).
           rewrite qof_cons_other in Hws by exact (not_eq_sym Hne). by rewrite bool_decide_false.
      * by intros ? ? ? [= <- _ _].
    + destruct (handle_finish c (length (sy_workers s)) i st sv Hsv Halive) as (sv' & Hh & Hok & Hproc).
      rewrite Hm, Hh in Hs. injection Hs as <-.
      apply Hcont; [set_solver|done|]. rewrite Hq0, Hproc, bool_decide_false by set_solver. constructor.
  - apply bind_Some in Hs as (w & Hw & Hs). pose proof (Hws _ _ Hw) as Hst.
    rewrite (bool_decide_true (i = i)) in Hst by done.
    pose proof (resume_shape p sv) as [Hproc _].
    assert (exists a p0, w = mkProc p0 [] [a] /\ wq i p0 (qof i (sy_queue s)) /\ i ∈ sv_processes sv /\
      s' = mkSys (sy_queue s) (PLoop (resume p sv)) (<[i := mkProc p0 [] []]> (sy_workers s)) (sy_log s))
      as (a & p0 & -> & Hp0 & Halive & ->).
    { remember (bool_decide (i ∈ sv_processes sv)) as al eqn:Eal. remember true as aw eqn:Eaw in Hst.
      destruct Hst as [| | |a p0 q Hp0|]; try done. injection Hs as <-. exists a, p0. repeat split; try done.
      symmetry in Eal. by apply bool_decide_eq_true in Eal. }
    split; simpl; try done.
    + by rewrite length_insert.
    + eapply same_shape_ok; [apply resume_shape|done].
    + intros j w' Hj. rewrite Hproc. apply list_lookup_insert_Some in Hj as [(<- & <- & _)|(Hne & Hj)].
      * rewrite bool_decide_true by done. by constructor.
      * specialize (Hws _ _ Hj). by rewrite bool_decide_false in Hws by congruence.
Qed.

Lemma inv_step n s s' : inv n s -> step c cap s s' -> inv n s'.
Proof.
  intros Hinv ([|i|i] & Hch & Hs); simpl in Hs.
  - by eapply inv_server_step.
  - by eapply inv_worker_step.
  - by destruct (Hch i).
Qed.

(** A run that is over has delivered everything. *)
Lemma inv_end_empty n s r sv : inv n s -> sy_phase s = PEnd r sv ->
  (forall e, r <> RunFailed e) /\ sy_queue s = [] /\ forall i w, sy_workers s !! i = Some w -> pr_prog w = WDone.
Proof.
  intros [Hlen Hsv Hws Hq Hend Haw] Eph. rewrite Eph in *. simpl in *.
  destruct (Hend _ _ eq_refl) as [Hr Hp].
  assert (forall i w, sy_workers s !! i = Some w -> qof i (sy_queue s) = [] /\ pr_prog w = WDone) as Hover.
  { intros i w Hw. specialize (Hws _ _ Hw). rewrite Hp, bool_decide_false in Hws by set_solver.
    inversion Hws; subst. done. }
  split; [done|]. split; [|intros; by eapply Hover].
  destruct (sy_queue s) as [|m q]; [done|]. inversion Hq as [|? ? Hm]; subst.
  destruct (lookup_lt_is_Some_2 (sy_workers s) (msg_index m) Hm) as [w Hw].
  destruct (Hover _ _ Hw) as [Hqof _]. by rewrite qof_cons_same in Hqof.
Qed.
(** ** Progress: while the loop is not over, someone can move *)

Hypothesis Hcap : 0 < cap.

Lemma inv_progress n s :
  inv n s -> (exists s', step c cap s s') \/ (exists r sv, sy_phase s = PEnd r sv).
Proof using Hcap.
  intros [Hlen Hsv Hws Hq Hend Haw].
  destruct (sy_phase s) as [sv|i p sv|r sv] eqn:Eph; simpl in *; [| |by right; repeat eexists]; left.
  - destruct (server_step c s) as [s'|] eqn:Es; [exists s', CServer; by split|].
    unfold server_step in Es. rewrite Eph in Es. case_bool_decide as Hempty; [done|].
    destruct (sy_queue s) as [|m q] eqn:Equeue.
    + apply set_choose_L in Hempty as [i Hi].
      destruct (lookup_lt_is_Some_2 (sy_workers s) i) as [w Hw]; [rewrite Hlen; by apply Hsv|].
      specialize (Hws _ _ Hw). rewrite bool_decide_true in Hws by done.
      change (qof i []) with (@nil msg) in Hws.
      assert (has_room cap s = true) as Hroom by (unfold has_room; rewrite Equeue; by apply bool_decide_eq_true).
      assert (exists p, w = mkProc p [] [] /\ wt i p) as (p & -> & Hwt).
      { remember [] as q0 eqn:Eq0 in Hws. remember false as aw in Hws. remember true as al in Hws.
        destruct Hws as [p q Hp| | | |]; simplify_eq. exists p. split; [done|].
        remember [] as q1 eqn:Eq1 in Hp. by destruct Hp as [|? ? ? ? ? []|? []]. }
      assert (exists s', worker_step cap i s = Some s') as [s' Hs'].
      { unfold worker_step. rewrite Hw; simpl. destruct Hwt; simpl; rewrite ?Hroom; eauto. }
      exists s', (CWorker i). by split.
    + by destruct (handle c m sv) as [[]|].
  - destruct (lookup_lt_is_Some_2 (sy_workers s) i) as [w Hw]; [rewrite Hlen; by eapply Haw|].
    specialize (Hws _ _ Hw). rewrite (bool_decide_true (i = i)) in Hws by done.
    remember (bool_decide (i ∈ _)) as al eqn:Eal. remember (qof i _) as qi.
    inversion Hws; subst.
    + eexists _, (CWorker i). split; [done|]. simpl. unfold worker_step. by rewrite Hw.
    + eexists _, (CWorker i). split; [done|]. simpl. unfold worker_step. by rewrite Hw.
    + eexists _, CServer. split; [done|]. simpl. unfold server_step. by rewrite Eph, Hw.
Qed.


End Invariant.

(** ** The sequential reference: [run_loop] on the history of the queue *)
Section Reference.
Context `{Pytest} (c : server_config) (cap : nat).

(** The server after the messages [ms], each of them handled while some worker
    was still counted. *)
Fixpoint loop_after (ms : list msg) (s : server) : option server :=
  match ms with
  | [] => Some s
  | m :: ms =>
      if bool_decide (sv_processes s = ∅) then None
      else match handle c m s with
           | Ok (Continue s) => loop_after ms s
           | Ok (AwaitAck _ _ p s) => loop_after ms (resume p s)
           | Raise _ => None
           end
  end.

Lemma loop_after_app ms ms' s : loop_after (ms ++ ms') s = loop_after ms s ≫= loop_after ms'.
Proof.
  revert s; induction ms as [|m ms IH]; intros s; simpl; [done|].
  case_bool_decide; [done|]. destruct (handle c m s) as [[]|]; [apply IH..|done].
Qed.

Lemma run_loop_after ms ms' s s' : loop_after ms s = Some s' -> run_loop c (ms ++ ms') s = run_loop c ms' s'.
Proof.
  revert s; induction ms as [|m ms IH]; intros s; simpl; [by intros [= ->]|].
  case_bool_decide; [done|]. destruct (handle c m s) as [[]|]; [apply IH..|done].
Qed.

(** What the server has computed, as a function of what it has consumed. *)
Definition consumed_ok (s0 : server) (ph : phase) (consumed : list msg) : Prop :=
  match ph with
  | PLoop sv => loop_after consumed s0 = Some sv
  | PAwait _ p sv => loop_after consumed s0 = Some (resume p sv)
  | PEnd r sv =>
      run_loop c consumed s0 = Some (r, sv) /\
      ((exists e, r = RunFailed e) \/ exists s1, loop_after consumed s0 = Some s1 /\ end_loop s1 = (r, sv))
  end.

Definition log_ok (s0 : server) (s : sys) : Prop :=
  exists consumed, sy_log s = consumed ++ sy_queue s /\ consumed_ok s0 (sy_phase s) consumed.

Lemma log_ok_step s0 s s' : log_ok s0 s -> step c cap s s' -> log_ok s0 s'.
Proof.
  intros (done_ & Hlog & Hph) (ch & Hch & Hs). destruct ch as [|i|i]; simpl in Hs; [| |by destruct (Hch i)].
  - unfold server_step in Hs. destruct (sy_phase s) as [sv|i p sv|]; simpl in Hph; [| |done].
    + case_bool_decide as Hempty.
      { injection Hs as <-. exists done_. split; [done|]. simpl.
        split; [|right; eauto].
        rewrite <- (app_nil_r done_), (run_loop_after _ _ _ _ Hph). simpl. by rewrite bool_decide_true. }
      destruct (sy_queue s) as [|m q] eqn:Eq; [done|].
      assert (forall ph, (match handle c m sv with
         | Ok (Continue sv') => ph = PLoop sv'
         | Ok (AwaitAck i _ p sv') => ph = PAwait i p sv'
         | Raise e => ph = PEnd (RunFailed e) (replay sv) end) ->
         consumed_ok s0 ph (done_ ++ [m])) as Hnext.
      { intros ph Hm. destruct (handle c m sv) as [[]|] eqn:Eh; subst; simpl.
        1-2: rewrite loop_after_app, Hph; simpl; by rewrite bool_decide_false, Eh.
        split; [|eauto]. rewrite (run_loop_after _ _ _ _ Hph); simpl. by rewrite bool_decide_false, Eh. }
      assert (sy_log s = (done_ ++ [m]) ++ q) as Hlog' by (rewrite Hlog, <- app_assoc; done).
      destruct (handle c m sv) as [[]|]; injection Hs as <-; exists (done_ ++ [m]); split; try done; by apply Hnext.
    + apply bind_Some in Hs as (w & Hw & Hs). exists done_.
      destruct (pr_out w); [destruct (pr_prog w)|]; simplify_eq; done.
  - exists done_. apply bind_Some in Hs as (w & Hw & Hs).
    cbv zeta in Hs. destruct (pr_prog w); repeat case_match; simplify_eq; unfold push; simpl;
      (split; [rewrite Hlog, ?app_assoc; done|done]).
Qed.

(** ** Every worker's traffic is a complete run of its program *)

(** [wtrace p ms p']: [p] puts [ms] and becomes [p']. *)
Inductive wtrace : wprog -> list msg -> wprog -> Prop :=
  | wt_refl p : wtrace p [] p
  | wt_step_put m k ms p : wtrace k ms p -> wtrace (WPut m k) (m :: ms) p
  | wt_step_try m k ms p : wtrace k ms p -> wtrace (WTryPut m k) (m :: ms) p
  | wt_step_drop m k ms p : wtrace k ms p -> wtrace (WTryPut m k) ms p
  | wt_step_send a k ms p : wtrace k ms p -> wtrace (WSend a k) ms p
  | wt_step_recv k sig b ms p : wtrace (k b) ms p -> wtrace (WRecv k sig) ms p.

Lemma wtrace_app p ms p' ms' p'' : wtrace p ms p' -> wtrace p' ms' p'' -> wtrace p (ms ++ ms') p''.
Proof. induction 1; intros Ht; simpl; eauto using wtrace. Qed.

Lemma wtrace_worker_step i s s' :
  worker_step cap i s = Some s' ->
  exists w w' ms, sy_workers s !! i = Some w /\ sy_workers s' = <[i := w']> (sy_workers s) /\
    sy_log s' = sy_log s ++ ms /\ wtrace (pr_prog w) ms (pr_prog w') /\
    (forall m, m ∈ ms -> exists k, pr_prog w = WPut m k \/ pr_prog w = WTryPut m k).
Proof.
  intros (w & Hw & Hs)%bind_Some.
  assert (forall (m m0 : msg), m ∈ [m0] -> m = m0) as Hone by (intros ? ? ?%list_elem_of_singleton; done).
  cbv zeta in Hs.
  destruct (pr_prog w) as [|m k|m k|a k|k sig] eqn:Ep; repeat case_match; simplify_eq; unfold push; simpl;
    (eexists w, _, _; split_and!; [done|done|first [done|symmetry; apply app_nil_r]|rewrite Ep; eauto using wtrace|]).
  all: intros m' Hm'; first [by apply elem_of_nil in Hm' | apply Hone in Hm' as ->; rewrite Ep; eauto].
Qed.

Lemma inv_put_index n s i w m k :
  inv n s -> sy_workers s !! i = Some w -> pr_prog w = WPut m k \/ pr_prog w = WTryPut m k -> msg_index m = i.
Proof.
  intros Hinv Hw Hp. pose proof (inv_worker _ _ Hinv _ _ Hw) as Hst.
  destruct Hst as [p q Hq| |a k' Hk|a p q Hq|]; simpl in Hp; destruct Hp as [Hp|Hp]; subst; try discriminate.
  all: first [by apply wq_put in Hq as [? _] | by apply wq_try in Hq as [? _]].
Qed.

(** Along a run, what each worker has put is a run of its program. *)
Definition traces_ok (ps : list wprog) (s : sys) : Prop :=
  forall i p w, ps !! i = Some p -> sy_workers s !! i = Some w -> wtrace p (qof i (sy_log s)) (pr_prog w).

Lemma qof_foreign i ms : (forall m, m ∈ ms -> msg_index m <> i) -> qof i ms = [].
Proof.
  induction ms as [|m ms IH]; intros Hms; [done|].
  rewrite qof_cons_other by (apply Hms, list_elem_of_here). apply IH. intros m' Hm'. by apply Hms, list_elem_of_further.
Qed.

Lemma qof_own i ms : (forall m, m ∈ ms -> msg_index m = i) -> qof i ms = ms.
Proof.
  induction ms as [|m ms IH]; intros Hms; [done|].
  rewrite qof_cons_same by (apply Hms, list_elem_of_here). f_equal. apply IH.
  intros m' Hm'. by apply Hms, list_elem_of_further.
Qed.

Lemma traces_ok_step n ps s s' : inv n s -> traces_ok ps s -> step c cap s s' -> traces_ok ps s'.
Proof.
  intros Hinv Htr ([|i|i] & Hch & Hs); simpl in Hs; [| |by destruct (Hch i)].
  - assert (sy_log s' = sy_log s /\ forall j w', sy_workers s' !! j = Some w' ->
      exists w, sy_workers s !! j = Some w /\ pr_prog w' = pr_prog w) as [Hlog Hws].
    { unfold server_step in Hs. destruct (sy_phase s) as [sv|i p sv|]; [| |done].
      - case_bool_decide; [injection Hs as <-; simpl; eauto|].
        destruct (sy_queue s) as [|m q]; [done|].
        destruct (handle c m sv) as [[|i a p sv']|]; injection Hs as <-; simpl; [by eauto| |by eauto].
        split; [done|]. simpl. unfold deliver. intros j w' Hj. destruct (decide (i = j)) as [->|Hne].
        + rewrite list_lookup_alter_eq in Hj. destruct (sy_workers s !! j) as [w|] eqn:E; simplify_eq/=. eauto.
        + rewrite list_lookup_alter_ne in Hj by done. eauto.
      - apply bind_Some in Hs as (w & Hw & Hs).
        destruct (pr_out w) as [|a out]; [destruct (pr_prog w); simplify_eq; simpl; by eauto|].
        injection Hs as <-. split; [done|]. simpl. intros j w' Hj.
        apply list_lookup_insert_Some in Hj as [(<- & <- & _)|(Hne & Hj)]; eauto. }
    intros j p w' Hp Hw'. destruct (Hws _ _ Hw') as (w & Hw & ->). rewrite Hlog. by apply (Htr j p w).
  - destruct (wtrace_worker_step _ _ _ Hs) as (w & w' & ms & Hw & Hws' & Hlog & Ht & Hms).
    assert (forall m, m ∈ ms -> msg_index m = i) as Hidx.
    { intros m Hm. destruct (Hms _ Hm) as [k Hk]. by eapply inv_put_index. }
    intros j p w'' Hp Hw''. rewrite Hlog. unfold qof. rewrite list.filter_app. fold (qof j (sy_log s)) (qof j ms).
    rewrite Hws' in Hw''. apply list_lookup_insert_Some in Hw'' as [(<- & <- & _)|(Hne & Hj)].
    + rewrite (qof_own i ms Hidx). eapply wtrace_app; [|exact Ht]. by apply (Htr i p w).
    + rewrite (qof_foreign j ms), app_nil_r by (intros m Hm; rewrite (Hidx _ Hm); done). by apply (Htr j p w'').
Qed.
End Reference.

