(* ===== verification/MpRun.v ===== *)
(** * The parallel runner: whole runs

    What the user sees of [wake-sol test -P N]: the tests are distributed, the
    run ends, and the server ends up with every worker's reports, statistics,
    crash logs and coverage. *)

From Stdlib Require Import ZArith Lia QArith.
From stdpp Require Import base decidable option list gmap strings relations sorting.
From S2P Require Import Prelude.
From S2P Require Import Maps.
From S2P Require Import Utf8.
From S2P Require Import Values.
From S2P Require Import Stdio.
From S2P Require Import Fuzzing.
From S2P Require Import FuzzingProps.
From S2P Require Import Coverage.
From S2P Require Import CoverageProps.
From S2P Require Import MpServer.
From S2P Require Import MpWorker.
From S2P Require Import MpSystem.
From S2P Require Import MpTyping.
From S2P Require Import MpProps.
#[local] Open Scope nat_scope.

(** ** What a sequence of messages carries *)
Section Effects.
Context `{Pytest} (c : server_config).

Definition report_of (m : msg) : option TestReport :=
  match load_report m with Some (Ok r) => Some r | _ => None end.
Definition stats_of (m : msg) : option stats_registry :=
  match m with MFuzzStats _ st => Some st | _ => None end.
Definition crash_of (m : msg) : option (nat * string * string) :=
  match m with MCrashLog i n p => Some (i, n, p) | _ => None end.
Definition snapshot_of (m : msg) : option (nat * cov_report) :=
  match m with MCoverage i r => Some (i, r) | _ => None end.
Definition interrupt_of (m : msg) : option nat :=
  match m with MKeyboardInterrupt i => Some i | _ => None end.

(** The last snapshot of every worker. *)
Definition slots_of (ms : list msg) : gmap nat cov_report :=
  foldl (fun slots ir => <[ir.1 := ir.2]> slots) ∅ (omap snapshot_of ms).

(** [s'] is [s] after messages carrying these payloads. *)
Record effect (s s' : server) (ms : list msg) : Prop := mkEffect {
  eff_reports : sv_reports s' = (sv_reports s ++ omap report_of ms)%list;
  eff_stats : sv_fuzz_stats s' = foldl merge_session_stats (sv_fuzz_stats s) (omap stats_of ms);
  eff_crashes : sv_crash_logs s' = (sv_crash_logs s ++ omap crash_of ms)%list;
  eff_slots : sv_worker_coverage s' =
    foldl (fun slots ir => <[ir.1 := ir.2]> slots) (sv_worker_coverage s) (omap snapshot_of ms);
  eff_interrupts : sv_keyboard_interrupt s' =
    foldl (fun l i => <[i := true]> l) (sv_keyboard_interrupt s) (omap interrupt_of ms);
  eff_range : Forall (fun i => i < length (sv_keyboard_interrupt s)) (omap interrupt_of ms);
  eff_replays : forall r, EReplay r ∈ sv_events s' -> EReplay r ∈ sv_events s;
}.

Lemma interrupts_length (l : list bool) (js : list nat) : length (foldl (fun l i => <[i := true]> l) l js) = length l.
Proof. revert l; induction js as [|j js IH]; intros l; simpl; [done|]. by rewrite IH, length_insert. Qed.

Lemma effect_nil s : effect s s [].
Proof. split; simpl; rewrite ?app_nil_r; done. Qed.

Lemma effect_trans s s' s'' ms ms' : effect s s' ms -> effect s' s'' ms' -> effect s s'' (ms ++ ms').
Proof.
  intros [] [? ? ? ? ? Hrange]. split; rewrite ?omap_app, ?foldl_app, ?app_assoc; try congruence; [|auto].
  apply Forall_app; split; [done|]. by rewrite eff_interrupts0, interrupts_length in Hrange.
Qed.

(** The parts of a server the payloads go to. *)
Definition same_data (s s' : server) : Prop := effect s s' [].

Lemma emit_data es s : (forall r, EReplay r ∉ es) -> same_data s (emit es s).
Proof.
  intros Hes. split; simpl; rewrite ?app_nil_r; try done.
  intros r Hr. apply elem_of_app in Hr as [|Hr]; [done|]. by apply Hes in Hr.
Qed.

Lemma update_progress_data i s s' : _update_progress c i s = Ok s' -> same_data s s'.
Proof.
  unfold _update_progress. destruct (has_progress c); [|intros [= <-]; apply effect_nil].
  destruct (sv_test_reports s !! i); intros [= <-]. apply emit_data. intros r. by rewrite list_elem_of_singleton.
Qed.

Lemma process_teststatus_data i r s s' : _process_teststatus c i r s = Ok s' -> same_data s s'.
Proof.
  unfold _process_teststatus. destruct (status_token c r); [|intros [= <-]; apply effect_nil].
  destruct (sv_test_reports s !! i); intros [= <-]. split; simpl; rewrite ?app_nil_r; done.
Qed.

Lemma on_report_effect i m loaded s r :
  load_report m = Some loaded -> stats_of m = None /\ crash_of m = None /\ snapshot_of m = None /\ interrupt_of m = None ->
  on_report c i loaded s = Ok r -> exists s', r = Continue s' /\ effect s s' [m].
Proof.
  intros Hm (H1 & H2 & H3 & H4) Hr. destruct loaded as [rep|e]; [|discriminate]. unfold on_report in Hr; simpl in Hr.
  destruct (_process_teststatus c i rep (add_report rep s)) as [s1|e] eqn:E1; [|discriminate]; simpl in Hr.
  destruct (_update_progress c i s1) as [s2|e] eqn:E2; [|discriminate]; simpl in Hr. injection Hr as <-.
  exists s2. split; [done|].
  pose proof (effect_trans _ _ _ _ _ (process_teststatus_data _ _ _ _ E1) (update_progress_data _ _ _ E2)) as [R S C L I V].
  simpl in *.
  split; simpl; unfold report_of; rewrite ?H1, ?H2, ?H3, ?H4, ?Hm; simpl; rewrite ?app_nil_r in *; done.
Qed.

Lemma negotiate_data i e s a p s' :
  (forall r, e <> EReplay r) -> _negotiate c i e s = Ok (a, p, s') -> same_data s s'.
Proof.
  intros He. unfold _negotiate. destruct (_ && _).
  - destruct (_prompt_attach (sv_stdin s)) as [b rest]. case_bool_decide; intros [= <- <- <-].
    split; simpl; rewrite ?app_nil_r; try done. intros r Hr.
    apply elem_of_app in Hr as [|Hr]; [done|]. apply elem_of_cons in Hr as [|Hr%list_elem_of_singleton]; [done|].
    by destruct (He r).
  - case_bool_decide; intros [= <- <- <-]. apply effect_nil.
Qed.

Lemma handle_effect m s r : handle c m s = Ok r -> effect s (reaction_server r) [m].
Proof.
  assert (forall s', same_data s s' -> report_of m = None -> stats_of m = None -> crash_of m = None ->
    snapshot_of m = None -> interrupt_of m = None -> effect s s' [m]) as Hquiet.
  { intros s' [] H1 H2 H3 H4 H5. split; simpl; rewrite ?H1, ?H2, ?H3, ?H4, ?H5; done. }
  destruct m; cbn [handle]; intros Hr.
  - apply bind_Ok_inv in Hr as (s' & Hp & [= <-]). apply update_progress_data in Hp. apply Hquiet; try done.
    destruct Hp; by split.
  - by apply (on_report_effect _ (MReportPickle index payload)) in Hr as (s' & -> & He).
  - by apply (on_report_effect _ (MReportJson index payload)) in Hr as (s' & -> & He).
  - apply bind_Ok_inv in Hr as (e & _ & Hr). unfold await in Hr.
    destruct (_negotiate _ _ _ _) as [[[a p] s']|] eqn:En; [|discriminate]. injection Hr as <-.
    apply negotiate_data in En; [|done]. by apply Hquiet.
  - unfold await in Hr. destruct (_negotiate _ _ _ _) as [[[a p] s']|] eqn:En; [|discriminate]. injection Hr as <-.
    apply negotiate_data in En; [|done]. by apply Hquiet.
  - injection Hr as <-. apply Hquiet; try done. apply emit_data. intros r. by rewrite list_elem_of_singleton.
  - apply bind_Ok_inv in Hr as (e & _ & [= <-]). apply Hquiet; try done.
    apply emit_data. intros r. by rewrite list_elem_of_singleton.
  - injection Hr as <-. split; simpl; rewrite ?app_nil_r; done.
  - injection Hr as <-.
    match goal with |- effect _ (reaction_server (Continue (if _ then ?s0 else _))) _ => set (s1 := s0) end.
    assert (effect s s1 [MCoverage index report]) as H1 by (split; simpl; rewrite ?app_nil_r; done).
    simpl. destruct (Qle_bool _ _); [done|]. rewrite <- (app_nil_r [MCoverage index report]).
    apply (effect_trans s s1); [done|]. unfold _write_coverage_report.
    destruct (sc_coverage_report c); [|apply effect_nil]. destruct (sc_writable c); [|apply effect_nil].
    apply emit_data. intros r Hr'. apply elem_of_cons in Hr' as [|Hr'%list_elem_of_singleton]; done.
  - injection Hr as <-. split; simpl; rewrite ?app_nil_r; done.
  - case_bool_decide; [|discriminate]. injection Hr as <-. split; simpl; rewrite ?app_nil_r; try done.
    by repeat constructor.
  - destruct (sv_keyboard_interrupt s !! index) as [b|]; [|discriminate]. case_bool_decide; [|discriminate].
    injection Hr as <-. apply Hquiet; try done.
    destruct (emit_data [if has_progress c then EProgress index (finish_description index b exitstatus)
      else EPlain (_plain_status index b exitstatus)] s) as [R S C L I V].
    { intros r. rewrite list_elem_of_singleton. by destruct (has_progress c). }
    by split.
  - injection Hr as <-. apply Hquiet; try done. apply effect_nil.
Qed.

Lemma resume_data p s : same_data s (resume p s).
Proof. destruct p; [|apply effect_nil]. apply emit_data. intros r. by rewrite list_elem_of_singleton. Qed.

Lemma loop_after_effect ms s s' : loop_after c ms s = Some s' -> effect s s' ms.
Proof.
  revert s; induction ms as [|m ms IH]; intros s; simpl; [intros [= <-]; apply effect_nil|].
  case_bool_decide; [done|]. destruct (handle c m s) as [[s1|i a p s1]|e] eqn:Eh; intros Hl; [| |done].
  - apply (effect_trans s s1 s' [m] ms); [by apply handle_effect in Eh|auto].
  - apply (effect_trans s (resume p s1) s' [m] ms); [|auto].
    apply (effect_trans s s1 _ [m] []); [by apply handle_effect in Eh|apply resume_data].
Qed.
End Effects.

(** ** Runs of the whole system *)
Section Runs.
Context `{HP : Pytest} {HL : PytestLaws} (c : server_config) (cap : nat).

(** Workers are numbered in order, and their tests leave a debugger opened by
    [breakpoint()] before they run on. *)
Definition well_formed (ins : list worker_input) : Prop :=
  forall i wi, ins !! i = Some wi -> wc_index (wi_config wi) = i /\ Forall paced_item (wi_items wi).

Definition exceptions_load : Prop :=
  forall e p, pickle_exc e = Some p -> exists e', unpickle_exc p = Ok e'.

Lemma start_inv stdin ins :
  exceptions_load -> well_formed ins -> inv (length ins) (start_system stdin ins).
Proof using HL.
  intros Hexc Hwf. split; simpl; try done.
  - apply length_fmap.
  - apply initial_ok.
  - intros i w Hw. apply list_lookup_fmap_Some in Hw as (wi & -> & Hwi).
    rewrite bool_decide_true by (apply elem_of_set_seq; apply lookup_lt_Some in Hwi; lia).
    constructor. constructor; [|done]. destruct (Hwf _ _ Hwi) as [<- Hp]. by apply worker_session_wt.
Qed.

Definition reachable stdin ins (s : sys) : Prop := rtc (step c cap) (start_system stdin ins) s.

Lemma reachable_facts stdin ins s :
  exceptions_load -> well_formed ins -> reachable stdin ins s ->
  inv (length ins) s /\ log_ok c (initial_server (length ins) stdin) s /\ traces_ok (worker_prog <$> ins) s.
Proof using HL.
  intros Hexc Hwf Hr.
  assert (inv (length ins) (start_system stdin ins) /\
    log_ok c (initial_server (length ins) stdin) (start_system stdin ins) /\
    traces_ok (worker_prog <$> ins) (start_system stdin ins)) as Hstart.
  { split; [by apply start_inv|]. split; [by exists []|].
    intros i p w Hp Hw. simpl in *. apply list_lookup_fmap_Some in Hp as (wi & -> & Hwi).
    rewrite list_lookup_fmap, Hwi in Hw. injection Hw as <-. constructor. }
  revert Hstart. induction Hr as [s|s s' s'' Hs Hr IH]; [done|]. intros (Hi & Hl & Ht). apply IH.
  split; [by eapply inv_step|]. split; [by eapply log_ok_step|by eapply traces_ok_step].
Qed.


(** The reports the session sees at the end. *)
Definition replayed (s : server) : list TestReport :=
  omap (fun e => match e with EReplay r => Some r | _ => None end) (sv_events s).

Lemma omap_none {A B} (f : A -> option B) (l : list A) : (forall x, x ∈ l -> f x = None) -> omap f l = [].
Proof.
  induction l as [|x l IH]; intros Hf; simpl; [done|].
  rewrite (Hf x) by apply list_elem_of_here. apply IH. intros y Hy. by apply Hf, list_elem_of_further.
Qed.

Lemma omap_replay (rs : list TestReport) : omap (fun e => match e with EReplay r => Some r | _ => None end) (EReplay <$> rs) = rs.
Proof. induction rs as [|r rs IH]; simpl; [done|]. f_equal. exact IH. Qed.

Lemma interrupts_keep (js : list nat) (l : list bool) :
  existsb id l = true -> existsb id (foldl (fun l i => <[i := true]> l) l js) = true.
Proof.
  revert l; induction js as [|j js IH]; intros l Hl; simpl; [done|]. apply IH.
  apply existsb_exists in Hl as (b & Hb & Hid). apply list_elem_of_In, list_elem_of_lookup in Hb as [k Hk].
  apply existsb_exists. destruct b; [|done]. exists true. split; [|done].
  apply list_elem_of_In, list_elem_of_lookup. exists k.
  destruct (decide (k = j)) as [->|].
  - apply list_lookup_insert_eq. by eapply lookup_lt_Some.
  - by rewrite list_lookup_insert_ne.
Qed.

(** Some flag is set exactly when some interrupt was recorded. *)
Lemma interrupts_seen n (js : list nat) :
  Forall (fun i => i < n) js ->
  (if existsb id (foldl (fun l i => <[i := true]> l) (replicate n false) js) then RunInterrupted else RunDone) =
  match js with [] => RunDone | _ => RunInterrupted end.
Proof.
  intros Hjs. destruct js as [|j js]; simpl.
  - assert (existsb id (replicate n false) = false) as -> by (clear Hjs; induction n; done). done.
  - inversion Hjs as [|? ? Hj]; subst. 
    assert (existsb id (<[j := true]> (replicate n false)) = true) as Hset.
    { apply existsb_exists. exists true. split; [|done]. apply list_elem_of_In, list_elem_of_lookup. exists j.
      apply list_lookup_insert_eq. by rewrite length_replicate. }
    by rewrite (interrupts_keep js _ Hset).
Qed.

End Runs.

(** ** Distribution of the tests *)
Section Distribution.
Context `{Pytest}.

(** The slice of worker [i]. *)
Definition slice (proc_count n i : nat) : list nat :=
  let step := (n / proc_count)%nat in
  if bool_decide (i = proc_count - 1) then py_range (i * step) n else py_range (i * step) ((i + 1) * step).

Lemma slices_prefix proc_count n k :
  k < proc_count -> concat (slice proc_count n <$> seq 0 k) = seq 0 (k * (n / proc_count)).
Proof.
  induction k as [|k IH]; intros Hk; [done|].
  rewrite seq_S, fmap_app, concat_app, IH by lia. simpl. rewrite app_nil_r.
  unfold slice. rewrite bool_decide_false by lia. unfold py_range.
  replace ((k + 1) * (n / proc_count) - k * (n / proc_count)) with (n / proc_count) by lia.
  rewrite (Nat.add_comm (n / proc_count)). symmetry. apply seq_app.
Qed.

Lemma slices_cover proc_count n :
  0 < proc_count -> concat (slice proc_count n <$> seq 0 proc_count) = seq 0 n.
Proof.
  intros Hp. destruct proc_count as [|k]; [lia|].
  rewrite seq_S, fmap_app, concat_app, slices_prefix by lia.
  change (concat (slice (S k) n <$> [0 + k])) with (slice (S k) n k ++ []). rewrite app_nil_r.
  unfold slice. rewrite bool_decide_true by lia. unfold py_range.
  pose proof (Nat.Div0.mul_div_le n (S k)) as Hd. remember (n / S k) as d eqn:Ed. clear Ed.
  replace (seq 0 n) with (seq 0 (k * d + (n - k * d))) by (f_equal; lia). by rewrite seq_app.
Qed.

Lemma mapM_res_pure {A B} (f : A -> B) xs : mapM_res (fun x => Ok (f x)) xs = Ok (f <$> xs).
Proof. induction xs as [|x xs IH]; simpl; [done|]. by rewrite IH. Qed.

Lemma mapM_res_ext {A B} (f g : A -> res B) xs : (forall x, f x = g x) -> mapM_res f xs = mapM_res g xs.
Proof. intros Hfg. induction xs as [|x xs IH]; simpl; [done|]. by rewrite Hfg, IH. Qed.

Lemma first_mismatch_None (collected : list (list string)) ts :
  Forall (fun l => l = ts) collected -> first_mismatch collected = None.
Proof.
  intros Hall. destruct Hall as [|? ? -> Hall]; [done|]. simpl.
  rewrite (proj2 (list_find_None _ _)); [done|]. eapply list.Forall_impl; [exact Hall|]. simpl. intros ? ->. by intros Hne.
Qed.

(** C17: The tests are distributed exactly.  When every worker has collected the
    same [n] tests, [--dist uniform] sends the workers consecutive slices that
    put together are [0 .. n-1], so every test runs in exactly one worker, and
    [--dist duplicated] sends every worker all of them; when some worker differs
    from worker 0, nothing is sent and the first such worker is named. *)
Theorem distribution_exact (c : server_config) (collected : list (list string)) :
  0 < sc_proc_count c -> length collected = sc_proc_count c ->
  match start_loop c 0 false false collected with
  | StAssigned lists =>
      (forall l, l ∈ collected -> l = default [] (head collected)) /\
      length lists = sc_proc_count c /\
      match sc_dist c with
      | Uniform => concat lists = seq 0 (length (default [] (head collected)))
      | Duplicated => forall l, l ∈ lists -> l = seq 0 (length (default [] (head collected)))
      | OtherDist _ => False
      end
  | StDifferentTests i =>
      (exists l, collected !! i = Some l /\ Some l <> head collected) /\
      forall j l, j < i -> collected !! j = Some l -> Some l = head collected
  | StFailed _ => exists name, sc_dist c = OtherDist name
  | StInterrupted _ | StCollectOnly => False
  end.
Proof.
  intros Hp Hlen. unfold start_loop; simpl.
  destruct collected as [|ts rest]; [simpl in *; lia|]. simpl.
  destruct (list_find (fun l => l <> ts) rest) as [[k l]|] eqn:Ef; simpl.
  - apply list_find_Some in Ef as (Hk & Hl & Hbefore). split; [exists l; split; [done|congruence]|].
    intros [|j] l' Hj; simpl; [by intros [= <-]|]. intros Hl'.
    destruct (decide (l' = ts)) as [->|Hne]; [done|]. destruct (Hbefore j l' Hl'); [lia|done].
  - apply list_find_None in Ef.
    assert (forall l, l ∈ ts :: rest -> l = ts) as Hall.
    { intros l [->|Hl]%elem_of_cons; [done|]. rewrite list.Forall_forall in Ef. specialize (Ef _ Hl). simpl in Ef.
      destruct (decide (l = ts)); [done|]. by destruct Ef. }
    destruct (sc_dist c) as [| |name] eqn:Ed.
    + rewrite (mapM_res_ext _ (fun i => Ok (slice (sc_proc_count c) (length ts) i)))
        by (intros i; simpl; unfold slice; by case_bool_decide).
      rewrite mapM_res_pure. split; [done|]. split; [by rewrite length_fmap, length_seq|]. by apply slices_cover.
    + rewrite (mapM_res_ext _ (fun i => Ok (py_range 0 (length ts)))) by done.
      rewrite mapM_res_pure. split; [done|]. split; [by rewrite length_fmap, length_seq|].
      intros l Hl. apply list_elem_of_fmap in Hl as (i & -> & _). unfold py_range. by rewrite Nat.sub_0_r.
    + destruct (sc_proc_count c) as [|k]; [lia|]. simpl. eauto.
Qed.

(** With fewer tests than workers, [--dist uniform] gives all of them to the
    last worker. *)
Lemma uniform_small_suite proc_count n i :
  n < proc_count -> i < proc_count ->
  slice proc_count n i = if bool_decide (i = proc_count - 1) then seq 0 n else [].
Proof.
  intros Hn Hi. unfold slice, py_range. rewrite Nat.div_small by done. rewrite !Nat.mul_0_r, Nat.sub_0_r.
  by case_bool_decide.
Qed.
End Distribution.

(** ** Coverage across workers *)
Section WorkerCoverage.
Context `{Pytest}.

(** The last snapshot of worker [i]. *)
Definition last_snapshot (i : nat) (ms : list msg) : option cov_report :=
  last (omap (fun m => match m with MCoverage j r => if decide (j = i) then Some r else None | _ => None end) ms).

Lemma slots_snoc ms m :
  slots_of (ms ++ [m]) = match m with MCoverage i r => <[i := r]> (slots_of ms) | _ => slots_of ms end.
Proof. unfold slots_of. rewrite omap_app, foldl_app. by destruct m. Qed.

Lemma slots_last ms i : slots_of ms !! i = last_snapshot i ms.
Proof.
  induction ms as [|m ms IH] using rev_ind; [done|].
  rewrite slots_snoc. unfold last_snapshot in *. rewrite omap_app. destruct m; simpl; rewrite ?app_nil_r; try done.
  destruct (decide (index = i)) as [->|Hne]; simpl.
  - by rewrite lookup_insert_eq, list.last_snoc.
  - by rewrite lookup_insert_ne, app_nil_r.
Qed.

Definition zsum {A} (f : A -> Z) (l : list A) : Z := foldr (fun x acc => (f x + acc)%Z) 0%Z l.

#[global] Instance zsum_perm {A} (f : A -> Z) : Proper (Permutation ==> eq) (zsum f).
Proof. induction 1; simpl; lia. Qed.

Lemma zsum_app {A} (f : A -> Z) l l' : zsum f (l ++ l') = (zsum f l + zsum f l')%Z.
Proof. induction l; simpl; lia. Qed.

Lemma zsum_zero {A} (f : A -> Z) l : (forall x, x ∈ l -> f x = 0%Z) -> zsum f l = 0%Z.
Proof.
  induction l as [|x l IH]; intros Hf; simpl; [done|]. rewrite (Hf x) by apply list_elem_of_here.
  rewrite IH; [done|]. intros y Hy. by apply Hf, list_elem_of_further.
Qed.

(** Indexes that contribute nothing can be added. *)
Lemma zsum_subset `{EqDecision A} (f : A -> Z) (ks l : list A) :
  NoDup ks -> NoDup l -> (forall k, k ∈ ks -> k ∈ l) -> (forall k, k ∈ l -> k ∉ ks -> f k = 0%Z) -> zsum f ks = zsum f l.
Proof.
  intros Hks Hl Hsub Hz.
  assert (Permutation l (ks ++ filter (fun k => k ∉ ks) l)) as ->.
  - apply NoDup_Permutation; [done| |].
    + apply list.NoDup_app. split; [done|]. split; [|by apply NoDup_filter].
      intros k Hk Hk'. by apply list_elem_of_filter in Hk' as [? _].
    + intros k. rewrite elem_of_app, list_elem_of_filter. destruct (decide (k ∈ ks)); naive_solver.
  - rewrite zsum_app, (zsum_zero f (filter _ _)); [lia|].
    intros k [Hk Hk']%list_elem_of_filter. by apply Hz.
Qed.

Lemma merged_hits (slots : gmap nat cov_report) ks acc path line :
  hits (cr_files (foldl (fun merged i => merge_reports merged (default empty_report (slots !! i))) acc ks)) path line =
  (hits (cr_files acc) path line +
   zsum (fun i => hits (cr_files (default empty_report (slots !! i))) path line) ks)%Z.
Proof.
  revert acc; induction ks as [|k ks IH]; intros acc; simpl; [lia|].
  rewrite IH, merge_reports_hits. lia.
Qed.

Lemma merged_slots_sum (n : nat) (ms : list msg) path line :
  Forall (fun m => msg_index m < n) ms ->
  hits (cr_files (_merged_coverage (slots_of ms))) path line =
  zsum (fun i => match last_snapshot i ms with Some r => hits (cr_files r) path line | None => 0%Z end) (seq 0 n).
Proof.
  intros Hms. unfold _merged_coverage. rewrite merged_hits. unfold hits at 1; simpl. rewrite Z.add_0_l.
  set (f := fun i => match last_snapshot i ms with Some r => hits (cr_files r) path line | None => 0%Z end).
  transitivity (zsum f (merge_sort le (map_to_list (slots_of ms)).*1)).
  { clear. induction (merge_sort _ _) as [|i l IH]; simpl; [done|]. rewrite IH. f_equal.
    rewrite slots_last. unfold f. by destruct (last_snapshot i ms). }
  apply zsum_subset.
  - rewrite merge_sort_Permutation. apply NoDup_fst_map_to_list.
  - apply NoDup_seq.
  - intros k. rewrite merge_sort_Permutation, list_elem_of_fmap. intros ([k' r] & -> & Hk). simpl.
    apply elem_of_map_to_list in Hk. apply elem_of_seq. split; [lia|]. simpl.
    clear f. revert k' r Hk. induction ms as [|m ms IH] using rev_ind; intros k r Hk; [done|].
    apply Forall_app in Hms as [Hms Hm]. rewrite list.Forall_singleton in Hm. specialize (IH Hms).
    rewrite slots_snoc in Hk. destruct m; simpl in *; try by eapply IH.
    apply lookup_insert_Some in Hk as [[<- _]|[_ Hk]]; [done|by eapply IH].
  - intros k _ Hk. unfold f. rewrite <- slots_last.
    destruct (slots_of ms !! k) as [r|] eqn:E; [|done]. exfalso. apply Hk.
    rewrite merge_sort_Permutation. apply list_elem_of_fmap. exists (k, r). split; [done|]. by apply elem_of_map_to_list.
Qed.

(** C18: The coverage of a parallel run counts every execution once.  Whatever
    messages the server has handled, in whatever interleaving, the report it
    merges has, for every line, the sum over the workers of the hits in the worker's last
    snapshot: a worker that exports live and sends its cumulative counts again
    and again is not counted more than once. *)
Theorem merged_coverage_sums (c : server_config) (n : nat) stdin (ms : list msg) sv path line :
  Forall (fun m => msg_index m < n) ms -> loop_after c ms (initial_server n stdin) = Some sv ->
  hits (cr_files (_merged_coverage (sv_worker_coverage sv))) path line =
  zsum (fun i => match last_snapshot i ms with Some r => hits (cr_files r) path line | None => 0%Z end) (seq 0 n).
Proof.
  intros Hms Hl. apply loop_after_effect in Hl as [_ _ _ Hs _ _ _].
  change (sv_worker_coverage sv = slots_of ms) in Hs. rewrite Hs. by apply merged_slots_sum.
Qed.
End WorkerCoverage.

(** ** A concrete run

    Pickling as the identity, except that one report and one kind of exception
    do not pickle. *)
Section Demo.

#[local] Instance demo_pytest : Pytest := {|
  pickled := (TestReport + exc_info)%type;
  report_json := TestReport;
  pickle_report r := if decide (rp_body r = "live objects"%string) then None else Some (inl r);
  unpickle_report p := match p with inl r => Ok r | inr _ => Raise (TypeError "not a report") end;
  report_to_json r := mkTestReport (rp_nodeid r) (rp_outcome r) (rp_wasxfail r) "text";
  report_from_json r := Ok r;
  pickle_exc e := if decide (ei_value e = "live objects"%string) then None else Some (inr e);
  unpickle_exc p := match p with inr e => Ok e | inl _ => Raise (TypeError "not an exception") end;
  report_teststatus r := match rp_outcome r with
                         | Passed => mkStatus "." "PASSED" None
                         | Failed => mkStatus "F" "FAILED" None
                         | Skipped => mkStatus "s" "SKIPPED" None
                         end;
|}.

#[local] Instance demo_laws : PytestLaws.
Proof.
  split; simpl.
  - intros r p. case_decide; [discriminate|]. by intros [= <-].
  - intros r. by eexists.
Qed.

Lemma demo_loads : exceptions_load.
Proof. intros e p. simpl. case_decide; [discriminate|]. intros [= <-]. eauto. Qed.

Definition demo_config : server_config :=
  mkServerConfig 2 [] Duplicated [] (u "logs") true false None 0 true true 0 true.

Definition demo_worker (i : nat) : worker_config :=
  mkWorkerConfig i true (-1) None ∅ (Some (mkReport {[ u "lib.rs" := {[ 3%Z := 1%Z ]} ]} [])) (fun r => if r then 1%Z else 0%Z).

Definition demo_passed : TestReport := mkTestReport "t.py::a" Passed false "".
Definition demo_failed : TestReport := mkTestReport "t.py::b" Failed false "live objects".

Definition demo_items : list item :=
  [mkItem "t.py::a" (fun _ => [HSetup; HBreakpoint (mkBp "t.py" 3 "a" "-->"); HPdbExit; HReport demo_passed]) None None;
   mkItem "t.py::b" (fun _ => [HSetup; HException (Some (mkExcInfo "TransactionFailed" "live objects" "tb")) None;
                               HReport demo_failed]) None None].

Definition demo_ins : list worker_input :=
  [mkInput (demo_worker 0) false "process-0.ansi" 0 false false demo_items [0; 1];
   mkInput (demo_worker 1) false "process-1.ansi" 0 false false demo_items [0; 1]].

Lemma demo_well_formed : well_formed demo_ins.
Proof.
  intros [|[|i]] wi Hwi; simplify_eq/=; (split; [done|]).
  all: repeat constructor; intros next; reflexivity.
Qed.

(** The scheduler that lets the first process that can move do so. *)
Definition greedy_step (c : server_config) (cap : nat) (s : sys) : option sys :=
  match server_step c s with
  | Some s' => Some s'
  | None => match worker_step cap 0 s with Some s' => Some s' | None => worker_step cap 1 s end
  end.
Fixpoint greedy (c : server_config) (cap fuel : nat) (s : sys) : sys :=
  match fuel with
  | O => s
  | S fuel => match greedy_step c cap s with Some s' => greedy c cap fuel s' | None => s end
  end.

Lemma greedy_reaches c cap fuel s : rtc (step c cap) s (greedy c cap fuel s).
Proof.
  revert s; induction fuel as [|fuel IH]; intros s; simpl; [constructor|].
  destruct (greedy_step c cap s) as [s'|] eqn:E; [|constructor].
  eapply rtc_l; [|apply IH]. unfold greedy_step in E.
  destruct (server_step c s) eqn:E1; [exists CServer; simplify_eq; by split|].
  destruct (worker_step cap 0 s) eqn:E2; [exists (CWorker 0); simplify_eq; by split|].
  exists (CWorker 1). by split.
Qed.


Definition demo_end : sys := greedy demo_config 2 200 (start_system [u "y"; u "what"; u "n"] demo_ins).


Definition demo_collected : list (list string) := [["t.py::a"; "t.py::b"]; ["t.py::a"; "t.py::b"]]%string.

Lemma distribution_exact_witness :
  match start_loop demo_config 0 false false demo_collected with
  | StAssigned lists => forall l, l ∈ lists -> l = seq 0 2
  | _ => False
  end.
Proof.
  pose proof (distribution_exact demo_config demo_collected ltac:(simpl; lia) eq_refl) as Hd.
  change (start_loop demo_config 0 false false demo_collected) with (StAssigned [[0; 1]; [0; 1]]) in *.
  destruct Hd as (_ & _ & Hd). exact Hd.
Defined.

(** Worker 0 sends its cumulative counts twice, worker 1 once. *)
Definition demo_snapshots : list msg :=
  let r (n : Z) := mkReport {[ u "lib.rs" := {[ 3%Z := n ]} ]} [] in
  [MCoverage 0 (r 1%Z); MCoverage 1 (r 5%Z); MCoverage 0 (r 2%Z)].

Lemma merged_coverage_sums_witness :
  exists sv, loop_after demo_config demo_snapshots (initial_server 2 []) = Some sv /\
    hits (cr_files (_merged_coverage (sv_worker_coverage sv))) (u "lib.rs") 3 = 7%Z.
Proof.
  eexists. split; [reflexivity|].
  rewrite (merged_coverage_sums demo_config 2 [] demo_snapshots); [vm_compute; reflexivity| |reflexivity].
  repeat constructor.
Defined.
End Demo.
