(* ===== verification/PytestPlugin.v ===== *)
(** * The pytest plugin ([_pytest_plugin.py])

    The hooks the entry-point plugin runs in every session: options, arming of
    coverage, the base seed, the pristine state and seed of every test, the
    routing of exceptions, crash logs and the summary.  The module's globals and
    the state it resets (the SVM's configuration, labels, the fuzzing module's
    failure context, the debugger's guard) are one record. *)

From Stdlib Require Import ZArith Lia QArith.
From Stdlib Require Import Strings.Byte.
From stdpp Require Import base decidable option list gmap strings.
From S2P Require Import Prelude.
From S2P Require Import Bytes.
From S2P Require Import Utf8.
From S2P Require Import Hex.
From S2P Require Import Values.
From S2P Require Import Labels.
From S2P Require Import Fuzzing.
From S2P Require Import Coverage.
#[local] Open Scope string_scope.
#[local] Open Scope Z_scope.

(** ** Options *)

(** Where pytest found the paths to collect: the command line, or a default. *)
Inductive args_source := ARGS | Fallback.
#[global] Instance args_source_eq_dec : EqDecision args_source.
Proof. solve_decision. Defined.

Record config := mkConfig {
  cf_seed : option ustr;                  (** [--seed] *)
  cf_attach : bool;                       (** [--attach] *)
  cf_coverage : Z;                        (** dest [coverage] *)
  cf_coverage_report : option ustr;       (** [--coverage-report] *)
  cf_coverage_sync : option Q;            (** [--coverage-sync] *)
  cf_coverage_source : list ustr;         (** [--coverage-source] *)
  cf_rootpath : ustr;
  cf_args : list ustr;
  cf_args_source : args_source;
  cf_usepdb_cls : option (ustr * ustr);
  cf_verbose : Z;
}.

Definition _COVERAGE_ALL : Z := -1.
Definition _DEFAULT_COVERAGE_REPORT : ustr := u ".wake-sol/lcov.info".
Definition _DEFAULT_COVERAGE_SYNC : Q := 5.

(** *** [--cov], whose count is optional *)

(** [PathFinder().find_spec("pytest_cov")]: a specification, none, or an
    exception.  The name is claimed only when pytest-cov is known to be absent. *)
Inductive spec_result := SpecFound | SpecMissing | SpecFailed.
Definition _cov_alias_free (r : spec_result) : bool := match r with SpecMissing => true | _ => false end.
Definition coverage_flags (r : spec_result) : list ustr :=
  ([u "--coverage"] ++ (if _cov_alias_free r then [u "--cov"] else []))%list.

(** What argparse hands to [_CoverageCountAction]: the new value of the option
    and the path it took, if the value is not a number. *)
Definition _CoverageCountAction (value : option ustr) (stolen : list ustr) : Z * list ustr :=
  match value with
  | None => (_COVERAGE_ALL, stolen)
  | Some v => match parse_int v with
              | Some n => (n, stolen)
              | None => (_COVERAGE_ALL, stolen ++ [v])%list
              end
  end.

(** [dict.fromkeys]: the first occurrence of each. *)
Fixpoint dedupe (seen : list ustr) (l : list ustr) : list ustr :=
  match l with
  | [] => []
  | x :: l => if bool_decide (x ∈ seen) then dedupe seen l else x :: dedupe (x :: seen) l
  end.

Definition set_args (args : list ustr) (src : args_source) (c : config) : config :=
  mkConfig (cf_seed c) (cf_attach c) (cf_coverage c) (cf_coverage_report c) (cf_coverage_sync c)
    (cf_coverage_source c) (cf_rootpath c) args src (cf_usepdb_cls c) (cf_verbose c).

(** [config.args.extend(p for p in paths if p not in config.args)]: the
    membership test sees the paths already added. *)
Fixpoint extend_new (args paths : list ustr) : list ustr :=
  match paths with
  | [] => args
  | p :: paths => extend_new (if bool_decide (p ∈ args) then args else args ++ [p])%list paths
  end.

Definition _restore_stolen_paths (stolen : list ustr) (c : config) : config * list ustr :=
  match stolen with
  | [] => (c, stolen)
  | _ =>
      let paths := dedupe [] stolen in
      (if decide (cf_args_source c = ARGS) then set_args (extend_new (cf_args c) paths) ARGS c
       else set_args paths ARGS c, [])
  end.

(** *** Coverage settings *)

Definition _coverage_roots (c : config) : list ustr :=
  match cf_coverage_source c with [] => [cf_rootpath c] | dirs => dirs end.

Definition coverage_sync_interval (c : config) : Q :=
  match cf_coverage_sync c with None => _DEFAULT_COVERAGE_SYNC | Some v => v end.

(** The empty string is falsy. *)
Definition given (o : option ustr) : bool := match o with Some (_ :: _) => true | _ => false end.

Definition coverage_proc_count (c : config) : Z :=
  if (cf_coverage c =? 0) && given (cf_coverage_report c) then _COVERAGE_ALL else cf_coverage c.

Definition _coverage_wanted (c : config) : bool := negb (coverage_proc_count c =? 0).

Definition coverage_report_path (c : config) : ustr :=
  match cf_coverage_report c with
  | Some (_ :: _ as explicit) => explicit
  | _ => (cf_rootpath c ++ u "/" ++ _DEFAULT_COVERAGE_REPORT)%list
  end.

(** ** Live export ([coverage.LiveExporter])

    Where an exporter sends its snapshots: to the report's file, or to the
    server's queue. *)
Inductive sink := ToFile (path : ustr) | ToQueue (index : nat).

Record exporter := mkExporter {
  ex_interval : Q;
  ex_emit : sink;
  ex_roots : list ustr;
  ex_running : bool;          (** the thread is alive *)
}.

(** An export: which sink received it. *)
Definition start (e : exporter) : exporter * list sink :=
  if Qle_bool (ex_interval e) 0 || ex_running e then (e, [])
  else (mkExporter (ex_interval e) (ex_emit e) (ex_roots e) true, [ex_emit e]).

(** One turn of [_loop] after the interval. *)
Definition tick (e : exporter) : list sink := if ex_running e then [ex_emit e] else [].

Definition stop (final : bool) (e : exporter) : exporter * list sink :=
  (mkExporter (ex_interval e) (ex_emit e) (ex_roots e) false, if final then [ex_emit e] else []).

Definition start_live_coverage (c : config) (emit : sink) : option exporter * list sink :=
  if negb (_coverage_wanted c) then (None, [])
  else
    let interval := coverage_sync_interval c in
    if Qle_bool interval 0 then (None, [])
    else let '(e, out) := start (mkExporter interval emit (_coverage_roots c) false) in (Some e, out).

(** ** State *)

(** The switches of the native SVM that survive [reset], the forked endpoint
    and the rest, which [reset] rebuilds from the switches. *)
Record svm_config := mkSvmConfig {
  sigverify : bool;
  blockhash_check : bool;
  transaction_history : bool;
  forked : option ustr;
}.

(** One crash log: [json.dumps(data)] and where it was written. *)
Record crash_log := mkCrashLog {
  cl_path : ustr;
  cl_nodeid : ustr;
  cl_seed : ustr;
  cl_reproduce : ustr;
  cl_failure : fuzz_failure;
  cl_exc_type : ustr;
  cl_exc_value : ustr;
}.

(** The handler a worker installs through [_debug.set_exception_handler]. *)
Record excinfo := mkExcinfo { xi_type : ustr; xi_value : ustr }.

Section Plugin.
Context {World : Type}.

(** The native [reset]: accounts, sysvars and features as at construction. *)
Variable fresh_world : svm_config -> World.
(** [hashlib.sha256(...).digest()]. *)
Variable sha256 : bytes -> bytes.

Record plugin := mkPlugin {
  _crash_dir_override : option ustr;
  _crash_sink : bool;                         (** a worker's sink is installed *)
  _crash_logs : list (ustr * ustr);
  _worker_index : option nat;
  _live_exporter : option exporter;
  _fuzz_failures : list fuzz_failure;
  _stolen_paths : list ustr;
  pl_seed : option bytes;                     (** [config.stash[_SEED_KEY]] *)
  pl_handler : bool;                          (** a handler is installed in [_debug] *)
  pl_handled : bool;                          (** [_debug._exception_handled] *)
  pl_fuzz : session;                          (** the fuzzing module *)
  pl_svm : svm_config;
  pl_world : World;
  pl_labels : labels;
  pl_random : option bytes;                   (** the seed of [wake_sol.random] *)
  pl_traced : bool;                           (** coverage armed *)
  pl_files : list crash_log;                  (** crash logs on disk *)
  pl_sent : list (ustr * ustr);               (** paths given to the sink *)
  pl_exports : list sink;                     (** live exports, in order *)
}.

(** ** [pytest_configure] *)

(** The outcome of [import pytypes]: done, or the exception and the module
    named by a [ModuleNotFoundError]. *)
Inductive import_result := Imported | ModuleNotFound (name : ustr) | ImportError (what : string).

Inductive configure_error := UsageError (m : string) | ImportFailed (what : string).

(** [(exc.name or "").split(".")[0]]. *)
Definition top_package (name : ustr) : ustr := (partition_at 46 name).1.

Definition _default_breakpoints_to_ipdb (ipython : bool) (c : config) : config :=
  match cf_usepdb_cls c with
  | Some _ => c
  | None =>
      if ipython
      then mkConfig (cf_seed c) (cf_attach c) (cf_coverage c) (cf_coverage_report c) (cf_coverage_sync c)
             (cf_coverage_source c) (cf_rootpath c) (cf_args c) (cf_args_source c)
             (Some (u "IPython.terminal.debugger", u "TerminalPdb")) (cf_verbose c)
      else c
  end.

Definition base_seed (urandom : bytes) (c : config) : option bytes :=
  match cf_seed c with None => Some urandom | Some raw => fromhex raw end.

Definition set_configured (stolen : list ustr) (seed : option bytes) (traced : bool) (l : labels) (p : plugin) : plugin :=
  mkPlugin (_crash_dir_override p) (_crash_sink p) (_crash_logs p) (_worker_index p) (_live_exporter p)
    (_fuzz_failures p) stolen seed (pl_handler p) (pl_handled p) (pl_fuzz p) (pl_svm p) (pl_world p) l
    (pl_random p) traced (pl_files p) (pl_sent p) (pl_exports p).

Definition pytest_configure (urandom : bytes) (ipython : bool) (pytypes : import_result) (c : config) (p : plugin)
    : configure_error + config * plugin :=
  let '(c, stolen) := _restore_stolen_paths (_stolen_paths p) c in
  let c := _default_breakpoints_to_ipdb ipython c in
  let traced := pl_traced p || _coverage_wanted c in
  match base_seed urandom c with
  | None => inl (UsageError "--seed must be a hex string")
  | Some seed =>
      let p := set_configured stolen (Some seed) traced (set_full_addresses (0 <? cf_verbose c) (pl_labels p)) p in
      match pytypes with
      | Imported => inr (c, p)
      | ModuleNotFound name => if decide (top_package name = u "pytypes") then inr (c, p) else inl (ImportFailed "ModuleNotFoundError")
      | ImportError what => inl (ImportFailed what)
      end
  end.

(** ** [pytest_sessionstart] *)

Definition set_exporter (e : option exporter) (out : list sink) (p : plugin) : plugin :=
  mkPlugin (_crash_dir_override p) (_crash_sink p) (_crash_logs p) (_worker_index p) e
    (_fuzz_failures p) (_stolen_paths p) (pl_seed p) (pl_handler p) (pl_handled p) (pl_fuzz p) (pl_svm p)
    (pl_world p) (pl_labels p) (pl_random p) (pl_traced p) (pl_files p) (pl_sent p) (pl_exports p ++ out)%list.

Definition pytest_sessionstart (c : config) (p : plugin) : plugin :=
  match _worker_index p with
  | Some _ => p
  | None =>
      if negb (_coverage_wanted c) then p
      else let '(e, out) := start_live_coverage c (ToFile (coverage_report_path c)) in set_exporter e out p
  end.

(** ** [pytest_runtest_setup] *)

(** The three switches restored, the fork dropped. *)
Definition restored_svm (s : svm_config) : svm_config :=
  let s := if sigverify s then s else mkSvmConfig true (blockhash_check s) (transaction_history s) (forked s) in
  let s := if blockhash_check s then s else mkSvmConfig (sigverify s) true (transaction_history s) (forked s) in
  let s := if transaction_history s then s else mkSvmConfig (sigverify s) (blockhash_check s) true (forked s) in
  mkSvmConfig (sigverify s) (blockhash_check s) (transaction_history s) None.

Definition pytest_runtest_setup (nodeid : ustr) (p : plugin) : res plugin :=
  match pl_seed p with
  | None => Raise (KeyError "_SEED_KEY")
  | Some base =>
      let svm := restored_svm (pl_svm p) in
      match utf8_encode nodeid with
      | None => Raise UnicodeEncodeError
      | Some name =>
          Ok (mkPlugin (_crash_dir_override p) (_crash_sink p) (_crash_logs p) (_worker_index p) (_live_exporter p)
                (_fuzz_failures p) (_stolen_paths p) (pl_seed p) (pl_handler p) false
                (clear_last_fuzz_failure (pl_fuzz p)) svm (fresh_world svm) (clear_labels (pl_labels p))
                (Some (sha256 (base ++ name)%list)) (pl_traced p) (pl_files p) (pl_sent p) (pl_exports p))
      end
  end.

(** ** Crash logs *)

(** [str.isalnum] beyond ASCII. *)
Variable wide_alnum : Z -> bool.

Definition isalnum (c : Z) : bool :=
  if c <? 128 then ((48 <=? c) && (c <=? 57)) || ((65 <=? c) && (c <=? 90)) || ((97 <=? c) && (c <=? 122))
  else wide_alnum c.

Definition _sanitize (text : ustr) (maxlen : nat) : ustr :=
  let safe := (fun c => if isalnum c || bool_decide (c ∈ u "-_.") then c else 95) <$> text in
  match take maxlen safe with [] => u "crash" | s => s end.

Definition reproduce_line (seed : bytes) (nodeid : ustr) : ustr :=
  (u "pytest --seed " ++ bytes_hex seed ++ u " " ++ [34] ++ nodeid ++ [34])%list.

(** [cwd], the time stamp and whether the file can be written come from the
    environment.  [os.path.relpath(crash_file, cwd)] is a parameter of the
    platform. *)
Record environment := mkEnv {
  ev_cwd : ustr;
  ev_timestamp : ustr;
  ev_writable : bool;
}.
Variable relpath : ustr -> ustr -> ustr.

Definition _write_fuzz_crash_log (ev : environment) (nodeid : ustr) (exc : option excinfo) (seed : bytes) (p : plugin) : plugin :=
  match get_last_fuzz_failure (pl_fuzz p), exc with
  | Some ctx, Some exc =>
      let crash_dir := match _crash_dir_override p with
                       | Some d => d
                       | None => (ev_cwd ev ++ u "/.wake-sol/logs/crashes")%list end in
      let crash_file := (crash_dir ++ u "/" ++ ev_timestamp ev ++ u "_" ++ _sanitize nodeid 80 ++ u ".json")%list in
      let failed (logs : list (ustr * ustr)) files sent :=
        mkPlugin (_crash_dir_override p) (_crash_sink p) logs (_worker_index p) (_live_exporter p)
          (_fuzz_failures p ++ [ctx])%list (_stolen_paths p) (pl_seed p) (pl_handler p) (pl_handled p)
          (clear_last_fuzz_failure (pl_fuzz p)) (pl_svm p) (pl_world p) (pl_labels p) (pl_random p) (pl_traced p)
          files sent (pl_exports p) in
      if ev_writable ev
      then
        let rel := relpath crash_file (ev_cwd ev) in
        failed (_crash_logs p ++ [(nodeid, rel)])%list
          (pl_files p ++ [mkCrashLog crash_file nodeid (bytes_hex seed) (reproduce_line seed nodeid) ctx (xi_type exc) (xi_value exc)])%list
          (if _crash_sink p then pl_sent p ++ [(nodeid, rel)] else pl_sent p)%list
      else failed (_crash_logs p) (pl_files p) (pl_sent p)
  | _, _ => p
  end.

(** ** [pytest_exception_interact] *)

(** Who deals with the exception. *)
Inductive routing :=
  | Ignored                       (** no exception info *)
  | Handler (e : excinfo)         (** the worker's handler *)
  | NotAttached
  | Debugger (reproduce : ustr) (e : excinfo).

Definition pytest_exception_interact (ev : environment) (c : config) (nodeid : ustr) (exc : option excinfo) (p : plugin)
    : res (routing * plugin) :=
  match exc with
  | None => Ok (Ignored, p)
  | Some e =>
      match pl_seed p with
      | None => Raise (KeyError "_SEED_KEY")
      | Some seed =>
          let p := _write_fuzz_crash_log ev nodeid exc seed p in
          Ok (if pl_handler p then Handler e
              else if negb (cf_attach c) then NotAttached
              else Debugger (u "Reproduce: " ++ reproduce_line seed nodeid)%list e, p)
      end
  end.

(** ** The worker's seams ([set_crash_dir], [set_crash_log_sink],
    [set_worker_index], [_debug.set_exception_handler]) *)
Definition enter_worker (index : nat) (crash_dir : ustr) (attach : bool) (p : plugin) : plugin :=
  mkPlugin (Some crash_dir) true (_crash_logs p) (Some index) (_live_exporter p) (_fuzz_failures p)
    (_stolen_paths p) (pl_seed p) (pl_handler p || attach) (pl_handled p) (pl_fuzz p) (pl_svm p) (pl_world p)
    (pl_labels p) (pl_random p) (pl_traced p) (pl_files p) (pl_sent p) (pl_exports p).

(** ** The summary *)

Definition failure_line (f : fuzz_failure) : ustr :=
  (u "Failed: " ++ u (ff_class f) ++ u " in " ++ u (ff_failing f) ++ u " at sequence " ++ int_str (ff_sequence f) ++
   u ", flow " ++ int_str (ff_flow f))%list.

Definition crash_log_lines (logs : list (ustr * ustr)) : list ustr :=
  match logs with
  | [] => []
  | _ => u "Crash logs:" :: ((fun l => u "  " ++ l.1 ++ u ": " ++ l.2)%list <$> logs)
  end.

(** [_write_coverage]: the exporter is stopped, and the report is written by
    this process unless it is a worker. *)
Definition _write_coverage (c : config) (p : plugin) : plugin * option ustr :=
  if negb (_coverage_wanted c) then (p, None)
  else
    let p := match _live_exporter p with
             | Some e => set_exporter None (stop false e).2 p
             | None => p
             end in
    (p, match _worker_index p with Some _ => None | None => Some (coverage_report_path c) end).

Definition _write_flow_stats (p : plugin) : list (list (list string) * list stats_warning) :=
  (fun e => build_stats_table (en_flows e.2)) <$> map_to_list (get_session_stats (pl_fuzz p)).

Definition pytest_terminal_summary (c : config) (p : plugin) : res (list ustr * plugin * option ustr) :=
  match pl_seed p with
  | None => Raise (KeyError "_SEED_KEY")
  | Some seed =>
      let '(p', written) := _write_coverage c p in
      Ok ((failure_line <$> _fuzz_failures p) ++ [u "Base seed: " ++ bytes_hex seed] ++ crash_log_lines (_crash_logs p),
          p', written)%list
  end.

(** ** [pytest_load_initial_conftests]: the root on [sys.path] *)
Definition load_initial_conftests (root : ustr) (sys_path : list ustr) : list ustr * bool :=
  if bool_decide (root ∈ sys_path) then (sys_path, false) else (root :: sys_path, true).

(** [sys.path.remove(root)]: the first occurrence. *)
Fixpoint remove_first (x : ustr) (l : list ustr) : list ustr :=
  match l with [] => [] | y :: l => if decide (y = x) then l else y :: remove_first x l end.
Definition remove_root (root : ustr) (added : bool) (sys_path : list ustr) : list ustr :=
  if added then remove_first root sys_path else sys_path.

End Plugin.
