(* ===== verification/PytestPluginProps.v ===== *)
(** * The pytest plugin: reproducibility, crash logs, paths and live export *)

From Stdlib Require Import ZArith Lia QArith.
From Stdlib Require Import Strings.Byte.
From stdpp Require Import base decidable option list gmap strings.
From S2P Require Import Prelude.
From S2P Require Import Bytes.
From S2P Require Import Utf8.
From S2P Require Import Hex.
From S2P Require Import Values.
From S2P Require Import Labels.
From S2P Require Import Fuzzing.
From S2P Require Import Coverage.
From S2P Require Import MpServer.
From S2P Require Import PytestPlugin.
#[local] Open Scope string_scope.
#[local] Open Scope Z_scope.

(** ** Paths [--cov] took for its count *)

Lemma dedupe_elem seen l x : x ∈ dedupe seen l <-> x ∈ l /\ x ∉ seen.
Proof.
  revert seen; induction l as [|y l IH]; intros seen; simpl; [split; [by intros []%elem_of_nil|by intros [[]%elem_of_nil _]]|].
  case_bool_decide as Hy.
  - rewrite IH, elem_of_cons. split; [naive_solver|]. intros [[->|Hx] Hs]; [done|done].
  - rewrite !elem_of_cons, IH, elem_of_cons. destruct (decide (x = y)); naive_solver.
Qed.

Lemma dedupe_NoDup seen l : NoDup (dedupe seen l).
Proof.
  revert seen; induction l as [|y l IH]; intros seen; simpl; [constructor|].
  case_bool_decide; [done|]. constructor; [|done]. rewrite dedupe_elem, elem_of_cons. naive_solver.
Qed.

Lemma extend_new_spec args paths :
  exists new, extend_new args paths = (args ++ new)%list /\
    (forall x, x ∈ (args ++ new)%list <-> x ∈ args \/ x ∈ paths) /\
    (forall x, x ∈ new -> x ∈ paths /\ x ∉ args) /\ NoDup new.
Proof.
  revert args; induction paths as [|p paths IH]; intros args; simpl.
  - exists []. rewrite app_nil_r. split; [done|]. split; [|split; [by intros x []%elem_of_nil|constructor]].
    intros x. split; [by left|]. intros [|[]%elem_of_nil]; done.
  - case_bool_decide as Hp.
    + destruct (IH args) as (new & Hn & He & Hs & Hd). exists new. split; [done|]. split; [|split; [|done]].
      * intros x. rewrite He, elem_of_cons. naive_solver.
      * intros x Hx. rewrite elem_of_cons. destruct (Hs x Hx). auto.
    + destruct (IH (args ++ [p])%list) as (new & Hn & He & Hs & Hd). exists (p :: new).
      rewrite Hn, <- app_assoc. split; [done|]. split; [|split].
      * intros x. specialize (He x). rewrite <- app_assoc in He. simpl in He. rewrite He.
        rewrite elem_of_app, list_elem_of_singleton, elem_of_cons. naive_solver.
      * intros x [->|Hx]%elem_of_cons; [split; [apply list_elem_of_here|done]|].
        destruct (Hs x Hx) as [Hin Hout]. rewrite elem_of_app in Hout. split; [by apply list_elem_of_further|naive_solver].
      * constructor; [|done]. intros Hx. destruct (Hs p Hx) as [_ Hout]. apply Hout.
        apply elem_of_app; right. apply list_elem_of_here.
Qed.

(** A test path that [--cov] takes for its optional count is handed back.
    After both parsing passes, the session collects from exactly the paths given
    on the command line and the paths taken: nothing is added twice, the order
    of the given paths is kept, and a default that pytest fell back to because
    it saw no path is dropped. *)
Theorem stolen_paths_restored c stolen :
  stolen <> [] ->
  let '(c', remaining) := _restore_stolen_paths stolen c in
  remaining = [] /\ cf_args_source c' = ARGS /\
  (forall x, x ∈ cf_args c' <-> x ∈ stolen \/ cf_args_source c = ARGS /\ x ∈ cf_args c) /\
  (cf_args_source c = ARGS -> exists new, cf_args c' = (cf_args c ++ new)%list /\ NoDup new) /\
  (cf_args_source c <> ARGS -> NoDup (cf_args c')).
Proof.
  intros Hne. unfold _restore_stolen_paths. destruct stolen as [|s0 stolen]; [done|].
  set (paths := dedupe [] (s0 :: stolen)).
  assert (forall x, x ∈ paths <-> x ∈ s0 :: stolen) as Hp.
  { intros x. unfold paths. rewrite dedupe_elem. split; [by intros [? _]|]. intros Hx. split; [done|]. by intros []%elem_of_nil. }
  assert (NoDup paths) as Hnd by apply dedupe_NoDup. clearbody paths.
  destruct (extend_new_spec (cf_args c) paths) as (new & Hn & He & Hs & Hd).
  case_decide as Hsrc; simpl; split; try done; split; try done.
  - rewrite Hn. split; [|split; [by exists new|done]].
    intros x. rewrite He, Hp. naive_solver.
  - split; [|split; [done|done]]. intros x. rewrite Hp. naive_solver.
Qed.

Section Props.
Context {World : Type} (fresh_world : svm_config -> World) (sha256 : bytes -> bytes)
  (wide_alnum : Z -> bool) (relpath : ustr -> ustr -> ustr).

(** ** Reproducibility *)

(** What a test can observe when it starts. *)
Definition observable (p : plugin (World := World)) :=
  (pl_svm p, pl_world p, _LABELS (pl_labels p), pl_random p, get_last_fuzz_failure (pl_fuzz p), pl_handled p).

Lemma restored_svm_default s : restored_svm s = mkSvmConfig true true true None.
Proof. by destruct s as [[] [] [] f]. Qed.

(** The environment of a test is a function of the base seed and the node id. *)
Definition test_environment (base : bytes) (nodeid : ustr) :=
  name ← utf8_encode nodeid;
  Some (mkSvmConfig true true true None, fresh_world (mkSvmConfig true true true None),
        @nil (string * string), Some (sha256 (base ++ name)%list), @None fuzz_failure, false).

Lemma setup_environment base nodeid p :
  pl_seed p = Some base ->
  match pytest_runtest_setup fresh_world sha256 nodeid p with
  | Ok p' => test_environment base nodeid = Some (observable p') /\ pl_seed p' = Some base
  | Raise e => test_environment base nodeid = None /\ e = UnicodeEncodeError
  end.
Proof.
  intros Hs. unfold pytest_runtest_setup, test_environment. rewrite Hs.
  destruct (utf8_encode nodeid) as [name|]; simpl; [|done].
  split; [|done]. unfold observable; simpl. by rewrite !restored_svm_default.
Qed.

Lemma configure_seed urandom ipython pytypes c (p : plugin (World := World)) c' p' :
  pytest_configure urandom ipython pytypes c p = inr (c', p') -> pl_seed p' = base_seed urandom c.
Proof.
  unfold pytest_configure. destruct (_restore_stolen_paths (_stolen_paths p) c) as [c1 stolen] eqn:E1.
  assert (cf_seed c1 = cf_seed c) as Hc1.
  { unfold _restore_stolen_paths in E1. destruct (_stolen_paths p); [by injection E1 as <- _|].
    case_decide; by injection E1 as <- _. }
  set (c2 := _default_breakpoints_to_ipdb ipython c1).
  assert (cf_seed c2 = cf_seed c1) as Hc2.
  { subst c2. unfold _default_breakpoints_to_ipdb. destruct (cf_usepdb_cls c1); [done|]. by destruct ipython. }
  assert (base_seed urandom c2 = base_seed urandom c) as -> by (unfold base_seed; by rewrite Hc2, Hc1).
  destruct (base_seed urandom c) as [seed|]; [|discriminate].
  destruct pytypes as [|name|]; [|case_decide|]; intros Heq; by simplify_eq.
Qed.


(** ** Crash logs *)

(** A fuzz failure leaves exactly one crash log.  With a failure pending,
    the exception hook writes one file naming the test, the seed, the line that
    reproduces it and the failure, lists it for the summary and passes it to the
    worker's sink if there is one; a second call of the hook adds nothing, and
    neither does an ordinary failure of the next test.  When the file cannot be
    written the failure is still summarised and the exception routed as
    before. *)
Theorem crash_log_exactly_once ev ev' c nodeid nodeid' e e' p seed ctx r p' :
  pl_seed p = Some seed -> get_last_fuzz_failure (pl_fuzz p) = Some ctx ->
  pytest_exception_interact wide_alnum relpath ev c nodeid (Some e) p = Ok (r, p') ->
  (if ev_writable ev
   then exists path,
     pl_files p' = (pl_files p ++ [mkCrashLog path nodeid (bytes_hex seed) (reproduce_line seed nodeid) ctx (xi_type e) (xi_value e)])%list /\
     _crash_logs p' = (_crash_logs p ++ [(nodeid, relpath path (ev_cwd ev))])%list /\
     pl_sent p' = (if _crash_sink p then pl_sent p ++ [(nodeid, relpath path (ev_cwd ev))] else pl_sent p)%list
   else pl_files p' = pl_files p /\ _crash_logs p' = _crash_logs p /\ pl_sent p' = pl_sent p) /\
  _fuzz_failures p' = (_fuzz_failures p ++ [ctx])%list /\
  r = (if pl_handler p then Handler e else if cf_attach c then Debugger (u "Reproduce: " ++ reproduce_line seed nodeid)%list e else NotAttached) /\
  (exists r2, pytest_exception_interact wide_alnum relpath ev' c nodeid' (Some e') p' = Ok (r2, p')) /\
  (forall p2, pytest_runtest_setup fresh_world sha256 nodeid' p' = Ok p2 ->
     exists r2, pytest_exception_interact wide_alnum relpath ev' c nodeid' (Some e') p2 = Ok (r2, p2)).
Proof.
  intros Hs Hf Hr. unfold pytest_exception_interact in Hr. rewrite Hs in Hr. injection Hr as <- <-.
  assert (forall p2 : plugin (World := World), pl_seed p2 = Some seed -> get_last_fuzz_failure (pl_fuzz p2) = None ->
    exists r2, pytest_exception_interact wide_alnum relpath ev' c nodeid' (Some e') p2 = Ok (r2, p2)) as Hnone.
  { intros p2 Hs2 Hf2. unfold pytest_exception_interact, _write_fuzz_crash_log. rewrite Hs2, Hf2. eauto. }
  set (p' := _write_fuzz_crash_log _ _ _ _ _ _ _).
  assert (pl_seed p' = Some seed /\ get_last_fuzz_failure (pl_fuzz p') = None /\ pl_handler p' = pl_handler p) as (Hs' & Hf' & ->)
    by (subst p'; unfold _write_fuzz_crash_log; rewrite Hf; by destruct (ev_writable ev)).
  split_and!.
  - subst p'; unfold _write_fuzz_crash_log; rewrite Hf. destruct (ev_writable ev); [by eexists|done].
  - subst p'; unfold _write_fuzz_crash_log; rewrite Hf. by destruct (ev_writable ev).
  - by destruct (pl_handler p), (cf_attach c).
  - by apply Hnone.
  - intros p2 Hp2. pose proof (setup_environment seed nodeid' p' Hs') as Henv. rewrite Hp2 in Henv.
    destruct Henv as [Henv Hs2]. apply Hnone; [done|].
    unfold test_environment in Henv. destruct (utf8_encode nodeid'); simplify_eq/=. unfold observable in Henv. congruence.
Qed.

(** ** Live export in a worker *)

(** In a parallel run with coverage every worker also exports to the
    report's own file.  The check that leaves live export to the server's merged
    report tests the worker index, which the worker sets only when its run loop
    starts, after [pytest_sessionstart] has started an exporter writing this
    worker's counts alone to the path the server writes; it keeps exporting
    there until the worker's summary. *)
Theorem worker_exports_to_report_file c p index crash_dir attach :
  _worker_index p = None -> _live_exporter p = None -> _coverage_wanted c = true -> Qle_bool (coverage_sync_interval c) 0 = false ->
  let p' := enter_worker index crash_dir attach (pytest_sessionstart (World := World) c p) in
  _worker_index p' = Some index /\
  pl_exports p' = (pl_exports p ++ [ToFile (coverage_report_path c)])%list /\
  exists e, _live_exporter p' = Some e /\ tick e = [ToFile (coverage_report_path c)].
Proof.
  intros Hi He Hw Hq. unfold pytest_sessionstart. rewrite Hi, Hw. simpl.
  unfold start_live_coverage. rewrite Hw; simpl. rewrite Hq. unfold start; simpl. rewrite Hq; simpl.
  split; [done|]. split; [done|]. by eexists.
Qed.

(** ** [sys.path] *)
Lemma root_removed root sys_path :
  let '(path, added) := load_initial_conftests root sys_path in
  root ∈ path /\ remove_root root added path = sys_path.
Proof.
  unfold load_initial_conftests. case_bool_decide as Hr; simpl; [done|].
  split; [apply list_elem_of_here|]. unfold remove_root; simpl. by rewrite decide_True.
Qed.
End Props.

(** ** Concrete sessions *)

Definition demo_seed : bytes := [x3d; x4a].
Definition demo_options : config :=
  mkConfig (Some (u "3d4a")) false (-1) None None [] (u "/repo") [u "tests"] ARGS None 0.
Definition demo_plugin : plugin (World := unit) :=
  mkPlugin None false [] None None [] [u "tests/a.py"; u "tests/a.py"] None false true
    (mkSession ∅ (Some (mkFuzzFailure "Fuzz" 0 3 "flow inc" ["inc"]))) (mkSvmConfig false true false (Some (u "https://rpc"))) tt
    (set_label "3Ftw" "alice" labels_init) None false [] [] [].
Definition demo_started : plugin (World := unit) :=
  match pytest_configure [x00] true Imported demo_options demo_plugin with inr (_, p) => p | inl _ => demo_plugin end.
Definition demo_server : server_config :=
  mkServerConfig 1 [demo_seed] Duplicated [u "-s"] (u "logs") false false None 5 false false 0 true.


Definition demo_env : environment := mkEnv (u "/repo") (u "20260101_000000_000000") true.

Lemma crash_log_exactly_once_witness :
  exists r p', pytest_exception_interact (fun _ => false) (fun f _ => f) demo_env demo_options (u "t::a")
      (Some (mkExcinfo (u "AssertionError") [])) demo_started = Ok (r, p') /\
    length (pl_files p') = 1%nat /\ length (_fuzz_failures p') = 1%nat.
Proof.
  eexists _, _. split; [reflexivity|].
  destruct (crash_log_exactly_once (fun _ => tt) (fun b => b) (fun _ => false) (fun f _ => f) demo_env demo_env
    demo_options (u "t::a") (u "t::b") (mkExcinfo (u "AssertionError") []) (mkExcinfo (u "AssertionError") [])
    demo_started demo_seed _ _ _ eq_refl eq_refl eq_refl) as ((path & Hfiles & _) & Hfail & _).
  split; [rewrite Hfiles|rewrite Hfail]; reflexivity.
Defined.

Lemma stolen_paths_restored_witness :
  cf_args (_restore_stolen_paths [u "tests/a.py"; u "tests/a.py"] demo_options).1 = [u "tests"; u "tests/a.py"] /\
  u "tests/a.py" ∈ cf_args (_restore_stolen_paths [u "tests/a.py"; u "tests/a.py"] demo_options).1.
Proof.
  split; [reflexivity|].
  pose proof (stolen_paths_restored demo_options [u "tests/a.py"; u "tests/a.py"] ltac:(discriminate)) as Hs.
  destruct (_restore_stolen_paths [u "tests/a.py"; u "tests/a.py"] demo_options) as [c' l].
  destruct Hs as (_ & _ & Hs & _). apply Hs. left. apply list_elem_of_here.
Defined.

Lemma worker_exports_to_report_file_witness :
  pl_exports (enter_worker 1 (u "crashes/process-1") false (pytest_sessionstart demo_options demo_started)) =
  [ToFile (u "/repo/.wake-sol/lcov.info")].
Proof.
  destruct (worker_exports_to_report_file demo_options demo_started 1 (u "crashes/process-1") false
    eq_refl eq_refl eq_refl eq_refl) as (_ & He & _).
  rewrite He. reflexivity.
Defined.
