(* ===== verification/Cli.v ===== *)
(** * The command line ([cli.py])

    What [wake-sol test] does with its arguments: the scanners that split the
    arguments passed through to pytest between the server and the workers, the
    checks, and the assembled sessions.  click has parsed the declared options;
    arguments it does not know arrive in [pytest_args].  The [gen] and
    [coverage merge] commands only call their functions with the options. *)

From Stdlib Require Import ZArith Lia QArith Qpower.
From Stdlib Require Import Strings.Byte.
From stdpp Require Import base decidable option list strings.
From S2P Require Import Prelude.
From S2P Require Import Bytes.
From S2P Require Import Utf8.
From S2P Require Import Hex.
From S2P Require Import Values.
From S2P Require Import Coverage.
From S2P Require Import PytestPlugin.
From S2P Require Import MpServer.
#[local] Open Scope Z_scope.

(** ** Scanners of the arguments *)

(** [a.startswith(p)]. *)
Definition startswith (p a : ustr) : bool := match removeprefix p a with Some _ => true | None => false end.

Fixpoint strip_seed_from (skip : bool) (args : list ustr) : list ustr :=
  match args with
  | [] => []
  | a :: args =>
      if skip then strip_seed_from false args
      else if decide (a = u "--seed") then strip_seed_from true args
      else if startswith (u "--seed=") a then strip_seed_from false args
      else a :: strip_seed_from false args
  end.
Definition _strip_seed (args : list ustr) : list ustr := strip_seed_from false args.

Definition _PLUGIN_OPTIONAL_VALUE : list ustr := [u "--coverage"; u "--cov"].
Definition _PLUGIN_OPTIONS : list ustr := [u "--coverage-report"; u "--coverage-source"; u "--coverage-sync"].

Definition _is_int (text : ustr) : bool := match parse_int text with Some _ => true | None => false end.

(** [any(a.startswith(f"{opt}=") for opt in ...)]. *)
Definition joined (opts : list ustr) (a : ustr) : bool := existsb (fun opt => startswith (opt ++ u "=") a) opts.

(** The next argument is a bare integer. *)
Definition next_is_int (args : list ustr) : bool := match args with nxt :: _ => _is_int nxt | [] => false end.

Fixpoint strip_plugin_from (skip : bool) (args : list ustr) : list ustr :=
  match args with
  | [] => []
  | a :: args =>
      if skip then strip_plugin_from false args
      else if bool_decide (a ∈ _PLUGIN_OPTIONAL_VALUE) then strip_plugin_from (next_is_int args) args
      else if bool_decide (a ∈ _PLUGIN_OPTIONS) then strip_plugin_from true args
      else if joined (_PLUGIN_OPTIONS ++ _PLUGIN_OPTIONAL_VALUE) a then strip_plugin_from false args
      else a :: strip_plugin_from false args
  end.
Definition _strip_plugin_opts (args : list ustr) : list ustr := strip_plugin_from false args.

Definition count_value (text : option ustr) : Z :=
  match text with
  | Some t => match parse_int t with Some n => n | None => _COVERAGE_ALL end
  | None => _COVERAGE_ALL
  end.

(** [a.split("=", 1)[1]]. *)
Definition after_equals (a : ustr) : ustr := (partition_at 61 a).2.

Fixpoint coverage_count_from (count : Z) (args : list ustr) : Z :=
  match args with
  | [] => count
  | a :: args =>
      coverage_count_from
        (if bool_decide (a ∈ _PLUGIN_OPTIONAL_VALUE) then count_value (head args)
         else if joined _PLUGIN_OPTIONAL_VALUE a then count_value (Some (after_equals a))
         else count) args
  end.
Definition _coverage_count (args : list ustr) : Z := coverage_count_from 0 args.

Fixpoint option_value_from (name : ustr) (value : option ustr) (expect : bool) (args : list ustr) : option ustr :=
  match args with
  | [] => value
  | a :: args =>
      if expect then option_value_from name (Some a) false args
      else if decide (a = name) then option_value_from name value true args
      else match removeprefix (name ++ u "=") a with
           | Some v => option_value_from name (Some v) false args
           | None => option_value_from name value false args
           end
  end.
Definition _option_value (args : list ustr) (name : ustr) : option ustr := option_value_from name None false args.

(** ** [float(s)]

    Decimal literals as exact rationals; [inf] and [nan] are outside the
    model. *)
Definition digit_count (s : ustr) : nat := length (List.filter (fun c => negb (c =? 95)) s).

Definition decimal (int_part frac_part : ustr) : option Q :=
  match int_part, frac_part with
  | [], [] => None
  | _, _ =>
      i ← (match int_part with [] => Some 0 | _ => parse_nat int_part end);
      f ← (match frac_part with [] => Some 0 | _ => parse_nat frac_part end);
      Some (inject_Z i + inject_Z f * Qpower 10 (- Z.of_nat (digit_count frac_part)))%Q
  end.

Fixpoint split_first (seps : list Z) (s : ustr) : ustr * option ustr :=
  match s with
  | [] => ([], None)
  | c :: s => if bool_decide (c ∈ seps) then ([], Some s) else let '(a, b) := split_first seps s in (c :: a, b)
  end.

Definition unsigned_float (s : ustr) : option Q :=
  let '(mantissa, exponent) := split_first [101; 69] s in
  let '(i, f) := split_first [46] mantissa in
  m ← decimal i (default [] f);
  e ← (match exponent with
       | None => Some 0
       | Some (45 :: e) => Z.opp <$> parse_nat e
       | Some (43 :: e) => parse_nat e
       | Some e => parse_nat e
       end);
  Some (m * Qpower 10 e)%Q.

Definition parse_float (s : ustr) : option Q :=
  match strip s with
  | 45 :: s => Qopp <$> unsigned_float s
  | 43 :: s => unsigned_float s
  | s => unsigned_float s
  end.

(** ** [wake-sol test] *)

(** What the process sees of its machine. *)
Record machine := mkMachine {
  mc_cpu_count : option Z;           (** [os.cpu_count()] *)
  mc_urandom : nat -> bytes;         (** the successive results of [os.urandom(8)] *)
  mc_cwd : ustr;
  mc_resolve : ustr -> ustr;         (** [Path(...).resolve()] *)
  mc_is_terminal : bool;
  mc_stdin_isatty : bool;
  mc_verbose : Z;
  mc_writable : bool;
}.

(** The parsed options of the command. *)
Record test_options := mkTestOptions {
  to_proc_count : option Z;
  to_seeds : list ustr;
  to_dist : distribution;
  to_attach : bool;
  to_attach_first : bool;
  to_pytest_args : list ustr;
}.

Inductive test_result :=
  | BadParameter (m : string)
  | PytestMain (args : list ustr)                       (** one session *)
  | PytestServer (args : list ustr) (c : server_config). (** a server and its workers *)

(** [[bytes.fromhex(s) for s in seeds]]. *)
Fixpoint parse_seeds (seeds : list ustr) : option (list bytes) :=
  match seeds with
  | [] => Some []
  | s :: seeds => b ← fromhex s; bs ← parse_seeds seeds; Some (b :: bs)
  end.

(** [while len(worker_seeds) < proc_count]. *)
Definition pad_seeds (m : machine) (proc_count : nat) (seeds : list bytes) : list bytes :=
  seeds ++ (mc_urandom m <$> seq 0 (proc_count - length seeds)).

Definition coverage_report_of (m : machine) (args : list ustr) (cov_count : Z) : option ustr :=
  match _option_value args (u "--coverage-report") with
  | Some (_ :: _ as raw) => Some (mc_resolve m raw)
  | _ => if cov_count =? 0 then None else Some (mc_resolve m (mc_cwd m ++ u "/" ++ _DEFAULT_COVERAGE_REPORT))
  end.

Definition logs_dir (m : machine) : ustr := mc_cwd m ++ u "/.wake-sol/logs/testing".

Definition test (m : machine) (o : test_options) : test_result :=
  if to_attach o && to_attach_first o then BadParameter "--attach and --attach-first are mutually exclusive"
  else
    match to_proc_count o with
    | None => PytestMain (to_pytest_args o ++ (if to_attach o then [u "--attach"] else []))
    | Some n =>
        let n := if n =? -1 then match mc_cpu_count m with Some k => if k =? 0 then 1 else k | None => 1 end else n in
        if n <? 1 then BadParameter "-P must be >= 1"
        else
          match parse_seeds (to_seeds o) with
          | None => BadParameter "seeds (-S) must be hex strings"
          | Some seeds =>
              let proc_count := Z.to_nat n in
              let worker_seeds := pad_seeds m proc_count seeds in
              let args := to_pytest_args o in
              let cov_count := _coverage_count args in
              let wanted := if cov_count =? _COVERAGE_ALL then n else cov_count in
              if negb (cov_count =? 0) && (n <? wanted) then BadParameter "--cov asks for more workers than -P"
              else
                match (match _option_value args (u "--coverage-sync") with
                       | None => Some _DEFAULT_COVERAGE_SYNC | Some raw => parse_float raw end) with
                | None => BadParameter "--coverage-sync must be a number of seconds"
                | Some sync =>
                    let base_args := _strip_seed args in
                    PytestServer (_strip_plugin_opts base_args ++ [u "-p"; u "no:wake_sol"; u "-s"])
                      (mkServerConfig proc_count worker_seeds (to_dist o) (base_args ++ [u "-s"]) (logs_dir m)
                         (to_attach o) (to_attach_first o) (coverage_report_of m args cov_count) sync
                         (mc_is_terminal m) (mc_stdin_isatty m) (mc_verbose m) (mc_writable m))
                end
          end
    end.

(** ** [wake-sol gen] and [wake-sol coverage merge] *)

Record gen_options := mkGenOptions {
  go_target_idls : list ustr;
  go_dep_idls : list ustr;
  go_out : ustr;
  go_only : list ustr;
  go_check : bool;
  go_strict : bool;
  go_verbose : Z;
}.
Definition default_gen_options : gen_options :=
  mkGenOptions [u "target/idl"] [u "idls"] (u "pytypes") [] false false 0.

Inductive gen_command := GenDefault | GenRun | GenCheck | GenList.

(** The options [run_gen] is called with; [list] does not generate. *)
Definition gen_call (cmd : gen_command) (o : gen_options) : option gen_options :=
  match cmd with
  | GenDefault | GenRun => Some o
  | GenCheck =>
      Some (mkGenOptions (go_target_idls o) (go_dep_idls o) (go_out o) (go_only o) true (go_strict o) (go_verbose o))
  | GenList => None
  end.

(** The line echoed, or the error shown. *)
Definition coverage_merge (inputs : list lcov_file) (out : ustr) (force : bool) : string + ustr :=
  match merge_lcov inputs force with
  | Ok (n, _, _) =>
      inr (u "merged " ++ int_str (Z.of_nat (length inputs)) ++ u " report(s) into " ++ out ++
           u " (" ++ int_str n ++ u " file(s))")
  | Raise (ValueError m) => inl m
  | Raise _ => inl "unexpected"%string
  end.

(** ** Properties *)

(** A seed option. *)
Definition is_seed_option (a : ustr) : Prop := a = u "--seed" \/ startswith (u "--seed=") a = true.

(** An option the server session does not know. *)
Definition is_plugin_option (a : ustr) : Prop :=
  a ∈ _PLUGIN_OPTIONAL_VALUE \/ a ∈ _PLUGIN_OPTIONS \/ joined (_PLUGIN_OPTIONS ++ _PLUGIN_OPTIONAL_VALUE) a = true.

#[global] Instance is_plugin_option_dec a : Decision (is_plugin_option a).
Proof. unfold is_plugin_option. apply _. Defined.

(** The reading of a command line: an option with the value it takes, or an
    argument of pytest's. *)
Inductive piece :=
  | PFlag (a : ustr)                (** [--cov] without a count *)
  | PCount (a n : ustr)             (** [--cov N] *)
  | PValue (a v : ustr)             (** [--coverage-report PATH] *)
  | PDangling (a : ustr)            (** [--coverage-report] at the end *)
  | PJoined (a : ustr)              (** [--cov=N] *)
  | PArg (a : ustr).

Definition piece_args (p : piece) : list ustr :=
  match p with PFlag a | PDangling a | PJoined a | PArg a => [a] | PCount a v | PValue a v => [a; v] end.
Definition piece_kept (p : piece) : list ustr := match p with PArg a => [a] | _ => [] end.

(** [reads args ps]: the only way to read [args]. *)
Inductive reads : list ustr -> list piece -> Prop :=
  | reads_nil : reads [] []
  | reads_flag a args ps :
      a ∈ _PLUGIN_OPTIONAL_VALUE -> next_is_int args = false -> reads args ps -> reads (a :: args) (PFlag a :: ps)
  | reads_count a n args ps :
      a ∈ _PLUGIN_OPTIONAL_VALUE -> _is_int n = true -> reads args ps -> reads (a :: n :: args) (PCount a n :: ps)
  | reads_value a v args ps :
      a ∈ _PLUGIN_OPTIONS -> reads args ps -> reads (a :: v :: args) (PValue a v :: ps)
  | reads_dangling a : a ∈ _PLUGIN_OPTIONS -> reads [a] [PDangling a]
  | reads_joined a args ps :
      joined (_PLUGIN_OPTIONS ++ _PLUGIN_OPTIONAL_VALUE) a = true -> reads args ps -> reads (a :: args) (PJoined a :: ps)
  | reads_arg a args ps : ~ is_plugin_option a -> reads args ps -> reads (a :: args) (PArg a :: ps).

Lemma options_disjoint a : a ∈ _PLUGIN_OPTIONAL_VALUE -> a ∉ _PLUGIN_OPTIONS.
Proof.
  intros Ha Hb. unfold _PLUGIN_OPTIONAL_VALUE in Ha. rewrite !elem_of_cons in Ha.
  destruct Ha as [->|[->|[]%elem_of_nil]]; apply (bool_decide_eq_true_2 _) in Hb; vm_compute in Hb; discriminate Hb.
Qed.

Lemma options_not_joined a : a ∈ _PLUGIN_OPTIONAL_VALUE \/ a ∈ _PLUGIN_OPTIONS ->
  joined (_PLUGIN_OPTIONS ++ _PLUGIN_OPTIONAL_VALUE) a = false.
Proof.
  unfold _PLUGIN_OPTIONAL_VALUE, _PLUGIN_OPTIONS. rewrite !elem_of_cons.
  intros [[->|[->|[]%elem_of_nil]]|[->|[->|[->|[]%elem_of_nil]]]]; vm_compute; reflexivity.
Qed.

Lemma reads_strip args ps :
  reads args ps -> args = concat (piece_args <$> ps) /\ _strip_plugin_opts args = concat (piece_kept <$> ps).
Proof.
  unfold _strip_plugin_opts.
  induction 1 as [|a args ps Ha Hn Hr [IH1 IH2]|a n args ps Ha Hn Hr [IH1 IH2]|a v args ps Ha Hr [IH1 IH2]|a Ha
    |a args ps Hj Hr [IH1 IH2]|a args ps Ha Hr [IH1 IH2]]; [done|..].
  - split; [cbn; by f_equal|]. cbn [strip_plugin_from]. rewrite bool_decide_true by done. by rewrite Hn.
  - split; [cbn; by do 2 f_equal|]. cbn [strip_plugin_from]. rewrite bool_decide_true by done.
    unfold next_is_int. by rewrite Hn.
  - split; [cbn; by do 2 f_equal|]. cbn [strip_plugin_from].
    rewrite bool_decide_false by (intros Hb; by apply options_disjoint in Hb).
    by rewrite bool_decide_true.
  - split; [done|]. cbn [strip_plugin_from].
    rewrite bool_decide_false by (intros Hb; by apply options_disjoint in Hb). by rewrite bool_decide_true.
  - split; [cbn; by f_equal|]. cbn [strip_plugin_from].
    rewrite bool_decide_false by (intros Hb; rewrite options_not_joined in Hj; auto; discriminate).
    rewrite bool_decide_false by (intros Hb; rewrite options_not_joined in Hj; auto; discriminate). by rewrite Hj.
  - split; [cbn; by f_equal|]. cbn [strip_plugin_from].
    unfold is_plugin_option in Ha.
    rewrite !bool_decide_false by naive_solver.
    destruct (joined _ a) eqn:Ej; [naive_solver|]. cbn. by f_equal.
Qed.

Lemma reads_total args : exists ps, reads args ps.
Proof.
  remember (length args) as n eqn:Hn. revert args Hn.
  induction n as [n IH] using lt_wf_ind. intros args ->.
  destruct args as [|a args]; [by exists []; constructor|].
  destruct (IH (length args) ltac:(simpl; lia) args eq_refl) as [ps Hps].
  destruct (decide (a ∈ _PLUGIN_OPTIONAL_VALUE)) as [Ha|Ha].
  - destruct (next_is_int args) eqn:En; [|eexists; by apply reads_flag].
    destruct args as [|v args]; [done|].
    destruct (IH (length args) ltac:(simpl; lia) args eq_refl) as [ps' Hps']. eexists. by apply reads_count.
  - destruct (decide (a ∈ _PLUGIN_OPTIONS)) as [Hb|Hb].
    + destruct args as [|v args]; [eexists; by apply reads_dangling|].
      destruct (IH (length args) ltac:(simpl; lia) args eq_refl) as [ps' Hps']. eexists. by apply reads_value.
    + destruct (joined (_PLUGIN_OPTIONS ++ _PLUGIN_OPTIONAL_VALUE) a) eqn:Ej; [eexists; by apply reads_joined|].
      eexists. apply reads_arg; [|done]. unfold is_plugin_option. intros [?|[?|?]]; congruence.
Qed.

Lemma reads_kept args ps a : reads args ps -> a ∈ concat (piece_kept <$> ps) -> ~ is_plugin_option a.
Proof.
  induction 1 as [|?|?|?|?|?|b args ps Hb Hr IH]; cbn; try done; try by intros []%elem_of_nil.
  intros [->|Ha]%elem_of_cons; auto.
Qed.

(** The server's arguments are the given ones without the plugin's options.
    Every command line can be read as a sequence of plugin options with the
    values they take ([--cov] takes a following integer and nothing else) and
    other arguments; the server gets the other arguments, all of them and in
    order — in particular a test path after a bare [--cov] — and none of the
    options it does not know. *)
Theorem server_arguments_exact args :
  exists ps, reads args ps /\ args = concat (piece_args <$> ps) /\
    _strip_plugin_opts args = concat (piece_kept <$> ps) /\
    forall a, a ∈ _strip_plugin_opts args -> ~ is_plugin_option a.
Proof.
  destruct (reads_total args) as [ps Hps]. exists ps. destruct (reads_strip _ _ Hps) as [H1 H2].
  split; [done|]. split; [done|]. split; [done|]. rewrite H2. intros a. by apply reads_kept with args.
Qed.

Lemma strip_seed_clean skip args a : a ∈ strip_seed_from skip args -> ~ is_seed_option a.
Proof.
  revert skip; induction args as [|b args IH]; intros skip; simpl; [by intros []%elem_of_nil|].
  destruct skip; [apply IH|]. case_decide as Hb; [apply IH|].
  destruct (startswith (u "--seed=") b) eqn:Es; [apply IH|].
  intros [->|Ha]%elem_of_cons; [|by eapply IH]. intros [?|?]; congruence.
Qed.

(** [args] without the seed options in it and their values: [kept]. *)
Inductive without_seed : list ustr -> list ustr -> Prop :=
  | ws_nil : without_seed [] []
  | ws_last : without_seed [u "--seed"] []
  | ws_pair value args kept : without_seed args kept -> without_seed (u "--seed" :: value :: args) kept
  | ws_joined a args kept : startswith (u "--seed=") a = true -> without_seed args kept -> without_seed (a :: args) kept
  | ws_other a args kept : ~ is_seed_option a -> without_seed args kept -> without_seed (a :: args) (a :: kept).

Lemma strip_seed_without args :
  without_seed args (strip_seed_from false args) /\ without_seed (u "--seed" :: args) (strip_seed_from true args).
Proof.
  induction args as [|a args [IH1 IH2]]; [by repeat constructor|]. cbn [strip_seed_from].
  split; [|by constructor]. case_decide as Ha; [by subst a|].
  destruct (startswith (u "--seed=") a) eqn:Es; [by constructor|].
  constructor; [|done]. intros [?|?]; congruence.
Qed.

Lemma parse_seeds_lookup seeds bs i s :
  parse_seeds seeds = Some bs -> seeds !! i = Some s -> exists b, bs !! i = Some b /\ fromhex s = Some b.
Proof.
  revert bs i; induction seeds as [|s0 seeds IH]; intros bs i Hp Hs; [done|]. simpl in Hp.
  destruct (fromhex s0) as [b0|] eqn:Eb; [|discriminate]. simpl in Hp.
  destruct (parse_seeds seeds) as [bs'|]; [|discriminate]. injection Hp as <-.
  destruct i as [|i]; simpl in *; [injection Hs as <-; eauto|]. by eapply IH.
Qed.

Lemma pad_seeds_length m n seeds : (n <= length (pad_seeds m n seeds))%nat.
Proof. unfold pad_seeds. rewrite length_app, length_fmap, length_seq. lia. Qed.

(** Every worker of a parallel run has exactly one seed, its own.  When
    the command line is accepted there is at least one worker, the seeds given
    with [-S] go to the first workers in order and every worker has one; each
    worker's arguments are those given, less every seed option with its value,
    then [-s], then a seed, which is that worker's; and no more workers are asked for coverage than there are. *)
Theorem workers_have_their_seeds m o sargs c root i :
  test m o = PytestServer sargs c -> (i < sc_proc_count c)%nat ->
  exists ws seed kept, spawn_worker c root i = Ok ws /\ sc_seeds c !! i = Some seed /\
    wp_args ws = (kept ++ [u "-s"; u "--seed"; bytes_hex seed])%list /\
    without_seed (to_pytest_args o) kept /\ (forall a, a ∈ kept -> ~ is_seed_option a) /\
    (forall s, to_seeds o !! i = Some s -> fromhex s = Some seed) /\
    (1 <= sc_proc_count c)%nat /\ _coverage_count (to_pytest_args o) <= Z.of_nat (sc_proc_count c).
Proof.
  intros Ht Hi. unfold test in Ht. destruct (_ && _); [discriminate|].
  destruct (to_proc_count o) as [n0|]; [|discriminate].
  set (n := if n0 =? -1 then _ else n0) in Ht. clearbody n.
  destruct (n <? 1) eqn:En; [discriminate|]. apply Z.ltb_ge in En.
  destruct (parse_seeds (to_seeds o)) as [seeds|] eqn:Es; [|discriminate].
  destruct (negb _ && _) eqn:Ec; [discriminate|].
  destruct (match _option_value _ _ with None => _ | Some _ => _ end) as [sync|]; [|discriminate].
  injection Ht as <- <-. cbn [sc_proc_count] in Hi.
  destruct (lookup_lt_is_Some_2 (pad_seeds m (Z.to_nat n) seeds) i) as [seed Hseed].
  { pose proof (pad_seeds_length m (Z.to_nat n) seeds). lia. }
  exists (mkWorkerSpec ((_strip_seed (to_pytest_args o) ++ [u "-s"]) ++ [u "--seed"; bytes_hex seed]) i (logs_dir m)
    (root ++ u "/process-" ++ int_str (Z.of_nat i)) seed (to_attach o) (to_attach_first o && bool_decide (i = 0%nat))), seed,
    (_strip_seed (to_pytest_args o)).
  split_and!.
  - unfold spawn_worker. cbn [sc_seeds]. by rewrite Hseed.
  - done.
  - cbn [wp_args]. by rewrite <- app_assoc.
  - apply strip_seed_without.
  - intros a. apply strip_seed_clean.
  - intros s Hs. destruct (parse_seeds_lookup _ _ _ _ Es Hs) as (b & Hb & ->).
    unfold pad_seeds in Hseed. rewrite lookup_app_l in Hseed by (by eapply lookup_lt_Some). congruence.
  - cbn [sc_proc_count]. lia.
  - cbn [sc_proc_count]. rewrite Z2Nat.id by lia. apply andb_false_iff in Ec as [Ec|Ec].
    + apply negb_false_iff, Z.eqb_eq in Ec. lia.
    + apply Z.ltb_ge in Ec. destruct (_ =? _COVERAGE_ALL) eqn:Ea; [|lia]. apply Z.eqb_eq in Ea. rewrite Ea.
      unfold _COVERAGE_ALL. lia.
Qed.

Definition demo_machine : machine :=
  mkMachine (Some 4) (fun k => le_bytes 8 (Z.of_nat k)) (u "/repo") (fun p => p) false false 0 true.
Definition demo_test : test_options :=
  mkTestOptions (Some 2) [u "00ff"] Duplicated false false
    [u "--seed=11"; u "--cov"; u "tests/a.py"; u "--seed"; u "22"; u "-k"; u "x"].

Lemma workers_have_their_seeds_witness :
  exists sargs c ws seed kept, test demo_machine demo_test = PytestServer sargs c /\
    spawn_worker c (u "crashes") 0 = Ok ws /\ wp_args ws = (kept ++ [u "-s"; u "--seed"; bytes_hex seed])%list /\
    bytes_hex seed = u "00ff".
Proof.
  eexists _, _.
  destruct (workers_have_their_seeds demo_machine demo_test _ _ (u "crashes") 0 eq_refl) as (ws & seed & kept & H1 & H2 & H3 & _);
    [vm_compute; lia|].
  exists ws, seed, kept. split; [reflexivity|]. split; [exact H1|]. split; [exact H3|].
  vm_compute in H2. injection H2 as <-. reflexivity.
Defined.

(** Without [-P] the command's own [--seed] has no effect: the session's
    arguments do not depend on it. *)
Lemma single_session_ignores_seeds m o seeds :
  to_proc_count o = None ->
  test m o = test m (mkTestOptions None seeds (to_dist o) (to_attach o) (to_attach_first o) (to_pytest_args o)).
Proof. intros Hp. unfold test. rewrite Hp. cbn. by destruct (_ && _). Qed.
