(* ===== verification/GenIdl.v ===== *)
(** * The IDL reader ([_gen/idl.py])

    A parsed IDL document (a JSON value) brought to the normalized model:
    address, type definitions, accounts, instructions, errors and events.  A
    name that is not a string is refused here, where Python would carry it along
    and print it; values printed with [str] are exact for the scalars. *)

From Stdlib Require Import ZArith Lia.
From Stdlib Require Import Strings.Ascii Strings.Byte.
From stdpp Require Import base decidable option list gmap strings pretty numbers.
From S2P Require Import Prelude.
From S2P Require Import Bytes.
From S2P Require Import Values.
From S2P Require Import GenTypes.

#[local] Open Scope string_scope.

(** ** The normalized model *)

Record Field := mkField { fd_name : option string; fd_type : json }.
Record Variant := mkVariant { vr_name : string; vr_fields : list Field }.
Inductive typedef_kind := KStruct | KEnum.
Record TypeDef := mkTypeDef {
  td_name : string;
  td_kind : typedef_kind;
  td_serialization : string;
  td_fields : list Field;
  td_variants : list Variant;
}.
Record AccountDecl := mkAccountDecl { ad_name : string; ad_discriminator : bytes }.
Record EventDecl := mkEventDecl { ev_name : string; ev_discriminator : bytes }.
Record IxArg := mkIxArg { ia_name : string; ia_type : json }.
Record IxAccount := mkIxAccount {
  xa_name : string;
  xa_signer : bool;
  xa_writable : bool;
  xa_optional : bool;
  xa_address : option string;
}.
Record Instruction := mkInstruction {
  ix_name : string;
  ix_discriminator : bytes;
  ix_args : list IxArg;
  ix_accounts : list IxAccount;
  ix_returns : option json;
}.
Record ErrorDef := mkErrorDef { er_code : Z; er_name : string; er_msg : option string }.
Record Idl := mkIdl {
  idl_address : string;
  idl_name : string;
  idl_version : string;
  idl_anchor_version : option string;
  idl_sha256 : string;
  idl_types : list TypeDef;
  idl_accounts : list AccountDecl;
  idl_instructions : list Instruction;
  idl_errors : list ErrorDef;
  idl_events : list EventDecl;
}.

(** ** JSON values as Python uses them *)

Definition truthy (j : json) : bool :=
  match j with
  | JNull | JBool false | JInt 0 | JArr [] | JObj [] => false
  | JStr s => negb (bool_decide (s = ""))
  | _ => true
  end.

(** [d.get(key)]: [None] when missing. *)
Definition get (key : string) (kvs : list (string * json)) : json := default JNull (attr_lookup key kvs).

Definition as_dict (j : json) : res (list (string * json)) :=
  match j with JObj kvs => Ok kvs | _ => Raise (AttributeError "get") end.

(** [for x in j]. *)
Definition items (j : json) : res (list json) :=
  match j with
  | JArr xs => Ok xs
  | JObj kvs => Ok ((fun kv => JStr kv.1) <$> kvs)
  | JStr s => Ok ((fun c => JStr (String c EmptyString)) <$> String.list_ascii_of_string s)
  | _ => Raise (TypeError "not iterable")
  end.

(** [d.get(key, ())] iterated: a missing key is an empty sequence. *)
Definition get_items (key : string) (kvs : list (string * json)) : res (list json) :=
  match attr_lookup key kvs with None => Ok [] | Some v => items v end.

(** [for x in (v or ())]. *)
Definition items_or_empty (v : json) : res (list json) := if truthy v then items v else Ok [].

Definition as_name (j : json) : res string :=
  match j with JStr s => Ok s | _ => Raise (TypeError "name") end.

Definition str_of (j : json) : string :=
  match j with
  | JStr s => s
  | JInt z => pretty z
  | JBool true => "True"
  | JBool false => "False"
  | JNull => "None"
  | _ => "<value>"
  end.

(** ** Discriminators *)
Section Reader.

(** [hashlib.sha256(b).digest()] *)
Variable sha256 : bytes -> bytes.

Definition text_bytes (s : string) : bytes := String.list_byte_of_string s.

(** [anchor_discriminator]: the first 8 bytes of the hash of [prefix:name]. *)
Definition _DISC_PREFIX : list (string * string) :=
  [("instruction", "global"); ("account", "account"); ("event", "event")].
Definition anchor_discriminator (kind name : string) : res bytes :=
  match attr_lookup kind _DISC_PREFIX with
  | Some prefix => Ok (take 8 (sha256 (text_bytes (prefix +:+ ":" +:+ name))))
  | None => Raise (KeyError kind)
  end.

(** [bytes(arr)] of a JSON value: a list of integers in range, or a length. *)
Fixpoint bytes_of_items (xs : list json) : res bytes :=
  match xs with
  | [] => Ok []
  | x :: xs =>
      match as_index (match x with JInt z => VInt z | JBool b => VBool b | _ => VNone end) with
      | Some z => if (0 <=? z)%Z && (z <? 256)%Z then bs ← bytes_of_items xs; Ok (byte_of_Z z :: bs)
                  else Raise (ValueError "bytes must be in range(0, 256)")
      | None => Raise (TypeError "cannot be interpreted as an integer")
      end
  end.
Definition py_bytes (j : json) : res bytes :=
  match j with
  | JArr xs => bytes_of_items xs
  | JInt n => if (n <? 0)%Z then Raise (ValueError "negative count") else Ok (replicate (Z.to_nat n) x00)
  | JBool b => Ok (replicate (if b then 1 else 0) x00)
  | JStr _ => Raise (TypeError "string argument without an encoding")
  | JObj [] => Ok []
  | _ => Raise (TypeError "cannot convert to bytes")
  end.

Definition _disc (raw : list (string * json)) (kind name : string) : res bytes :=
  match get "discriminator" raw with
  | JNull => anchor_discriminator kind name
  | arr => py_bytes arr
  end.

(** ** Fields and type definitions *)

Definition field_of (entry : json) : res Field :=
  match entry with
  | JObj kvs =>
      if has_key "name" kvs
      then n ← jget "name" kvs; name ← as_name n;
           t ← jget "type" kvs; ty ← _norm_type_node t; Ok (mkField (Some name) ty)
      else if has_key "type" kvs
      then t ← jget "type" kvs; ty ← _norm_type_node t; Ok (mkField None ty)
      else ty ← _norm_type_node entry; Ok (mkField None ty)
  | _ => ty ← _norm_type_node entry; Ok (mkField None ty)
  end.

Definition _fields (raw_fields : json) : res (list Field) :=
  entries ← items_or_empty raw_fields; mapM_res field_of entries.

Definition variant_of (v : json) : res Variant :=
  kvs ← as_dict v;
  n ← jget "name" kvs; name ← as_name n;
  fields ← _fields (get "fields" kvs);
  Ok (mkVariant name fields).

(** [ty.get("serialization") or raw.get("serialization") or "borsh"], unwrapped
    from [{"borsh": {}}]. *)
Definition serialization_of (ty raw : list (string * json)) : string :=
  let v := if truthy (get "serialization" ty) then get "serialization" ty
           else if truthy (get "serialization" raw) then get "serialization" raw
           else JStr "borsh" in
  match v with
  | JObj ((k, _) :: _) => k
  | v => str_of v
  end.

Definition _typedef (raw : list (string * json)) : res TypeDef :=
  n ← jget "name" raw; name ← as_name n;
  ty ← (match attr_lookup "type" raw with None => Ok [] | Some t => as_dict t end);
  let kind := match attr_lookup "kind" ty with None => JStr "struct" | Some k => k end in
  let ser := serialization_of ty raw in
  if decide (str_of kind = "enum")
  then vs ← get_items "variants" ty; variants ← mapM_res variant_of vs;
       Ok (mkTypeDef name KEnum ser [] variants)
  else fields ← _fields (get "fields" ty); Ok (mkTypeDef name KStruct ser fields []).

(** ** Instruction accounts *)

(** [bool(a.get(k, a.get(legacy, False)))]. *)
Definition flag (k legacy : string) (a : list (string * json)) : bool :=
  match attr_lookup k a with
  | Some v => truthy v
  | None => match attr_lookup legacy a with Some v => truthy v | None => false end
  end.

Definition account_of (a : list (string * json)) : res IxAccount :=
  n ← jget "name" a; name ← as_name n;
  let addr := get "address" a in
  Ok (mkIxAccount name (flag "signer" "isSigner" a) (flag "writable" "isMut" a) (flag "optional" "isOptional" a)
        (if truthy addr then Some (str_of addr) else None)).

Fixpoint json_depth (j : json) : nat :=
  match j with
  | JArr xs => S (list_max (map json_depth xs))
  | JObj kvs => S (list_max (map (fun kv => json_depth kv.2) kvs))
  | _ => 1
  end.

(** Groups nest; the fuel is the depth of the document. *)
Fixpoint flatten_from (fuel : nat) (raw_accounts : json) : res (list IxAccount) :=
  match fuel with
  | O => Raise OutOfFuel
  | S fuel =>
      entries ← items_or_empty raw_accounts;
      groups ← mapM_res (fun e =>
        match e with
        | JObj a =>
            if has_key "accounts" a then flatten_from fuel (get "accounts" a)
            else x ← account_of a; Ok [x]
        | JStr _ | JArr _ => Raise (TypeError "indices")
        | _ => Raise (TypeError "argument is not iterable")
        end) entries;
      Ok (concat groups)
  end.
Definition _flatten_accounts (raw_accounts : json) : res (list IxAccount) :=
  flatten_from (S (json_depth raw_accounts)) raw_accounts.

(** ** The program's address *)

Definition base58_char (c : ascii) : bool :=
  let n := N_of_ascii c in
  (((49 <=? n) && (n <=? 57)) || ((65 <=? n) && (n <=? 72)) || ((74 <=? n) && (n <=? 78)) ||
   ((80 <=? n) && (n <=? 90)) || ((97 <=? n) && (n <=? 107)) || ((109 <=? n) && (n <=? 122)))%N.

Definition _is_base58_address (s : string) : bool :=
  let n := String.length s in
  (32 <=? n)%nat && (n <=? 44)%nat && negb (bool_decide (s = "")) && forallb base58_char (String.list_ascii_of_string s).

(** [doc.get("metadata") or {}]. *)
Definition metadata_of (doc : list (string * json)) : res (list (string * json)) :=
  let m := get "metadata" doc in if truthy m then as_dict m else Ok [].

Definition _resolve_address (doc : list (string * json)) (stem : string) : res string :=
  if truthy (get "address" doc) then Ok (str_of (get "address" doc))
  else
    m ← metadata_of doc;
    if truthy (get "address" m) then Ok (str_of (get "address" m))
    else if _is_base58_address stem then Ok stem
    else Raise (GenError "cannot key IDL by address").

(** ** [load_idl] *)

(** [a or b or default]. *)
Definition first_truthy (vs : list json) (dflt : string) : string :=
  match List.find truthy vs with Some v => str_of v | None => dflt end.

(** The loop over accounts: declarations, and inline layouts of names not yet
    known. *)
Fixpoint load_accounts (xs : list json) (known : list string) : res (list AccountDecl * list TypeDef * list string) :=
  match xs with
  | [] => Ok ([], [], known)
  | x :: xs =>
      a ← as_dict x;
      n ← jget "name" a; nm ← as_name n;
      d ← _disc a "account" nm;
      if negb (bool_decide (nm ∈ known)) && has_key "type" a
      then t ← _typedef a;
           '(decls, types, known) ← load_accounts xs (nm :: known);
           Ok (mkAccountDecl nm d :: decls, t :: types, known)
      else '(decls, types, known) ← load_accounts xs known;
           Ok (mkAccountDecl nm d :: decls, types, known)
  end.

Fixpoint load_events (xs : list json) (known : list string) : res (list EventDecl * list TypeDef) :=
  match xs with
  | [] => Ok ([], [])
  | x :: xs =>
      e ← as_dict x;
      n ← jget "name" e; nm ← as_name n;
      d ← _disc e "event" nm;
      if negb (bool_decide (nm ∈ known)) && has_key "fields" e
      then fs ← _fields (get "fields" e);
           '(decls, types) ← load_events xs (nm :: known);
           Ok (mkEventDecl nm d :: decls, mkTypeDef nm KStruct "borsh" fs [] :: types)
      else '(decls, types) ← load_events xs known;
           Ok (mkEventDecl nm d :: decls, types)
  end.

Definition arg_of (x : json) : res IxArg :=
  a ← as_dict x;
  n ← jget "name" a; name ← as_name n;
  t ← jget "type" a; ty ← _norm_type_node t;
  Ok (mkIxArg name ty).

Definition instruction_of (x : json) : res Instruction :=
  ix ← as_dict x;
  n ← jget "name" ix; name ← as_name n;
  d ← _disc ix "instruction" name;
  args ← get_items "args" ix; args ← mapM_res arg_of args;
  accounts ← _flatten_accounts (get "accounts" ix);
  returns ← (match get "returns" ix with JNull => Ok None | r => t ← _norm_type_node r; Ok (Some t) end);
  Ok (mkInstruction name d args accounts returns).

(** [int(e["code"])]. *)
Definition json_int (j : json) : res Z :=
  match j with
  | JInt z => Ok z
  | JBool b => Ok (if b then 1%Z else 0%Z)
  | JStr s => py_int (VStr ((fun c => Z.of_N (N_of_ascii c)) <$> String.list_ascii_of_string s))
  | _ => Raise (TypeError "int() argument")
  end.

Definition error_of (x : json) : res ErrorDef :=
  e ← as_dict x;
  c ← jget "code" e; code ← json_int c;
  n ← jget "name" e; name ← as_name n;
  Ok (mkErrorDef code name (match get "msg" e with JNull => None | m => Some (str_of m) end)).

(** [doc] is [json.loads(raw_bytes)], [digest] the hash of the bytes. *)
Definition load_idl (doc : json) (stem digest : string) : res Idl :=
  doc ← as_dict doc;
  address ← _resolve_address doc stem;
  m ← metadata_of doc;
  let name := first_truthy [get "name" m; get "name" doc] stem in
  let version := first_truthy [get "version" m; get "version" doc] "0.0.0" in
  let anchor := if truthy (get "spec" m) then get "spec" m else get "version" doc in
  ts ← get_items "types" doc;
  types ← mapM_res (fun t => kvs ← as_dict t; _typedef kvs) ts;
  accs ← get_items "accounts" doc;
  '(accounts, inline_accounts, known) ← load_accounts accs (td_name <$> types);
  ixs ← get_items "instructions" doc;
  instructions ← mapM_res instruction_of ixs;
  ers ← get_items "errors" doc;
  errors ← mapM_res error_of ers;
  evs ← get_items "events" doc;
  '(events, inline_events) ← load_events evs known;
  Ok (mkIdl address name version (match anchor with JNull => None | a => Some (str_of a) end) digest
        (types ++ inline_accounts ++ inline_events) accounts instructions errors events).

End Reader.
