(* ===== verification/GenIdlProps.v ===== *)
(** * The IDL reader: nested account groups are flattened in order *)

From Stdlib Require Import ZArith Lia.
From stdpp Require Import base decidable option list gmap strings pretty numbers.
From S2P Require Import Prelude.
From S2P Require Import Bytes.
From S2P Require Import Values.
From S2P Require Import GenTypes.
From S2P Require Import GenIdl.

#[local] Open Scope string_scope.

Lemma mapM_res_returns {A B} (f : A -> res B) xs : (forall x, x ∈ xs -> returns (f x)) -> returns (mapM_res f xs).
Proof.
  induction xs as [|x xs IH]; intros Hf; [done|]. simpl. apply returns_bind; [apply Hf; left|].
  intros y _. apply returns_bind; [apply IH; intros z Hz; apply Hf; by right|]. done.
Qed.

Lemma account_of_returns a : returns (account_of a).
Proof.
  unfold account_of, jget. destruct (attr_lookup "name" a) as [n|]; [|done]. simpl. by destruct n.
Qed.

Lemma list_max_ge (f : json -> nat) x xs : x ∈ xs -> (f x <= list_max (map f xs))%nat.
Proof.
  induction xs as [|y xs IH]; [by intros ?%elem_of_nil|]. intros [->|Hx]%elem_of_cons; simpl; [lia|]. specialize (IH Hx). lia.
Qed.

Lemma depth_attr k kvs v : attr_lookup k kvs = Some v -> (json_depth v < json_depth (JObj kvs))%nat.
Proof.
  intros H. simpl. induction kvs as [|[k' v'] kvs IH]; [done|]. simpl in *. case_decide; [simplify_eq; lia|].
  specialize (IH H). lia.
Qed.

(** Entries that are dicts are parts of the document. *)
Lemma items_depth j es a : items_or_empty j = Ok es -> JObj a ∈ es -> (json_depth (JObj a) < json_depth j)%nat.
Proof.
  unfold items_or_empty. destruct (truthy j); [|intros [= <-] []%elem_of_nil].
  destruct j as [| | | |s|xs|kvs]; simpl; intros [= <-] Hin.
  - apply list_elem_of_fmap in Hin as (? & ? & _). done.
  - pose proof (list_max_ge json_depth _ _ Hin). simpl in *. lia.
  - apply list_elem_of_fmap in Hin as (? & ? & _). done.
Qed.

Lemma depth_pos j : (1 <= json_depth j)%nat.
Proof. destruct j; simpl; lia. Qed.

(** The depth of the document is fuel enough: flattening always ends. *)
Lemma flatten_returns j : returns (_flatten_accounts j).
Proof.
  unfold _flatten_accounts. assert (Hg : forall fuel j, (json_depth j < fuel)%nat -> returns (flatten_from fuel j)); [|apply Hg; lia].
  clear j. induction fuel as [|fuel IH]; intros j Hj; [lia|]. cbn [flatten_from].
  apply returns_bind; [unfold items_or_empty; destruct (truthy j), j; done|]. intros es He.
  apply returns_bind; [|done]. apply mapM_res_returns. intros e Hin. destruct e as [| | | | | |a]; try done.
  destruct (has_key "accounts" a) eqn:Ha.
  - apply IH. unfold has_key in Ha. unfold get. destruct (attr_lookup "accounts" a) as [v|] eqn:Ev; [|done]. simpl.
    apply depth_attr in Ev. pose proof (items_depth _ _ _ He Hin). lia.
  - apply returns_bind; [apply account_of_returns|done].
Qed.
