(* ===== verification/GenEmit.v ===== *)
(** * The module emitter ([_gen/emit.py], [_gen/wellknown.py])

    The source text generated for one program.  The emitter accumulates the
    symbols it uses and the layouts to compile at import; its methods run in a
    monad over that state and [GenError].  Text is bytes (UTF-8); letter case
    and [repr] are those of ASCII. *)

From Stdlib Require Import ZArith Lia.
From Stdlib Require Import Strings.Ascii Strings.Byte.
From stdpp Require Import base decidable option list gmap strings pretty numbers.
From S2P Require Import Prelude.
From S2P Require Import Bytes.
From S2P Require Import Values.
From S2P Require Import Builder.
From S2P Require Import GenTypes.
From S2P Require Import GenIdl.

#[local] Open Scope string_scope.

(** ** Text *)

Definition nl : string := String "010"%char EmptyString.
Definition dq : string := String "034"%char EmptyString.
Definition lines (ls : list string) : string := String.concat nl ls.
Definition commas (ls : list string) : string := String.concat ", " ls.
Definition py_bool (b : bool) : string := if b then "True" else "False".
Definition quoted (s : string) : string := dq +:+ s +:+ dq.

Definition ascii_upper (c : ascii) : ascii :=
  let n := N_of_ascii c in if ((97 <=? n) && (n <=? 122))%N then ascii_of_N (n - 32) else c.
Definition ascii_lower (c : ascii) : ascii :=
  let n := N_of_ascii c in if ((65 <=? n) && (n <=? 90))%N then ascii_of_N (n + 32) else c.
Definition is_ascii_digit (c : ascii) : bool := let n := N_of_ascii c in ((48 <=? n) && (n <=? 57))%N.

Definition string_map (f : ascii -> ascii) (s : string) : string :=
  String.string_of_list_ascii (f <$> String.list_ascii_of_string s).

(** [s.split(sep)]. *)
Fixpoint split_on (sep : ascii) (s : string) : list string :=
  match s with
  | EmptyString => [""]
  | String c s =>
      if decide (c = sep) then "" :: split_on sep s
      else match split_on sep s with p :: ps => String c p :: ps | [] => [String c EmptyString] end
  end.

Definition hex_ascii (n : N) : ascii :=
  if (n <? 10)%N then ascii_of_N (48 + n) else ascii_of_N (87 + n).
(** [f"\x{x:02x}"]. *)
Definition hex_escape (n : N) : string :=
  String "\"%char (String "x"%char (String (hex_ascii (n / 16)) (String (hex_ascii (n mod 16)) EmptyString))).

(** [repr(s)]. *)
Definition repr_char (q c : ascii) : string :=
  let n := N_of_ascii c in
  if decide (c = "\"%char) then String "\"%char (String "\"%char EmptyString)
  else if decide (c = q) then String "\"%char (String q EmptyString)
  else if (n =? 10)%N then "\n" else if (n =? 13)%N then "\r" else if (n =? 9)%N then "\t"
  else if ((n <? 32) || (n =? 127))%N then hex_escape n
  else String c EmptyString.
Definition has_char (c : ascii) (s : string) : bool := bool_decide (c ∈ String.list_ascii_of_string s).
Definition py_repr (s : string) : string :=
  let q := if has_char "'"%char s && negb (has_char "034"%char s) then "034"%char else "'"%char in
  String q (String.concat "" (repr_char q <$> String.list_ascii_of_string s)) +:+ String q EmptyString.

(** [s.replace("\\", "\\\\").replace('"', '\\"')]. *)
Definition escape_char (c : ascii) : string :=
  if decide (c = "\"%char) then String c (String c EmptyString)
  else if decide (c = "034"%char) then String "\"%char (String c EmptyString)
  else String c EmptyString.
Definition escape (s : string) : string := String.concat "" (escape_char <$> String.list_ascii_of_string s).

(** ** Well-known accounts *)

Definition NAME_TO_ADDRESS : list (string * string) := [
  ("systemprogram", "11111111111111111111111111111111");
  ("tokenprogram", "TokenkegQfeZyiNwAJbNbGKPFXCWuBvf9Ss623VQ5DA");
  ("tokenprogram2022", "TokenzQdBNbLqP5VEhdkAS6EPFLC1PHnBqCXEpPxuEb");
  ("token2022program", "TokenzQdBNbLqP5VEhdkAS6EPFLC1PHnBqCXEpPxuEb");
  ("associatedtokenprogram", "ATokenGPvbdGVxr1b2hvZbsiqW5xWH25efTNsLJA8knL");
  ("rent", "SysvarRent111111111111111111111111111111111");
  ("clock", "SysvarC1ock11111111111111111111111111111111");
  ("instructions", "Sysvar1nstructions1111111111111111111111111");
  ("recentblockhashes", "SysvarRecentB1ockHashes11111111111111111111");
  ("slothashes", "SysvarS1otHashes111111111111111111111111111");
  ("stakehistory", "SysvarStakeHistory1111111111111111111111111");
  ("epochschedule", "SysvarEpochSchedu1e111111111111111111111111");
  ("rewards", "SysvarRewards111111111111111111111111111111")].

Definition _norm (name : string) : string :=
  String.string_of_list_ascii
    (ascii_lower <$> List.filter (fun c => negb (bool_decide (c = "_"%char)) && negb (bool_decide (c = "-"%char)))
                       (String.list_ascii_of_string name)).

Definition resolve (name : string) : option string := attr_lookup (_norm name) NAME_TO_ADDRESS.

(** ** Names and literals *)

Definition BANNER : string := "# GENERATED by `wake-sol gen` — do not edit. Provenance pinned below.".
Definition NOTE_EVENTS : string :=
  "# NOTE: instructions, accounts, events, and errors are emitted; `emit!` log-scan events decode at runtime.".

Definition _ALIAS_ORDER : list string :=
  ["u8"; "u16"; "u32"; "u64"; "u128"; "u256"; "i8"; "i16"; "i32"; "i64"; "i128"; "i256"; "f32"; "f64"; "char"; "pubkey"].
Definition _ENGINE_ORDER : list string :=
  ["Opt"; "BorshEnumMeta"; "BorshStruct"; "variant"; "AccountSlot"; "BorshMeta"; "InstructionMeta"; "Kind"; "MetaLike";
   "Serialization"; "instruction"; "build_interface_from_module"; "compile_layout"; "encode_ix_layout"; "build_metas";
   "slot"; "as_meta"].
Definition _TYPING_ORDER : list string := ["Annotated"; "Optional"; "Sequence"].

Definition capitalize_first (p : string) : string :=
  match p with EmptyString => "" | String c p => String (ascii_upper c) p end.

Definition _pascal (name : string) : string :=
  let parts := List.filter (fun p => negb (bool_decide (p = "")))
                 (split_on "_"%char (string_map (fun c => if decide (c = "-"%char) then "_"%char else c) name)) in
  let cls := match String.concat "" (capitalize_first <$> parts) with EmptyString => "Program" | s => s end in
  match cls with
  | String c _ => if is_ascii_digit c then String "P"%char cls else cls
  | EmptyString => cls
  end.

Definition _bytes_literal (b : bytes) : string :=
  "b" +:+ quoted (String.concat "" ((fun x => hex_escape (Byte.to_N x)) <$> b)).

(** ** The emitter's state *)
Record emitter := mkEmitter {
  em_usage : Usage;
  em_engine : gset string;
  em_layouts : list (string * list string);
  em_dataclass : bool;
  em_intenum : bool;
}.
Definition empty_usage : Usage := mkUsage ∅ ∅ ∅ ∅.
Definition new_emitter : emitter := mkEmitter empty_usage ∅ [] false false.

Definition E (A : Type) : Type := emitter -> res (A * emitter).
#[global] Instance E_ret : MRet E := fun A a e => Ok (a, e).
#[global] Instance E_bind : MBind E := fun A B f m e =>
  match m e with Ok (a, e) => f a e | Raise x => Raise x end.

Definition egraise {A} (m : string) : E A := fun _ => Raise (GenError m).
Definition emodify (f : emitter -> emitter) : E unit := fun e => Ok (tt, f e).
Definition eget : E emitter := fun e => Ok (e, e).

Definition set_usage (us : Usage) (e : emitter) : emitter :=
  mkEmitter us (em_engine e) (em_layouts e) (em_dataclass e) (em_intenum e).
Definition use_engine (syms : list string) : E unit := emodify (fun e =>
  mkEmitter (em_usage e) (list_to_set syms ∪ em_engine e) (em_layouts e) (em_dataclass e) (em_intenum e)).
Definition need_dataclass : E unit := emodify (fun e =>
  mkEmitter (em_usage e) (em_engine e) (em_layouts e) true (em_intenum e)).
Definition need_intenum : E unit := emodify (fun e =>
  mkEmitter (em_usage e) (em_engine e) (em_layouts e) (em_dataclass e) true).
Definition add_layout (name : string) (anns : list string) : E unit := emodify (fun e =>
  mkEmitter (em_usage e) (em_engine e) (em_layouts e ++ [(name, anns)])%list (em_dataclass e) (em_intenum e)).
Definition add_typing (sym : string) : E unit := emodify (fun e => set_usage (use_typing sym (em_usage e)) e).

(** [map_type(node, self.usage)]. *)
Definition annotation (node : json) : E string := fun e =>
  match map_type node (em_usage e) with
  | Ok (t, us) => Ok (t, set_usage us e)
  | Raise x => Raise x
  end.

Fixpoint emapM {A B} (f : A -> E B) (xs : list A) : E (list B) :=
  match xs with
  | [] => mret []
  | x :: xs => y ← f x; ys ← emapM f xs; mret (y :: ys)
  end.

Definition enumerate {A} (xs : list A) : list (nat * A) := zip (seq 0 (length xs)) xs.

(** ** Types *)

Definition field_line (indent : string) (p : nat * Field) : E string :=
  let '(i, f) := p in
  let fname := match fd_name f with Some n => mangle n | None => "_" +:+ pretty i end in
  ann ← annotation (fd_type f);
  mret (indent +:+ fname +:+ ": " +:+ ann).

Definition _field_lines (fields : list Field) (indent : string) : E (list string) :=
  match fields with
  | [] => mret [indent +:+ "pass"]
  | _ => emapM (field_line indent) (enumerate fields)
  end.

Definition unit_variant_line (p : nat * Variant) : string := "    " +:+ vr_name p.2 +:+ " = " +:+ pretty p.1.

Definition variant_lines (p : nat * Variant) : E (list string) :=
  let '(i, v) := p in
  fields ← _field_lines (vr_fields v) "        ";
  mret ([""; "    @variant(" +:+ pretty i +:+ ")"; "    @dataclass"; "    class " +:+ vr_name v +:+ ":"] ++ fields)%list.

Definition is_unit (v : Variant) : bool := match vr_fields v with [] => true | _ => false end.

Definition _emit_enum (t : TypeDef) : E string :=
  if forallb is_unit (td_variants t)
  then need_intenum;;
       mret (lines (("class " +:+ td_name t +:+ "(IntEnum):") :: (unit_variant_line <$> enumerate (td_variants t))))
  else need_dataclass;;
       use_engine ["BorshEnumMeta"; "variant"];;
       blocks ← emapM variant_lines (enumerate (td_variants t));
       mret (lines (("class " +:+ td_name t +:+ "(metaclass=BorshEnumMeta):") :: concat blocks)).

Definition meta_lines (disc : bytes) (kind : string) : list string :=
  [""; "    __borsh_meta__ = BorshMeta("; "        ser=Serialization.BORSH,"; "        kind=Kind." +:+ kind +:+ ",";
   "        is_account_root=" +:+ py_bool (bool_decide (kind = "ACCOUNT")) +:+ ",";
   "        discriminator=" +:+ _bytes_literal disc +:+ ",";
   "        discriminator_len=" +:+ pretty (length disc) +:+ ","; "    )"].

Definition _emit_struct (t : TypeDef) (disc : option bytes) (kind : string) : E string :=
  need_dataclass;;
  use_engine ["BorshStruct"];;
  fields ← _field_lines (td_fields t) "    ";
  meta ← match disc with
         | None => mret []
         | Some d => use_engine ["BorshMeta"; "Kind"; "Serialization"];; mret (meta_lines d kind)
         end;
  mret (lines (["@dataclass"; "class " +:+ td_name t +:+ "(BorshStruct):"] ++ fields ++ meta)%list).

Definition _emit_typedef (t : TypeDef) (disc : option bytes) (kind : string) : E string :=
  if negb (bool_decide (td_serialization t = "borsh")) then egraise ("type " +:+ py_repr (td_name t) +:+ " has serialization=" +:+ py_repr (td_serialization t) +:+ "; v1 engine is Borsh-only")
  else
    match td_kind t, disc with
    | KEnum, Some _ => egraise (string_map ascii_lower kind +:+ " " +:+ py_repr (td_name t) +:+ " is an enum; discriminator-carrying enums are not supported in v1")
    | KEnum, None => _emit_enum t
    | KStruct, _ => _emit_struct t disc kind
    end.

(** ** Instructions *)

Definition _account_slot (a : IxAccount) : string :=
  let kwargs := ((if xa_signer a then ["is_signer=True"] else []) ++
                 (if xa_writable a then ["is_writable=True"] else []) ++
                 (if xa_optional a then ["is_optional=True"] else []))%list in
  let joined := match kwargs with [] => "" | _ => ", " +:+ commas kwargs end in
  "AccountSlot(" +:+ quoted (xa_name a) +:+ joined +:+ ")".

(** The data arguments: [seen], parameters and annotations. *)
Fixpoint arg_params (ix : string) (args : list IxArg) (seen : list string) : E (list string * list (string * string)) :=
  match args with
  | [] => mret (seen, [])
  | a :: args =>
      let pname := mangle (ia_name a) in
      if bool_decide (pname ∈ seen) then egraise ("instruction " +:+ py_repr ix +:+ ": arg name collision on " +:+ py_repr pname)
      else
        ann ← annotation (ia_type a);
        '(seen, rest) ← arg_params ix args (pname :: seen);
        mret (seen, (pname, ann) :: rest)
  end.

Definition default_address (a : IxAccount) : option string :=
  match xa_address a with
  | Some d => if decide (d = "") then resolve (xa_name a) else Some d
  | None => resolve (xa_name a)
  end.

Definition account_param (pname : string) (a : IxAccount) : string :=
  match default_address a with
  | Some addr =>
      pname +:+ ": " +:+ (if xa_optional a then "MetaLike | None" else "MetaLike") +:+ " = Pubkey(" +:+ quoted addr +:+ ")"
  | None => if xa_optional a then pname +:+ ": MetaLike | None = None" else pname +:+ ": MetaLike"
  end.

Definition slot_call (pname : string) (a : IxAccount) : string :=
  "slot(" +:+ pname +:+ ", " +:+ py_bool (xa_signer a) +:+ ", " +:+ py_bool (xa_writable a) +:+ ", " +:+ py_bool (xa_optional a) +:+ ")".

(** The account parameters, in the order of the slots. *)
Fixpoint account_params (ix : string) (accounts : list IxAccount) (seen : list string) : E (list (string * IxAccount)) :=
  match accounts with
  | [] => mret []
  | a :: accounts =>
      let pname := mangle (xa_name a) in
      if bool_decide (pname ∈ seen) then egraise ("instruction " +:+ py_repr ix +:+ ": account name collision on " +:+ py_repr pname)
      else rest ← account_params ix accounts (pname :: seen); mret ((pname, a) :: rest)
  end.

Definition _emit_instruction (ix : Instruction) : E string :=
  use_engine ["AccountSlot"; "InstructionMeta"; "instruction"; "compile_layout"; "encode_ix_layout"; "build_metas";
              "slot"; "as_meta"; "MetaLike"];;
  add_typing "Sequence";;
  let disc := _bytes_literal (ix_discriminator ix) in
  '(seen, args) ← arg_params (ix_name ix) (ix_args ix) [];
  accts ← account_params (ix_name ix) (ix_accounts ix) seen;
  returns ← match ix_returns ix with
            | None => mret None
            | Some node => ann ← annotation node; mret (Some ann)
            end;
  let slot_specs := _account_slot <$> ix_accounts ix in
  let accounts_arg :=
    match slot_specs with
    | [] => "accounts=(),"
    | _ => "accounts=(" +:+ nl +:+ lines ((fun s => "            " +:+ s +:+ ",") <$> slot_specs) +:+ nl +:+ "        ),"
    end in
  let returns_line := match returns with None => "" | Some ann => "        returns_type=" +:+ ann +:+ "," +:+ nl end in
  let ret_hint := match returns with None => "Instruction" | Some ann => "Instruction[" +:+ ann +:+ "]" end in
  let deco := "    @classmethod" +:+ nl +:+ "    @instruction(InstructionMeta(" +:+ nl +:+
              "        name=" +:+ quoted (ix_name ix) +:+ "," +:+ nl +:+
              "        discriminator=" +:+ disc +:+ "," +:+ nl +:+
              "        " +:+ accounts_arg +:+ nl +:+ returns_line +:+ "    ))" in
  let kw_params := (((fun p => account_param p.1 p.2) <$> accts) ++ ["remaining_accounts: Sequence[MetaLike] = ()"])%list in
  let data_params := (fun p => p.1 +:+ ": " +:+ p.2) <$> args in
  let head := "    def " +:+ mangle (ix_name ix) +:+ "(cls" +:+
              match data_params with [] => "" | _ => ", " +:+ commas data_params end in
  let sig := head +:+ ", *, " +:+ commas kw_params +:+ ") -> " +:+ ret_hint +:+ ":" in
  let layout_name := "_ENC_" +:+ mangle (ix_name ix) in
  data_line ← match args with
              | [] => mret ("        data = encode_ix_layout(" +:+ disc +:+ ", ())")
              | _ => add_layout layout_name (snd <$> args);;
                     mret ("        data = encode_ix_layout(" +:+ disc +:+ ", " +:+ layout_name +:+ ", " +:+ commas (fst <$> args) +:+ ")")
              end;
  let metas_line :=
    match accts with
    | [] => "        metas = build_metas(PROGRAM_ID)"
    | _ => "        metas = build_metas(" +:+ nl +:+ "            PROGRAM_ID," +:+ nl +:+
           lines ((fun p => "            " +:+ slot_call p.1 p.2 +:+ ",") <$> accts) +:+ nl +:+ "        )"
    end in
  mret (deco +:+ nl +:+ sig +:+ nl +:+
        lines [data_line; metas_line; "        metas += [as_meta(m) for m in remaining_accounts]";
               "        return Instruction(PROGRAM_ID, metas, data)"]).

(** ** Errors *)

Definition error_lines (e : ErrorDef) : list string :=
  [""; "    class " +:+ er_name e +:+ "(Error):"; "        code = " +:+ pretty (er_code e)] ++
  match er_msg e with None => [] | Some m => ["        msg = " +:+ py_repr m] end.

Definition _emit_error_members (idl : Idl) (cls_name : string) : list string :=
  ["    # ------------------------------- errors ------------------------------- #";
   "    # Defined by the program (IDL `errors[]`). Catch `" +:+ cls_name +:+ ".Error`";
   "    # to match any of them; each is also importable from this module.";
   "    class Error(ProgramError):";
   "        " +:+ dq +:+ dq +:+ dq +:+ "Base for every " +:+ idl_name idl +:+ " program error — catch it to match any of them." +:+
     dq +:+ dq +:+ dq] ++ flat_map error_lines (idl_errors idl).

Definition _emit_error_aliases (idl : Idl) (cls_name base_name : string) : list string :=
  [base_name +:+ " = " +:+ cls_name +:+ ".Error"] ++
  ((fun e => er_name e +:+ " = " +:+ cls_name +:+ "." +:+ er_name e) <$> idl_errors idl) ++
  [""; "register_errors(" +:+ cls_name +:+ ".Error, PROGRAM_ID)"].

(** ** Imports and provenance *)

Definition _from_import (module : string) (symbols : list string) : string :=
  if (length symbols <=? 3)%nat then "from " +:+ module +:+ " import " +:+ commas symbols
  else "from " +:+ module +:+ " import (" +:+ nl +:+
       String.concat "" ((fun s => "    " +:+ s +:+ "," +:+ nl) <$> symbols) +:+ ")".

(** The symbols imported from [typing] and from [_codec], in canonical order. *)
Definition typing_used (e : emitter) : list string :=
  List.filter (fun t => bool_decide (t ∈ typing (em_usage e))) _TYPING_ORDER.
Definition engine_set (e : emitter) : gset string :=
  {["build_interface_from_module"]} ∪ (em_engine e ∪ carriers (em_usage e)).
Definition codec_syms (e : emitter) : list string :=
  List.filter (fun a => bool_decide (a ∈ aliases (em_usage e))) _ALIAS_ORDER ++
  List.filter (fun s => bool_decide (s ∈ engine_set e)) _ENGINE_ORDER.

Definition _imports (idl : Idl) (e : emitter) : string :=
  let stdlib := ((if em_dataclass e then ["from dataclasses import dataclass"] else []) ++
                 (if em_intenum e then ["from enum import IntEnum"] else []) ++
                 match typing_used e with [] => [] | ts => ["from typing import " +:+ commas ts] end)%list in
  let native_syms := (match idl_instructions idl with [] => [] | _ => ["Instruction"] end ++ ["Pubkey"])%list in
  lines (["from __future__ import annotations"; ""] ++ stdlib ++ (match stdlib with [] => [] | _ => [""] end) ++
         [_from_import "wake_sol._codec" (codec_syms e); "from wake_sol._interface import register"] ++
         (match idl_errors idl with [] => [] | _ => ["from wake_sol._errors import ProgramError, register_errors"] end) ++
         [_from_import "wake_sol._native" native_syms])%list.

(** A provenance entry: a text or [None]. *)
Abbreviation provenance := (list (string * option string)).

Definition provenance_order : list string :=
  ["schema_version"; "program_address"; "program_name"; "module"; "source_root"; "idl_path"; "idl_sha256";
   "anchor_version"; "generator_version"].

Definition literal (v : option string) : string :=
  match v with None => "None" | Some s => quoted (escape s) end.

Definition _provenance_literal (p : provenance) : string :=
  lines (["__provenance__ = {"] ++
         ((fun k => "    " +:+ quoted k +:+ ": " +:+ literal (default None (attr_lookup k p)) +:+ ",") <$> provenance_order) ++
         ["}"])%list.

Definition _section (title : string) : string :=
  let bar := "# " +:+ String.concat "" (replicate 73 "-") +:+ " #" in
  bar +:+ nl +:+ "# " +:+ title +:+ nl +:+ bar.

(** ** [render] *)

Definition type_layouts (idl : Idl) : list (string * TypeDef) := dict_of ((fun t => (td_name t, t)) <$> idl_types idl).
Definition account_names (idl : Idl) : list string := ad_name <$> idl_accounts idl.
Definition event_names (idl : Idl) : list string := ev_name <$> idl_events idl.

(** The definitions that are neither accounts nor events. *)
Definition plain_types (idl : Idl) : list TypeDef :=
  List.filter (fun t => negb (bool_decide (td_name t ∈ account_names idl) || bool_decide (td_name t ∈ event_names idl)))
    (idl_types idl).

Definition emit_account (idl : Idl) (a : AccountDecl) : E string :=
  match attr_lookup (ad_name a) (type_layouts idl) with
  | None => egraise ("account " +:+ py_repr (ad_name a) +:+ " has no layout in the IDL types[] table")
  | Some t => _emit_typedef t (Some (ad_discriminator a)) "ACCOUNT"
  end.
Definition emit_event (idl : Idl) (ev : EventDecl) : E string :=
  match attr_lookup (ev_name ev) (type_layouts idl) with
  | None => egraise ("event " +:+ py_repr (ev_name ev) +:+ " has no layout in the IDL types[] table")
  | Some t => _emit_typedef t (Some (ev_discriminator ev)) "EVENT"
  end.

Definition sep : string := nl +:+ nl +:+ nl.

Definition section_part (title : string) (blocks : list string) : list string :=
  match blocks with [] => [] | _ => [_section title +:+ nl +:+ String.concat sep blocks] end.

(** The four passes over the IDL. *)
Definition emit_blocks (idl : Idl) : E (list string * list string * list string * list string) :=
  type_blocks ← emapM (fun t => _emit_typedef t None "ACCOUNT") (plain_types idl);
  account_blocks ← emapM (emit_account idl) (idl_accounts idl);
  event_blocks ← emapM (emit_event idl) (idl_events idl);
  method_blocks ← emapM _emit_instruction (idl_instructions idl);
  mret (type_blocks, account_blocks, event_blocks, method_blocks).

Definition builder_lines (idl : Idl) (e : emitter) (methods : list string) : list string :=
  let cls_name := _pascal (idl_name idl) in
  ([_section "4. instructions / builder (+ program-defined errors)"] ++
   match em_layouts e with
   | [] => []
   | ls => ((fun l => l.1 +:+ " = compile_layout(" +:+ commas l.2 +:+ ")") <$> ls) ++ [""]
   end ++
   ["class " +:+ cls_name +:+ ":"; "    program_id = PROGRAM_ID"] ++
   match idl_errors idl with [] => [] | _ => "" :: _emit_error_members idl cls_name end ++
   match methods with [] => [] | _ => [""; String.concat (nl +:+ nl) methods] end)%list.

(** The parts of the module, in order. *)
Definition module_parts (idl : Idl) (prov : provenance) (e : emitter)
    (blocks : list string * list string * list string * list string) : list string :=
  let '(type_blocks, account_blocks, event_blocks, method_blocks) := blocks in
  let cls_name := _pascal (idl_name idl) in
  let program_id := "PROGRAM_ID = Pubkey(" +:+ quoted (idl_address idl) +:+ ")" +:+ nl +:+ "PROGRAM_NAME = " +:+ quoted (idl_name idl) in
  ([BANNER +:+ nl +:+ NOTE_EVENTS; _imports idl e; program_id] ++
   section_part "1. types" type_blocks ++ section_part "2. accounts" account_blocks ++
   section_part "3. events" event_blocks ++ [lines (builder_lines idl e method_blocks)] ++
   match idl_errors idl with
   | [] => []
   | _ => [_section "5. errors — module-level aliases" +:+ nl +:+
           lines (_emit_error_aliases idl cls_name (cls_name +:+ "Error"))]
   end ++
   [_section "6. self-register (import side effect)" +:+ nl +:+
    "register(build_interface_from_module(__name__, " +:+ cls_name +:+ ", PROGRAM_ID, PROGRAM_NAME))";
    "# --- provenance (pinned) ---" +:+ nl +:+ _provenance_literal prov])%list.

Definition render (idl : Idl) (prov : provenance) : E string :=
  blocks ← emit_blocks idl;
  e ← eget;
  mret (String.concat sep (module_parts idl prov e blocks) +:+ nl).

Definition emit_module (idl : Idl) (prov : provenance) : res string :=
  match render idl prov new_emitter with Ok (text, _) => Ok text | Raise x => Raise x end.
