(* ===== verification/GenEmitProps.v ===== *)
(** * Correctness of the module emitter

    The symbols a generated module uses are the ones it imports, and the encode
    layouts it compiles at import are those of the IDL's instructions: one
    annotation per argument, in order, with the argument's wire type. *)

From Stdlib Require Import ZArith Lia.
From Stdlib Require Import Strings.Ascii.
From stdpp Require Import base decidable option list gmap strings pretty numbers.
From S2P Require Import Prelude.
From S2P Require Import Bytes.
From S2P Require Import Values.
From S2P Require Import Aliases.
From S2P Require Import Compile.
From S2P Require Import Builder.
From S2P Require Import BuilderProps.
From S2P Require Import GenTypes.
From S2P Require Import GenTypesProps.
From S2P Require Import GenIdl.
From S2P Require Import GenEmit.

#[local] Open Scope string_scope.

(** ** What the emitter may record *)

Record usage_ok (us : Usage) : Prop := mkUsageOk {
  ok_aliases : aliases us ⊆ list_to_set _ALIAS_ORDER;
  ok_typing : typing us ⊆ list_to_set _TYPING_ORDER;
  ok_carriers : carriers us ⊆ {["Opt"]};
}.

Lemma use_alias_ok s us : s ∈ _ALIAS_ORDER -> usage_ok us -> usage_ok (use_alias s us).
Proof. intros Hs [H1 H2 H3]. split; simpl; set_solver. Qed.
Lemma use_typing_ok s us : s ∈ _TYPING_ORDER -> usage_ok us -> usage_ok (use_typing s us).
Proof. intros Hs [H1 H2 H3]. split; simpl; set_solver. Qed.
Lemma use_opt_ok us : usage_ok us -> usage_ok (use_carrier "Opt" us).
Proof. intros [H1 H2 H3]. split; simpl; set_solver. Qed.
Lemma use_defined_ok s us : usage_ok us -> usage_ok (use_defined s us).
Proof. intros [H1 H2 H3]. by split. Qed.

(** Membership in one of the literal tables. *)
Ltac in_table := apply (bool_decide_unpack _); vm_compute; exact I.

Lemma scalars_are_aliases s : s ∈ _SCALARS -> s ∈ _ALIAS_ORDER.
Proof.
  unfold _SCALARS. intros Hs.
  repeat (apply elem_of_cons in Hs as [->|Hs]; [in_table|]). by apply elem_of_nil in Hs.
Qed.

Lemma map_scalar_ok s us r : map_scalar s us = Ok r -> usage_ok us -> usage_ok r.2.
Proof.
  unfold map_scalar. intros Hm Hu.
  repeat case_decide; simplify_eq; simpl; try done; apply use_alias_ok; try done;
    [by apply scalars_are_aliases|in_table].
Qed.

Lemma map_node_ok n : forall chain node us r,
  (jsize node < n)%nat -> map_node chain node us = Ok r -> usage_ok us -> usage_ok r.2.
Proof.
  induction n as [|n IH]; intros chain node us r Hn Hm Hu; [lia|].
  destruct node as [| | | |s| |kvs]; try discriminate; [by eapply map_scalar_ok|].
  rewrite map_node_obj in Hm.
  destruct (attr_lookup "option" kvs) as [inner|] eqn:Eo.
  { pose proof (jsize_attr _ _ _ Eo).
    destruct (chain || _is_option inner); inv_ok; destruct a as [t us']; inv_ok; simpl.
    - apply (IH _ _ _ (t, us')) in E; [done|lia|by apply use_opt_ok].
    - apply (IH _ _ _ (t, us')) in E; [done|lia|apply use_typing_ok; [in_table|done]]. }
  destruct (attr_lookup "vec" kvs) as [v|] eqn:Ev.
  { pose proof (jsize_attr _ _ _ Ev). inv_ok. destruct a as [t us']. inv_ok. by apply (IH _ _ _ (t, us')) in E; [|lia|]. }
  destruct (attr_lookup "array" kvs) as [v|] eqn:Ea.
  { pose proof (jsize_attr _ _ _ Ea). unfold map_array in Hm.
    destruct v as [| | | | |[|elem [|k [|]]]|]; try discriminate.
    destruct (int_literal k); [|discriminate].
    assert (usage_ok (use_typing "Annotated" us)) by (apply use_typing_ok; [in_table|done]).
    destruct (is_u8 elem); [by simplify_eq|].
    destruct (map_node false elem _) as [[t us']|] eqn:Em; [|discriminate]. injection Hm as <-.
    pose proof (jsize_pair elem k). by apply (IH _ _ _ (t, us')) in Em; [|lia|]. }
  destruct (attr_lookup "defined" kvs) as [d|]; [|by repeat case_match].
  inv_ok. by apply use_defined_ok.
Qed.

Record em_ok (e : emitter) : Prop := mkEmOk {
  ok_usage : usage_ok (em_usage e);
  ok_engine : em_engine e ⊆ list_to_set _ENGINE_ORDER;
}.

(** ** Methods that add no layout *)

(** From [e] to [e']: more symbols recorded, still all known, the same layouts. *)
Record em_step (e e' : emitter) : Prop := mkEmStep {
  st_le : usage_le (em_usage e) (em_usage e');
  st_engine : em_engine e ⊆ em_engine e';
  st_ok : em_ok e -> em_ok e';
  st_layouts : em_layouts e' = em_layouts e;
}.

#[global] Instance em_step_preorder : PreOrder em_step.
Proof.
  split; [intros e; by split|]. intros e1 e2 e3 [? ? ? ?] [? ? ? ?]. split; [by etrans|by etrans|auto|congruence].
Qed.

Definition quiet {A} (m : E A) : Prop := forall e a e', m e = Ok (a, e') -> em_step e e'.

Lemma quiet_ret {A} (a : A) : quiet (mret a).
Proof. intros e x e' [= <- <-]. done. Qed.

Lemma quiet_bind {A B} (m : E A) (f : A -> E B) : quiet m -> (forall a, quiet (f a)) -> quiet (m ≫= f).
Proof.
  intros Hm Hf e b e' He. unfold mbind, E_bind in He. destruct (m e) as [[a e1]|] eqn:E1; [|discriminate].
  etrans; [by eapply Hm|by eapply Hf].
Qed.

Lemma quiet_raise {A} msg : quiet (egraise (A := A) msg).
Proof. by intros e a e' He. Qed.

Lemma quiet_annotation node : quiet (annotation node).
Proof.
  intros e t e' He. unfold annotation in He. destruct (map_type node (em_usage e)) as [[t' us]|] eqn:Em; [|discriminate].
  injection He as <- <-. pose proof Em as Em'. apply (map_node_lowered (S (jsize node))) in Em' as (a & w & _ & _ & _ & _ & Hle & _); [|lia].
  split; [exact Hle|done| |done]. intros [H1 H2]. split; [|done].
  by apply (map_node_ok (S (jsize node)) _ _ _ (t', us)) in Em; [|lia|].
Qed.

Lemma quiet_modify f : (forall e, em_step e (f e)) -> quiet (emodify f).
Proof. intros Hf e a e' [= <- <-]. apply Hf. Qed.

Lemma quiet_engine syms : forallb (fun s => bool_decide (s ∈ _ENGINE_ORDER)) syms = true -> quiet (use_engine syms).
Proof.
  intros Hs. rewrite forallb_forall in Hs. apply quiet_modify. intros e.
  split; cbn [em_usage em_engine em_layouts]; [done|set_solver| |done].
  intros [H1 H2]. split; [done|]. cbn [em_engine]. apply union_least; [|done]. intros s Hin.
  rewrite elem_of_list_to_set in Hin. rewrite elem_of_list_to_set.
  rewrite list_elem_of_In in Hin. by apply Hs, bool_decide_eq_true in Hin.
Qed.

Lemma quiet_dataclass : quiet need_dataclass.
Proof. apply quiet_modify. intros e. by split; simpl; [| |intros [? ?]|]. Qed.
Lemma quiet_intenum : quiet need_intenum.
Proof. apply quiet_modify. intros e. by split; simpl; [| |intros [? ?]|]. Qed.

Lemma quiet_typing s : s ∈ _TYPING_ORDER -> quiet (add_typing s).
Proof.
  intros Hs. apply quiet_modify. intros e. split; simpl; [unfold usage_le; simpl; set_solver|done| |done].
  intros [H1 H2]. split; [by apply use_typing_ok|done].
Qed.

Lemma quiet_mapM {A B} (f : A -> E B) xs : (forall x, quiet (f x)) -> quiet (emapM f xs).
Proof.
  intros Hf. induction xs as [|x xs IH]; simpl; [apply quiet_ret|].
  apply quiet_bind; [done|intros y; apply quiet_bind; [done|intros ys; apply quiet_ret]].
Qed.

#[local] Hint Resolve quiet_ret quiet_raise quiet_annotation quiet_dataclass quiet_intenum : core.

Ltac quiet :=
  repeat first
    [ progress intros | apply quiet_ret | apply quiet_raise | apply quiet_annotation | apply quiet_dataclass
    | apply quiet_intenum | apply quiet_engine; reflexivity | apply quiet_mapM | apply quiet_bind
    | match goal with |- quiet (match ?x with _ => _ end) => destruct x end ].

Lemma quiet_fields fs indent : quiet (_field_lines fs indent).
Proof. unfold _field_lines, field_line. quiet. Qed.

Lemma quiet_typedef t d k : quiet (_emit_typedef t d k).
Proof.
  unfold _emit_typedef, _emit_enum, _emit_struct, variant_lines, _field_lines, field_line. quiet.
Qed.

(** ** Instructions *)

(** What is emitted for one argument. *)
Definition arg_lowered (us : Usage) (arg : IxArg) (ann : string) : Prop :=
  exists a w, idl_wire (ia_type arg) w /\ evaluates ann a /\ ann_wire false a w /\ covers us a.

Lemma arg_lowered_mono us us' arg ann : usage_le us us' -> arg_lowered us arg ann -> arg_lowered us' arg ann.
Proof. intros Hle (a & w & H1 & H2 & H3 & H4). exists a, w. split_and!; try done. by eapply covers_mono. Qed.

Lemma annotation_lowered node e t e' :
  annotation node e = Ok (t, e') -> exists a w, idl_wire node w /\ evaluates t a /\ ann_wire false a w /\ covers (em_usage e') a.
Proof.
  unfold annotation. destruct (map_type node (em_usage e)) as [[t' us]|] eqn:Em; [|discriminate]. intros [= <- <-].
  apply (map_node_lowered (S (jsize node))) in Em as (a & w & H1 & H2 & H3 & H4 & _); [|lia]. by exists a, w.
Qed.

(** Inversion of a successful bind. *)
Lemma E_bind_inv {A B} (m : E A) (f : A -> E B) e b e' :
  (m ≫= f) e = Ok (b, e') -> exists a e1, m e = Ok (a, e1) /\ f a e1 = Ok (b, e').
Proof. unfold mbind, E_bind. destruct (m e) as [[a e1]|]; [eauto|discriminate]. Qed.

Ltac inv_E :=
  repeat match goal with
  | H : mbind _ _ _ = Ok _ |- _ =>
      let a := fresh "a" in let e := fresh "e" in let E := fresh "E" in
      apply E_bind_inv in H as (a & e & E & H)
  | H : mret _ _ = Ok _ |- _ => injection H; clear H; intros; subst
  | H : egraise _ _ = Ok _ |- _ => discriminate H
  end.

Definition arg_names (args : list IxArg) : list string := mangle ∘ ia_name <$> args.

Lemma arg_params_spec ix args seen e seen' out e' :
  arg_params ix args seen e = Ok ((seen', out), e') -> NoDup seen ->
  em_step e e' /\ fst <$> out = arg_names args /\ Forall2 (arg_lowered (em_usage e')) args (snd <$> out) /\
  seen' = (reverse (arg_names args) ++ seen)%list /\ NoDup seen'.
Proof.
  revert seen e seen' out e'. induction args as [|a args IH]; intros seen e seen' out e' H Hnd; simpl in H.
  { inv_E. split_and!; done || constructor. }
  case_bool_decide as Hin; inv_E. destruct a1 as [seen1 rest]. inv_E.
  pose proof (quiet_annotation _ _ _ _ E) as Hs. pose proof (annotation_lowered _ _ _ _ E) as Hl.
  apply IH in E0 as (Hs' & Hn & Hf & -> & Hnd'); [|by constructor].
  split_and!; [by etrans|by simpl; f_equal| |by unfold arg_names; rewrite fmap_cons, reverse_cons, <- app_assoc|done].
  constructor; [|done]. destruct Hl as (x & w & H1 & H2 & H3 & H4). exists x, w. split_and!; try done.
  eapply covers_mono; [|done]. apply Hs'.
Qed.

Lemma account_params_spec ix accts seen e out e' :
  account_params ix accts seen e = Ok (out, e') ->
  e' = e /\ fst <$> out = (mangle ∘ xa_name <$> accts) /\ snd <$> out = accts /\
  NoDup (mangle ∘ xa_name <$> accts) /\ (forall n, n ∈ (mangle ∘ xa_name <$> accts) -> n ∉ seen).
Proof.
  revert seen e out e'. induction accts as [|a accts IH]; intros seen e out e' H; simpl in H.
  { inv_E. split_and!; [done..|constructor|by intros n ?%elem_of_nil]. }
  case_bool_decide as Hin; inv_E. apply IH in E as (-> & Hn & Hs & Hnd & Hf).
  split_and!; [done|by simpl; f_equal|by simpl; f_equal| |].
  - simpl. constructor; [|done]. intros Hx. apply (Hf _ Hx), elem_of_cons. by left.
  - intros n [->|Hx]%elem_of_cons; [done|]. intros Hy. apply (Hf _ Hx), elem_of_cons. by right.
Qed.

Definition layout_of (us : Usage) (ix : Instruction) (l : string * list string) : Prop :=
  l.1 = "_ENC_" +:+ mangle (ix_name ix) /\ Forall2 (arg_lowered us) (ix_args ix) l.2.

(** The parameters of a builder method. *)
Definition params (ix : Instruction) : list string :=
  (arg_names (ix_args ix) ++ (mangle ∘ xa_name <$> ix_accounts ix))%list.

Lemma layout_of_mono us us' ix l : usage_le us us' -> layout_of us ix l -> layout_of us' ix l.
Proof. intros Hle [H1 H2]. split; [done|]. eapply list.Forall2_impl; [exact H2|]. intros ? ?. by apply arg_lowered_mono. Qed.

Lemma emit_instruction_spec ix e text e' :
  _emit_instruction ix e = Ok (text, e') ->
  NoDup (params ix) /\ usage_le (em_usage e) (em_usage e') /\ (em_ok e -> em_ok e') /\
  exists new, em_layouts e' = (em_layouts e ++ new)%list /\
    Forall2 (layout_of (em_usage e')) (List.filter (fun ix => match ix_args ix with [] => false | _ => true end) [ix]) new.
Proof.
  unfold _emit_instruction. intros H. inv_E.
  assert (Hq1 : em_step e e0) by (eapply quiet_engine; [|exact E]; reflexivity).
  assert (Hq2 : em_step e0 e1) by (eapply quiet_typing; [|exact E0]; in_table).
  destruct a1 as [seen args]. inv_E.
  apply arg_params_spec in E1 as (Hq3 & Hn & Hf & Hseen & Hnd); [|constructor].
  apply account_params_spec in E2 as (-> & Hacc & Hsnd & Hnd2 & Hdis).
  assert (Hq4 : em_step e2 e4).
  { destruct (ix_returns ix); inv_E; [|done]. by eapply quiet_annotation. }
  assert (Hpar : NoDup (params ix)).
  { unfold params. apply list.NoDup_app. subst seen. rewrite app_nil_r in Hnd, Hdis.
    split_and!; [by rewrite reverse_Permutation in Hnd|intros x Hx Hy; apply (Hdis x Hy); by rewrite reverse_Permutation|done]. }
  assert (Hq : em_step e e4) by (by repeat (etrans; [eassumption|])).
  destruct Hq as [Hle Heng Hok Hlay]. split; [done|].
  assert (Hnil : args = [] <-> ix_args ix = []).
  { apply (f_equal length) in Hn. unfold arg_names in Hn. rewrite !length_fmap in Hn. by rewrite <- !length_zero_iff_nil, Hn. }
  destruct args as [|p args].
  - inv_E. split_and!; [done|done|]. exists []. split; [by rewrite app_nil_r|].
    simpl. rewrite (proj1 Hnil eq_refl). constructor.
  - inv_E. match goal with Ha : add_layout _ _ _ = Ok _ |- _ => injection Ha as <- <- end. split_and!; [done| |].
    + intros Ho. by destruct (Hok Ho).
    + eexists. split; [cbn [em_layouts]; rewrite Hlay; reflexivity|].
      simpl. destruct (ix_args ix) eqn:Ei; [by destruct Hnil as [_ Hx]; specialize (Hx eq_refl)|].
      constructor; [|constructor]. split; [done|]. rewrite Ei. cbn [snd em_usage].
      eapply list.Forall2_impl; [exact Hf|]. intros ? ?. apply arg_lowered_mono, Hq4.
Qed.

Definition has_args (ix : Instruction) : bool := match ix_args ix with [] => false | _ => true end.

Lemma emit_instructions_spec ixs e blocks e' :
  emapM _emit_instruction ixs e = Ok (blocks, e') ->
  Forall (fun ix => NoDup (params ix)) ixs /\ usage_le (em_usage e) (em_usage e') /\ (em_ok e -> em_ok e') /\
  exists new, em_layouts e' = (em_layouts e ++ new)%list /\
    Forall2 (layout_of (em_usage e')) (List.filter has_args ixs) new.
Proof.
  revert e blocks e'. induction ixs as [|ix ixs IH]; intros e blocks e' H; simpl in H; inv_E.
  { split_and!; [constructor|done|done|]. exists []. split; [by rewrite app_nil_r|constructor]. }
  apply emit_instruction_spec in E as (Hnd & Hle & Hok & new1 & Hl1 & Hf1).
  apply IH in E0 as (Hnds & Hle' & Hok' & new2 & Hl2 & Hf2).
  split_and!; [by constructor|by etrans|auto|]. exists (new1 ++ new2)%list.
  split; [by rewrite Hl2, Hl1, app_assoc|].
  change (List.filter has_args (ix :: ixs)) with (List.filter has_args ([ix] ++ ixs)%list).
  rewrite List.filter_app. apply Forall2_app; [|done].
  eapply list.Forall2_impl; [exact Hf1|]. intros ? ?. by apply layout_of_mono.
Qed.

(** ** The import block *)

(** The symbols an annotation mentions are imported; the classes are the
    module's own. *)
Fixpoint resolves (e : emitter) (a : ann) : Prop :=
  match a with
  | AAlias al => exists s, alias_of_name s = Some al /\ s ∈ codec_syms e
  | APubkey => "pubkey" ∈ codec_syms e
  | AUnion [x; _] => "Optional" ∈ typing_used e /\ resolves e x
  | AOpt x => "Opt" ∈ codec_syms e /\ resolves e x
  | AList x => resolves e x
  | AAnnotated x _ => "Annotated" ∈ typing_used e /\ resolves e x
  | _ => True
  end.

Lemma in_order (order : list string) (used : gset string) s :
  used ⊆ list_to_set order -> s ∈ used -> s ∈ List.filter (fun t => bool_decide (t ∈ used)) order.
Proof.
  intros Hsub Hs. pose proof (Hsub _ Hs) as Ho. rewrite elem_of_list_to_set in Ho.
  rewrite list_elem_of_In, filter_In, <- list_elem_of_In. split; [done|by apply bool_decide_eq_true].
Qed.

Lemma alias_imported e s : em_ok e -> s ∈ aliases (em_usage e) -> s ∈ codec_syms e.
Proof. intros [[H _ _] _] Hs. apply elem_of_app. left. by apply (in_order _ _ _ H). Qed.

Lemma typing_imported e s : em_ok e -> s ∈ typing (em_usage e) -> s ∈ typing_used e.
Proof. intros [[_ H _] _]. by apply in_order. Qed.

Lemma engine_set_known e : em_ok e -> engine_set e ⊆ list_to_set _ENGINE_ORDER.
Proof.
  intros [[_ _ Hc] He]. unfold engine_set.
  apply union_least; [|apply union_least; [done|]].
  - intros s Hs. apply elem_of_singleton in Hs as ->. rewrite elem_of_list_to_set. in_table.
  - intros s Hs. specialize (Hc _ Hs). apply elem_of_singleton in Hc as ->. rewrite elem_of_list_to_set. in_table.
Qed.

Lemma engine_imported e s : em_ok e -> s ∈ engine_set e -> s ∈ codec_syms e.
Proof. intros Hok Hs. apply elem_of_app. right. by apply in_order; [apply engine_set_known|]. Qed.

Lemma covers_resolves e a : em_ok e -> covers (em_usage e) a -> resolves e a.
Proof.
  intros Hok. revert a. fix IH 1. intros [] Hc; simpl in *; try done.
  - destruct Hc as (s & ? & ?). exists s. split; [done|by apply alias_imported].
  - by apply alias_imported.
  - destruct Hc as [? ?]. split; [by apply typing_imported|by apply IH].
  - destruct Hc as [? ?]. split; [apply engine_imported; [done|unfold engine_set; set_solver]|by apply IH].
  - destruct args as [|x [|y [|]]]; try done. destruct Hc as [? ?]. split; [by apply typing_imported|by apply IH].
  - by apply IH.
Qed.

Lemma NoDup_filter_bool (f : string -> bool) l : NoDup l -> NoDup (List.filter f l).
Proof. rewrite !NoDup_ListNoDup. apply NoDup_filter. Qed.

Lemma codec_syms_NoDup e : NoDup (codec_syms e).
Proof.
  unfold codec_syms.
  assert (NoDup (_ALIAS_ORDER ++ _ENGINE_ORDER)%list) as Hnd by (apply (bool_decide_unpack _); vm_compute; exact I).
  apply list.NoDup_app in Hnd as (Ha & Hd & He). apply list.NoDup_app.
  split_and!; [by apply NoDup_filter_bool| |by apply NoDup_filter_bool].
  intros s Hs Ht. rewrite list_elem_of_In, filter_In, <- list_elem_of_In in Hs, Ht.
  destruct Hs, Ht. by apply (Hd s).
Qed.

Lemma quiet_account idl a : quiet (emit_account idl a).
Proof. unfold emit_account. destruct (attr_lookup _ _); [apply quiet_typedef|apply quiet_raise]. Qed.
Lemma quiet_event idl ev : quiet (emit_event idl ev).
Proof. unfold emit_event. destruct (attr_lookup _ _); [apply quiet_typedef|apply quiet_raise]. Qed.

Lemma new_emitter_ok : em_ok new_emitter.
Proof. split; [split|]; simpl; set_solver. Qed.

(** The layouts and the imports of the emitter that has made the four passes. *)
Lemma emit_blocks_spec idl blocks e :
  emit_blocks idl new_emitter = Ok (blocks, e) ->
  em_ok e /\ Forall (fun ix => NoDup (params ix)) (idl_instructions idl) /\
  Forall2 (layout_of (em_usage e)) (List.filter has_args (idl_instructions idl)) (em_layouts e).
Proof.
  unfold emit_blocks. intros H. inv_E.
  assert (Hq1 : em_step new_emitter e0) by (eapply quiet_mapM; [|exact E]; intros ?; apply quiet_typedef).
  assert (Hq2 : em_step e0 e1) by (eapply quiet_mapM; [|exact E0]; intros ?; apply quiet_account).
  assert (Hq3 : em_step e1 e2) by (eapply quiet_mapM; [|exact E1]; intros ?; apply quiet_event).
  assert (Hq : em_step new_emitter e2) by (by repeat (etrans; [eassumption|])).
  apply emit_instructions_spec in E2 as (Hnd & Hle & Hok & new & Hl & Hf).
  split_and!; [apply Hok, Hq, new_emitter_ok|done|]. rewrite Hl, (st_layouts _ _ Hq). done.
Qed.

Lemma string_app_assoc s t r : (s +:+ t) +:+ r = s +:+ (t +:+ r).
Proof. induction s as [|c s IH]; [done|]. by rewrite !append_cons, IH. Qed.

Lemma concat_two (s x y : string) l : String.concat s (x :: y :: l) = x +:+ s +:+ String.concat s (y :: l).
Proof. done. Qed.

Lemma render_inv idl prov e text e' :
  render idl prov e = Ok (text, e') ->
  exists blocks, emit_blocks idl e = Ok (blocks, e') /\ text = String.concat sep (module_parts idl prov e' blocks) +:+ nl.
Proof.
  unfold render, mbind, E_bind. destruct (emit_blocks idl e) as [[blocks e1]|]; [|done]. intros [= <- <-]. by exists blocks.
Qed.

(** A generated module imports what it uses and encodes what the IDL says.
    When the emitter accepts an IDL, the text holds the import block; every
    symbol recorded on the way is imported, once; the parameters of every
    builder method (arguments, then accounts) have distinct names; and there is
    one compiled layout per instruction with arguments, in order and under the
    name its method refers to, with one annotation per argument, in order, that
    evaluates with the imported symbols to an annotation of the argument's wire
    type. *)
Theorem emitted_module_sound idl prov text e :
  render idl prov new_emitter = Ok (text, e) ->
  (exists pre post, text = pre +:+ _imports idl e +:+ post) /\
  (forall s, s ∈ engine_set e -> s ∈ codec_syms e) /\ NoDup (codec_syms e) /\
  Forall (fun ix => NoDup (params ix)) (idl_instructions idl) /\
  Forall2 (fun ix l => l.1 = "_ENC_" +:+ mangle (ix_name ix) /\
      Forall2 (fun arg ann => exists a w, idl_wire (ia_type arg) w /\ evaluates ann a /\ ann_wire false a w /\ resolves e a)
        (ix_args ix) l.2)
    (List.filter has_args (idl_instructions idl)) (em_layouts e).
Proof.
  intros (blocks & E & ->)%render_inv. apply emit_blocks_spec in E as (Hok & Hnd & Hf). split_and!.
  - destruct blocks as [[[ts accs] evs] ms]. exists ((BANNER +:+ nl +:+ NOTE_EVENTS) +:+ sep). eexists.
    unfold module_parts. rewrite <- !app_comm_cons, !concat_two, !string_app_assoc. reflexivity.
  - intros s. by apply engine_imported.
  - apply codec_syms_NoDup.
  - done.
  - eapply list.Forall2_impl; [exact Hf|]. intros ix l [Hn Hl]. split; [done|].
    eapply list.Forall2_impl; [exact Hl|]. intros arg ann (a & w & H1 & H2 & H3 & H4).
    exists a, w. split_and!; try done. by apply covers_resolves.
Qed.

(** [init(amount: u64, tags: Option<Option<[u8; 4]>>)] with one signer. *)
Definition demo_idl : Idl :=
  mkIdl "Demo1111111111111111111111111111" "demo" "0.1.0" None "00" [] []
    [mkInstruction "init" (replicate 8 Byte.x01)
       [mkIxArg "amount" (JStr "u64");
        mkIxArg "from" (JObj [("option", JObj [("option", JObj [("array", JArr [JStr "u8"; JInt 4])])])])]
       [mkIxAccount "payer" true true false None] None] [] [].

Lemma emitted_module_sound_witness :
  match render demo_idl [] new_emitter with
  | Ok (text, e) =>
      em_layouts e = [("_ENC_init", ["u64"; "Opt[Opt[Annotated[bytes, 4]]]"])] /\
      codec_syms e = ["u64"; "Opt"; "AccountSlot"; "InstructionMeta"; "MetaLike"; "instruction";
        "build_interface_from_module"; "compile_layout"; "encode_ix_layout"; "build_metas"; "slot"; "as_meta"] /\
      Forall (fun ix => NoDup (params ix)) (idl_instructions demo_idl)
  | Raise _ => False
  end.
Proof.
  destruct (render demo_idl [] new_emitter) as [[text e]|] eqn:E; [|vm_compute in E; discriminate E].
  destruct (emitted_module_sound demo_idl [] text e E) as (_ & _ & _ & Hnd & _).
  split_and!; [..|exact Hnd]; vm_compute in E; injection E as _ <-; vm_compute; reflexivity.
Defined.
