(* ===== verification/GenModule.v ===== *)
(** * What a generated module means

    The specification the generator is held to.  [idl_borsh] is the Borsh format
    of an IDL's types, read off the IDL alone.  [class_block], [method_block] and
    [layout_line] say what Python makes of the statements the emitter prints;
    [import_module] runs them in the order of the module.  [GenModuleProps] shows
    that the codec of an imported module implements [idl_borsh]. *)

From Stdlib Require Import ZArith Lia.
From Stdlib Require Import Strings.Ascii Strings.Byte.
From stdpp Require Import base decidable option list gmap strings pretty numbers.
From S2P Require Import Prelude.
From S2P Require Import Bytes.
From S2P Require Import Utf8.
From S2P Require Import Floats.
From S2P Require Import Values.
From S2P Require Import Aliases.
From S2P Require Import Codec.
From S2P Require Import Ir.
From S2P Require Import Borsh.
From S2P Require Import Compile.
From S2P Require Import Interface.
From S2P Require Import Builder.
From S2P Require Import GenTypes.
From S2P Require Import GenTypesProps.
From S2P Require Import GenIdl.
From S2P Require Import GenEmit.
From S2P Require Import GenEmitProps.

#[local] Open Scope string_scope.

(** ** The Borsh format of an IDL *)

(** The attribute a field becomes; fields of tuples are numbered. *)
Definition field_name (p : nat * Field) : string :=
  match fd_name p.2 with Some n => mangle n | None => "_" +:+ pretty p.1 end.
Definition field_names (fs : list Field) : list string := field_name <$> enumerate fs.

(** The class of a variant, nested in the class of its enum. *)
Definition variant_class (t : TypeDef) (v : Variant) : string := td_name t +:+ "." +:+ vr_name v.

Definition all_unit (t : TypeDef) : bool := forallb is_unit (td_variants t).

Section format.
Context (types : list (string * TypeDef)).

(** [idl_borsh d c w v bs]: [bs] encodes the Python value [v] of the IDL type
    [w], with at most [d] composite types nested.  A present option is its
    payload; where options nest, every level is wrapped in an [Opt] ([c]: the
    enclosing option is). *)
Inductive idl_borsh : nat -> bool -> wty -> pyval -> bytes -> Prop :=
  | I_int d c n sg z bs : to_bytes n sg z = Some bs -> idl_borsh d c (WInt n sg) (VInt z) bs
  | I_float d c n bs :
      length bs = n -> is_nan64 (unpack_float n bs) = false ->
      idl_borsh d c (WFloat n) (VFloat (unpack_float n bs)) bs
  | I_bool d c b : idl_borsh d c WBool (VBool b) [if b then x01 else x00]
  | I_string d c s lb bs :
      utf8_encode s = Some bs -> to_bytes 4 false (len bs) = Some lb -> idl_borsh d c WString (VStr s) (lb ++ bs)
  | I_bytes d c lb bs : to_bytes 4 false (len bs) = Some lb -> idl_borsh d c WBytes (VBytes bs) (lb ++ bs)
  | I_fixed d c n bs : len bs = n -> idl_borsh d c (WFixedBytes n) (VBytes bs) bs
  | I_pubkey d c k : length k = 32%nat -> idl_borsh d c WPubkey (VPubkey k) k
  | I_none d c w : idl_borsh (S d) c (WOption w) VNone [x00]
  | I_some d w v bs :
      is_woption w = false -> idl_borsh d false w v bs -> idl_borsh (S d) false (WOption w) v (x01 :: bs)
  | I_some_opt d c w v bs :
      c || is_woption w = true -> idl_borsh d (is_woption w) w v bs ->
      idl_borsh (S d) c (WOption w) (VOpt v) (x01 :: bs)
  | I_vec d c w vs lb bs :
      to_bytes 4 false (Z.of_nat (length vs)) = Some lb -> idl_seq d w vs bs ->
      idl_borsh (S d) c (WVec w) (VList vs) (lb ++ bs)
  | I_array d c w n vs bs :
      Z.of_nat (length vs) = n -> idl_seq d w vs bs -> idl_borsh (S d) c (WArray w n) (VList vs) bs
  | I_struct d c name t vs bs :
      attr_lookup name types = Some t -> td_kind t = KStruct -> idl_fields d (fd_type <$> td_fields t) vs bs ->
      idl_borsh (S d) c (WClass name) (VObj name (zip (field_names (td_fields t)) vs)) bs
  | I_unit_variant d c name t i tb :
      attr_lookup name types = Some t -> td_kind t = KEnum -> all_unit t = true ->
      (i < length (td_variants t))%nat -> to_bytes 1 false (Z.of_nat i) = Some tb ->
      idl_borsh (S d) c (WClass name) (VIntEnum name (Z.of_nat i)) tb
  | I_variant d c name t i v vs tb bs :
      attr_lookup name types = Some t -> td_kind t = KEnum -> all_unit t = false ->
      td_variants t !! i = Some v -> to_bytes 1 false (Z.of_nat i) = Some tb ->
      idl_fields d (fd_type <$> vr_fields v) vs bs ->
      idl_borsh (S d) c (WClass name) (VObj (variant_class t v) (zip (field_names (vr_fields v)) vs)) (tb ++ bs)
with idl_seq : nat -> wty -> list pyval -> bytes -> Prop :=
  | IS_nil d w : idl_seq d w [] []
  | IS_cons d w v vs b1 b2 : idl_borsh d false w v b1 -> idl_seq d w vs b2 -> idl_seq d w (v :: vs) (b1 ++ b2)
with idl_fields : nat -> list json -> list pyval -> bytes -> Prop :=
  | IF_nil d : idl_fields d [] [] []
  | IF_cons d ty w tys v vs b1 b2 :
      idl_wire ty w -> idl_borsh d false w v b1 -> idl_fields d tys vs b2 ->
      idl_fields d (ty :: tys) (v :: vs) (b1 ++ b2).
End format.

Scheme idl_borsh_mind := Induction for idl_borsh Sort Prop
  with idl_seq_mind := Induction for idl_seq Sort Prop
  with idl_fields_mind := Induction for idl_fields Sort Prop.
Combined Scheme idl_borsh_mutind from idl_borsh_mind, idl_seq_mind, idl_fields_mind.

(** ** What the printed statements mean *)

(** The lines of a class body and the annotated fields they declare. *)
Inductive field_block (indent : string) : list string -> list (string * ann) -> Prop :=
  | FB_pass : field_block indent [indent +:+ "pass"] []
  | FB_fields ls cfs :
      cfs <> [] -> Forall2 (fun l cf => exists text, l = indent +:+ cf.1 +:+ ": " +:+ text /\ evaluates text cf.2) ls cfs ->
      field_block indent ls cfs.

(** The lines of a nested [@variant] dataclass. *)
Definition variant_block (ls : list string) (v : string * (Z * list (string * ann))) : Prop :=
  exists body tag, v.2.1 = Z.of_nat tag /\ field_block "        " body v.2.2 /\
    ls = (["" ; "    @variant(" +:+ pretty tag +:+ ")"; "    @dataclass"; "    class " +:+ v.1 +:+ ":"] ++ body)%list.

(** A class statement: the classes it creates and the [__variant_tag__]s. *)
Inductive class_block : string -> list (string * class_def) -> list (string * Z) -> Prop :=
  | CB_intenum name members :
      class_block (lines (("class " +:+ name +:+ "(IntEnum):") ::
                          ((fun m => "    " +:+ m.2 +:+ " = " +:+ pretty m.1) <$> enumerate members)))
        [(name, CIntEnum (Z.of_nat <$> seq 0 (length members)))] []
  | CB_dataclass name body cfs rest :
      field_block "    " body cfs ->
      class_block (lines (["@dataclass"; "class " +:+ name +:+ "(BorshStruct):"] ++ body ++ rest)%list)
        [(name, CDataclass cfs)] []
  | CB_enum name blocks vs :
      Forall2 variant_block blocks vs ->
      class_block (lines (("class " +:+ name +:+ "(metaclass=BorshEnumMeta):") :: concat blocks))
        ((name, CBorshEnum ((fun v => (v.2.1, name +:+ "." +:+ v.1)) <$> vs)) ::
         ((fun v => (name +:+ "." +:+ v.1, CDataclass v.2.2)) <$> vs))
        ((fun v => (name +:+ "." +:+ v.1, v.2.1)) <$> vs).

(** [block] stands in [text] on lines of its own. *)
Definition has_block (text block : string) : Prop :=
  exists pre post, text = pre +:+ block +:+ post /\
    (pre = "" \/ exists p, pre = p +:+ nl) /\ (post = "" \/ exists q, post = nl +:+ q).

(** The classes a text declares. *)
Definition module_env (text : string) (env : cenv) : Prop :=
  exists ds : list (list (string * class_def) * list (string * Z)),
    Forall (fun d => exists b, has_block text b /\ class_block b d.1 d.2) ds /\
    classes env = concat ds.*1 /\ vtags env = concat ds.*2.

(** ** Literals *)

Definition hex_digit_value (c : ascii) : option N :=
  let n := N_of_ascii c in
  if ((48 <=? n) && (n <=? 57))%N then Some (n - 48)%N
  else if ((97 <=? n) && (n <=? 102))%N then Some (n - 87)%N else None.

(** The body of a bytes literal that is all [\x] escapes. *)
Fixpoint hex_body (s : string) : option bytes :=
  match s with
  | EmptyString => Some []
  | String "\"%char (String "x"%char (String a (String b rest))) =>
      x ← hex_digit_value a; y ← hex_digit_value b; c ← Byte.of_N (16 * x + y); bs ← hex_body rest; Some (c :: bs)
  | _ => None
  end.
Definition bytes_text (t : string) (b : bytes) : Prop :=
  exists body, t = "b" +:+ dq +:+ body +:+ dq /\ hex_body body = Some b.

(** A string literal of characters that need no escape. *)
Definition literal_char (c : ascii) : bool :=
  let n := N_of_ascii c in ((32 <=? n) && (n <? 127) && negb (n =? 34) && negb (n =? 92))%N.
Definition literal_ok (s : string) : bool := forallb literal_char (String.list_ascii_of_string s).
Definition str_text (t s : string) : Prop := t = dq +:+ s +:+ dq /\ literal_ok s = true.

Definition bool_text (t : string) (b : bool) : Prop := t = (if b then "True" else "False").

(** ** Builder methods *)

(** A keyword-only account parameter; [kw_default] is the default's text. *)
Inductive kw_default := KwRequired | KwNone | KwAddress (addr : string).
Record kw_param := mkKw { kw_name : string; kw_dflt : kw_default }.

(** What a builder method is made of.  The body encodes [bu_values] with the
    layout bound to [bu_layout], then describes the slots, by parameter. *)
Record builder := mkBuilder {
  bu_meta : InstructionMeta;
  bu_name : string;
  bu_data : list (string * ann);
  bu_kws : list kw_param;
  bu_disc : bytes;
  bu_layout : option string;
  bu_values : list string;
  bu_slots : list (string * (bool * bool * bool));
}.

(** [name: annotation]. *)
Definition data_text (t : string) (p : string * ann) : Prop :=
  exists ty, t = p.1 +:+ ": " +:+ ty /\ evaluates ty p.2.

Inductive kw_text : string -> kw_param -> Prop :=
  | KT_required n : kw_text (n +:+ ": MetaLike") (mkKw n KwRequired)
  | KT_none n : kw_text (n +:+ ": MetaLike | None = None") (mkKw n KwNone)
  | KT_address n opt t addr :
      opt = "" \/ opt = " | None" -> str_text t addr ->
      kw_text (n +:+ ": MetaLike" +:+ opt +:+ " = Pubkey(" +:+ t +:+ ")") (mkKw n (KwAddress addr)).

(** [AccountSlot(name, flag=True, ...)]. *)
Definition slot_text (t : string) (s : AccountSlot) : Prop :=
  exists nm kws, str_text nm (Builder.as_name s) /\
    t = "AccountSlot(" +:+ commas (nm :: kws) +:+ ")" /\ NoDup kws /\
    kws ⊆ ["is_signer=True"; "is_writable=True"; "is_optional=True"] /\
    as_signer s = bool_decide ("is_signer=True" ∈ kws) /\ as_writable s = bool_decide ("is_writable=True" ∈ kws) /\
    as_optional s = bool_decide ("is_optional=True" ∈ kws).

(** [slot(param, signer, writable, optional)]. *)
Definition slot_call_text (t : string) (s : string * (bool * bool * bool)) : Prop :=
  exists ts tw t_opt, t = "slot(" +:+ commas [s.1; ts; tw; t_opt] +:+ ")" /\
    bool_text ts s.2.1.1 /\ bool_text tw s.2.1.2 /\ bool_text t_opt s.2.2.

(** A list of lines, or [empty] when there is none. *)
Definition block_text {A} (empty opening indent closing : string) (line : string -> A -> Prop) (t : string) (xs : list A) : Prop :=
  (xs = [] /\ t = empty) \/
  (xs <> [] /\ exists ls, Forall2 line ls xs /\
     t = opening +:+ nl +:+ lines ((fun l => indent +:+ l +:+ ",") <$> ls) +:+ nl +:+ closing).

Definition returns_text (t : string) (r : option ann) : Prop :=
  match r with
  | None => t = ""
  | Some a => exists ty, t = "        returns_type=" +:+ ty +:+ "," +:+ nl /\ evaluates ty a
  end.

(** [data = encode_ix_layout(disc, layout, values...)]. *)
Definition data_line_text (t : string) (disc : bytes) (layout : option string) (values : list string) : Prop :=
  exists td, bytes_text td disc /\
    match layout with
    | None => values = [] /\ t = "encode_ix_layout(" +:+ td +:+ ", ())"
    | Some l => values <> [] /\ t = "encode_ix_layout(" +:+ td +:+ ", " +:+ l +:+ ", " +:+ commas values +:+ ")"
    end.

Definition remaining_param : string := "remaining_accounts: Sequence[MetaLike] = ()".

(** A decorated class method. *)
Definition method_block (text : string) (b : builder) : Prop :=
  exists t_name t_disc t_accounts t_returns data kws hint t_data t_metas,
    str_text t_name (im_name (bu_meta b)) /\ bytes_text t_disc (im_discriminator (bu_meta b)) /\
    block_text "()" "(" "            " "        )" slot_text t_accounts (im_accounts (bu_meta b)) /\
    im_serialization (bu_meta b) = BORSH /\ returns_text t_returns (im_returns_type (bu_meta b)) /\
    Forall2 data_text data (bu_data b) /\ Forall2 kw_text kws (bu_kws b) /\
    data_line_text t_data (bu_disc b) (bu_layout b) (bu_values b) /\
    block_text "build_metas(PROGRAM_ID)" ("build_metas(" +:+ nl +:+ "            PROGRAM_ID,") "            " "        )"
      slot_call_text t_metas (bu_slots b) /\
    text = "    @classmethod" +:+ nl +:+ "    @instruction(InstructionMeta(" +:+ nl +:+
           "        name=" +:+ t_name +:+ "," +:+ nl +:+
           "        discriminator=" +:+ t_disc +:+ "," +:+ nl +:+
           "        accounts=" +:+ t_accounts +:+ "," +:+ nl +:+ t_returns +:+ "    ))" +:+ nl +:+
           "    def " +:+ bu_name b +:+ "(" +:+ commas ("cls" :: data ++ "*" :: kws ++ [remaining_param]) +:+ ") -> " +:+ hint +:+ ":" +:+ nl +:+
           lines ["        data = " +:+ t_data; "        metas = " +:+ t_metas;
                  "        metas += [as_meta(m) for m in remaining_accounts]";
                  "        return Instruction(PROGRAM_ID, metas, data)"].

(** What [inspect.signature] gives of the bound method. *)
Definition builder_method (b : builder) : method :=
  mkMethod (bu_meta b)
    (((fun p => mkParam p.1 POSITIONAL_OR_KEYWORD p.2) <$> bu_data b) ++
     ((fun k => mkParam (kw_name k) KEYWORD_ONLY AOther) <$> bu_kws b) ++
     [mkParam "remaining_accounts" KEYWORD_ONLY AOther]).

(** ** Calling a builder *)

(** The values of the locals: an argument, an account, or the encoded data. *)
Inductive local := LArg (v : pyval) | LAccount (m : meta_like) | LBytes (b : bytes).
Abbreviation frame := (list (string * local)).

Definition code_points (s : string) : ustr := (fun c => Z.of_N (N_of_ascii c)) <$> String.list_ascii_of_string s.

Section call.
Context `{Native}.

(** A keyword argument, or the default of the parameter. *)
Definition kw_value (given : list (string * meta_like)) (k : kw_param) : res meta_like :=
  match attr_lookup (kw_name k) given, kw_dflt k with
  | Some m, _ => Ok m
  | None, KwNone => Ok MNone
  | None, KwAddress addr => key ← pubkey_new (VStr (code_points addr)); Ok (MAddress (VPubkey key))
  | None, KwRequired => Raise (TypeError "missing required keyword-only argument")
  end.

Definition load (f : frame) (n : string) : res local :=
  match attr_lookup n f with Some l => Ok l | None => Raise (KeyError n) end.

Definition load_arg (f : frame) (n : string) : res pyval :=
  l ← load f n;
  match l with LArg v => Ok v | LBytes b => Ok (VBytes b) | LAccount _ => Raise (TypeError "expected a value") end.

Definition load_slot (f : frame) (s : string * (bool * bool * bool)) : res slot :=
  l ← load f s.1;
  let v := match l with LAccount m => m | LArg v => MAddress v | LBytes b => MAddress (VBytes b) end in
  Ok (mkSlot v s.2.1.1 s.2.1.2 s.2.2).

(** The body of the method, statement by statement; [data] is a local. *)
Definition call_builder (h : heap) (layouts : list (string * list node)) (pid : bytes) (b : builder)
    (vs : list pyval) (given : list (string * meta_like)) (remaining : list meta_like) : res (list AccountMeta * bytes) :=
  if negb (length vs =? length (bu_data b))%nat then Raise (TypeError "positional arguments") else
  accts ← mapM_res (kw_value given) (bu_kws b);
  let f := (zip (bu_data b).*1 (LArg <$> vs) ++ zip (kw_name <$> bu_kws b) (LAccount <$> accts))%list in
  layout ← match bu_layout b with
           | None => Ok []
           | Some l => match attr_lookup l layouts with Some nds => Ok nds | None => Raise (KeyError l) end
           end;
  values ← mapM_res (load_arg f) (bu_values b);
  data ← encode_ix_layout h (bu_disc b) layout values;
  let f := ("data", LBytes data) :: f in
  slots ← mapM_res (load_slot f) (bu_slots b);
  '(metas, _) ← build_metas pid slots;
  more ← mapM_res as_meta remaining;
  Ok ((metas ++ more)%list, data).

(** What the IDL says of a call: an account is the one given, the one at the
    declared or well-known address, or the sentinel of an optional slot. *)
Definition account_value (given : list (string * meta_like)) (a : IxAccount) : res meta_like :=
  match attr_lookup (mangle (xa_name a)) given with
  | Some m => Ok m
  | None =>
      match default_address a with
      | Some addr => key ← pubkey_new (VStr (code_points addr)); Ok (MAddress (VPubkey key))
      | None => if xa_optional a then Ok MNone else Raise (TypeError "missing required keyword-only argument")
      end
  end.

Definition idl_call (pid : bytes) (ix : Instruction) (given : list (string * meta_like)) (remaining : list meta_like) (data : bytes)
  : res (list AccountMeta * bytes) :=
  accts ← mapM_res (account_value given) (ix_accounts ix);
  '(metas, _) ← build_metas pid (zip_with (fun a v => mkSlot v (xa_signer a) (xa_writable a) (xa_optional a)) (ix_accounts ix) accts);
  more ← mapM_res as_meta remaining;
  Ok ((metas ++ more)%list, data).
End call.

(** ** Executing the module *)

(** A state of the cache after any compilations of classes. *)
Inductive compiled (env : cenv) : tstate -> Prop :=
  | compiled_init : compiled env (tinit env)
  | compiled_step cls s : compiled env s -> compiled env (compile_type env cls s).2.

(** [name = compile_layout(annotations...)]. *)
Definition layout_line (text : string) (l : string * list ann) : Prop :=
  exists tys, Forall2 evaluates tys l.2 /\ text = l.1 +:+ " = compile_layout(" +:+ commas tys +:+ ")".

(** The builders a text declares, and the layouts it binds. *)
Definition module_builders (text : string) (layouts : list (string * list ann)) (bs : list builder) : Prop :=
  Forall (fun l => exists line, has_block text line /\ layout_line line l) layouts /\
  Forall (fun b => exists block, has_block text block /\ method_block block b) bs.

(** The [_ENC_...] constants, then the registration. *)
Definition import_module (env : cenv) (objs : list (string * BorshMeta)) (layouts : list (string * list ann))
    (bs : list builder) (pid name : string) : TM (list (string * list node) * ProgramInterface) :=
  nodes ← mapM_tm (fun l => nds ← compile_layout env l.2; mret (l.1, nds)) layouts;
  i ← build_interface_from_module env objs (builder_method <$> bs) pid name [];
  mret (nodes, i).

(** Where a decoder accepts everything the encoder sends: the elements of a
    vector take at least one byte.  Class nodes are looked up in the cache. *)
Definition ann_solid (s : tstate) (a : ann) : bool :=
  match a with
  | AAlias _ | ABool | AStr | ABytes | APubkey | AOpt _ | AUnion _ | AList _ => true
  | AAnnotated ABytes (Some n) => (0 <? n)%Z
  | AAnnotated (AList (AAlias _ | ABool | AStr | ABytes | APubkey | AOpt _ | AUnion _ | AList _)) (Some n) => (0 <? n)%Z
  | AClass cls =>
      match attr_lookup cls (tcache s) with
      | Some nd => match min_wire_size (theap s) nd with Ok m => (0 <? m)%Z | Raise _ => false end
      | None => false
      end
  | _ => false
  end.
Fixpoint ann_floor (s : tstate) (a : ann) : bool :=
  match a with
  | AList e => ann_solid s e && ann_floor s e
  | AOpt e | AAnnotated (AList e) _ => ann_floor s e
  | AUnion args => forallb (ann_floor s) args
  | _ => true
  end.
Definition builder_floor (s : tstate) (b : builder) : bool :=
  heap_floor (theap s) && forallb (fun p => ann_floor s p.2) (bu_data b).

(** ** IDLs whose names make a valid module *)

Fixpoint no_negative (j : json) : bool :=
  match j with
  | JInt z => (0 <=? z)%Z
  | JArr xs => forallb no_negative xs
  | JObj kvs => forallb (fun kv => no_negative kv.2) kvs
  | _ => true
  end.

(** Names the module imports or Python defines, which a class must not take. *)
Definition taken_names : list string :=
  (_ALIAS_ORDER ++ _ENGINE_ORDER ++ _TYPING_ORDER ++
   ["bool"; "str"; "bytes"; "list"; "dataclass"; "IntEnum"; "Pubkey"; "Instruction"; "register"; "PROGRAM_ID";
    "PROGRAM_NAME"; "ProgramError"; "register_errors"])%list.

Definition fields_fit (fs : list Field) : bool :=
  bool_decide (NoDup (field_names fs)) && forallb (fun f => no_negative (fd_type f)) fs.

Definition type_fits (t : TypeDef) : bool :=
  isidentifier (td_name t) && negb (bool_decide (td_name t ∈ taken_names)) &&
  match td_kind t with
  | KStruct => fields_fit (td_fields t)
  | KEnum =>
      (0 <? length (td_variants t))%nat && (length (td_variants t) <=? 256)%nat &&
      bool_decide (NoDup (vr_name <$> td_variants t)) &&
      forallb (fun v => fields_fit (vr_fields v)) (td_variants t)
  end.

(** Names the body of a builder method refers to, which a parameter must not
    hide. *)
Definition body_names (ix : Instruction) : list string :=
  ["cls"; "encode_ix_layout"; "build_metas"; "slot"; "as_meta"; "Instruction"; "PROGRAM_ID";
   "_ENC_" +:+ mangle (ix_name ix)].

Definition account_fits (a : IxAccount) : bool :=
  isidentifier (xa_name a) && negb (bool_decide (mangle (xa_name a) = "data")) &&
  match default_address a with Some addr => literal_ok addr | None => true end.

Definition ix_fits (ix : Instruction) : bool :=
  isidentifier (ix_name ix) &&
  forallb (fun a => isidentifier (ia_name a) && no_negative (ia_type a)) (ix_args ix) &&
  forallb account_fits (ix_accounts ix) &&
  forallb (fun n => negb (bool_decide (n ∈ body_names ix))) (params ix) &&
  match ix_returns ix with Some r => no_negative r | None => true end.

(** Module-level names bound after the classes. *)
Definition later_names (idl : Idl) : list string :=
  (_pascal (idl_name idl) :: (_pascal (idl_name idl) +:+ "Error") :: (er_name <$> idl_errors idl) ++
   ((fun ix => "_ENC_" +:+ mangle (ix_name ix)) <$> idl_instructions idl))%list.

(** Every definition has its own class and every instruction its own method: no
    name is declared twice, no account is also an event, and no class is bound
    again. *)
Definition idl_fits (idl : Idl) : bool :=
  bool_decide (NoDup (td_name <$> idl_types idl)) &&
  bool_decide (NoDup (account_names idl ++ event_names idl)) && forallb type_fits (idl_types idl) &&
  forallb ix_fits (idl_instructions idl) &&
  bool_decide (NoDup (mangle ∘ ix_name <$> idl_instructions idl)) &&
  forallb (fun t => negb (bool_decide (td_name t ∈ later_names idl))) (idl_types idl).

(** No discriminator is a prefix of another. *)
Fixpoint prefix_free (ds : list bytes) : bool :=
  match ds with
  | [] => true
  | d :: ds => forallb (fun d' => negb (bool_decide (take (length d) d' = d)) && negb (bool_decide (take (length d') d = d'))) ds &&
               prefix_free ds
  end.
