(* ===== verification/GenModuleProps.v ===== *)
(** * Generated modules implement their IDL *)

From Stdlib Require Import ZArith Lia.
From Stdlib Require Import Strings.Ascii Strings.Byte.
From stdpp Require Import base decidable option list gmap strings pretty numbers.
From S2P Require Import Prelude.
From S2P Require Import Bytes.
From S2P Require Import Utf8.
From S2P Require Import Floats.
From S2P Require Import Values.
From S2P Require Import Aliases.
From S2P Require Import Codec.
From S2P Require Import Ir.
From S2P Require Import Borsh.
From S2P Require Import BorshProps.
From S2P Require Import Compile.
From S2P Require Import CompileProps.
From S2P Require Import Interface.
From S2P Require Import Builder.
From S2P Require Import BuilderProps.
From S2P Require Import GenTypes.
From S2P Require Import GenTypesProps.
From S2P Require Import GenIdl.
From S2P Require Import GenEmit.
From S2P Require Import GenEmitProps.
From S2P Require Import GenModule.

#[local] Open Scope string_scope.

(** ** Classes that stand for the types of an IDL *)

Lemma to_bytes_nonneg n z bs : to_bytes n false z = Some bs -> (0 <= z)%Z.
Proof. unfold to_bytes, int_fits, int_min. simpl. intros H. case_match; [|discriminate]. lia. Qed.

(** The types a layout mentions. *)
Fixpoint wclasses (w : wty) : list string :=
  match w with
  | WOption w | WVec w | WArray w _ => wclasses w
  | WClass name => [name]
  | _ => []
  end.

Section refine.
Context (types : list (string * TypeDef)).

Definition wknown (w : wty) : Prop := forall n, n ∈ wclasses w -> is_Some (attr_lookup n types).

(** An annotation for an IDL type. *)
Definition type_ann (ty : json) (a : ann) : Prop :=
  exists w, idl_wire ty w /\ ann_wire false a w /\ wknown w.

Definition fields_ann (fs : list Field) (cfs : list (string * ann)) : Prop :=
  cfs.*1 = field_names fs /\ Forall2 type_ann (fd_type <$> fs) cfs.*2.

Definition variant_entry (t : TypeDef) (p : nat * Variant) : Z * string := (Z.of_nat p.1, variant_class t p.2).

Definition declares (env : cenv) (t : TypeDef) : Prop :=
  match td_kind t with
  | KStruct => exists cfs, class_of env (td_name t) = CDataclass cfs /\ fields_ann (td_fields t) cfs
  | KEnum =>
      if all_unit t then class_of env (td_name t) = CIntEnum (Z.of_nat <$> seq 0 (length (td_variants t)))
      else class_of env (td_name t) = CBorshEnum (variant_entry t <$> enumerate (td_variants t)) /\
           forall v, v ∈ td_variants t ->
             exists cfs, class_of env (variant_class t v) = CDataclass cfs /\ fields_ann (vr_fields v) cfs
  end.

(** ** The codec of compiled classes is the IDL's Borsh *)

Context (env : cenv).
Context (Hnames : forall n t, attr_lookup n types = Some t -> td_name t = n).
Context (Hdecl : forall n t, attr_lookup n types = Some t -> declares env t).
Context (s : tstate) (Hc : complete env [] s).

(** At depth [d] the node and the type have the same values and bytes. *)
Definition agrees (d : nat) (c : bool) (nd : node) (w : wty) : Prop :=
  forall v bs, borsh (theap s) d nd v bs <-> idl_borsh types d c w v bs.

Lemma agrees_seq d nd w : agrees d false nd w -> forall vs bs, borsh_seq (theap s) d nd vs bs <-> idl_seq types d w vs bs.
Proof.
  intros Ha vs. induction vs as [|v vs IH]; intros bs; split; inversion 1; subst; constructor;
    solve [by apply Ha|by apply IH].
Qed.

Lemma agrees_fields d tys fs :
  Forall2 (fun ty f => exists w, idl_wire ty w /\ agrees d false f.2 w) tys fs ->
  forall vs bs, borsh_fields (theap s) d fs vs bs <-> idl_fields types d tys vs bs.
Proof.
  induction 1 as [|ty [n nd] tys fs (w & Hw & Ha) _ IH]; intros vs bs; split; inversion 1; subst.
  1,2: constructor.
  - econstructor; [done|by apply Ha|by apply IH].
  - match goal with H : idl_wire ty _ |- _ => rewrite <- (idl_wire_unique _ _ _ Hw H) in * end.
    constructor; [by apply Ha|by apply IH].
Qed.

Lemma lowered_fields d tys cfs fs :
  (forall a w nd, ann_wire false a w -> wknown w -> lowers (tcache s) a nd -> agrees d false nd w) ->
  Forall2 type_ann tys cfs.*2 -> lowers_fields (tcache s) cfs fs ->
  Forall2 (fun ty f => exists w, idl_wire ty w /\ agrees d false f.2 w) tys fs /\ fs.*1 = cfs.*1.
Proof.
  intros IH Ht Hl. revert tys Ht. induction Hl as [|[n a] [n' nd] cfs fs [Hn Ha] Hl IHl]; intros tys Ht.
  - by inversion Ht.
  - rewrite fmap_cons in Ht. cbn [fst snd] in *. subst n'. inversion Ht as [|ty ? tys' ? (w & H1 & H2 & H3) Ht']; subst. destruct (IHl _ Ht') as [Hf Hk].
    split; [|by rewrite !fmap_cons, Hk]. constructor; [|done]. exists w. eauto.
Qed.

(** The variants of a compiled enum, by tag. *)
Lemma tag_lookup_entries (f : Z * string -> Z * (string * fields) -> Prop) vs (ws : variants) (i : nat) base :
  Forall2 (fun v w => v = (w.1, w.2.1) /\ f v w) (zip (Z.of_nat <$> seq base (length vs)) vs) ws ->
  (exists cls fs, tag_lookup (Z.of_nat (base + i)) ws = Some (cls, fs) /\ vs !! i = Some cls /\
     f (Z.of_nat (base + i), cls) (Z.of_nat (base + i), (cls, fs))) \/
  (tag_lookup (Z.of_nat (base + i)) ws = None /\ vs !! i = None).
Proof.
  revert base i ws. induction vs as [|v vs IH]; intros base i ws Hf; simpl in Hf.
  - inversion Hf; subst. by right.
  - inversion Hf as [|? [t [cls fs]] ? ? [Hv Hw] Hf']; subst. simpl in *. injection Hv as <- <-.
    destruct i as [|i].
    + left. exists v, fs. rewrite Nat.add_0_r, Z.eqb_refl. done.
    + rewrite (proj2 (Z.eqb_neq _ _)) by lia. rewrite <- Nat.add_succ_comm. by apply IH.
Qed.
Lemma variant_entries t :
  variant_entry t <$> enumerate (td_variants t) =
  zip (Z.of_nat <$> seq 0 (length (variant_class t <$> td_variants t))) (variant_class t <$> td_variants t).
Proof.
  unfold enumerate. rewrite length_fmap. generalize 0%nat.
  induction (td_variants t) as [|v vs IH]; intros n; [done|]. cbn. f_equal. apply IH.
Qed.

Definition agrees_below (d : nat) : Prop :=
  forall d' c a w nd, (d' < d)%nat -> ann_wire c a w -> wknown w -> lowers (tcache s) a nd -> agrees d' c nd w.

Lemma fields_agree d d' fs cfs (nds : fields) vs bs :
  agrees_below d -> (d' < d)%nat -> fields_ann fs cfs -> lowers_fields (tcache s) cfs nds ->
  (borsh_fields (theap s) d' nds vs bs <-> idl_fields types d' (fd_type <$> fs) vs bs) /\ nds.*1 = field_names fs.
Proof.
  intros IH Hd [Hkeys Hty] Hl.
  destruct (lowered_fields d' (fd_type <$> fs) cfs nds) as [Hf Hk]; [by intros; eapply IH|done|done|].
  split; [by apply agrees_fields|congruence].
Qed.

Lemma struct_agrees d c name t nd :
  agrees_below d -> attr_lookup name types = Some t -> td_kind t = KStruct ->
  attr_lookup name (tcache s) = Some nd -> agrees d c nd (WClass name).
Proof using Hnames Hdecl Hc.
  intros IH Ht Ek Hl. pose proof (Hnames _ _ Ht) as Hn.
  destruct (co_filled _ _ _ Hc _ _ Hl) as [?%elem_of_nil|Hf]; [done|].
  pose proof (Hdecl _ _ Ht) as Hd. unfold declares in Hd. rewrite Hn, Ek in Hd. unfold filled in Hf.
  destruct Hd as (cfs & Hcls & Ha). rewrite Hcls in Hf. destruct Hf as (id & -> & Hlow).
  intros v bs. split; inversion 1; simplify_eq; try congruence.
  - destruct (fields_agree (S d0) d0 _ _ _ vs bs IH ltac:(lia) Ha Hlow) as [Hi Hk]. unfold make_obj. rewrite Hk.
    eapply I_struct; [done|done|by apply Hi].
  - destruct (fields_agree (S d0) d0 _ _ _ vs bs IH ltac:(lia) Ha Hlow) as [Hi Hk]. rewrite <- Hk.
    apply B_struct. by apply Hi.
Qed.

Lemma unit_enum_agrees d c name t nd :
  attr_lookup name types = Some t -> td_kind t = KEnum -> all_unit t = true ->
  attr_lookup name (tcache s) = Some nd -> agrees d c nd (WClass name).
Proof using Hnames Hdecl Hc.
  intros Ht Ek Eu Hl. pose proof (Hnames _ _ Ht) as Hn.
  destruct (co_filled _ _ _ Hc _ _ Hl) as [?%elem_of_nil|Hf]; [done|].
  pose proof (Hdecl _ _ Ht) as Hd. unfold declares in Hd. rewrite Hn, Ek, Eu in Hd. unfold filled in Hf.
  rewrite Hd in Hf. destruct Hf as [-> Hv].
  intros v bs. split; inversion 1; simplify_eq; try congruence.
  - match goal with Hz : _ ∈ intenum_values _ _ |- _ => rewrite Hv in Hz; apply list_elem_of_fmap in Hz as (i & -> & Hi) end.
    apply elem_of_seq in Hi. eapply I_unit_variant; eauto. lia.
  - constructor; [|done]. rewrite Hv. apply list_elem_of_fmap. eexists; split; [done|]. apply elem_of_seq. lia.
Qed.

Lemma enum_agrees d c name t nd :
  agrees_below d -> attr_lookup name types = Some t -> td_kind t = KEnum -> all_unit t = false ->
  attr_lookup name (tcache s) = Some nd -> agrees d c nd (WClass name).
Proof using Hnames Hdecl Hc.
  intros IH Ht Ek Eu Hl. pose proof (Hnames _ _ Ht) as Hn.
  destruct (co_filled _ _ _ Hc _ _ Hl) as [?%elem_of_nil|Hf]; [done|].
  pose proof (Hdecl _ _ Ht) as Hd. unfold declares in Hd. rewrite Hn, Ek, Eu in Hd. unfold filled in Hf.
  destruct Hd as [Hcls Hvars]. rewrite Hcls, variant_entries in Hf. destruct Hf as (id & -> & Hall).
  assert (Hentry : forall i, (exists v cfs fs, td_variants t !! i = Some v /\ fields_ann (vr_fields v) cfs /\
      lowers_fields (tcache s) cfs fs /\ tag_lookup (Z.of_nat i) (enum_variants (theap s) id) = Some (variant_class t v, fs)) \/
    (td_variants t !! i = None /\ tag_lookup (Z.of_nat i) (enum_variants (theap s) id) = None)).
  { intros i. apply (tag_lookup_entries _ _ _ i) in Hall as [(cls & fs & Htag & Hi & cfs & Hcfs & Hlow)|[Htag Hi]]; simpl in *.
    - left. apply list_lookup_fmap_Some in Hi as (v & -> & Hv).
      destruct (Hvars v) as (cfs' & Hcfs' & Ha); [by eapply list_elem_of_lookup_2|].
      rewrite Hcfs' in Hcfs. simplify_eq. by exists v, cfs, fs.
    - right. split; [|done]. rewrite list_lookup_fmap in Hi. by destruct (td_variants t !! i). }
  intros v bs. split; inversion 1; simplify_eq; try congruence.
  - match goal with Htb : to_bytes 1 false ?z = Some _, Hz : tag_lookup ?z _ = Some _ |- _ =>
      assert (exists i, z = Z.of_nat i) as [i ->] by (apply to_bytes_nonneg in Htb; exists (Z.to_nat z); lia) end.
    destruct (Hentry i) as [(w & cfs & fs' & Hw & Ha & Hlow & Htag)|[_ Htag]]; simplify_eq.
    destruct (fields_agree (S d0) d0 _ _ _ vs bs0 IH ltac:(lia) Ha Hlow) as [Hi Hk]. unfold make_obj. rewrite Hk.
    eapply I_variant; eauto. by apply Hi.
  - destruct (Hentry i) as [(w & cfs & fs' & Hw & Ha & Hlow & Htag)|[Hw _]]; simplify_eq.
    destruct (fields_agree (S d0) d0 _ _ _ vs bs0 IH ltac:(lia) Ha Hlow) as [Hi Hk]. rewrite <- Hk.
    match goal with |- borsh _ _ _ (VObj ?cls _) _ => change (VObj cls (zip fs'.*1 vs)) with (make_obj cls fs' vs) end.
    eapply B_enum; [done|done|by apply Hi].
Qed.

Lemma idl_not_none d c w v bs : idl_borsh types d c w v bs -> is_woption w = false -> v <> VNone.
Proof. by destruct 1. Qed.

Lemma optional_inner c a w t : ann_wire c a w -> option_inner (AUnion [a; ANoneType]) = Some t -> t = a.
Proof. destruct 1; simpl; by intros [= <-]. Qed.

Lemma opt_agrees d c nd w :
  agrees d (is_woption w) nd w -> c || is_woption w = true -> agrees (S d) c (OptNode nd) (WOption w).
Proof.
  intros Ha Hw v bs. split; inversion 1; subst.
  - constructor.
  - apply I_some_opt; [done|]. by apply Ha.
  - constructor.
  - simpl in Hw. congruence.
  - constructor. by apply Ha.
Qed.

Lemma optional_agrees d nd w :
  agrees d false nd w -> is_woption w = false -> agrees (S d) false (OptionNode nd) (WOption w).
Proof.
  intros Ha Hw v bs. split; inversion 1; subst.
  - constructor.
  - apply I_some; [done|]. by apply Ha.
  - constructor.
  - match goal with H : idl_borsh _ _ _ _ _ _ |- _ => pose proof (idl_not_none _ _ _ _ _ H Hw); apply Ha in H end.
    by constructor.
  - simpl in *. congruence.
Qed.

(** The values and bytes of a compiled type are those of the IDL type, at every
    depth. *)
Lemma compiled_agrees d c a w nd :
  ann_wire c a w -> wknown w -> lowers (tcache s) a nd -> agrees d c nd w.
Proof using Hnames Hdecl Hc.
  revert c a w nd. induction d as [d IH] using lt_wf_ind. intros c a w nd Ha Hk Hl.
  assert (IH' : agrees_below d) by (intros d' ? ? ? ? ?; by apply IH).
  assert (Hspec : forall al n sg m, int_spec al = Some (n, sg) -> float_spec al = Some m -> False) by (by intros []).
  destruct Ha as [| | | | | |a w Ha Hw|c a w Hw Ha|c a w Ha| |c a w n Ha|c name]; inversion Hl; subst; simplify_eq;
    try by exfalso; eauto.
  all: try by intros v bs; split; inversion 1; subst; constructor.
  - intros v bs; split; inversion 1; subst; [apply (I_bool _ _ _ true)|apply (I_bool _ _ _ false)|].
    destruct b; constructor.
  - match goal with H : option_inner _ = Some _ |- _ => rewrite (optional_inner _ _ _ _ Ha H) in * end.
    destruct d as [|d]; [by intros v bs; split; inversion 1|]. apply optional_agrees; [|done]. by eapply IH; [lia|..].
  - destruct d as [|d]; [by intros v bs; split; inversion 1|]. apply opt_agrees; [|done]. by eapply IH; [lia|..].
  - intros v bs; split; inversion 1; subst; (econstructor; [done|]);
      eapply (agrees_seq d0 nd0 w); eauto; by eapply IH; [lia|..].
  - intros v bs; split; inversion 1; subst; (econstructor; [done|]);
      eapply (agrees_seq d0 nd0 w); eauto; by eapply IH; [lia|..].
  - destruct (Hk name) as [t Ht]; [by left|]. destruct (td_kind t) eqn:Ek; [by eapply struct_agrees|].
    destruct (all_unit t) eqn:Eu; [by eapply unit_enum_agrees|by eapply enum_agrees].
Qed.
End refine.

(** ** Compiling succeeds *)

Section total.
Context (env : cenv).

(** Annotations that need nothing but classes of [env]. *)
Fixpoint ann_known (a : ann) : bool :=
  match a with
  | AAlias al => match int_spec al, float_spec al with None, None => false | _, _ => true end
  | ABool | AStr | ABytes | APubkey => true
  | AAnnotated ABytes (Some _) => true
  | AAnnotated (AList elem) (Some _) => ann_known elem
  | AOpt inner | AList inner => ann_known inner
  | AUnion [x; ANoneType] => negb (is_NoneType x) && ann_known x
  | AClass cls => match class_of env cls with CPlain => false | _ => true end
  | _ => false
  end.

Definition fields_known (fs : list (string * ann)) : bool := forallb (fun f => ann_known f.2) fs.

Definition class_known (c : class_def) : bool :=
  match c with
  | CDataclass fs => fields_known fs
  | CBorshEnum vs =>
      forallb (fun v => match class_of env v.2 with CDataclass fs => fields_known fs | _ => false end) vs
  | CIntEnum _ => true
  | CPlain => false
  end.

(** [m] raises only exceptions in [P]. *)
Definition raises_only (P : exn -> Prop) {A} (m : TM A) : Prop :=
  forall s, match (m s).1 with Ok _ => True | Raise e => P e end.

Lemma raises_only_bind P {A B} (m : TM A) (f : A -> TM B) :
  raises_only P m -> (forall a, raises_only P (f a)) -> raises_only P (m ≫= f).
Proof.
  intros Hm Hf s. specialize (Hm s). unfold mbind, TM_bind. destruct (m s) as [[a|e] s']; simpl in *; [apply Hf|done].
Qed.

Lemma raises_only_ret P {A} (a : A) : raises_only P (mret a).
Proof. by intros s. Qed.
Lemma raises_only_quiet P {A} (m : TM A) : (forall s, exists a, (m s).1 = Ok a) -> raises_only P m.
Proof. intros Hm s. by destruct (Hm s) as [a ->]. Qed.
Hint Resolve raises_only_ret : core.

Lemma raises_only_pop P cls {A} (m : TM A) : raises_only P m -> raises_only P (pop_on_raise cls m).
Proof. intros Hm s. specialize (Hm s). unfold pop_on_raise. by destruct (m s) as [[a|e] s']. Qed.

Lemma raises_only_bind_Ok P {A B} (R : A -> Prop) (m : TM A) (f : A -> TM B) :
  raises_only P m -> (forall s a s', m s = (Ok a, s') -> R a) -> (forall a, R a -> raises_only P (f a)) ->
  raises_only P (m ≫= f).
Proof.
  intros Hm HR Hf s. specialize (Hm s). specialize (HR s). unfold mbind, TM_bind.
  destruct (m s) as [[a|e] s']; simpl in *; [|done]. by eapply Hf, HR.
Qed.

Lemma raises_only_mapM P {A B} (f : A -> TM B) xs : (forall x, x ∈ xs -> raises_only P (f x)) -> raises_only P (mapM_tm f xs).
Proof.
  intros Hf. induction xs as [|x xs IH]; [done|]. simpl.
  apply raises_only_bind; [apply Hf; by left|]. intros y.
  apply raises_only_bind; [apply IH; intros; apply Hf; by right|auto].
Qed.

Definition ct_fine (P : exn -> Prop) (ct : string -> TM node) : Prop :=
  forall cls, class_of env cls <> CPlain -> raises_only P (ct cls).

Lemma compile_field_fine P ct a : ct_fine P ct -> ann_known a = true -> raises_only P (compile_field_with env ct a).
Proof.
  intros Hct. induction a as [a Hat|a n IH|a IH|args IH|a IH] using ann_induction; intros Ha; cbn [compile_field_with].
  - destruct a; try done; cbn [ann_known compile_field_with] in *; auto.
    + revert Ha. destruct (int_spec a) as [[]|]; [auto|]. destruct (float_spec a); [auto|done].
    + revert Ha. specialize (Hct cls). destruct (class_of env cls); try done; intros _; by apply Hct.
  - destruct n as [n|]; [|by destruct a]. destruct a; try done; auto.
    apply raises_only_bind; [by apply IH|]. intros nd. apply raises_only_bind; [by apply raises_only_quiet; eauto|auto].
  - apply raises_only_bind; [by apply IH|auto].
  - destruct args as [|x [|[] [|]]]; try done. apply andb_true_iff in Ha as [Hx Ha].
    inversion IH; subst. apply negb_true_iff in Hx. rewrite Hx. apply raises_only_bind; [by auto|auto].
  - apply raises_only_bind; [by apply IH|auto].
Qed.

Lemma compile_fields_fine P ct fs : ct_fine P ct -> fields_known fs = true -> raises_only P (compile_fields env ct fs).
Proof.
  intros Hct Hfs. apply raises_only_mapM. intros f Hf. apply raises_only_bind; [|auto].
  apply compile_field_fine; [done|]. by apply (forallb_elem _ _ _ Hfs) in Hf.
Qed.

Context (Henv : forall cls, class_of env cls = CPlain \/ class_known (class_of env cls) = true).

Lemma fill_variants_fine P ct id vs :
  ct_fine P ct -> class_known (CBorshEnum vs) = true -> raises_only P (fill_variants env ct id vs).
Proof.
  intros Hct. induction vs as [|[tag cls] vs IH]; intros Hv; [apply raises_only_ret|]. simpl in Hv. apply andb_true_iff in Hv as [Hc Hv].
  cbn [fill_variants]. apply raises_only_bind_Ok with (R := fun fs => fields_known fs = true).
  - revert Hc. unfold _dataclass_fields. destruct (class_of env cls); try done; auto.
  - revert Hc. unfold _dataclass_fields. intros Hc s fs s' Hok. revert Hc Hok. destruct (class_of env cls); try done. by intros ? [= <- <-].
  - intros fs Hfs. apply raises_only_bind; [by apply compile_fields_fine|]. intros nds.
    apply raises_only_bind; [by apply raises_only_quiet; eauto|]. intros _. by apply IH.
Qed.

Lemma compile_type_step_fine P ct : ct_fine P ct -> ct_fine P (compile_type_step env ct).
Proof using Henv.
  intros Hct cls Hcls s. rewrite compile_type_step_eq. destruct (attr_lookup cls (tcache s)); [done|].
  destruct (Henv cls) as [?|Hk]; [done|]. destruct (class_of env cls) as [vs|vs|fs|] eqn:E; [..|done].
  - done.
  - generalize (TState (tcache s) (theap s) (S (tnext s))). change (raises_only P
      (_ ← cache_set cls (BorshEnumNode (tnext s) cls); _ ← pop_on_raise cls (fill_variants env ct (tnext s) vs);
       mret (BorshEnumNode (tnext s) cls))).
    apply raises_only_bind; [by apply raises_only_quiet; eauto|]. intros _.
    apply raises_only_bind; [|auto]. apply raises_only_pop. by apply fill_variants_fine.
  - generalize (TState (tcache s) (theap s) (S (tnext s))). change (raises_only P
      (_ ← cache_set cls (StructNode (tnext s) cls);
       _ ← pop_on_raise cls (nds ← compile_fields env ct fs; modify_heap (set_struct (tnext s) nds));
       mret (StructNode (tnext s) cls))).
    apply raises_only_bind; [by apply raises_only_quiet; eauto|]. intros _.
    apply raises_only_bind; [|auto]. apply raises_only_pop, raises_only_bind; [by apply compile_fields_fine|].
    intros nds. apply raises_only_quiet. eauto.
Qed.

Lemma compile_type_fine : ct_fine (fun _ => False) (compile_type env).
Proof using Henv.
  intros cls Hcls s.
  assert (forall fuel, ct_fine (fun e => e = OutOfFuel) (compile_type_fuel env fuel)) as Hf.
  { induction fuel as [|fuel IH]; [by intros ? ? ?|]. by apply compile_type_step_fine. }
  specialize (Hf (S (length (classes env))) cls Hcls s). change (compile_type_fuel env _ cls) with (compile_type env cls) in Hf.
  pose proof (compile_type_returns env cls s) as Hr. destruct (compile_type env cls s) as [[nd|e] s']; [done|].
  simpl in *. subst e. by apply Hr.
Qed.

Lemma compile_type_total cls s : class_of env cls <> CPlain -> exists nd s', compile_type env cls s = (Ok nd, s').
Proof using Henv.
  intros Hcls. pose proof (compile_type_fine cls Hcls s) as Hf.
  destruct (compile_type env cls s) as [[nd|e] s']; [eauto|done].
Qed.
End total.

(** ** What is emitted for a type definition *)

(** The annotations of a class, with all they mention recorded. *)
Definition fields_cov (us : Usage) (fs : list Field) (cfs : list (string * ann)) : Prop :=
  cfs.*1 = field_names fs /\
  Forall2 (fun ty a => exists w, idl_wire ty w /\ ann_wire false a w /\ covers us a) (fd_type <$> fs) cfs.*2.

Lemma fields_cov_mono us us' fs cfs : usage_le us us' -> fields_cov us fs cfs -> fields_cov us' fs cfs.
Proof.
  intros Hle [Hk Hf]. split; [done|]. eapply list.Forall2_impl; [exact Hf|].
  intros ty a (w & H1 & H2 & H3). exists w. split_and!; [done..|by eapply covers_mono].
Qed.

(** What [t] declares: its classes and tags. *)
Definition type_decl (us : Usage) (t : TypeDef) (cs : list (string * class_def)) (tags : list (string * Z)) : Prop :=
  match td_kind t with
  | KStruct => exists cfs, cs = [(td_name t, CDataclass cfs)] /\ tags = [] /\ fields_cov us (td_fields t) cfs
  | KEnum =>
      if all_unit t then cs = [(td_name t, CIntEnum (Z.of_nat <$> seq 0 (length (td_variants t))))] /\ tags = []
      else exists cfss, Forall2 (fun v cfs => fields_cov us (vr_fields v) cfs) (td_variants t) cfss /\
        cs = (td_name t, CBorshEnum (variant_entry t <$> enumerate (td_variants t))) ::
             zip (variant_class t <$> td_variants t) (CDataclass <$> cfss) /\
        tags = zip (variant_class t <$> td_variants t) (Z.of_nat <$> seq 0 (length (td_variants t)))
  end.

Lemma type_decl_mono us us' t cs tags : usage_le us us' -> type_decl us t cs tags -> type_decl us' t cs tags.
Proof.
  intros Hle. unfold type_decl. destruct (td_kind t).
  - intros (cfs & ? & ? & ?). exists cfs. eauto using fields_cov_mono.
  - destruct (all_unit t); [done|]. intros (cfss & Hf & ? & ?). exists cfss. split; [|done].
    eapply list.Forall2_impl; [exact Hf|]. eauto using fields_cov_mono.
Qed.

Lemma emapM_inv {A B} (f : A -> E B) (Q : Usage -> A -> B -> Prop) xs e ys e' :
  (forall x, quiet (f x)) -> (forall us us' x y, usage_le us us' -> Q us x y -> Q us' x y) ->
  (forall x e y e', f x e = Ok (y, e') -> Q (em_usage e') x y) ->
  emapM f xs e = Ok (ys, e') -> Forall2 (Q (em_usage e')) xs ys.
Proof.
  intros Hq Hm Hf. revert e ys. induction xs as [|x xs IH]; intros e ys H; simpl in H; inv_E; [constructor|].
  constructor; [|by eapply IH]. eapply Hm; [|by eapply Hf].
  match goal with H : emapM f xs _ = Ok _ |- _ => apply (quiet_mapM f xs Hq) in H end. by apply st_le.
Qed.

Lemma field_line_spec indent p e l e' :
  field_line indent p e = Ok (l, e') ->
  exists text a w, l = indent +:+ field_name p +:+ ": " +:+ text /\ evaluates text a /\
    idl_wire (fd_type p.2) w /\ ann_wire false a w /\ covers (em_usage e') a.
Proof.
  unfold field_line. destruct p as [i f]. intros H. inv_E. apply annotation_lowered in E as (x & w & H1 & H2 & H3 & H4).
  by exists a, x, w.
Qed.

Lemma enumerate_snd {A} (xs : list A) : (enumerate xs).*2 = xs.
Proof. unfold enumerate. rewrite snd_zip; [done|]. by rewrite length_seq. Qed.

Lemma field_lines_spec indent fs e ls e' :
  _field_lines fs indent e = Ok (ls, e') ->
  exists cfs, field_block indent ls cfs /\ fields_cov (em_usage e') fs cfs.
Proof.
  unfold _field_lines. intros H. destruct fs as [|f0 fs0]; [inv_E; exists []; split; [constructor|by split]|].
  set (fs := f0 :: fs0) in *.
  apply (emapM_inv _ (fun us p l => exists text a w, l = indent +:+ field_name p +:+ ": " +:+ text /\ evaluates text a /\
    idl_wire (fd_type p.2) w /\ ann_wire false a w /\ covers us a)) in H.
  - assert (exists cfs, Forall2 (fun l cf => exists text, l = indent +:+ cf.1 +:+ ": " +:+ text /\ evaluates text cf.2) ls cfs /\
      cfs.*1 = field_name <$> enumerate fs /\
      Forall2 (fun ty a => exists w, idl_wire ty w /\ ann_wire false a w /\ covers (em_usage e') a)
        (fd_type <$> (enumerate fs).*2) cfs.*2) as (cfs & H1 & H2 & H3).
    { induction H as [|p l ps ls (text & a & w & Hl & He & Hw & Ha & Hc) _ (cfs & H1 & H2 & H3)].
      - exists []. by split_and!.
      - exists ((field_name p, a) :: cfs). split_and!; [constructor; eauto|by rewrite !fmap_cons, H2|].
        rewrite !fmap_cons. constructor; eauto. }
    rewrite enumerate_snd in H3. exists cfs. split; [|by split]. constructor; [|done]. intros ->. by inversion H3.
  - intros p. unfold field_line. destruct p. apply quiet_bind; [apply quiet_annotation|intros; apply quiet_ret].
  - intros us us' p l Hle (text & a & w & H1 & H2 & H3 & H4 & H5). exists text, a, w. split_and!; [done..|by eapply covers_mono].
  - intros p e1 l e2. apply field_line_spec.
Qed.

Lemma variant_lines_spec p e ls e' :
  variant_lines p e = Ok (ls, e') ->
  exists cfs, variant_block ls (vr_name p.2, (Z.of_nat p.1, cfs)) /\ fields_cov (em_usage e') (vr_fields p.2) cfs.
Proof.
  unfold variant_lines. destruct p as [i v]. intros H. inv_E. apply field_lines_spec in E as (cfs & Hb & Hc).
  exists cfs. split; [|done]. by exists a, i.
Qed.

Lemma enum_spec t e text e' :
  td_kind t = KEnum -> _emit_enum t e = Ok (text, e') ->
  exists cs tags, class_block text cs tags /\ type_decl (em_usage e') t cs tags.
Proof.
  unfold _emit_enum, type_decl, all_unit. intros -> H. destruct (forallb is_unit (td_variants t)); inv_E.
  - eexists _, _. split; [|done].
    pose proof (CB_intenum (td_name t) (vr_name <$> td_variants t)) as Hb. rewrite length_fmap in Hb.
    assert ((fun m : nat * string => "    " +:+ m.2 +:+ " = " +:+ pretty m.1) <$> enumerate (vr_name <$> td_variants t) =
            unit_variant_line <$> enumerate (td_variants t)) as Hl; [|by rewrite Hl in Hb].
    unfold enumerate. rewrite length_fmap. generalize 0%nat. clear.
    induction (td_variants t) as [|v vs IH]; intros n; [done|]. cbn. f_equal. apply IH.
  - match goal with H : emapM _ _ _ = Ok _ |- _ => rename H into Hm end.
    apply (emapM_inv _ (fun us p ls => exists cfs, variant_block ls (vr_name p.2, (Z.of_nat p.1, cfs)) /\
      fields_cov us (vr_fields p.2) cfs)) in Hm.
    + assert (exists cfss, Forall2 (fun v cfs => fields_cov (em_usage e') (vr_fields v) cfs) (enumerate (td_variants t)).*2 cfss /\
        Forall2 variant_block a1 (zip (vr_name <$> (enumerate (td_variants t)).*2) (zip (Z.of_nat <$> (enumerate (td_variants t)).*1) cfss)))
        as (cfss & Hc & Hb).
      { induction Hm as [|p ls ps lss (cfs & Hb & Hc) _ (cfss & Hcs & Hbs)]; [by exists []|].
        exists (cfs :: cfss). split; constructor; auto. }
      rewrite enumerate_snd in Hc, Hb.
      assert (Hlen : length cfss = length (td_variants t)) by (symmetry; by apply list.Forall2_length in Hc).
      eexists _, _. split; [apply (CB_enum _ _ _ Hb)|]. exists cfss. split; [done|].
      unfold enumerate in *. rewrite fst_zip in * by (by rewrite length_seq).
      clear Hb Hm E0 E. unfold variant_class, variant_entry. revert cfss Hc Hlen. generalize 0%nat.
      induction (td_variants t) as [|v vs IH]; intros n cfss Hc Hlen; destruct cfss as [|cfs cfss]; try done.
      simpl in Hlen. injection Hlen as Hlen. inversion Hc as [|? ? ? ? _ Hc']; subst. destruct (IH (S n) cfss Hc' Hlen) as [He Ht].
      cbn in *. injection He as He He'. split; [|by rewrite Ht]. f_equal; [by rewrite He|by rewrite He'].
    + intros p. unfold variant_lines. destruct p. apply quiet_bind; [apply quiet_fields|intros; apply quiet_ret].
    + intros us us' p ls Hle (cfs & ? & ?). exists cfs. eauto using fields_cov_mono.
    + intros ? ? ? ?. apply variant_lines_spec.
Qed.

Lemma typedef_spec t d k e text e' :
  _emit_typedef t d k e = Ok (text, e') ->
  exists cs tags, class_block text cs tags /\ type_decl (em_usage e') t cs tags.
Proof.
  unfold _emit_typedef. intros H. case_bool_decide; [|done]. simpl in H.
  destruct (td_kind t) eqn:Ek.
  - unfold _emit_struct in H. inv_E.
    match goal with H : _field_lines _ _ _ = Ok _ |- _ => apply field_lines_spec in H as (cfs & Hb & Hc) end.
    eexists _, _. split; [by apply CB_dataclass|]. unfold type_decl. rewrite Ek. exists cfs. split_and!; [done..|].
    destruct d as [d|]; inv_E; [|done].
    match goal with H : use_engine _ _ = Ok _ |- _ => injection H as <- <- end. done.
  - destruct d; [done|]. by apply enum_spec in H.
Qed.

(** ** Statements in the text *)

Lemma append_nil_r (s : string) : s +:+ "" = s.
Proof. induction s as [|c s IH]; [done|]. by rewrite append_cons, IH. Qed.

Lemma ends_app (p q : string) : (q = "" \/ exists r, q = r +:+ nl) -> (p = "" \/ exists r, p = r +:+ nl) -> (p +:+ q = "" \/ exists r, p +:+ q = r +:+ nl).
Proof.
  intros [->|[r ->]] Hp; [by rewrite append_nil_r|]. right. exists (p +:+ r). by rewrite string_app_assoc.
Qed.
Lemma line_starts_app (p q : string) : (p = "" \/ exists r, p = nl +:+ r) -> (q = "" \/ exists r, q = nl +:+ r) -> (p +:+ q = "" \/ exists r, p +:+ q = nl +:+ r).
Proof. intros [->|[r ->]] Hq; [done|]. right. exists (r +:+ q). by rewrite string_app_assoc. Qed.

#[global] Instance has_block_preorder : PreOrder has_block.
Proof.
  split.
  - intros t. exists "", "". split; [by rewrite append_nil_r|by split; left].
  - intros t1 t2 t3 (p1 & q1 & -> & Hp1 & Hq1) (p2 & q2 & -> & Hp2 & Hq2).
    exists (p1 +:+ p2), (q2 +:+ q1). split; [by rewrite !string_app_assoc|]. split; [by apply ends_app|by apply line_starts_app].
Qed.

Lemma block_here (p b q : string) : has_block (p +:+ nl +:+ b +:+ nl +:+ q) b.
Proof. exists (p +:+ nl), (nl +:+ q). split; [by rewrite !string_app_assoc|]. split; right; eauto. Qed.

Lemma block_after (p b : string) : has_block (p +:+ nl +:+ b) b.
Proof.
  exists (p +:+ nl), "". split; [by rewrite append_nil_r, string_app_assoc|]. split; [right; eauto|by left].
Qed.

Lemma block_before (b q : string) : has_block (b +:+ nl +:+ q) b.
Proof. exists "", (nl +:+ q). split; [done|]. split; [by left|right; eauto]. Qed.

Lemma block_in_concat (b : string) bs : b ∈ bs -> has_block (String.concat sep bs) b.
Proof.
  induction bs as [|b0 bs IH]; intros Hb; [by apply elem_of_nil in Hb|].
  destruct bs as [|b1 bs].
  { apply list_elem_of_singleton in Hb as ->. simpl. reflexivity. }
  change (String.concat sep (b0 :: b1 :: bs)) with (b0 +:+ sep +:+ String.concat sep (b1 :: bs)).
  apply elem_of_cons in Hb as [->|Hb].
  - unfold sep at 1. rewrite !string_app_assoc. apply block_before.
  - etrans; [|by apply IH]. unfold sep at 1.
    rewrite <- (string_app_assoc nl nl nl), (string_app_assoc (nl +:+ nl) nl), <- (string_app_assoc b0). apply block_after.
Qed.

Lemma block_in_section (b title : string) bs part : part ∈ section_part title bs -> b ∈ bs -> has_block part b.
Proof.
  unfold section_part. destruct bs as [|b0 bs]; [by intros ?%elem_of_nil|]. intros ->%list_elem_of_singleton Hb.
  etrans; [apply block_after|by apply block_in_concat].
Qed.

Lemma block_in_text (b : string) parts : b ∈ parts -> has_block (String.concat sep parts +:+ nl) b.
Proof.
  intros Hb. rewrite <- (append_nil_r nl). etrans; [apply block_before|by apply block_in_concat].
Qed.

Lemma section_in_module idl prov e tb ab eb mb title bs part :
  (title, bs) ∈ [("1. types", tb); ("2. accounts", ab); ("3. events", eb)] ->
  part ∈ section_part title bs -> part ∈ module_parts idl prov e (tb, ab, eb, mb).
Proof.
  intros Hs Hp. unfold module_parts. rewrite !elem_of_cons in Hs. rewrite !elem_of_app.
  destruct Hs as [?|[?|[?|?%elem_of_nil]]]; simplify_eq; tauto.
Qed.

(** ** The classes of a module *)

(** The definitions in the order their classes are emitted. *)
Definition emitted_types (idl : Idl) : list TypeDef :=
  (plain_types idl ++ omap (fun a => attr_lookup (ad_name a) (type_layouts idl)) (idl_accounts idl) ++
   omap (fun ev => attr_lookup (GenIdl.ev_name ev) (type_layouts idl)) (idl_events idl))%list.

Definition block_of (us : Usage) (t : TypeDef) (b : string) : Prop :=
  exists cs tags, class_block b cs tags /\ type_decl us t cs tags.

Lemma block_of_mono us us' t b : usage_le us us' -> block_of us t b -> block_of us' t b.
Proof. intros Hle (cs & tags & ? & ?). exists cs, tags. eauto using type_decl_mono. Qed.

(** Blocks emitted by looking a name up. *)
Lemma looked_up {A} (f : A -> E string) (look : A -> option TypeDef) xs e bs e' :
  (forall x, quiet (f x)) ->
  (forall x e b e', f x e = Ok (b, e') -> exists t, look x = Some t /\ block_of (em_usage e') t b) ->
  emapM f xs e = Ok (bs, e') -> Forall2 (block_of (em_usage e')) (omap look xs) bs.
Proof.
  intros Hq Hf H. apply (emapM_inv f (fun us x b => exists t, look x = Some t /\ block_of us t b)) in H; [|done| |done].
  - induction H as [|x b xs bs (t & Ht & Hb) _ IH]; simpl; [constructor|]. rewrite Ht. by constructor.
  - intros us us' x b Hle (t & ? & ?). exists t. eauto using block_of_mono.
Qed.

Lemma emit_blocks_types idl tb ab eb mb e e' :
  emit_blocks idl e = Ok ((tb, ab, eb, mb), e') ->
  Forall2 (block_of (em_usage e')) (emitted_types idl) (tb ++ ab ++ eb)%list.
Proof.
  unfold emit_blocks. intros H. inv_E. simplify_eq.
  match goal with H : emapM _emit_instruction _ _ = Ok _ |- _ => apply emit_instructions_spec in H as (_ & Hle & _) end.
  match goal with H : emapM (emit_event _) _ _ = Ok _ |- _ =>
    pose proof (quiet_mapM _ _ (quiet_event idl) _ _ _ H) as Hq3;
    apply (looked_up _ (fun ev => attr_lookup (GenIdl.ev_name ev) (type_layouts idl))) in H; [rename H into H3|apply quiet_event|] end.
  2: { intros ev e4 b e5. unfold emit_event. destruct (attr_lookup _ _) as [t|]; [|done]. intros Hb%typedef_spec. exists t. by split. }
  match goal with H : emapM (emit_account _) _ _ = Ok _ |- _ =>
    pose proof (quiet_mapM _ _ (quiet_account idl) _ _ _ H) as Hq2;
    apply (looked_up _ (fun a => attr_lookup (ad_name a) (type_layouts idl))) in H; [rename H into H2|apply quiet_account|] end.
  2: { intros a e4 b e5. unfold emit_account. destruct (attr_lookup _ _) as [t|]; [|done]. intros Hb%typedef_spec. exists t. by split. }
  match goal with H : emapM _ (plain_types idl) _ = Ok _ |- _ =>
    apply (emapM_inv _ block_of) in H; [rename H into H1|intros; apply quiet_typedef|apply block_of_mono|] end.
  2: { intros t e4 b e5. apply typedef_spec. }
  unfold emitted_types. apply Forall2_app; [|apply Forall2_app].
  - eapply list.Forall2_impl; [exact H1|]. intros t b. apply block_of_mono. etrans; [apply Hq2|]. by etrans; [apply Hq3|].
  - eapply list.Forall2_impl; [exact H2|]. intros t b. apply block_of_mono. by etrans; [apply Hq3|].
  - eapply list.Forall2_impl; [exact H3|]. intros t b. by apply block_of_mono.
Qed.

(** The text of an emitted module holds a class statement for every definition. *)
Lemma render_types idl prov text e :
  render idl prov new_emitter = Ok (text, e) ->
  Forall (fun t => exists b, has_block text b /\ block_of (em_usage e) t b) (emitted_types idl).
Proof.
  intros ([[[tb ab] eb] mb] & E & ->)%render_inv. apply emit_blocks_types in E. apply list.Forall_forall. intros t Ht.
  apply list_elem_of_lookup in Ht as [i Hi].
  destruct (Forall2_lookup_l _ _ _ _ _ E Hi) as (b & Hb & Hbt). exists b. split; [|done].
  apply list_elem_of_lookup_2 in Hb.
  assert (exists title bs, b ∈ bs /\ (title, bs) ∈ [("1. types", tb); ("2. accounts", ab); ("3. events", eb)]) as (title & bs & Hin & Hs).
  { apply elem_of_app in Hb as [Hb|[Hb|Hb]%elem_of_app]; [exists "1. types", tb|exists "2. accounts", ab|exists "3. events", eb]; (split; [exact Hb|]); rewrite !elem_of_cons; auto. }
  assert (exists part, part ∈ section_part title bs /\ has_block part b) as (part & Hp & Hpb).
  { destruct bs as [|b0 bs]; [by apply elem_of_nil in Hin|]. eexists. split; [by apply list_elem_of_singleton|].
    apply (block_in_section b title (b0 :: bs)); [by apply list_elem_of_singleton|done]. }
  etrans; [|exact Hpb]. by eapply block_in_text, section_in_module.
Qed.

(** ** Names *)

(** The top-level class a class name belongs to. *)
Fixpoint owner (s : string) : string :=
  match s with
  | EmptyString => EmptyString
  | String c s => if decide (c = "."%char) then EmptyString else String c (owner s)
  end.

Lemma owner_chars s : forallb ident_char (String.list_ascii_of_string s) = true -> owner s = s /\ forall r, owner (s +:+ "." +:+ r) = s.
Proof.
  induction s as [|c s IH]; [done|]. intros [Hc Hs]%andb_true_iff. destruct (IH Hs) as [H1 H2].
  assert (c <> "."%char) by (by intros ->). split.
  - simpl. rewrite decide_False by done. by rewrite H1.
  - intros r. rewrite append_cons. cbn [owner]. rewrite decide_False by done. by rewrite H2.
Qed.

Lemma owner_ident s : isidentifier s = true -> owner s = s /\ forall r, owner (s +:+ "." +:+ r) = s.
Proof.
  unfold isidentifier. intros H. apply owner_chars. destruct (String.list_ascii_of_string s) as [|c cs]; [done|].
  apply andb_true_iff in H as [Hc Hs]. simpl. rewrite Hs. unfold ident_char. by rewrite Hc.
Qed.

Lemma NoDup_concat_owner (os : list string) (kss : list (list string)) :
  NoDup os -> Forall2 (fun o ks => Forall (fun k => owner k = o) ks /\ NoDup ks) os kss -> NoDup (concat kss).
Proof.
  intros Hos Hf. induction Hf as [|o ks os kss [Ho Hk] Hf IH]; [constructor|]. inversion Hos as [|? ? Hn Hos']; subst.
  simpl. apply list.NoDup_app. split_and!; [done| |auto]. intros k Hin Hin'. apply Hn.
  rewrite list.Forall_forall in Ho. rewrite <- (Ho _ Hin). clear -Hf Hin'.
  induction Hf as [|o' ks' os kss [Ho' _] _ IH]; simpl in Hin'; [by apply elem_of_nil in Hin'|].
  rewrite list.Forall_forall in Ho'. apply elem_of_app in Hin' as [H|H]; [rewrite (Ho' _ H); by left|right; by apply IH].
Qed.

Lemma append_inj_l (p a b : string) : p +:+ a = p +:+ b -> a = b.
Proof. induction p as [|c p IH]; [done|]. rewrite !append_cons. intros [= H]. by apply IH. Qed.

Lemma append_neq (p r : string) c : p +:+ String c r <> p.
Proof. induction p as [|c' p IH]; [done|]. rewrite append_cons. by intros [= H]. Qed.

Lemma variant_classes_NoDup t : NoDup (vr_name <$> td_variants t) -> NoDup (variant_class t <$> td_variants t).
Proof.
  intros H. change (variant_class t) with ((fun n => td_name t +:+ "." +:+ n) ∘ vr_name). rewrite list_fmap_compose.
  apply NoDup_fmap_2; [|done]. intros a b H1%append_inj_l%append_inj_l. done.
Qed.

Lemma type_fits_name t : type_fits t = true -> isidentifier (td_name t) = true.
Proof. unfold type_fits. rewrite !andb_true_iff. tauto. Qed.

Lemma variant_class_owner t v : type_fits t = true -> owner (variant_class t v) = td_name t.
Proof. intros H%type_fits_name. by apply owner_ident. Qed.

Lemma decl_keys us t cs tags :
  type_fits t = true -> type_decl us t cs tags ->
  (Forall (fun k => owner k = td_name t) cs.*1 /\ NoDup cs.*1) /\
  (Forall (fun k => owner k = td_name t) tags.*1 /\ NoDup tags.*1).
Proof.
  intros Hfit Hd. pose proof (proj1 (owner_ident _ (type_fits_name _ Hfit))) as Hown.
  unfold type_decl in Hd. destruct (td_kind t) eqn:Ek.
  - destruct Hd as (cfs & -> & -> & _). split; (split; [by repeat constructor|]); [apply NoDup_singleton|constructor].
  - destruct (all_unit t).
    { destruct Hd as [-> ->]. split; (split; [by repeat constructor|]); [apply NoDup_singleton|constructor]. }
    destruct Hd as (cfss & Hf & -> & ->). apply list.Forall2_length in Hf. rewrite fmap_cons.
    rewrite !fst_zip by (rewrite !length_fmap, ?length_seq; lia).
    assert (Hall : Forall (fun k => owner k = td_name t) (variant_class t <$> td_variants t)).
    { apply list.Forall_fmap, list.Forall_forall. intros v _. by apply variant_class_owner. }
    assert (Hnd : NoDup (variant_class t <$> td_variants t)).
    { apply variant_classes_NoDup. unfold type_fits in Hfit. rewrite Ek, !andb_true_iff in Hfit.
      destruct Hfit as [_ [[_ Hn] _]]. by apply bool_decide_eq_true in Hn. }
    split; split; try done; [by constructor|]. constructor; [|done].
    intros (v & Hv & _)%list_elem_of_fmap. by apply eq_sym, append_neq in Hv.
Qed.

(** ** Annotations for the types of an IDL *)

Fixpoint wnonneg (w : wty) : bool :=
  match w with
  | WFixedBytes n => (0 <=? n)%Z
  | WOption w | WVec w => wnonneg w
  | WArray w n => (0 <=? n)%Z && wnonneg w
  | _ => true
  end.

Lemma no_negative_attr key kvs v : attr_lookup key kvs = Some v -> no_negative (JObj kvs) = true -> no_negative v = true.
Proof. intros H%attr_lookup_elem Hn. by apply (forallb_elem (fun kv => no_negative kv.2) _ _ Hn) in H. Qed.

Lemma int_value_nonneg n z : int_value n = Some z -> no_negative n = true -> (0 <=? z)%Z = true.
Proof. destruct n as [|[]|?| | | |]; try done; by intros [= <-]. Qed.

Lemma idl_wire_nonneg ty w : idl_wire ty w -> no_negative ty = true -> wnonneg w = true.
Proof.
  induction 1 as [s w Hs|kvs v w Hk _ IH|kvs v w _ Hk _ IH|kvs n z _ _ Hk Hz|kvs elem n z w _ _ Hk _ Hz _ IH|]; intros Hn; simpl.
  - clear Hn. unfold idl_scalar in Hs. apply attr_lookup_elem in Hs.
    repeat (apply elem_of_cons in Hs as [[= -> ->]|Hs]; [done|]). by apply elem_of_nil in Hs.
  - by apply IH, (no_negative_attr _ _ _ Hk).
  - by apply IH, (no_negative_attr _ _ _ Hk).
  - apply (no_negative_attr _ _ _ Hk) in Hn. simpl in Hn. rewrite andb_true_r in Hn. by eapply int_value_nonneg.
  - apply (no_negative_attr _ _ _ Hk) in Hn. simpl in Hn. rewrite andb_true_r in Hn. apply andb_true_iff in Hn as [H1 H2].
    rewrite (int_value_nonneg _ _ Hz H2). by apply IH.
  - done.
Qed.

Lemma ann_wire_wf c a w : ann_wire c a w -> wnonneg w = true -> ann_wf a = true.
Proof.
  induction 1 as [| | | | | |a w Ha IH Hw| | | |c a w n Ha IH|]; intros Hn; simpl in *; try done; auto.
  - rewrite (IH Hn). apply ann_wire_nullable in Ha. rewrite Hw in Ha. by destruct a.
  - by rewrite Hn.
  - apply andb_true_iff in Hn as [-> Hn]. by rewrite IH.
Qed.

Lemma ann_wire_known env c a w :
  ann_wire c a w -> (forall n, n ∈ wclasses w -> class_of env n <> CPlain) -> ann_known env a = true.
Proof.
  induction 1 as [c al n sg Hi|c al n Hi Hf| | | | |a w Ha IH Hw| | | | |c name]; intros Hk; simpl in *; try done; auto.
  - by rewrite Hi.
  - by rewrite Hi, Hf.
  - rewrite (IH Hk). by destruct Ha.
  - specialize (Hk name ltac:(by left)). by destruct (class_of env name).
Qed.

Lemma covers_defined us c a w n : ann_wire c a w -> covers us a -> n ∈ wclasses w -> n ∈ defined us.
Proof.
  induction 1; simpl; intros Hc Hn; try by apply elem_of_nil in Hn.
  all: try (by apply IHann_wire; tauto).
  by apply list_elem_of_singleton in Hn as ->.
Qed.

Section declared.
Context (types : list (string * TypeDef)) (us : Usage) (ts : list TypeDef)
  (ds : list (list (string * class_def) * list (string * Z))).
Context (Hnd : NoDup (td_name <$> ts)) (Hfit : forall t, t ∈ ts -> type_fits t = true)
  (Hds : Forall2 (fun t d => type_decl us t d.1 d.2) ts ds)
  (Htypes : forall n t, attr_lookup n types = Some t -> td_name t = n /\ t ∈ ts)
  (Hdef : forall n, n ∈ defined us -> is_Some (attr_lookup n types)).

Definition env_of : cenv := {| classes := concat ds.*1; vtags := concat ds.*2 |}.

Lemma concat_keys {A B} (ls : list (list (A * B))) : (concat ls).*1 = concat ((fun l => l.*1) <$> ls).
Proof. induction ls as [|l ls IH]; [done|]. rewrite fmap_cons. simpl. by rewrite fmap_app, IH. Qed.

Lemma env_NoDup : NoDup (classes env_of).*1 /\ NoDup (vtags env_of).*1.
Proof using Hnd Hfit Hds.
  simpl. rewrite !concat_keys. split; apply (NoDup_concat_owner (td_name <$> ts)); try done.
  all: clear Hnd Htypes; induction Hds as [|t d ts' ds' Hd Hds' IH]; [constructor|]; rewrite !fmap_cons; constructor;
    [|apply IH; [intros; apply Hfit; by right|done]].
  all: destruct (decl_keys us t d.1 d.2); [apply Hfit; by left|done|done].
Qed.

Lemma decl_of t : t ∈ ts -> exists cs tags, type_decl us t cs tags /\
  (forall k c, (k, c) ∈ cs -> class_of env_of k = c) /\ (forall k z, (k, z) ∈ tags -> attr_lookup k (vtags env_of) = Some z).
Proof using Hnd Hfit Hds.
  intros Ht. apply list_elem_of_lookup in Ht as [i Hi]. destruct (Forall2_lookup_l _ _ _ _ _ Hds Hi) as ([cs tags] & Hd & Hdecl).
  apply list_elem_of_lookup_2 in Hd. destruct env_NoDup as [H1 H2]. exists cs, tags. split; [done|]. split.
  - intros k c Hin. unfold class_of. rewrite (lookup_NoDup k c); [done|done|]. simpl.
    apply list_elem_of_In, in_concat. exists cs. rewrite <- !list_elem_of_In. split; [|done]. by apply (list_elem_of_fmap_2 fst) in Hd.
  - intros k z Hin. rewrite (lookup_NoDup k z); [done|done|]. simpl.
    apply list_elem_of_In, in_concat. exists tags. rewrite <- !list_elem_of_In. split; [|done]. by apply (list_elem_of_fmap_2 snd) in Hd.
Qed.

Lemma cov_ann fs cfs : fields_cov us fs cfs -> fields_ann types fs cfs.
Proof using Hdef.
  intros [Hk Hf]. split; [done|]. eapply list.Forall2_impl; [exact Hf|]. intros ty a (w & H1 & H2 & H3).
  exists w. split_and!; [done..|]. intros n Hn. by eapply Hdef, covers_defined.
Qed.

Lemma variant_decl t cfss v :
  Forall2 (fun v cfs => fields_cov us (vr_fields v) cfs) (td_variants t) cfss -> v ∈ td_variants t ->
  exists cfs, (variant_class t v, CDataclass cfs) ∈ zip (variant_class t <$> td_variants t) (CDataclass <$> cfss) /\
    fields_cov us (vr_fields v) cfs.
Proof.
  intros Hf Hv. induction Hf as [|v' cfs vs cfss Hc Hf IH]; [by apply elem_of_nil in Hv|].
  rewrite !fmap_cons. cbn [zip zip_with]. apply elem_of_cons in Hv as [->|Hv].
  - exists cfs. split; [by left|done].
  - destruct (IH Hv) as (cfs' & Hin & Hc'). exists cfs'. split; [by right|done].
Qed.

Lemma env_declares t : t ∈ ts -> declares types env_of t.
Proof using Hnd Hfit Hds Hdef.
  intros Ht. destruct (decl_of t Ht) as (cs & tags & Hd & Hcs & _). unfold type_decl in Hd. unfold declares.
  destruct (td_kind t).
  - destruct Hd as (cfs & -> & _ & Hc). exists cfs. split; [apply Hcs; by left|by apply cov_ann].
  - destruct (all_unit t); [destruct Hd as [-> _]; apply Hcs; by left|].
    destruct Hd as (cfss & Hf & -> & _). split; [apply Hcs; by left|]. intros v Hv.
    destruct (variant_decl t cfss v Hf Hv) as (cfs & Hin & Hc). exists cfs.
    split; [apply Hcs; by right|by apply cov_ann].
Qed.

Lemma type_not_plain n t : attr_lookup n types = Some t -> class_of env_of n <> CPlain.
Proof using Hnd Hfit Hds Hdef Htypes.
  intros [<- Ht]%Htypes. apply env_declares in Ht. unfold declares in Ht. destruct (td_kind t).
  - by destruct Ht as (cfs & -> & _).
  - destruct (all_unit t); [by rewrite Ht|]. destruct Ht as [-> _]. done.
Qed.

Lemma cov_known fs cfs : fields_cov us fs cfs -> fields_known env_of cfs = true.
Proof using Hnd Hfit Hds Hdef Htypes.
  intros [_ Hf]. apply forallb_forall. intros [k a] Hin%list_elem_of_In. simpl.
  apply (list_elem_of_fmap_2 snd), list_elem_of_lookup in Hin as [i Hi].
  destruct (Forall2_lookup_r _ _ _ _ _ Hf Hi) as (ty & _ & w & _ & Hw & Hc). eapply ann_wire_known; [exact Hw|].
  intros n Hn. destruct (Hdef n) as [t Ht]; [by eapply covers_defined|]. by eapply type_not_plain.
Qed.

Lemma cov_wf fs cfs : fields_fit fs = true -> fields_cov us fs cfs -> class_wf env_of (CDataclass cfs) = true.
Proof.
  intros [Hk Hn]%andb_true_iff [Hkeys Hf]. simpl. rewrite Hkeys, Hk. simpl. apply forallb_forall.
  intros [k a] Hin%list_elem_of_In. simpl. apply (list_elem_of_fmap_2 snd), list_elem_of_lookup in Hin as [i Hi].
  destruct (Forall2_lookup_r _ _ _ _ _ Hf Hi) as (ty & Hty & w & Hw & Ha & _). eapply ann_wire_wf; [exact Ha|].
  eapply idl_wire_nonneg; [exact Hw|]. apply list_lookup_fmap_Some in Hty as (f & -> & Hfl).
  apply list_elem_of_lookup_2 in Hfl. by apply (forallb_elem _ _ _ Hn) in Hfl.
Qed.

(** The classes of the module, and what they are made of. *)
Lemma env_class k c :
  (k, c) ∈ classes env_of ->
  match c with
  | CIntEnum _ => True
  | CDataclass cfs => exists fs, fields_fit fs = true /\ fields_cov us fs cfs
  | CBorshEnum es => exists t, t ∈ ts /\ td_kind t = KEnum /\ all_unit t = false /\
      es = variant_entry t <$> enumerate (td_variants t)
  | CPlain => False
  end.
Proof using Hfit Hds.
  intros Hin. simpl in Hin. apply list_elem_of_In, in_concat in Hin as (cs & Hcs & Hin).
  apply list_elem_of_In in Hcs, Hin. apply list_elem_of_fmap in Hcs as ([cs' tags] & -> & Hd). simpl in Hin.
  apply list_elem_of_lookup in Hd as [i Hi]. destruct (Forall2_lookup_r _ _ _ _ _ Hds Hi) as (t & Ht & Hdecl).
  apply list_elem_of_lookup_2 in Ht. pose proof (Hfit _ Ht) as Hf. unfold type_decl in Hdecl. unfold type_fits in Hf.
  destruct (td_kind t) eqn:Ek; simpl in Hdecl.
  - destruct Hdecl as (cfs & -> & _ & Hc). apply list_elem_of_singleton in Hin as [= -> ->].
    exists (td_fields t). apply andb_true_iff in Hf as [_ Hf]. done.
  - destruct (all_unit t) eqn:Eu; [destruct Hdecl as [-> _]; by apply list_elem_of_singleton in Hin as [= -> ->]|].
    destruct Hdecl as (cfss & Hcf & -> & _). apply elem_of_cons in Hin as [[= -> ->]|Hin]; [by exists t|].
    apply list_elem_of_lookup in Hin as [j Hj]. apply lookup_zip_with_Some in Hj as (k' & c' & [= -> ->] & Hk & Hc).
    apply list_lookup_fmap_Some in Hc as (cfs & -> & Hc). destruct (Forall2_lookup_r _ _ _ _ _ Hcf Hc) as (v & Hv & Hcov).
    exists (vr_fields v). split; [|done]. rewrite !andb_true_iff in Hf. destruct Hf as [_ [_ Hf]].
    apply list_elem_of_lookup_2 in Hv. by apply (forallb_elem _ _ _ Hf) in Hv.
Qed.

Lemma class_of_cases cls : class_of env_of cls = CPlain \/ (cls, class_of env_of cls) ∈ classes env_of.
Proof.
  unfold class_of. destruct (attr_lookup cls (classes env_of)) as [c|] eqn:E; [right|by left]. by apply attr_lookup_elem in E.
Qed.

Lemma env_known cls : class_of env_of cls = CPlain \/ class_known env_of (class_of env_of cls) = true.
Proof using Hnd Hfit Hds Hdef Htypes.
  destruct (class_of_cases cls) as [?|Hin]; [by left|right]. pose proof (env_class _ _ Hin) as Hc.
  destruct (class_of env_of cls) as [vs|es|cfs|]; [done| | |done].
  - destruct Hc as (t & Ht & Ek & Eu & ->). apply forallb_forall. intros e He%list_elem_of_In.
    apply list_elem_of_fmap in He as ([i v] & -> & Hv). apply (list_elem_of_fmap_2 snd) in Hv. rewrite enumerate_snd in Hv.
    destruct (decl_of t Ht) as (cs & tags & Hd & Hcs & _). unfold type_decl in Hd. rewrite Ek, Eu in Hd.
    destruct Hd as (cfss & Hf & -> & _). destruct (variant_decl t cfss v Hf Hv) as (cfs & Hin' & Hcov).
    simpl. rewrite (Hcs _ (CDataclass cfs)) by (by right). by eapply cov_known.
  - destruct Hc as (fs & _ & Hcov). by eapply cov_known.
Qed.

Lemma env_wf : cenv_wf env_of = true.
Proof using Hnd Hfit Hds.
  apply forallb_forall. intros [k c] Hin%list_elem_of_In. pose proof (env_class _ _ Hin) as Hc. cbn [snd].
  destruct c as [vs|es|cfs|]; [done| | |done].
  - destruct Hc as (t & Ht & Ek & Eu & ->). apply forallb_forall. intros e He%list_elem_of_In.
    apply list_elem_of_fmap in He as ([i v] & -> & Hv).
    destruct (decl_of t Ht) as (cs & tags & Hd & _ & Htags). unfold type_decl in Hd. rewrite Ek, Eu in Hd.
    destruct Hd as (cfss & _ & _ & ->). apply bool_decide_eq_true, Htags. simpl.
    apply list_elem_of_lookup in Hv as [j Hj]. apply lookup_zip_with_Some in Hj as (i' & v' & [= -> ->] & Hi & Hv).
    apply list_elem_of_lookup. exists j. apply lookup_zip_with_Some. eexists _, _. split; [reflexivity|].
    rewrite !list_lookup_fmap, Hi, Hv. done.
  - destruct Hc as (fs & Hf & Hcov). by eapply cov_wf.
Qed.
End declared.

(** ** The definitions of an IDL *)

Section idl_types.
Context (idl : Idl) (Hfits : idl_fits idl = true).

Lemma fits_inv :
  NoDup (td_name <$> idl_types idl) /\ NoDup (account_names idl ++ event_names idl) /\
  (forall t, t ∈ idl_types idl -> type_fits t = true) /\ (forall ix, ix ∈ idl_instructions idl -> ix_fits ix = true).
Proof using Hfits.
  unfold idl_fits in Hfits. rewrite !andb_true_iff in Hfits. destruct Hfits as [[[[[H1 H2] H3] H4] _] _].
  apply bool_decide_eq_true in H1, H2. split_and!; [done|done| |].
  - intros t. by apply (forallb_elem _ _ _ H3).
  - intros t. by apply (forallb_elem _ _ _ H4).
Qed.

Lemma layouts_eq : type_layouts idl = (fun t => (td_name t, t)) <$> idl_types idl.
Proof using Hfits.
  unfold type_layouts. apply dict_of_NoDup. rewrite <- list_fmap_compose. apply fits_inv.
Qed.

Lemma layouts_lookup n t : attr_lookup n (type_layouts idl) = Some t <-> td_name t = n /\ t ∈ idl_types idl.
Proof using Hfits.
  rewrite layouts_eq. split.
  - intros (t' & [= -> ->] & Ht)%attr_lookup_elem%list_elem_of_fmap. done.
  - intros [<- Ht]. apply lookup_NoDup; [rewrite <- list_fmap_compose; apply fits_inv|].
    apply list_elem_of_fmap. by exists t.
Qed.

Lemma type_name_unique t t' : t ∈ idl_types idl -> t' ∈ idl_types idl -> td_name t = td_name t' -> t = t'.
Proof using Hfits.
  intros H1 H2 He. assert (Some t = Some t') as [=]; [|done].
  rewrite <- (proj2 (layouts_lookup (td_name t) t)) by done. by rewrite <- (proj2 (layouts_lookup (td_name t) t')) by done.
Qed.

(** The definitions of accounts, or of events. *)
Lemma looked_up_names {A} (name : A -> string) (xs : list A) :
  (forall t, t ∈ omap (fun x => attr_lookup (name x) (type_layouts idl)) xs -> td_name t ∈ (name <$> xs) /\ t ∈ idl_types idl) /\
  (NoDup (name <$> xs) -> NoDup (td_name <$> omap (fun x => attr_lookup (name x) (type_layouts idl)) xs)).
Proof using Hfits.
  induction xs as [|x xs [IH1 IH2]]; [split; [by intros t ?%elem_of_nil|done]|]. rewrite fmap_cons. cbn [omap list_omap].
  destruct (attr_lookup (name x) (type_layouts idl)) as [t0|] eqn:E.
  - apply layouts_lookup in E as [E1 E2]. split.
    + intros t [->|Ht]%elem_of_cons; [split; [rewrite E1; by left|done]|]. destruct (IH1 _ Ht). split; [by right|done].
    + intros [Hn Hd]%list.NoDup_cons. rewrite fmap_cons. constructor; [|auto].
      intros (t & Ht & Hin)%list_elem_of_fmap. apply Hn. rewrite <- E1, Ht. by apply IH1.
  - split; [intros t Ht; destruct (IH1 _ Ht); split; [by right|done]|]. intros [Hn Hd]%list.NoDup_cons. auto.
Qed.

Lemma plain_types_elem t :
  t ∈ plain_types idl <-> t ∈ idl_types idl /\ td_name t ∉ account_names idl /\ td_name t ∉ event_names idl.
Proof.
  unfold plain_types. rewrite list_elem_of_In, filter_In, <- list_elem_of_In, negb_true_iff, orb_false_iff, !bool_decide_eq_false.
  done.
Qed.

Lemma emitted_sub t : t ∈ emitted_types idl -> t ∈ idl_types idl.
Proof using Hfits.
  unfold emitted_types. rewrite !elem_of_app. intros [H|[H|H]].
  - by apply plain_types_elem in H as [? _].
  - by apply looked_up_names in H as [_ ?].
  - by apply looked_up_names in H as [_ ?].
Qed.

Lemma emitted_all t : t ∈ idl_types idl -> t ∈ emitted_types idl.
Proof using Hfits.
  intros Ht. unfold emitted_types. rewrite !elem_of_app.
  assert (forall A (name : A -> string) (xs : list A), td_name t ∈ (name <$> xs) ->
    t ∈ omap (fun x => attr_lookup (name x) (type_layouts idl)) xs) as Hin.
  { intros A name xs (x & Hx & Hxs)%list_elem_of_fmap. apply list_elem_of_omap. exists x. split; [done|].
    apply layouts_lookup. by split. }
  destruct (decide (td_name t ∈ account_names idl)) as [Ha|Ha]; [right; left; by apply Hin|].
  destruct (decide (td_name t ∈ event_names idl)) as [He|He]; [right; right; by apply Hin|].
  left. by apply plain_types_elem.
Qed.

Lemma emitted_NoDup : NoDup (td_name <$> emitted_types idl).
Proof using Hfits.
  destruct fits_inv as (H1 & H2 & _ & _). apply list.NoDup_app in H2 as (Ha & Hd & He).
  unfold emitted_types. rewrite !fmap_app. apply list.NoDup_app. split_and!.
  - unfold plain_types. clear -H1. induction (idl_types idl) as [|t ts IH]; [constructor|].
    rewrite fmap_cons in H1. apply list.NoDup_cons in H1 as [Hn H1]. simpl. destruct (negb _); [|auto].
    rewrite fmap_cons. constructor; [|auto]. intros (t' & Ht & Hin)%list_elem_of_fmap. apply Hn. rewrite Ht.
    apply list_elem_of_In, filter_In in Hin as [Hin _]. apply list_elem_of_fmap_2. by apply list_elem_of_In.
  - intros n (t & -> & (_ & Hna & Hne)%plain_types_elem)%list_elem_of_fmap.
    rewrite elem_of_app. intros [(t' & Ht & Hin)%list_elem_of_fmap|(t' & Ht & Hin)%list_elem_of_fmap]; rewrite Ht in *.
    + by apply looked_up_names in Hin as [Hin _].
    + by apply looked_up_names in Hin as [Hin _].
  - apply list.NoDup_app. split_and!; [by apply looked_up_names| |by apply looked_up_names].
    intros n (t & -> & Hin)%list_elem_of_fmap (t' & Ht & Hin')%list_elem_of_fmap.
    apply looked_up_names in Hin as [Hin _]. apply looked_up_names in Hin' as [Hin' _]. rewrite Ht in Hin. by apply (Hd _ Hin).
Qed.
End idl_types.

(** ** Imported modules implement the IDL *)

(** The classes of the text, with the facts the compiler needs. *)
Lemma module_classes idl prov text e :
  render idl prov new_emitter = Ok (text, e) -> idl_fits idl = true ->
  (forall n, n ∈ defined (em_usage e) -> n ∈ td_name <$> idl_types idl) ->
  exists env, module_env text env /\ cenv_wf env = true /\
    (forall cls, class_of env cls = CPlain \/ class_known env (class_of env cls) = true) /\
    (forall n t, attr_lookup n (type_layouts idl) = Some t -> td_name t = n /\ declares (type_layouts idl) env t /\ class_of env n <> CPlain) /\
    (forall n, n ∈ defined (em_usage e) -> is_Some (attr_lookup n (type_layouts idl))).
Proof.
  intros Hr Hfits Hdef. apply render_types in Hr.
  assert (exists ds : list (list (string * class_def) * list (string * Z)),
    Forall (fun d => exists b, has_block text b /\ class_block b d.1 d.2) ds /\
    Forall2 (fun t d => type_decl (em_usage e) t d.1 d.2) (emitted_types idl) ds) as (ds & Hb & Hds).
  { induction Hr as [|t ts (b & Hb & cs & tags & Hcb & Hd) _ (ds & H1 & H2)]; [by exists []|].
    exists ((cs, tags) :: ds). split; constructor; eauto. }
  assert (Hfit : forall t, t ∈ emitted_types idl -> type_fits t = true).
  { intros t Ht. apply (fits_inv idl Hfits). by apply emitted_sub. }
  assert (Htypes : forall n t, attr_lookup n (type_layouts idl) = Some t -> td_name t = n /\ t ∈ emitted_types idl).
  { intros n t [Hn Ht]%layouts_lookup; [|done]. split; [done|by apply emitted_all]. }
  assert (Hd : forall n, n ∈ defined (em_usage e) -> is_Some (attr_lookup n (type_layouts idl))).
  { intros n (t & -> & Ht)%Hdef%list_elem_of_fmap. exists t. by apply (layouts_lookup idl Hfits). }
  pose proof (emitted_NoDup idl Hfits) as Hnd.
  exists (env_of ds). split_and!; [by exists ds|by eapply env_wf| | |done].
  - by eapply env_known.
  - intros n t Ht. destruct (Htypes _ _ Ht) as [Hn Hin]. split_and!; [done|by eapply env_declares|by eapply type_not_plain].
Qed.

Section imported.
Context (env : cenv) (Henv : cenv_wf env = true)
  (Hknown : forall cls, class_of env cls = CPlain \/ class_known env (class_of env cls) = true).

(** What every state of an imported module satisfies. *)
Definition sound_state (s : tstate) : Prop := complete env [] s /\ tstate_wf env s.

Lemma compile_sound cls s nd s' :
  sound_state s -> compile_type env cls s = (Ok nd, s') ->
  sound_state s' /\ extends s s' /\ attr_lookup cls (tcache s') = Some nd /\ node_wf nd = true.
Proof using Henv.
  intros [Hc Hw] Hok. destruct (compile_type_fuel_grows env _ [] cls s nd s' Hc Hok) as (Hc' & He & Hl).
  destruct (compile_type_fuel_wf env Henv (S (length (classes env))) cls s Hw) as [Hw' Hn].
  change (compile_type_fuel env _ cls) with (compile_type env cls) in *. rewrite Hok in Hw', Hn. simpl in *.
  destruct (Hn nd eq_refl) as [Hn' _]. by split_and!.
Qed.

Lemma compiled_sound s : compiled env s -> sound_state s.
Proof using Henv Hknown.
  induction 1 as [|cls s _ IH]; [split; [apply tinit_complete|apply tinit_wf]|].
  destruct (Hknown cls) as [Hp|Hk].
  - unfold compile_type. simpl. rewrite compile_type_step_eq, Hp. by destruct (attr_lookup cls (tcache s)).
  - destruct (compile_type_total env Hknown cls s) as (nd & s' & Hok); [by destruct (class_of env cls)|].
    rewrite Hok. by eapply compile_sound.
Qed.
End imported.


(** ** Witnesses *)

(** A program with a struct that holds an enum, and one instruction. *)
Definition defined_type (name : string) : json := JObj [("defined", JObj [("name", JStr name)])].
Definition order_type : TypeDef :=
  mkTypeDef "Order" KStruct "borsh" [mkField (Some "amount") (JStr "u64"); mkField (Some "side") (defined_type "Side")] [].
Definition side_type : TypeDef := mkTypeDef "Side" KEnum "borsh" [] [mkVariant "Buy" []; mkVariant "Sell" []].
Definition place_ix : Instruction :=
  mkInstruction "place" [Byte.x01; Byte.x02] [mkIxArg "order" (defined_type "Order")]
    [mkIxAccount "payer" true true false None; mkIxAccount "clock" false false false None] None.
Definition shop_idl : Idl :=
  mkIdl "Shop1111111111111111111111111111" "shop" "0.1.0" None "00" [order_type; side_type] [] [place_ix] [] [].

Definition shop_emitter : emitter := match render shop_idl [] new_emitter with Ok (_, e) => e | Raise _ => new_emitter end.

Lemma shop_defined n : n ∈ defined (em_usage shop_emitter) -> n ∈ td_name <$> idl_types shop_idl.
Proof.
  assert (H : bool_decide (set_Forall (fun n => n ∈ td_name <$> idl_types shop_idl) (defined (em_usage shop_emitter))) = true)
    by (vm_compute; reflexivity).
  apply bool_decide_eq_true in H. apply H.
Qed.

Definition shop_order : pyval := VObj "Order" [("amount", VInt 5); ("side", VIntEnum "Side" 1)].
Definition shop_bytes : bytes := [Byte.x05; Byte.x00; Byte.x00; Byte.x00; Byte.x00; Byte.x00; Byte.x00; Byte.x00; Byte.x01].

Lemma shop_format d : idl_borsh (type_layouts shop_idl) (S (S d)) false (WClass "Order") shop_order shop_bytes.
Proof.
  apply (I_struct _ (S d) false "Order" order_type [VInt 5; VIntEnum "Side" 1]); [reflexivity|reflexivity|].
  apply (IF_cons _ (S d) (JStr "u64") (WInt 8 false) [defined_type "Side"] (VInt 5) [VIntEnum "Side" 1]
    [Byte.x05; Byte.x00; Byte.x00; Byte.x00; Byte.x00; Byte.x00; Byte.x00; Byte.x00] [Byte.x01]);
    [by apply (IW_scalar "u64")|by constructor|].
  apply (IF_cons _ (S d) (defined_type "Side") (WClass "Side") [] (VIntEnum "Side" 1) [] [Byte.x01] []);
    [by eapply IW_defined| |constructor].
  apply (I_unit_variant _ d false "Side" side_type 1); try reflexivity. simpl. lia.
Qed.

