(* ===== verification/GenBuilders.v ===== *)
(** * Builders of a generated module

    The methods and layouts in the text of a module, and what calling and
    decoding through them does: an instruction is built from its IDL entry and
    read back to the values it was built from. *)

From Stdlib Require Import ZArith Lia.
From Stdlib Require Import Strings.Ascii Strings.Byte.
From stdpp Require Import base decidable option list gmap strings pretty numbers.
From S2P Require Import Prelude.
From S2P Require Import Bytes.
From S2P Require Import Values.
From S2P Require Import Aliases.
From S2P Require Import Codec.
From S2P Require Import Ir.
From S2P Require Import Borsh.
From S2P Require Import BorshProps.
From S2P Require Import Compile.
From S2P Require Import CompileProps.
From S2P Require Import CompileStable.
From S2P Require Import Interface.
From S2P Require Import Builder.
From S2P Require Import BuilderProps.
From S2P Require Import GenTypes.
From S2P Require Import GenTypesProps.
From S2P Require Import GenIdl.
From S2P Require Import GenEmit.
From S2P Require Import GenEmitProps.
From S2P Require Import GenModule.
From S2P Require Import GenModuleProps.

#[local] Open Scope string_scope.

(** ** Literals *)

Lemma hex_body_cons a b rest x y c bs :
  hex_digit_value a = Some x -> hex_digit_value b = Some y -> Byte.of_N (16 * x + y) = Some c ->
  hex_body rest = Some bs -> hex_body (String "\"%char (String "x"%char (String a (String b rest)))) = Some (c :: bs).
Proof. intros Ha Hb Hc H. cbn -[hex_digit_value Byte.of_N N.mul N.add]. by rewrite Ha, Hb; simpl; rewrite Hc, H. Qed.

Lemma hex_body_escape x rest bs : hex_body rest = Some bs -> hex_body (hex_escape (Byte.to_N x) +:+ rest) = Some (x :: bs).
Proof.
  intros H. unfold hex_escape. apply (hex_body_cons _ _ _ (Byte.to_N x / 16) (Byte.to_N x mod 16)); [by destruct x..|done].
Qed.

Lemma concat_cons s ss : String.concat "" (s :: ss) = s +:+ String.concat "" ss.
Proof. destruct ss; [by rewrite append_nil_r|done]. Qed.

Lemma bytes_literal_text b : bytes_text (_bytes_literal b) b.
Proof.
  exists (String.concat "" ((fun x => hex_escape (Byte.to_N x)) <$> b)). split; [done|].
  induction b as [|x b IH]; [done|]. rewrite fmap_cons, concat_cons. by apply hex_body_escape.
Qed.

Lemma ident_literal_char c : ident_char c = true -> literal_char c = true.
Proof.
  unfold ident_char, ident_start, literal_char. set (n := N_of_ascii c).
  rewrite !orb_true_iff, !andb_true_iff, !negb_true_iff, !N.leb_le, !N.ltb_lt, !N.eqb_eq, !N.eqb_neq. lia.
Qed.

Lemma ident_literal s : isidentifier s = true -> literal_ok s = true.
Proof.
  unfold isidentifier, literal_ok. destruct (String.list_ascii_of_string s) as [|c cs]; [done|].
  intros [Hc Hs]%andb_true_iff. simpl. rewrite ident_literal_char by (unfold ident_char; by rewrite Hc). simpl.
  rewrite forallb_forall in *. intros x Hx. by apply ident_literal_char, Hs.
Qed.

Lemma quoted_text s : literal_ok s = true -> str_text (quoted s) s.
Proof. by split. Qed.

Lemma py_bool_text b : bool_text (py_bool b) b.
Proof. done. Qed.

(** ** The parts of a method *)

Definition slot_of (a : IxAccount) : AccountSlot := mkAccountSlot (xa_name a) (xa_signer a) (xa_writable a) (xa_optional a).
Definition kw_of (a : IxAccount) : kw_param :=
  mkKw (mangle (xa_name a))
    match default_address a with
    | Some addr => KwAddress addr
    | None => if xa_optional a then KwNone else KwRequired
    end.
Definition slot_flags (a : IxAccount) : string * (bool * bool * bool) :=
  (mangle (xa_name a), (xa_signer a, xa_writable a, xa_optional a)).

Lemma commas_cons x y ys : commas (x :: y :: ys) = x +:+ ", " +:+ commas (y :: ys).
Proof. done. Qed.

Lemma commas_app xs ys : xs <> [] -> ys <> [] -> commas (xs ++ ys)%list = commas xs +:+ ", " +:+ commas ys.
Proof.
  intros Hx Hy. induction xs as [|x xs IH]; [done|]. destruct xs as [|x2 xs].
  - simpl. by destruct ys.
  - change ((x :: x2 :: xs) ++ ys)%list with (x :: x2 :: (xs ++ ys))%list. rewrite !commas_cons.
    change (x2 :: (xs ++ ys))%list with ((x2 :: xs) ++ ys)%list. rewrite IH by done. by rewrite !string_app_assoc.
Qed.

Lemma account_slot_text a : literal_ok (xa_name a) = true -> slot_text (_account_slot a) (slot_of a).
Proof.
  intros Hl. exists (quoted (xa_name a)).
  exists ((if xa_signer a then ["is_signer=True"] else []) ++
          (if xa_writable a then ["is_writable=True"] else []) ++
          (if xa_optional a then ["is_optional=True"] else []))%list.
  split; [by apply quoted_text|]. unfold _account_slot, slot_of. cbn [as_signer as_writable as_optional].
  split_and!.
  - match goal with |- context[match ?kws with [] => "" | _ => _ end] => destruct kws as [|k ks] end; [done|].
    by rewrite commas_cons, !string_app_assoc.
  - apply (bool_decide_unpack _). by destruct (xa_signer a), (xa_writable a), (xa_optional a).
  - intros x Hx. destruct (xa_signer a), (xa_writable a), (xa_optional a); cbn [app] in Hx; rewrite ?elem_of_cons, ?elem_of_nil in *; tauto.
  - by destruct (xa_signer a), (xa_writable a), (xa_optional a).
  - by destruct (xa_signer a), (xa_writable a), (xa_optional a).
  - by destruct (xa_signer a), (xa_writable a), (xa_optional a).
Qed.

Lemma account_param_text a :
  match default_address a with Some addr => literal_ok addr | None => true end = true ->
  kw_text (account_param (mangle (xa_name a)) a) (kw_of a).
Proof.
  unfold account_param, kw_of. destruct (default_address a) as [addr|]; intros Hl.
  - destruct (xa_optional a).
    + apply (KT_address _ " | None" (quoted addr)); [by right|by apply quoted_text].
    + apply (KT_address _ "" (quoted addr)); [by left|by apply quoted_text].
  - destruct (xa_optional a); constructor.
Qed.

Lemma slot_call_is_text a : slot_call_text (slot_call (mangle (xa_name a)) a) (slot_flags a).
Proof.
  exists (py_bool (xa_signer a)), (py_bool (xa_writable a)), (py_bool (xa_optional a)).
  unfold slot_flags. cbn [fst snd]. split_and!; [|done..]. unfold slot_call. rewrite !commas_cons.
  change (commas [py_bool (xa_optional a)]) with (py_bool (xa_optional a)). by rewrite !string_app_assoc.
Qed.

Lemma signature_text (data kws : list string) :
  kws <> [] ->
  commas ("cls" :: data ++ "*" :: kws)%list =
  "cls" +:+ match data with [] => "" | _ => ", " +:+ commas data end +:+ ", *, " +:+ commas kws.
Proof.
  intros Hk. assert (Hs : commas ("*" :: kws) = "*" +:+ ", " +:+ commas kws) by (by destruct kws).
  destruct data as [|d ds].
  - cbn [app]. by rewrite commas_cons, Hs.
  - change ("cls" :: (d :: ds) ++ "*" :: kws)%list with (("cls" :: d :: ds) ++ "*" :: kws)%list.
    rewrite commas_app by done. rewrite commas_cons, Hs. by rewrite !string_app_assoc.
Qed.

(** Indented lines between brackets, or [empty]. *)
Definition bracketed (empty opening : string) (ls : list string) : string :=
  match ls with
  | [] => empty
  | _ => opening +:+ nl +:+ lines ((fun l => "            " +:+ l +:+ ",") <$> ls) +:+ nl +:+ "        )"
  end.

Lemma block_text_map {A B} empty opening (line : string -> B -> Prop) (f : A -> string) (g : A -> B) xs :
  (forall x, x ∈ xs -> line (f x) (g x)) ->
  block_text empty opening "            " "        )" line (bracketed empty opening (f <$> xs)) (g <$> xs).
Proof.
  intros Hl. destruct xs as [|x xs]; [by left|]. right. split; [done|]. exists (f <$> (x :: xs)). split; [|done].
  apply Forall2_fmap, Forall_Forall2_diag, list.Forall_forall. exact Hl.
Qed.

(** ** What is emitted for an instruction *)

Definition ix_ann (us : Usage) (ty : json) (a : ann) : Prop :=
  exists w, idl_wire ty w /\ ann_wire false a w /\ covers us a.

Lemma ix_ann_mono us us' ty a : usage_le us us' -> ix_ann us ty a -> ix_ann us' ty a.
Proof. intros Hle (w & H1 & H2 & H3). exists w. split_and!; [done..|by eapply covers_mono]. Qed.

(** The method of [ix]. *)
Record builder_of (us : Usage) (ix : Instruction) (b : builder) : Prop := mkBuilderOf {
  bo_name : im_name (bu_meta b) = ix_name ix;
  bo_meta_disc : im_discriminator (bu_meta b) = ix_discriminator ix;
  bo_accounts : im_accounts (bu_meta b) = slot_of <$> ix_accounts ix;
  bo_ser : im_serialization (bu_meta b) = BORSH;
  bo_returns : option_Forall2 (ix_ann us) (ix_returns ix) (im_returns_type (bu_meta b));
  bo_method : bu_name b = mangle (ix_name ix);
  bo_args : (bu_data b).*1 = arg_names (ix_args ix);
  bo_types : Forall2 (ix_ann us) (ia_type <$> ix_args ix) (bu_data b).*2;
  bo_kws : bu_kws b = kw_of <$> ix_accounts ix;
  bo_disc : bu_disc b = ix_discriminator ix;
  bo_layout : bu_layout b = if has_args ix then Some ("_ENC_" +:+ mangle (ix_name ix)) else None;
  bo_values : bu_values b = arg_names (ix_args ix);
  bo_slots : bu_slots b = slot_flags <$> ix_accounts ix;
}.

Lemma builder_of_mono us us' ix b : usage_le us us' -> builder_of us ix b -> builder_of us' ix b.
Proof.
  intros Hle [? ? ? ? Hr ? ? Ht ? ? ? ? ?]. split; try done.
  - destruct Hr; constructor. by eapply ix_ann_mono.
  - eapply list.Forall2_impl; [exact Ht|]. intros ? ?. by apply ix_ann_mono.
Qed.

(** The layout a method refers to. *)
Definition builder_layouts (b : builder) : list (string * list ann) :=
  match bu_layout b with None => [] | Some l => [(l, (bu_data b).*2)] end.

Definition layout_texts : list (string * list string) -> list (string * list ann) -> Prop :=
  Forall2 (fun l' l => l'.1 = l.1 /\ Forall2 evaluates l'.2 l.2).

Lemma args_anns us args (tys : list string) :
  Forall2 (arg_lowered us) args tys ->
  exists anns, Forall2 evaluates tys anns /\ Forall2 (ix_ann us) (ia_type <$> args) anns.
Proof.
  induction 1 as [|arg ty args tys (a & w & H1 & H2 & H3 & H4) _ (anns & H5 & H6)]; [by exists []|].
  exists (a :: anns). split; [by constructor|]. rewrite fmap_cons. constructor; [by exists w|done].
Qed.

Lemma ix_fits_inv ix : ix_fits ix = true ->
  isidentifier (ix_name ix) = true /\ (forall a, a ∈ ix_args ix -> isidentifier (ia_name a) = true /\ no_negative (ia_type a) = true) /\
  (forall a, a ∈ ix_accounts ix -> account_fits a = true) /\
  (forall n, n ∈ params ix -> n ∉ body_names ix) /\
  match ix_returns ix with Some r => no_negative r | None => true end = true.
Proof.
  unfold ix_fits. rewrite !andb_true_iff. intros ((((H1 & H2) & H3) & H4) & H5). split_and!; try done.
  - intros a Ha. apply (forallb_elem _ _ _ H2) in Ha. by apply andb_true_iff in Ha.
  - intros a. by apply (forallb_elem _ _ _ H3).
  - intros n Hn. apply (forallb_elem _ _ _ H4) in Hn. by apply negb_true_iff, bool_decide_eq_false in Hn.
Qed.

Lemma account_fits_inv a : account_fits a = true ->
  literal_ok (xa_name a) = true /\ mangle (xa_name a) <> "data" /\
  match default_address a with Some addr => literal_ok addr | None => true end = true.
Proof.
  unfold account_fits. rewrite !andb_true_iff, negb_true_iff, bool_decide_eq_false. intros [[H1%ident_literal H2] H3]. done.
Qed.

Definition make_builder (ix : Instruction) (ret : option ann) (anns : list ann) : builder :=
  mkBuilder (mkIxMeta (ix_name ix) (ix_discriminator ix) (slot_of <$> ix_accounts ix) BORSH ret) (mangle (ix_name ix))
    (zip (arg_names (ix_args ix)) anns) (kw_of <$> ix_accounts ix) (ix_discriminator ix)
    (if has_args ix then Some ("_ENC_" +:+ mangle (ix_name ix)) else None) (arg_names (ix_args ix))
    (slot_flags <$> ix_accounts ix).

Lemma make_builder_of us ix ret anns :
  option_Forall2 (ix_ann us) (ix_returns ix) ret -> Forall2 (ix_ann us) (ia_type <$> ix_args ix) anns ->
  builder_of us ix (make_builder ix ret anns).
Proof.
  intros Hr Ha. pose proof (list.Forall2_length _ _ _ Ha) as Hl. rewrite length_fmap in Hl.
  assert (length (arg_names (ix_args ix)) = length anns) by (unfold arg_names; by rewrite length_fmap).
  split; try done; unfold make_builder; cbn [bu_data]; by rewrite ?fst_zip, ?snd_zip by lia.
Qed.

Lemma data_texts (names tys : list string) anns :
  length names = length tys -> Forall2 evaluates tys anns ->
  Forall2 data_text ((fun p => p.1 +:+ ": " +:+ p.2) <$> zip names tys) (zip names anns).
Proof.
  intros Hl Ht. revert names Hl. induction Ht as [|ty a tys anns Ha _ IH]; intros [|n names] Hl; try done.
  simpl in *. constructor; [by exists ty|]. apply IH. lia.
Qed.

Lemma zip_fst_snd {A B} (xs : list (A * B)) : zip xs.*1 xs.*2 = xs.
Proof. induction xs as [|[a b] xs IH]; [done|]. simpl. f_equal. exact IH. Qed.

(** The line that encodes the arguments, and the layout it needs. *)
Lemma emit_data_line ix (args : list (string * string)) e line e' :
  args.*1 = arg_names (ix_args ix) ->
  match args with
  | [] => mret ("        data = encode_ix_layout(" +:+ _bytes_literal (ix_discriminator ix) +:+ ", ())")
  | _ => add_layout ("_ENC_" +:+ mangle (ix_name ix)) args.*2;;
         mret ("        data = encode_ix_layout(" +:+ _bytes_literal (ix_discriminator ix) +:+ ", " +:+
               ("_ENC_" +:+ mangle (ix_name ix)) +:+ ", " +:+ commas args.*1 +:+ ")")
  end e = Ok (line, e') ->
  exists t, line = "        data = " +:+ t /\
    data_line_text t (ix_discriminator ix) (if has_args ix then Some ("_ENC_" +:+ mangle (ix_name ix)) else None)
      (arg_names (ix_args ix)) /\
    em_usage e' = em_usage e /\
    em_layouts e' = (em_layouts e ++ if has_args ix then [("_ENC_" +:+ mangle (ix_name ix), args.*2)] else [])%list.
Proof.
  intros Hn H. unfold has_args. destruct args as [|p args].
  - destruct (ix_args ix); [|done]. inv_E. eexists. split; [reflexivity|]. split_and!; [|done|by rewrite app_nil_r].
    eexists. split; [apply bytes_literal_text|done].
  - destruct (ix_args ix) as [|x xs] eqn:Ex; [done|]. inv_E.
    match goal with H : add_layout _ _ _ = Ok _ |- _ => injection H as <- <- end.
    eexists. split; [reflexivity|]. split_and!; [|done|done].
    eexists. split; [apply bytes_literal_text|]. rewrite <- Hn. done.
Qed.

Lemma emit_returns ix e ret e' :
  match ix_returns ix with None => mret None | Some node => ann ← annotation node; mret (Some ann) end e = Ok (ret, e') ->
  exists r, option_Forall2 (ix_ann (em_usage e')) (ix_returns ix) r /\
    returns_text (match ret with None => "" | Some ann => "        returns_type=" +:+ ann +:+ "," +:+ nl end) r /\ em_step e e'.
Proof.
  destruct (ix_returns ix) as [ty|]; intros H; inv_E.
  - match goal with H : annotation _ _ = Ok _ |- _ =>
      pose proof (quiet_annotation _ _ _ _ H); apply annotation_lowered in H as (x & w & H1 & H2 & H3 & H4) end.
    exists (Some x). split_and!; [constructor; by exists w|by eexists|done].
  - exists None. by split_and!; [constructor|..].
Qed.

Lemma accounts_arg_text (specs : list string) :
  match specs with
  | [] => "accounts=(),"
  | _ => "accounts=(" +:+ nl +:+ lines ((fun s => "            " +:+ s +:+ ",") <$> specs) +:+ nl +:+ "        ),"
  end =
  "accounts=" +:+ bracketed "()" "(" specs +:+ ",".
Proof. destruct specs; [done|]. unfold bracketed. by rewrite !string_app_assoc. Qed.

Lemma metas_line_text (accounts : list IxAccount) accts :
  accts = (fun a => (mangle (xa_name a), a)) <$> accounts ->
  match accts with
  | [] => "        metas = build_metas(PROGRAM_ID)"
  | _ => "        metas = build_metas(" +:+ nl +:+ "            PROGRAM_ID," +:+ nl +:+
             lines ((fun p => "            " +:+ slot_call p.1 p.2 +:+ ",") <$> accts) +:+ nl +:+ "        )"
  end =
  "        metas = " +:+ bracketed "build_metas(PROGRAM_ID)" ("build_metas(" +:+ nl +:+ "            PROGRAM_ID,")
                           ((fun a => slot_call (mangle (xa_name a)) a) <$> accounts).
Proof.
  intros ->. destruct accounts as [|a accounts]; [done|].
  assert (Hl : (fun p : string * IxAccount => "            " +:+ slot_call p.1 p.2 +:+ ",") <$> ((fun a => (mangle (xa_name a), a)) <$> (a :: accounts)) =
    (fun l : string => "            " +:+ l +:+ ",") <$> ((fun a => slot_call (mangle (xa_name a)) a) <$> (a :: accounts)))
    by (by rewrite <- !list_fmap_compose).
  unfold bracketed. rewrite !fmap_cons in Hl |- *. rewrite Hl. by rewrite !string_app_assoc.
Qed.

Lemma emit_method ix e text e' :
  _emit_instruction ix e = Ok (text, e') -> ix_fits ix = true ->
  exists b, builder_of (em_usage e') ix b /\ method_block text b /\
    exists new, em_layouts e' = (em_layouts e ++ new)%list /\ layout_texts new (builder_layouts b).
Proof.
  intros H Hfit. apply ix_fits_inv in Hfit as (Hname & _ & Hacc & _ & _). unfold _emit_instruction in H. inv_E.
  assert (Hq1 : em_layouts e0 = em_layouts e) by (by injection E as <- <-).
  assert (Hq2 : em_layouts e1 = em_layouts e0) by (by injection E0 as <- <-).
  destruct a1 as [seen args]. inv_E.
  apply arg_params_spec in E1 as (Hq3 & Hn & Hf & _ & _); [|constructor].
  apply account_params_spec in E2 as (-> & Hacn & Hacs & _ & _).
  apply args_anns in Hf as (anns & Hev & Han). apply emit_returns in E3 as (ret & Hret & Hrt & Hq4).
  apply (emit_data_line ix args) in E4 as (t_data & -> & Htd & Hus & Hlay); [|done].
  assert (Haccts : a1 = (fun a => (mangle (xa_name a), a)) <$> ix_accounts ix).
  { rewrite <- (zip_fst_snd a1), Hacn, Hacs. clear. induction (ix_accounts ix) as [|a l IH]; [done|]. simpl. f_equal. exact IH. }
  assert (Hlen : length (arg_names (ix_args ix)) = length args.*2) by (by rewrite <- Hn, !length_fmap).
  exists (make_builder ix ret anns). split_and!.
  - rewrite Hus. apply make_builder_of; [done|]. eapply list.Forall2_impl; [exact Han|]. intros ? ?. apply ix_ann_mono, Hq4.
  - pose proof (data_texts (arg_names (ix_args ix)) args.*2 anns Hlen Hev) as Hdata. rewrite <- Hn, zip_fst_snd, Hn in Hdata.
    exists (quoted (ix_name ix)), (_bytes_literal (ix_discriminator ix)).
    exists (bracketed "()" "(" (_account_slot <$> ix_accounts ix)).
    eexists _, _, ((fun a => account_param (mangle (xa_name a)) a) <$> ix_accounts ix).
    exists (match a2 with None => "Instruction" | Some ann => "Instruction[" +:+ ann +:+ "]" end), t_data.
    eexists.
    split_and!; [by apply quoted_text, ident_literal|apply bytes_literal_text| |done|exact Hrt|exact Hdata| |exact Htd| |].
    + apply (block_text_map _ _ slot_text _account_slot slot_of).
      intros x Hx. apply account_slot_text. by apply Hacc, account_fits_inv in Hx as [? _].
    + apply Forall2_fmap, Forall_Forall2_diag, list.Forall_forall. intros x Hx. apply account_param_text.
      by apply Hacc, account_fits_inv in Hx as (_ & _ & ?).
    + apply (block_text_map _ _ slot_call_text (fun a => slot_call (mangle (xa_name a)) a) slot_flags).
      intros x _. apply slot_call_is_text.
    + rewrite signature_text by (by destruct (ix_accounts ix)). 
      assert (Hkw : (fun p => account_param p.1 p.2) <$> a1 = (fun a => account_param (mangle (xa_name a)) a) <$> ix_accounts ix)
        by (by rewrite Haccts, <- list_fmap_compose).
      rewrite accounts_arg_text, (metas_line_text _ _ Haccts), Hkw.
      unfold make_builder. cbn [bu_name compose fst snd]. fold remaining_param.
      rewrite !string_app_assoc. reflexivity.
  - exists (if has_args ix then [("_ENC_" +:+ mangle (ix_name ix), args.*2)] else []). split.
    + destruct Hq3, Hq4. congruence.
    + unfold builder_layouts. cbn [make_builder bu_layout bu_data]. destruct (has_args ix); [|constructor].
      constructor; [|constructor]. split; [done|]. cbn [snd]. rewrite snd_zip; [done|]. apply list.Forall2_length in Hev. lia.
Qed.

(** ** Methods and layouts in the text *)

Lemma emit_methods ixs e blocks e' :
  emapM _emit_instruction ixs e = Ok (blocks, e') -> (forall ix, ix ∈ ixs -> ix_fits ix = true) ->
  exists bs, Forall2 (builder_of (em_usage e')) ixs bs /\ Forall2 method_block blocks bs /\
    exists new, em_layouts e' = (em_layouts e ++ new)%list /\ layout_texts new (concat (builder_layouts <$> bs)).
Proof.
  revert e blocks e'. induction ixs as [|ix ixs IH]; intros e blocks e' H Hfit; simpl in H; inv_E.
  { exists []. split_and!; [constructor|constructor|]. exists []. split; [by rewrite app_nil_r|constructor]. }
  apply emit_method in E as (b & Hb & Hm & new1 & Hl1 & Ht1); [|apply Hfit; by left].
  pose proof (emit_instructions_spec _ _ _ _ E0) as (_ & Hle & _).
  apply IH in E0 as (bs & Hbs & Hms & new2 & Hl2 & Ht2); [|intros; apply Hfit; by right].
  exists (b :: bs). split_and!; [constructor; [by eapply builder_of_mono|done]|by constructor|].
  exists (new1 ++ new2)%list. split; [by rewrite Hl2, Hl1, app_assoc|]. rewrite fmap_cons. simpl. by apply Forall2_app.
Qed.

Lemma block_in_join (sp r1 r2 b : string) bs : sp = nl +:+ r1 -> sp = r2 +:+ nl -> b ∈ bs -> has_block (String.concat sp bs) b.
Proof.
  intros H1 H2. induction bs as [|b0 bs IH]; intros Hb; [by apply elem_of_nil in Hb|].
  destruct bs as [|b1 bs].
  { apply list_elem_of_singleton in Hb as ->. simpl. reflexivity. }
  change (String.concat sp (b0 :: b1 :: bs)) with (b0 +:+ sp +:+ String.concat sp (b1 :: bs)).
  apply elem_of_cons in Hb as [->|Hb].
  - rewrite H1 at 1. rewrite !string_app_assoc. apply block_before.
  - etrans; [|by apply IH]. rewrite H2 at 1. rewrite !string_app_assoc, <- (string_app_assoc b0). apply block_after.
Qed.

Lemma block_in_lines (b : string) ls : b ∈ ls -> has_block (lines ls) b.
Proof. by apply (block_in_join nl "" ""). Qed.

Lemma layout_in_module idl prov e blocks l :
  l ∈ em_layouts e -> has_block (String.concat sep (module_parts idl prov e blocks) +:+ nl) (l.1 +:+ " = compile_layout(" +:+ commas l.2 +:+ ")").
Proof.
  intros Hl. destruct blocks as [[[tb ab] eb] mb]. etrans; [apply (block_in_text (lines (builder_lines idl e mb)))|apply block_in_lines].
  - unfold module_parts. rewrite !elem_of_app. do 4 right. left. by apply list_elem_of_singleton.
  - unfold builder_lines. rewrite !elem_of_app. right. left. destruct (em_layouts e) as [|l0 ls]; [by apply elem_of_nil in Hl|].
    apply elem_of_app. left. by apply (list_elem_of_fmap_2 (fun l => l.1 +:+ " = compile_layout(" +:+ commas l.2 +:+ ")")).
Qed.

Lemma method_in_module idl prov e tb ab eb mb b :
  b ∈ mb -> has_block (String.concat sep (module_parts idl prov e (tb, ab, eb, mb)) +:+ nl) b.
Proof.
  intros Hb. etrans; [apply (block_in_text (lines (builder_lines idl e mb)))|].
  { unfold module_parts. rewrite !elem_of_app. do 4 right. left. by apply list_elem_of_singleton. }
  etrans; [apply (block_in_lines (String.concat (nl +:+ nl) mb))|by apply (block_in_join _ nl nl)].
  unfold builder_lines. rewrite !elem_of_app. do 4 right. destruct mb; [by apply elem_of_nil in Hb|]. right. by left.
Qed.

Lemma quiet_blocks_layouts idl e tb e1 ab e2 eb e3 :
  emapM (fun t => _emit_typedef t None "ACCOUNT") (plain_types idl) e = Ok (tb, e1) ->
  emapM (emit_account idl) (idl_accounts idl) e1 = Ok (ab, e2) ->
  emapM (emit_event idl) (idl_events idl) e2 = Ok (eb, e3) -> em_layouts e3 = em_layouts e.
Proof.
  intros H1 H2 H3. apply quiet_mapM in H1 as [_ _ _ <-]; [|intros; apply quiet_typedef].
  apply quiet_mapM in H2 as [_ _ _ <-]; [|apply quiet_account]. by apply quiet_mapM in H3 as [_ _ _ <-]; [|apply quiet_event].
Qed.

(** The text of an emitted module holds the method of every instruction and
    the layouts they refer to. *)
Lemma render_builders idl prov text e :
  render idl prov new_emitter = Ok (text, e) -> idl_fits idl = true ->
  exists bs, Forall2 (builder_of (em_usage e)) (idl_instructions idl) bs /\
    module_builders text (concat (builder_layouts <$> bs)) bs.
Proof.
  intros ([[[tb ab] eb] mb] & E & ->)%render_inv Hfit. apply fits_inv in Hfit as (_ & _ & _ & Hix).
  unfold emit_blocks in E. inv_E. simplify_eq.
  match goal with H1 : emapM _ (plain_types _) _ = _, H2 : emapM (emit_account _) _ _ = _, H3 : emapM (emit_event _) _ _ = _ |- _ =>
    pose proof (quiet_blocks_layouts _ _ _ _ _ _ _ _ H1 H2 H3) as Hnil end.
  match goal with H : emapM _emit_instruction _ _ = _ |- _ => apply emit_methods in H as (bs & Hbs & Hms & new & Hl & Ht); [|done] end.
  exists bs. split; [done|]. split; apply list.Forall_forall.
  - intros l Hin. apply list_elem_of_lookup in Hin as [i Hi]. destruct (Forall2_lookup_r _ _ _ _ _ Ht Hi) as ([n tys] & Hn & Hname & Hev).
    cbn [fst snd] in Hname, Hev. eexists. split; [apply (layout_in_module _ _ _ _ (n, tys))|].
    + rewrite Hl, Hnil. simpl. by eapply list_elem_of_lookup_2.
    + exists tys. split; [done|]. by rewrite <- Hname.
  - intros b Hin. apply list_elem_of_lookup in Hin as [i Hi]. destruct (Forall2_lookup_r _ _ _ _ _ Hms Hi) as (blk & Hn & Hm).
    exists blk. split; [|done]. apply method_in_module. by eapply list_elem_of_lookup_2.
Qed.

(** ** Running the import *)

Section run.
Context (env : cenv) (Henv : cenv_wf env = true)
  (Hknown : forall cls, class_of env cls = CPlain \/ class_known env (class_of env cls) = true).

(** [m] succeeds from [s], compiling more classes, with a result in [R]. *)
Definition runs_at {A} (s : tstate) (R : tstate -> A -> Prop) (m : TM A) : Prop :=
  exists a s', m s = (Ok a, s') /\ sound_state env s' /\ extends s s' /\ R s' a.
Definition runs {A} (R : tstate -> A -> Prop) (m : TM A) : Prop := forall s, sound_state env s -> runs_at s R m.

Lemma runs_at_ret {A} s (R : tstate -> A -> Prop) a : sound_state env s -> R s a -> runs_at s R (mret a).
Proof. intros Hs HR. by exists a, s. Qed.

Lemma runs_at_bind {A B} s (R : tstate -> A -> Prop) (R' : tstate -> B -> Prop) m f :
  runs_at s R m -> (forall a s1, sound_state env s1 -> extends s s1 -> R s1 a -> runs_at s1 R' (f a)) -> runs_at s R' (m ≫= f).
Proof.
  intros (a & s1 & Hm & Hs & He & HR) Hf. destruct (Hf a s1 Hs He HR) as (b & s2 & Hb & Hs2 & He2 & HR').
  exists b, s2. split_and!; [|done|by etrans|done]. unfold mbind, TM_bind. by rewrite Hm.
Qed.

Lemma runs_at_impl {A} s (R R' : tstate -> A -> Prop) m :
  runs_at s R m -> (forall s' a, sound_state env s' -> extends s s' -> R s' a -> R' s' a) -> runs_at s R' m.
Proof. intros (a & s' & ? & ? & ? & ?) HR. exists a, s'. split_and!; auto. Qed.

(** A result that later compilations keep. *)
Definition stable {A} (R : tstate -> A -> Prop) : Prop := forall s s' a, extends s s' -> R s a -> R s' a.

Lemma runs_mapM {A B} (R : A -> tstate -> B -> Prop) (f : A -> TM B) xs :
  (forall x, stable (R x)) -> (forall x, x ∈ xs -> runs (R x) (f x)) -> runs (fun s ys => Forall2 (fun x y => R x s y) xs ys) (mapM_tm f xs).
Proof.
  intros Hst. induction xs as [|x xs IH]; intros Hf s Hs; [by apply runs_at_ret|]. simpl.
  eapply runs_at_bind; [apply Hf; [by left|done]|]. intros y s1 Hs1 _ Hy.
  eapply runs_at_bind; [apply IH; [intros; apply Hf; by right|done]|]. intros ys s2 Hs2 He Hys.
  apply runs_at_ret; [done|]. constructor; [by eapply Hst|done].
Qed.

Lemma runs_intro {A} (R : tstate -> A -> Prop) (Q : A -> Prop) m :
  raises_only (fun _ => False) m -> grows env [] R m -> keeps (tstate_wf env) Q m -> runs (fun s a => R s a /\ Q a) m.
Proof.
  intros Hr Hg Hk s [Hc Hw]. specialize (Hr s). specialize (Hg s). specialize (Hk s Hw). unfold runs_at. destruct (m s) as [[a|e] s']; [|done].
  simpl in *. destruct (Hg a s' Hc eq_refl) as (Hc' & He & HR). destruct Hk as [Hw' HQ].
  exists a, s'. split_and!; [done|by split|done|done|by apply HQ].
Qed.

Definition ann_good (a : ann) : bool := ann_known env a && ann_wf a.

Lemma compile_field_runs a :
  ann_good a = true -> runs (fun s nd => lowers (tcache s) a nd /\ node_wf nd = true) (compile_field env a).
Proof using Henv Hknown.
  intros [Ha Hw]%andb_true_iff. apply runs_intro.
  - apply compile_field_fine; [by apply compile_type_fine|done].
  - apply compile_field_grows, compile_type_fuel_grows.
  - intros s Hs. destruct (compile_field_nullable env (compile_type env) a (compile_type_fuel_wf env Henv _) Hw s Hs) as [? Hn].
    split; [done|]. intros nd Hnd. by apply Hn.
Qed.

Lemma lowers_stable a : stable (fun s nd => lowers (tcache s) a nd /\ node_wf nd = true).
Proof. intros s s' nd He [Hl Hn]. split; [by eapply lowers_extends|done]. Qed.

(** The encode layouts. *)
Definition layout_done (l : string * list ann) (s : tstate) (l' : string * list node) : Prop :=
  l'.1 = l.1 /\ Forall2 (fun a nd => lowers (tcache s) a nd /\ node_wf nd = true) l.2 l'.2.

Lemma layout_done_stable l : stable (layout_done l).
Proof.
  intros s s' l' He [Hn Hl]. split; [done|]. eapply list.Forall2_impl; [exact Hl|]. intros a nd. by apply lowers_stable.
Qed.

Lemma layouts_run layouts :
  (forall l a, l ∈ layouts -> a ∈ l.2 -> ann_good a = true) ->
  runs (fun s nodes => Forall2 (fun l n => layout_done l s n) layouts nodes)
    (mapM_tm (fun l => nds ← compile_layout env l.2; mret (l.1, nds)) layouts).
Proof using Henv Hknown.
  intros Hg. apply runs_mapM; [apply layout_done_stable|]. intros l Hl s Hs.
  eapply runs_at_bind; [apply (runs_mapM (fun a s nd => lowers (tcache s) a nd /\ node_wf nd = true)); [apply lowers_stable| |done]|].
  - intros a Ha. apply compile_field_runs. by eapply Hg.
  - intros nds s1 Hs1 _ Hnds. apply runs_at_ret; [done|]. by split.
Qed.

(** The definition registered for a method. *)
Definition registered (b : builder) (s : tstate) (d : InstructionDef) : Prop :=
  def_name d = im_name (bu_meta b) /\ def_discriminator d = im_discriminator (bu_meta b) /\
  def_account_names d = (mangle_back ∘ kw_name <$> bu_kws b) /\
  exists s1 layout, def_decode_args d = make_borsh_decoder (theap s1) layout /\
    sound_state env s1 /\ extends s1 s /\
    Forall2 (fun p f => p.1 = f.1 /\ lowers (tcache s1) p.2 f.2 /\ node_wf f.2 = true) (bu_data b) layout.

Lemma registered_stable b : stable (registered b).
Proof.
  intros s s' d He (H1 & H2 & H3 & s1 & layout & H4 & H5 & H6 & H7). split_and!; [done..|].
  exists s1, layout. split_and!; [done|done|by etrans|done].
Qed.

(** Builders whose methods register as they read. *)
Definition builder_good (b : builder) : Prop :=
  im_serialization (bu_meta b) = BORSH /\ (forall p, p ∈ bu_data b -> p.1 <> "self" /\ ann_good p.2 = true) /\
  (forall k, k ∈ bu_kws b -> kw_name k <> "remaining_accounts") /\
  (forall a, im_returns_type (bu_meta b) = Some a -> ann_good a = true).

Lemma data_params_method b :
  builder_good b -> (fun p => (p_name p, p_annotation p)) <$> data_params (me_params (builder_method b)) = bu_data b.
Proof.
  intros (_ & Hd & _). unfold data_params, builder_method. cbn [me_params]. rewrite !list.filter_app.
  assert (Hk : forall ks, filter (fun p => p_kind p = POSITIONAL_OR_KEYWORD /\ p_name p <> "self"%string)
    ((fun k => mkParam (kw_name k) KEYWORD_ONLY AOther) <$> ks) = []).
  { induction ks as [|k ks IH]; [done|]. rewrite fmap_cons, filter_cons_False by (by intros [? _]). exact IH. }
  rewrite Hk. rewrite filter_cons_False by (by intros [? _]). rewrite filter_nil, !app_nil_r. clear Hk.
  induction (bu_data b) as [|[n a] ps IH]; [done|]. rewrite fmap_cons, filter_cons_True.
  - rewrite fmap_cons. simpl. f_equal. apply IH. intros p Hp. apply Hd. by right.
  - split; [done|]. apply (Hd (n, a)). by left.
Qed.

Lemma account_params_method b :
  builder_good b -> p_name <$> Builder.account_params (me_params (builder_method b)) = kw_name <$> bu_kws b.
Proof.
  intros (_ & _ & Hk & _). unfold Builder.account_params, builder_method. cbn [me_params]. rewrite !list.filter_app.
  assert (Hd : forall ps, filter (fun p => p_kind p = KEYWORD_ONLY /\ p_name p <> "remaining_accounts"%string)
    ((fun p : string * ann => mkParam p.1 POSITIONAL_OR_KEYWORD p.2) <$> ps) = []).
  { induction ps as [|k ps IH]; [done|]. rewrite fmap_cons, filter_cons_False by (by intros [? _]). exact IH. }
  rewrite Hd, app_nil_l. rewrite (filter_cons_False _ (mkParam "remaining_accounts" KEYWORD_ONLY AOther)) by (by intros [_ ?]).
  rewrite filter_nil, app_nil_r. clear Hd.
  induction (bu_kws b) as [|k ks IH]; [done|]. rewrite fmap_cons, filter_cons_True.
  - rewrite !fmap_cons. simpl. f_equal. apply IH. intros k' Hk'. apply Hk. by right.
  - split; [done|]. apply Hk. by left.
Qed.

Lemma data_fields_run fs :
  (forall p, p ∈ fs -> ann_good p.2 = true) ->
  runs (fun s layout => Forall2 (fun p f => p.1 = f.1 /\ lowers (tcache s) p.2 f.2 /\ node_wf f.2 = true) fs layout)
    (compile_fields env (compile_type env) fs).
Proof using Henv Hknown.
  intros Hg. apply (runs_mapM (fun p s f => p.1 = f.1 /\ lowers (tcache s) p.2 f.2 /\ node_wf f.2 = true)).
  - intros p s s' f He (H1 & H2 & H3). split_and!; [done|by eapply lowers_extends|done].
  - intros p Hp s Hs. eapply runs_at_bind; [by apply compile_field_runs, Hs; apply Hg|].
    intros nd s1 Hs1 _ [Hl Hn]. by apply runs_at_ret.
Qed.

Lemma register_method_runs b i :
  builder_good b ->
  runs (fun s i' => exists d, i' = push_def d i /\ registered b s d) (register_method env [] (builder_method b) i).
Proof using Henv Hknown.
  intros Hb s Hs. unfold register_method. cbn [me_meta builder_method]. pose proof Hb as (Hser & Hd & _ & Hr).
  rewrite Hser. cbn [attr_lookup]. rewrite bool_decide_eq_false_2 by (intros Hx; by apply Hx). cbn [andb].
  change (map (fun p => (p_name p, p_annotation p))) with (fmap (M := list) (fun p => (p_name p, p_annotation p))).
  rewrite (data_params_method b Hb).
  eapply runs_at_bind; [apply data_fields_run; [|done]; intros p Hp; by apply Hd|]. intros layout s1 Hs1 _ Hlay.
  eapply runs_at_bind with (R := fun _ _ => True).
  { destruct (im_returns_type (bu_meta b)) as [ty|] eqn:Er; [|by apply runs_at_ret].
    eapply runs_at_bind; [by apply compile_field_runs, Hs1; apply Hr|]. intros nd s2 Hs2 _ _. by apply runs_at_ret. }
  intros ret s2 Hs2 He2 _. eexists _, s2. split_and!; [reflexivity|done|done|].
  eexists. split; [reflexivity|]. split_and!; [done|done| |].
  - cbn [def_account_names]. change (map (fun p => mangle_back (p_name p))) with (fmap (M := list) (mangle_back ∘ p_name)).
    by rewrite list_fmap_compose, (account_params_method b Hb), <- list_fmap_compose.
  - exists s2, layout. split_and!; [done|done|done|]. eapply list.Forall2_impl; [exact Hlay|].
    intros p f (H1 & H2 & H3). split_and!; [done|by eapply lowers_extends|done].
Qed.

Lemma register_methods_run bs : forall i,
  Forall builder_good bs ->
  runs (fun s i' => exists ds, i' = foldl (fun i d => push_def d i) i ds /\ Forall2 (fun b d => registered b s d) bs ds)
    (register_methods env [] (builder_method <$> bs) i).
Proof using Henv Hknown.
  induction bs as [|b bs IH]; intros i Hg s Hs.
  { apply runs_at_ret; [done|]. by exists []. }
  inversion Hg as [|? ? Hb Hg']; subst. rewrite fmap_cons. cbn [register_methods].
  eapply runs_at_bind; [by apply register_method_runs|]. intros i1 s1 Hs1 _ (d & -> & Hd).
  eapply runs_at_impl; [by apply (IH _ Hg')|]. intros s2 i2 Hs2 He2 (ds & -> & Hds). exists (d :: ds). split; [done|].
  constructor; [by eapply registered_stable|done].
Qed.

Lemma foldl_push ds i :
  _defs (foldl (fun i d => push_def d i) i ds) = (_defs i ++ ds)%list /\
  refusing (foldl (fun i d => push_def d i) i ds) = refusing i /\
  iface_name (foldl (fun i d => push_def d i) i ds) = iface_name i.
Proof.
  revert i. induction ds as [|d ds IH]; intros i; simpl; [by rewrite app_nil_r|].
  destruct (IH (push_def d i)) as (-> & -> & ->). simpl. by rewrite <- app_assoc.
Qed.

Lemma register_events_defs objs s i :
  _defs (register_events env objs s i) = _defs i /\ refusing (register_events env objs s i) = refusing i /\
  iface_name (register_events env objs s i) = iface_name i.
Proof.
  unfold register_events. revert i. induction objs as [|o objs IH]; intros i; [done|]. simpl.
  destruct (IH (if bool_decide (bm_kind o.2 = EVENT)
    then add_event (bm_discriminator o.2) (mkEvent o.1 (fun data => (BorshStruct_decode env o.1 (Some o.2) data true s).1)) i else i))
    as (-> & -> & ->). by case_bool_decide.
Qed.

(** What importing a module gives. *)
Lemma import_runs objs layouts bs pid name :
  (forall l a, l ∈ layouts -> a ∈ l.2 -> ann_good a = true) -> Forall builder_good bs ->
  runs (fun s r => Forall2 (fun l n => layout_done l s n) layouts r.1 /\
          Forall2 (fun b d => registered b s d) bs (_defs r.2) /\ refusing r.2 = None /\ iface_name r.2 = name)
    (import_module env objs layouts bs pid name).
Proof using Henv Hknown.
  intros Hl Hb s Hs. unfold import_module. eapply runs_at_bind; [by apply layouts_run|]. intros nodes s1 Hs1 _ Hn.
  unfold build_interface_from_module.
  eapply runs_at_bind with (R := fun s i => Forall2 (fun b d => registered b s d) bs (_defs i) /\ refusing i = None /\ iface_name i = name).
  - eapply runs_at_bind; [by apply register_methods_run|]. intros i s2 Hs2 _ (ds & -> & Hds).
    eexists _, s2. split; [reflexivity|]. split; [done|]. split; [done|].
    destruct (register_events_defs objs s2 (foldl (fun i d => push_def d i) (new_iface pid name) ds)) as (-> & -> & ->).
    destruct (foldl_push ds (new_iface pid name)) as (-> & -> & ->). done.
  - intros i s2 Hs2 He2 Hi. apply runs_at_ret; [done|]. split; [|done].
    eapply list.Forall2_impl; [exact Hn|]. intros l n. by apply layout_done_stable.
Qed.
End run.
