(* ===== verification/GenInstructions.v ===== *)
(** * Instructions of an imported module

    Calling a generated builder sends the discriminator, the arguments in the
    IDL's Borsh format and the declared accounts; the interface the module
    registers decodes those bytes back to the arguments. *)

From Stdlib Require Import ZArith Lia.
From Stdlib Require Import Strings.Ascii Strings.Byte.
From stdpp Require Import base decidable option list gmap strings pretty numbers.
From S2P Require Import Prelude.
From S2P Require Import Bytes.
From S2P Require Import Values.
From S2P Require Import Aliases.
From S2P Require Import Codec.
From S2P Require Import Ir.
From S2P Require Import IrTermination.
From S2P Require Import Borsh.
From S2P Require Import BorshProps.
From S2P Require Import Compile.
From S2P Require Import CompileProps.
From S2P Require Import CompileStable.
From S2P Require Import Interface.
From S2P Require Import Builder.
From S2P Require Import BuilderProps.
From S2P Require Import GenTypes.
From S2P Require Import GenTypesProps.
From S2P Require Import GenIdl.
From S2P Require Import GenEmit.
From S2P Require Import GenEmitProps.
From S2P Require Import GenModule.
From S2P Require Import GenModuleProps.
From S2P Require Import GenBuilders.

#[local] Open Scope string_scope.

(** ** Names *)

Lemma mangle_not_reserved n r : reserved r = true -> mangle n <> r.
Proof.
  unfold mangle. intros Hr. destruct (reserved n) eqn:En; [|congruence]. intros <-.
  apply reserved_no_underscore in Hr. by rewrite (proj2 (strip_underscore_spec (n +:+ "_") n) eq_refl) in Hr.
Qed.

(** ** Calling a builder *)

Section call.
Context `{Native}.

Lemma Forall2_zip_load (ns : list string) (ls : list local) (f : frame) :
  NoDup f.*1 -> length ns = length ls -> (forall n l, (n, l) ∈ zip ns ls -> (n, l) ∈ f) ->
  Forall2 (fun n l => load f n = Ok l) ns ls.
Proof.
  intros Hnd. revert ls. induction ns as [|n ns IH]; intros [|l ls] Hl Hin; try done; constructor.
  - unfold load. rewrite (lookup_NoDup n l); [done|done|]. apply Hin. by left.
  - apply IH; [simpl in Hl; lia|]. intros. apply Hin. by right.
Qed.

Lemma kw_value_of given a : kw_value given (kw_of a) = account_value given a.
Proof.
  unfold kw_value, account_value, kw_of. cbn [kw_name kw_dflt].
  destruct (attr_lookup (mangle (xa_name a)) given); [done|]. destruct (default_address a); [done|]. by destruct (xa_optional a).
Qed.

Lemma kw_values_of given accounts : mapM_res (kw_value given) (kw_of <$> accounts) = mapM_res (account_value given) accounts.
Proof. induction accounts as [|a accounts IH]; [done|]. rewrite fmap_cons. simpl. by rewrite kw_value_of, IH. Qed.

Section frame.
Context (ix : Instruction) (vs : list pyval) (accts : list meta_like)
  (Hnd : NoDup (params ix)) (Hvs : length vs = length (ix_args ix)) (Haccts : length accts = length (ix_accounts ix)).

Definition call_frame : frame :=
  (zip (arg_names (ix_args ix)) (LArg <$> vs) ++ zip (mangle ∘ xa_name <$> ix_accounts ix) (LAccount <$> accts))%list.

Lemma call_frame_keys : call_frame.*1 = params ix.
Proof using Hvs Haccts.
  unfold call_frame, params, arg_names. rewrite fmap_app, !fst_zip by (rewrite !length_fmap; lia). done.
Qed.

Lemma call_frame_args : mapM_res (load_arg call_frame) (arg_names (ix_args ix)) = Ok vs.
Proof using Hnd Hvs Haccts.
  apply mapM_res_Ok. assert (Hl : Forall2 (fun n l => load call_frame n = Ok l) (arg_names (ix_args ix)) (LArg <$> vs)).
  { apply Forall2_zip_load; [by rewrite call_frame_keys|unfold arg_names; by rewrite !length_fmap|].
    intros n l Hin. apply elem_of_app. by left. }
  apply Forall2_fmap_r in Hl. eapply list.Forall2_impl; [exact Hl|]. intros n v Hv. unfold load_arg. by rewrite Hv.
Qed.

Lemma call_frame_slots data :
  (forall a, a ∈ ix_accounts ix -> mangle (xa_name a) <> "data") ->
  mapM_res (load_slot (("data", LBytes data) :: call_frame)) (slot_flags <$> ix_accounts ix) =
  Ok (zip_with (fun a v => mkSlot v (xa_signer a) (xa_writable a) (xa_optional a)) (ix_accounts ix) accts).
Proof using Hnd Hvs Haccts.
  intros Hdata. apply mapM_res_Ok.
  assert (Hl : Forall2 (fun n l => load call_frame n = Ok l) (mangle ∘ xa_name <$> ix_accounts ix) (LAccount <$> accts)).
  { apply Forall2_zip_load; [by rewrite call_frame_keys|by rewrite !length_fmap|]. intros n l Hin. apply elem_of_app. by right. }
  apply Forall2_fmap_l. clear Hnd Hvs. revert Haccts Hl Hdata. generalize call_frame. intros f. revert accts.
  induction (ix_accounts ix) as [|a accounts IH]; intros [|v accts'] Hlen Hl Hdata; try done.
  rewrite !fmap_cons in Hl. inversion Hl as [|? ? ? ? Hv Hl']; subst. cbn [zip_with]. constructor; [|apply IH; [simpl in Hlen; lia|done|intros; apply Hdata; by right]].
  unfold load_slot, slot_flags, load in *. simpl in Hv |- *.
  rewrite decide_False by (intros Hx; apply (Hdata a); [by left|done]). by rewrite Hv.
Qed.
End frame.

(** A builder called with its arguments does what the IDL says. *)
Lemma call_builder_idl us ix b h layouts pid vs given remaining nodes body :
  builder_of us ix b -> ix_fits ix = true -> NoDup (params ix) -> length vs = length (ix_args ix) ->
  (has_args ix = true -> attr_lookup ("_ENC_" +:+ mangle (ix_name ix)) layouts = Some nodes) -> (has_args ix = false -> nodes = []) ->
  encode_ix_layout h (ix_discriminator ix) nodes vs = Ok (ix_discriminator ix ++ body)%list ->
  call_builder h layouts pid b vs given remaining = idl_call pid ix given remaining (ix_discriminator ix ++ body)%list.
Proof.
  intros Hb Hfit Hnd Hvs Hl1 Hl2 He. pose proof (list.Forall2_length _ _ _ (bo_types _ _ _ Hb)) as Hlen. rewrite !length_fmap in Hlen.
  unfold call_builder, idl_call. rewrite Hvs, Hlen, Nat.eqb_refl. cbn [negb].
  rewrite (bo_kws _ _ _ Hb), kw_values_of. destruct (mapM_res (account_value given) (ix_accounts ix)) as [accts|] eqn:Ea; [|done].
  apply mapM_res_length in Ea. cbn [mbind res_bind].
  rewrite (bo_layout _ _ _ Hb), (bo_args _ _ _ Hb), (bo_values _ _ _ Hb), (bo_slots _ _ _ Hb), (bo_disc _ _ _ Hb).
  replace (kw_name <$> (kw_of <$> ix_accounts ix)) with (mangle ∘ xa_name <$> ix_accounts ix) by (by rewrite <- list_fmap_compose).
  fold (call_frame ix vs accts). rewrite call_frame_args by done. 
  apply ix_fits_inv in Hfit as (_ & _ & Hacc & _ & _).
  assert (Hlay : (match (if has_args ix then Some ("_ENC_" +:+ mangle (ix_name ix)) else None) with
    | None => Ok [] | Some l => match attr_lookup l layouts with Some nds => Ok nds | None => Raise (KeyError l) end end) = Ok nodes).
  { destruct (has_args ix); [by rewrite Hl1|by rewrite Hl2]. }
  rewrite Hlay. cbn [mbind res_bind]. rewrite He. cbn [mbind res_bind]. rewrite call_frame_slots; [done|done|done|done|].
  intros a Ha. by apply Hacc, account_fits_inv in Ha as (_ & ? & _).
Qed.
End call.

(** ** Elements that take a byte *)

Definition node_solid (nd : node) : bool :=
  match nd with
  | IntNode _ n _ | FloatNode _ n => (0 <? n)%nat
  | BoolNode | StrNode | BytesNode | PubkeyNode | OptionNode _ | OptNode _ | VecNode _ => true
  | _ => false
  end.

Lemma node_solid_mws nd : node_solid nd = true -> forall fuel h st, exists m, mws (S fuel) h st nd = Ok m /\ (0 < m)%Z.
Proof.
  intros Hn fuel h st. destruct nd; try done; (eexists; split; [reflexivity|]); try lia.
  - cbn [node_solid] in Hn. apply Nat.ltb_lt in Hn. lia.
  - cbn [node_solid] in Hn. apply Nat.ltb_lt in Hn. lia.
Qed.

(** Annotations whose nodes are [node_solid] whatever they are lowered to. *)
Definition ann_plain (a : ann) : bool :=
  match a with AAlias _ | ABool | AStr | ABytes | APubkey | AOpt _ | AUnion _ | AList _ => true | _ => false end.

Lemma ann_plain_solid cache a nd : lowers cache a nd -> ann_plain a = true -> node_solid nd = true.
Proof.
  destruct 1 as [al nb sgn Ha|al nb Ha| | | | | |a nd id n _|a nd _|a t nd Ho _|a nd _|cls nd _]; try done; intros _; simpl.
  - by destruct al; simplify_eq/=.
  - by destruct al; simplify_eq/=.
Qed.

Lemma ann_solid_min s a nd :
  lowers (tcache s) a nd -> ann_solid s a = true -> exists m, min_wire_size (theap s) nd = Ok m /\ (0 < m)%Z.
Proof.
  intros Hl Hs. destruct (ann_plain a) eqn:Ep; [by apply node_solid_mws, (ann_plain_solid (tcache s) a)|].
  destruct Hl as [| | | | | |n|a nd id n Hl|a nd Hl|a t nd Ho Hl|a nd Hl|cls nd Hl]; try done; simpl in Hs.
  - exists n. split; [done|]. by apply Z.ltb_lt.
  - assert (ann_plain a = true /\ (0 < n)%Z) as [Hp Hn] by (destruct a; try done; (split; [done|by apply Z.ltb_lt])).
    apply (ann_plain_solid _ _ _ Hl) in Hp. unfold min_wire_size. rewrite (eq_refl : nsize (FixedArrayNode id nd n) = S (nsize nd)).
    rewrite Nat.add_succ_l. destruct (node_solid_mws nd Hp (nsize nd + hsize (theap s)) (theap s) ([] ++ [KArr id])) as (m & Hm & Hpos).
    change (mws (S (S (nsize nd + hsize (theap s)))) (theap s) [] (FixedArrayNode id nd n))
      with (m ← mws (S (nsize nd + hsize (theap s))) (theap s) ([] ++ [KArr id]) nd; Ok (n * m)%Z).
    rewrite Hm. simpl. exists (n * m)%Z. split; [done|]. nia.
  - by destruct a.
  - rewrite Hl in Hs. destruct (min_wire_size (theap s) nd) as [m|]; [|done]. exists m. split; [done|]. by apply Z.ltb_lt.
Qed.

Lemma ann_floor_vec env s a nd :
  complete env [] s -> lowers (tcache s) a nd -> ann_floor s a = true -> vec_floor (theap s) nd = true.
Proof.
  intros Hc. induction 1 as [| | | | | | |a nd id n Hl IH|a nd Hl IH|a t nd Ho Hl IH|a nd Hl IH|cls nd Hl]; intros Hf; simpl in *; try done; auto.
  - destruct a as [| | | | | | | | | | |args| | |]; try done. simpl in Ho, Hf. apply IH. apply (forallb_elem _ _ _ Hf).
    destruct (List.filter _ args) as [|t' [|]] eqn:Ef; try done. case_match; simplify_eq.
    apply list_elem_of_In. apply (proj1 (filter_In (fun a => negb (is_NoneType a)) t args)). rewrite Ef. by left.
  - apply andb_true_iff in Hf as [H1 H2]. rewrite (IH H2), andb_true_r.
    destruct (ann_solid_min _ _ _ Hl H1) as (m & -> & ?). by apply Z.ltb_lt.
  - destruct (co_filled _ _ _ Hc _ _ Hl) as [?%elem_of_nil|Hfi]; [done|]. unfold filled in Hfi.
    destruct (class_of env cls); [by destruct Hfi as [-> _]|by destruct Hfi as (? & -> & _)..|done].
Qed.

(** ** The codec of the arguments *)

Section args.
Context (types : list (string * TypeDef)) (env : cenv).
Context (Hnames : forall n t, attr_lookup n types = Some t -> td_name t = n)
  (Hdecl : forall n t, attr_lookup n types = Some t -> declares types env t).

(** Fields lowered from annotations of IDL types carry the IDL's Borsh. *)
Lemma args_borsh s d tys anns (fs : fields) :
  complete env [] s -> Forall2 (type_ann types) tys anns -> Forall2 (fun a f => lowers (tcache s) a f.2) anns fs ->
  forall vs bs, borsh_fields (theap s) d fs vs bs <-> idl_fields types d tys vs bs.
Proof using Hnames Hdecl.
  intros Hc Ht Hl. apply agrees_fields. revert tys Ht. induction Hl as [|a f anns fs Ha _ IH]; intros tys Ht; inversion Ht as [|ty ? tys' ? (w & H1 & H2 & H3)]; subst; constructor.
  - exists w. split; [done|]. by eapply (compiled_agrees types env).
  - by apply IH.
Qed.

(** The decoder registered for a method reads back the arguments. *)
Lemma registered_decodes b s d tys vs body :
  sound_state env s -> registered env b s d -> Forall2 (type_ann types) tys (bu_data b).*2 -> NoDup (bu_data b).*1 ->
  builder_floor s b = true -> idl_fields types MAX_DECODE_DEPTH tys vs body ->
  def_decode_args d body = Ok (zip (bu_data b).*1 vs).
Proof using Hnames Hdecl.
  intros [Hc Hw] (_ & _ & _ & s1 & layout & -> & [Hc1 _] & He & Hl) Ht Hnd [Hfl Hfa]%andb_true_iff Hb.
  assert (Hkeys : layout.*1 = (bu_data b).*1).
  { clear -Hl. induction Hl as [|p f ps fs (Hn & _) _ IH]; [done|]. by rewrite !fmap_cons, Hn, IH. }
  assert (Hlow : Forall2 (fun a f => lowers (tcache s) a f.2) (bu_data b).*2 layout).
  { apply Forall2_fmap_l. eapply list.Forall2_impl; [exact Hl|]. intros p f (_ & H1 & _). by eapply lowers_extends. }
  assert (Hread : make_borsh_decoder (theap s1) layout body = make_borsh_decoder (theap s) layout body).
  { unfold make_borsh_decoder. rewrite (read_fields_eq (node_read (theap s1)) (node_read (theap s))); [reflexivity|]. intros f p c Hf. symmetry. apply (node_read_stable env s1 s Hc1 He).
    apply list_elem_of_lookup in Hf as [i Hi]. destruct (Forall2_lookup_r _ _ _ _ _ Hl Hi) as (p' & _ & _ & Hlf & _). by exists p'.2. }
  rewrite Hread, <- Hkeys. apply borsh_decoder_complete; [by destruct Hw|done|by apply (args_borsh s _ _ _ _ Hc Ht Hlow)| |by rewrite Hkeys].
  intros f Hf. apply list_elem_of_lookup in Hf as [i Hi]. destruct (Forall2_lookup_r _ _ _ _ _ Hl Hi) as (p & Hp & _ & Hlf & Hn).
  split; [done|]. apply (ann_floor_vec env s p.2); [done|by eapply lowers_extends|].
  apply (forallb_elem (fun p => ann_floor s p.2) _ _ Hfa). by eapply list_elem_of_lookup_2.
Qed.

(** The layout compiled for a method encodes the arguments. *)
Lemma layout_encodes `{Native} s l nodes tys vs body disc :
  sound_state env s -> layout_done l s nodes -> Forall2 (type_ann types) tys l.2 ->
  idl_fields types MAX_DECODE_DEPTH tys vs body ->
  encode_ix_layout (theap s) disc nodes.2 vs = Ok (disc ++ body)%list.
Proof using Hnames Hdecl.
  intros [Hc Hw] [_ Hl] Ht Hb. set (fs := (fun nd => ("", nd)) <$> nodes.2 : fields).
  assert (Hfs : fs.*2 = nodes.2) by (unfold fs; rewrite <- list_fmap_compose; apply list_fmap_id).
  assert (Hlow : Forall2 (fun a f => lowers (tcache s) a f.2) l.2 fs).
  { apply Forall2_fmap_r. eapply list.Forall2_impl; [exact Hl|]. by intros a nd [? _]. }
  apply (args_borsh s _ _ _ _ Hc Ht Hlow) in Hb. unfold encode_ix_layout.
  rewrite <- Hfs, length_fmap, (borsh_fields_length _ _ _ _ _ Hb), Nat.eqb_refl. simpl.
  eapply write_layout_complete; [by destruct Hw|done|]. intros f Hf. apply list_elem_of_fmap in Hf as (nd & -> & Hnd).
  apply list_elem_of_lookup in Hnd as [i Hi]. by destruct (Forall2_lookup_r _ _ _ _ _ Hl Hi) as (a & _ & _ & Hn).
Qed.
End args.

(** ** Dispatch by discriminator *)

Lemma take_app_cases (d d' body : bytes) :
  take (length d') (d ++ body) = d' -> take (length d') d = d' \/ take (length d) d' = d.
Proof.
  intros H. destruct (Nat.le_gt_cases (length d') (length d)) as [Hl|Hl].
  - left. by rewrite take_app_le in H.
  - right. rewrite <- H, take_take, Nat.min_l by lia. by rewrite take_app_length.
Qed.

Lemma prefix_free_ne (ds : list bytes) i j a b :
  prefix_free ds = true -> ds !! i = Some a -> ds !! j = Some b -> take (length a) b = a -> i = j.
Proof.
  revert i j. induction ds as [|d ds IH]; intros i j Hp Hi Hj Ht; [done|]. simpl in Hp. apply andb_true_iff in Hp as [Hd Hp].
  destruct i as [|i], j as [|j]; simpl in *; simplify_eq; [done| | |f_equal; by eapply IH].
  - apply list_elem_of_lookup_2, (forallb_elem _ _ _ Hd), andb_true_iff in Hj as [Hx _].
    by apply negb_true_iff, bool_decide_eq_false in Hx.
  - apply list_elem_of_lookup_2, (forallb_elem _ _ _ Hd), andb_true_iff in Hi as [_ Hx].
    by apply negb_true_iff, bool_decide_eq_false in Hx.
Qed.

Lemma match_prefix_free defs k d body :
  prefix_free (def_discriminator <$> defs) = true -> defs !! k = Some d -> _match defs (def_discriminator d ++ body)%list = Some d.
Proof.
  intros Hp Hk. assert (Hm : matches (def_discriminator d ++ body)%list d = true).
  { unfold matches. rewrite take_app_length. by apply bool_decide_eq_true. }
  assert (Hother : forall j d', defs !! j = Some d' -> matches (def_discriminator d ++ body)%list d' = true -> j = k).
  { intros j d' Hj Hd'. unfold matches in Hd'. apply bool_decide_eq_true, take_app_cases in Hd'.
    assert ((def_discriminator <$> defs) !! k = Some (def_discriminator d)) as Hk' by (by rewrite list_lookup_fmap, Hk).
    assert ((def_discriminator <$> defs) !! j = Some (def_discriminator d')) as Hj' by (by rewrite list_lookup_fmap, Hj).
    destruct Hd' as [Hd'|Hd']; [by eapply prefix_free_ne|]. symmetry. by eapply prefix_free_ne. }
  pose proof (match_best defs (def_discriminator d ++ body)%list) as Hb.
  destruct (_match defs _) as [d'|].
  - destruct Hb as (l1 & l2 & -> & Hmd & _). specialize (Hother (length l1) d' (list_lookup_middle _ _ _ _ eq_refl) Hmd). subst k.
    by rewrite list_lookup_middle in Hk.
  - rewrite Hb in Hm; [done|]. by eapply list_elem_of_lookup_2.
Qed.

(** ** Well-formed builders *)

Section good.
Context (idl : Idl) (env : cenv) (us : Usage).
Context (Hplain : forall n t, attr_lookup n (type_layouts idl) = Some t -> class_of env n <> CPlain)
  (Hdef : forall n, n ∈ defined us -> is_Some (attr_lookup n (type_layouts idl))).

Lemma ix_ann_type ty a : ix_ann us ty a -> type_ann (type_layouts idl) ty a.
Proof using Hdef.
  intros (w & H1 & H2 & H3). exists w. split_and!; [done|done|]. intros n Hn. by eapply Hdef, covers_defined.
Qed.

Lemma ix_ann_good ty a : no_negative ty = true -> ix_ann us ty a -> ann_good env a = true.
Proof using Hplain Hdef.
  intros Hneg (w & H1 & H2 & H3). apply andb_true_iff. split.
  - eapply ann_wire_known; [exact H2|]. intros n Hn. destruct (Hdef n) as [t Ht]; [by eapply covers_defined|]. by eapply Hplain.
  - eapply ann_wire_wf; [exact H2|]. by eapply idl_wire_nonneg.
Qed.

Lemma builder_of_good ix b : ix_fits ix = true -> builder_of us ix b -> builder_good env b.
Proof using Hplain Hdef.
  intros (_ & Hargs & _ & _ & Hret)%ix_fits_inv [_ _ _ Hser Hr _ Hn Ht Hk _ _ _ _]. split_and!; [done| | |].
  - intros p Hp. apply list_elem_of_lookup in Hp as [i Hi].
    assert ((bu_data b).*1 !! i = Some p.1) as H1 by (by rewrite list_lookup_fmap, Hi).
    assert ((bu_data b).*2 !! i = Some p.2) as H2 by (by rewrite list_lookup_fmap, Hi). split.
    + rewrite Hn in H1. apply list_elem_of_lookup_2, list_elem_of_fmap in H1 as (a & -> & _). by apply mangle_not_reserved.
    + destruct (Forall2_lookup_r _ _ _ _ _ Ht H2) as (ty & Hty & Hia).
      apply list_elem_of_lookup_2, list_elem_of_fmap in Hty as (a & -> & Ha). eapply ix_ann_good; [|done]. by apply Hargs.
  - intros k. rewrite Hk. intros (a & -> & _)%list_elem_of_fmap. by apply mangle_not_reserved.
  - intros a Ha. rewrite Ha in Hr. destruct (ix_returns ix) as [ty|]; inversion Hr; subst. by eapply ix_ann_good.
Qed.
End good.

(** ** The layouts of a module *)

Definition layout_name (ix : Instruction) : string := "_ENC_" +:+ mangle (ix_name ix).

Lemma layouts_keys us ixs bs :
  Forall2 (builder_of us) ixs bs -> NoDup (layout_name <$> ixs) ->
  NoDup (concat (builder_layouts <$> bs)).*1 /\ forall n, n ∈ (concat (builder_layouts <$> bs)).*1 -> n ∈ layout_name <$> ixs.
Proof.
  induction 1 as [|ix b ixs bs Hb _ IH]; intros Hnd; [split; [constructor|by intros n ?%elem_of_nil]|].
  rewrite fmap_cons in Hnd. apply list.NoDup_cons in Hnd as [Hn Hnd]. destruct (IH Hnd) as [H1 H2].
  rewrite !fmap_cons. cbn [concat]. rewrite fmap_app. unfold builder_layouts at 1 3. rewrite (bo_layout _ _ _ Hb).
  destruct (has_args ix); simpl.
  - split; [constructor; [by intros ?%H2|done]|]. intros n [->|Hin]%elem_of_cons; [by left|right; auto].
  - split; [done|]. intros n Hin. right. auto.
Qed.

Lemma layout_elem us ixs bs k ix b :
  Forall2 (builder_of us) ixs bs -> ixs !! k = Some ix -> bs !! k = Some b -> has_args ix = true ->
  (layout_name ix, (bu_data b).*2) ∈ concat (builder_layouts <$> bs).
Proof.
  intros Hf Hk Hb Ha. pose proof (Forall2_lookup_lr _ _ _ _ _ _ Hf Hk Hb) as Hof.
  apply list_elem_of_In, in_concat. exists (builder_layouts b). rewrite <- !list_elem_of_In. split.
  - apply list_elem_of_fmap. exists b. split; [done|]. by eapply list_elem_of_lookup_2.
  - unfold builder_layouts. rewrite (bo_layout _ _ _ Hof), Ha. by apply list_elem_of_singleton.
Qed.

Lemma layout_lookup s layouts nodes l :
  Forall2 (fun l n => layout_done l s n) layouts nodes -> NoDup layouts.*1 -> l ∈ layouts ->
  exists n, attr_lookup l.1 nodes = Some n.2 /\ layout_done l s n.
Proof.
  intros Hf Hnd Hl. assert (Hk : nodes.*1 = layouts.*1).
  { clear -Hf. induction Hf as [|l n ls ns [Hn _] _ IH]; [done|]. by rewrite !fmap_cons, Hn, IH. }
  apply list_elem_of_lookup in Hl as [i Hi]. destruct (Forall2_lookup_l _ _ _ _ _ Hf Hi) as (n & Hn & Hd). exists n. split; [|done].
  apply lookup_NoDup; [by rewrite Hk|]. destruct Hd as [<- _]. apply list_elem_of_lookup_2 in Hn. by destruct n.
Qed.

Lemma idl_fields_length types d tys vs bs : idl_fields types d tys vs bs -> length vs = length tys.
Proof. induction 1; simpl; congruence. Qed.

Lemma layout_names_NoDup idl : idl_fits idl = true -> NoDup (layout_name <$> idl_instructions idl).
Proof.
  unfold idl_fits. rewrite !andb_true_iff. intros [[_ H] _]. apply bool_decide_eq_true in H.
  change layout_name with ((fun n => "_ENC_" +:+ n) ∘ (mangle ∘ ix_name)). rewrite list_fmap_compose.
  apply NoDup_fmap_2; [|done]. intros a b. apply append_inj_l.
Qed.

Lemma render_params idl prov text e :
  render idl prov new_emitter = Ok (text, e) -> forall ix, ix ∈ idl_instructions idl -> NoDup (params ix).
Proof.
  intros (blocks & E & _)%render_inv ix. apply emit_blocks_spec in E as (_ & Hnd & _). rewrite list.Forall_forall in Hnd. apply Hnd.
Qed.

Lemma layouts_good env bs l a :
  Forall (builder_good env) bs -> l ∈ concat (builder_layouts <$> bs) -> a ∈ l.2 -> ann_good env a = true.
Proof.
  intros Hg Hl Ha. apply list_elem_of_In, in_concat in Hl as (ls & Hls%list_elem_of_In & Hin%list_elem_of_In).
  apply list_elem_of_fmap in Hls as (b & -> & Hb). rewrite list.Forall_forall in Hg. destruct (Hg _ Hb) as (_ & Hd & _).
  unfold builder_layouts in Hin. destruct (bu_layout b); [|by apply elem_of_nil in Hin]. apply list_elem_of_singleton in Hin as ->.
  apply list_elem_of_fmap in Ha as (p & -> & Hp). by apply Hd.
Qed.

Lemma registered_discs env us ixs bs s ds :
  Forall2 (builder_of us) ixs bs -> Forall2 (fun b d => registered env b s d) bs ds ->
  def_discriminator <$> ds = ix_discriminator <$> ixs.
Proof.
  intros Hbs. revert ds. induction Hbs as [|ix b ixs bs Hb _ IH]; intros ds Hds; inversion Hds as [|? d ? ds' (_ & Hd & _) Hds']; subst; [done|].
  rewrite !fmap_cons, Hd, (bo_meta_disc _ _ _ Hb). f_equal. by apply IH.
Qed.

(** The two directions of one instruction of an imported module. *)
Section imported_ix.
Context `{Native} (idl : Idl) (env : cenv) (us : Usage) (bs : list builder) (s : tstate)
  (nodes : list (string * list node)) (i : ProgramInterface).
Context (Hfits : idl_fits idl = true) (Hs : sound_state env s) (Hbs : Forall2 (builder_of us) (idl_instructions idl) bs)
  (Hnames : forall n t, attr_lookup n (type_layouts idl) = Some t -> td_name t = n)
  (Hdecls : forall n t, attr_lookup n (type_layouts idl) = Some t -> declares (type_layouts idl) env t)
  (Hdef : forall n, n ∈ defined us -> is_Some (attr_lookup n (type_layouts idl))).
Context (k : nat) (ix : Instruction) (b : builder) (Hk : idl_instructions idl !! k = Some ix) (Hb : bs !! k = Some b)
  (Hnd : NoDup (params ix)).
Context (vs : list pyval) (body : bytes)
  (Hbody : idl_fields (type_layouts idl) MAX_DECODE_DEPTH (ia_type <$> ix_args ix) vs body).

Lemma builder_types : builder_of us ix b /\ Forall2 (type_ann (type_layouts idl)) (ia_type <$> ix_args ix) (bu_data b).*2.
Proof using Hbs Hk Hb Hdef.
  pose proof (Forall2_lookup_lr _ _ _ _ _ _ Hbs Hk Hb) as Hof. split; [done|].
  eapply list.Forall2_impl; [apply (bo_types _ _ _ Hof)|]. intros ? ?. by eapply ix_ann_type.
Qed.

Lemma instruction_call pid given remaining :
  Forall2 (fun l n => layout_done l s n) (concat (builder_layouts <$> bs)) nodes ->
  call_builder (theap s) nodes pid b vs given remaining = idl_call pid ix given remaining (ix_discriminator ix ++ body)%list.
Proof using All.
  intros Hlay. destruct builder_types as [Hof Htys]. pose proof (idl_fields_length _ _ _ _ _ Hbody) as Hlen. rewrite length_fmap in Hlen.
  assert (Hfit : ix_fits ix = true) by (by apply (fits_inv idl Hfits), (list_elem_of_lookup_2 _ k)).
  destruct (has_args ix) eqn:Ha.
  - pose proof (layout_elem _ _ _ _ _ _ Hbs Hk Hb Ha) as Hin.
    destruct (layout_lookup s _ nodes _ Hlay (proj1 (layouts_keys _ _ _ Hbs (layout_names_NoDup _ Hfits))) Hin) as (nd & Hl & Hdone).
    eapply (call_builder_idl _ _ _ _ _ _ _ _ _ nd.2 body Hof); [done|done|done|by intros _|by rewrite Ha|].
    by eapply (layout_encodes (type_layouts idl) env).
  - eapply (call_builder_idl _ _ _ _ _ _ _ _ _ [] body Hof); [done|done|done|by rewrite Ha|done|].
    unfold has_args in Ha. destruct (ix_args ix); [|done]. by inversion Hbody; subst; rewrite app_nil_r.
Qed.

Lemma instruction_decode n :
  prefix_free (ix_discriminator <$> idl_instructions idl) = true -> refusing i = None ->
  Forall2 (fun b d => registered env b s d) bs (_defs i) -> builder_floor s b = true ->
  iface_decode i (ix_discriminator ix ++ body)%list n =
  Ok (mkDecoded (Some (iface_name i)) (Some (ix_name ix)) (zip (arg_names (ix_args ix)) vs)
        (pad_names (mangle_back ∘ (mangle ∘ xa_name) <$> ix_accounts ix) n)).
Proof using Hs Hbs Hnames Hdecls Hdef Hk Hb Hnd Hbody.
  intros Hpf Href Hdefs Hfl. destruct builder_types as [Hof Htys].
  destruct (Forall2_lookup_l _ _ _ _ _ Hdefs Hb) as (d & Hdk & Hreg). unfold iface_decode. rewrite Href.
  pose proof Hreg as (Hdn & Hdd & Hda & _). rewrite (bo_meta_disc _ _ _ Hof) in Hdd. rewrite <- Hdd.
  rewrite (match_prefix_free _ k) by (by rewrite ?(registered_discs _ _ _ _ _ _ Hbs Hdefs)).
  unfold disc_len. rewrite drop_app_length.
  rewrite (registered_decodes (type_layouts idl) env Hnames Hdecls b s d _ vs body Hs Hreg Htys); [| |done|done].
  - cbn [mbind res_bind]. rewrite Hdn, Hda, (bo_name _ _ _ Hof), (bo_kws _ _ _ Hof), (bo_args _ _ _ Hof).
    by rewrite <- list_fmap_compose.
  - rewrite (bo_args _ _ _ Hof). by apply list.NoDup_app in Hnd as (? & _ & _).
Qed.
End imported_ix.


(** ** Witnesses *)

Definition key (b : byte) : bytes := replicate 32 b.
Definition shop_given : list (string * meta_like) := [("payer", MAccount (key Byte.x07)); ("clock", MAccount (key Byte.x08))].

Lemma place_fields : idl_fields (type_layouts shop_idl) MAX_DECODE_DEPTH (ia_type <$> ix_args place_ix) [shop_order] shop_bytes.
Proof.
  apply (IF_cons _ MAX_DECODE_DEPTH (defined_type "Order") (WClass "Order") [] shop_order [] shop_bytes []);
    [by eapply IW_defined|apply shop_format|constructor].
Qed.


(** The module of [shop_idl], executed. *)
Definition shop_env : cenv :=
  {| classes := [("Order", CDataclass [("amount", AAlias u64); ("side", AClass "Side")]); ("Side", CIntEnum [0; 1]%Z)]; vtags := [] |}.
Definition place_builder : builder := make_builder place_ix None [AClass "Order"].

Example shop_decodes :
  match import_module shop_env [] (builder_layouts place_builder) [place_builder] "Shop1111111111111111111111111111" "shop" (tinit shop_env) with
  | (Ok (nodes, i), s') =>
      builder_floor s' place_builder = true /\
      iface_decode i ([Byte.x01; Byte.x02] ++ shop_bytes)%list 3 =
        Ok (mkDecoded (Some "shop") (Some "place") [("order", shop_order)] [Some "payer"; Some "clock"; None])
  | _ => False
  end.
Proof. vm_compute. split; reflexivity. Qed.

(** ** A parameter the body overwrites *)


(** [store(data)] of a program whose discriminator has 32 bytes. *)
Definition store_ix : Instruction := mkInstruction "store" (key Byte.x05) [] [mkIxAccount "data" false true false None] None.

