(* ===== verification/Json.v ===== *)
(** * JSON texts ([json.dumps], [json.loads])

    The manifest of a generated package and the sidecar of a coverage report are
    JSON files.  Texts and strings are lists of code points.  [dumps] prints with
    [indent=2] and [ensure_ascii]; [loads] is the parser of the standard library
    (strict strings, [NaN] and [Infinity] accepted, the last of equal keys wins).
    A number with a fraction or an exponent is kept as its literal. *)

From Stdlib Require Import ZArith Lia.
From stdpp Require Import base decidable option list sorting strings.
From S2P Require Import Prelude.
From S2P Require Import Utf8.
From S2P Require Import Hex.
From S2P Require Import Values.
From S2P Require Import Coverage.
From S2P Require Import CoverageProps.
#[local] Open Scope Z_scope.

Inductive jv :=
  | JvNull
  | JvBool (b : bool)
  | JvInt (z : Z)
  | JvFloat (literal : ustr)
  | JvStr (s : ustr)
  | JvArr (xs : list jv)
  | JvObj (kvs : list (ustr * jv)).

(** ** Printing *)

Definition hex4 (n : Z) : ustr :=
  [hex_code (n / 4096); hex_code ((n / 256) mod 16); hex_code ((n / 16) mod 16); hex_code (n mod 16)].
Definition u_escape (n : Z) : ustr := 92 :: 117 :: hex4 n.

(** The two-character escapes: the letter after the backslash. *)
Definition short_escape (c : Z) : option Z :=
  if c =? 34 then Some 34 else if c =? 92 then Some 92 else if c =? 10 then Some 110
  else if c =? 13 then Some 114 else if c =? 9 then Some 116 else if c =? 12 then Some 102
  else if c =? 8 then Some 98 else None.

Definition json_char (c : Z) : ustr :=
  match short_escape c with
  | Some e => [92; e]
  | None =>
      if (32 <=? c) && (c <=? 126) then [c]
      else if c <? 65536 then u_escape c
      else u_escape (0xD800 + (c - 65536) / 1024) ++ u_escape (0xDC00 + (c - 65536) mod 1024)
  end.

Definition quote (s : ustr) : ustr := 34 :: flat_map json_char s ++ [34].

Definition newline (level : nat) : ustr := 10 :: replicate (2 * level) 32.

(** The items of a list or dict, one per line. *)
Definition block (level : nat) (left right : Z) (items : list ustr) : ustr :=
  match items with
  | [] => [left; right]
  | _ => left :: newline (S level) ++ join (44 :: newline (S level)) items ++ newline level ++ [right]
  end.

Fixpoint print (level : nat) (v : jv) : ustr :=
  match v with
  | JvNull => u "null"%string
  | JvBool true => u "true"%string
  | JvBool false => u "false"%string
  | JvInt z => int_str z
  | JvFloat literal => literal
  | JvStr s => quote s
  | JvArr xs => block level 91 93 (map (print (S level)) xs)
  | JvObj kvs => block level 123 125 (map (fun kv => quote kv.1 ++ [58; 32] ++ print (S level) kv.2) kvs)
  end.

(** [json.dumps(v, indent=2)]. *)
Definition dumps (v : jv) : ustr := print 0 v.

Definition key_le (a b : ustr * jv) : Prop := ustr_le a.1 b.1.
#[global] Instance key_le_dec a b : Decision (key_le a b).
Proof. unfold key_le. apply _. Defined.

(** [sort_keys=True]. *)
Fixpoint sort_keys (v : jv) : jv :=
  match v with
  | JvArr xs => JvArr (map sort_keys xs)
  | JvObj kvs => JvObj (merge_sort key_le (map (fun kv => (kv.1, sort_keys kv.2)) kvs))
  | v => v
  end.

(** ** Parsing *)

Definition decode_error {A} : res A := Raise (ValueError "json"%string).

Definition is_ws (c : Z) : bool := (c =? 32) || (c =? 9) || (c =? 10) || (c =? 13).
Fixpoint skip_ws (s : ustr) : ustr :=
  match s with c :: s' => if is_ws c then skip_ws s' else s | [] => [] end.

(** Four hexadecimal digits. *)
Definition hex4_value (a b c d : Z) : option Z :=
  w ← hex_value a; x ← hex_value b; y ← hex_value c; z ← hex_value d; Some (((w * 16 + x) * 16 + y) * 16 + z).

Definition unescape (e : Z) : option Z :=
  if e =? 34 then Some 34 else if e =? 92 then Some 92 else if e =? 47 then Some 47 else if e =? 98 then Some 8
  else if e =? 102 then Some 12 else if e =? 110 then Some 10 else if e =? 114 then Some 13
  else if e =? 116 then Some 9 else None.

Definition high_surrogate (n : Z) : bool := (0xD800 <=? n) && (n <=? 0xDBFF).
Definition low_surrogate (n : Z) : bool := (0xDC00 <=? n) && (n <=? 0xDFFF).

(** [\uXXXX] at the start of the text. *)
Definition u_sequence (s : ustr) : option (option Z * ustr) :=
  match s with
  | b :: v :: h1 :: h2 :: h3 :: h4 :: r =>
      if (b =? 92) && (v =? 117) then Some (hex4_value h1 h2 h3 h4, r) else None
  | _ => None
  end.

(** A character written [\uXXXX], or as a pair of surrogates. *)
Definition unicode_char (n : Z) (r : ustr) : res (Z * ustr) :=
  if high_surrogate n then
    match u_sequence r with
    | Some (Some m, r') =>
        if low_surrogate m then Ok (65536 + (n - 0xD800) * 1024 + (m - 0xDC00), r') else Ok (n, r)
    | Some (None, _) => decode_error
    | None => if bool_decide (take 2 r = [92; 117]) then decode_error else Ok (n, r)
    end
  else Ok (n, r).

(** The next character of a string, [None] at the closing quote. *)
Definition string_char (s : ustr) : res (option Z * ustr) :=
  match s with
  | [] => decode_error
  | c :: s1 =>
      if c =? 34 then Ok (None, s1)
      else if c =? 92 then
        match s1 with
        | [] => decode_error
        | e :: s2 =>
            if e =? 117 then
              match u_sequence s with
              | Some (Some n, r) => '(d, r) ← unicode_char n r; Ok (Some d, r)
              | _ => decode_error
              end
            else match unescape e with Some d => Ok (Some d, s2) | None => decode_error end
        end
      else if c <? 32 then decode_error
      else Ok (Some c, s1)
  end.

(** The body of a string, after the opening quote. *)
Fixpoint scan_chars (fuel : nat) (s : ustr) : res (ustr * ustr) :=
  match fuel with
  | O => Raise OutOfFuel
  | S fuel =>
      '(c, r) ← string_char s;
      match c with
      | None => Ok ([], r)
      | Some c => '(t, r) ← scan_chars fuel r; Ok (c :: t, r)
      end
  end.
Definition scan_string (s : ustr) : res (ustr * ustr) := scan_chars (S (length s)) s.

Definition digit_char (c : Z) : bool := (48 <=? c) && (c <=? 57).
Fixpoint span_digits (s : ustr) : ustr * ustr :=
  match s with
  | c :: s' => if digit_char c then let '(ds, r) := span_digits s' in (c :: ds, r) else ([], s)
  | [] => ([], [])
  end.

(** [\.[0-9]+], or nothing. *)
Definition fraction (s : ustr) : ustr * ustr :=
  match s with
  | c :: s' => if c =? 46 then match span_digits s' with ([], _) => ([], s) | (ds, r) => (c :: ds, r) end else ([], s)
  | [] => ([], [])
  end.

(** [[eE][-+]?[0-9]+], or nothing. *)
Definition exponent (s : ustr) : ustr * ustr :=
  match s with
  | e :: s' =>
      if (e =? 101) || (e =? 69) then
        let '(sign, s'') := match s' with
                            | c :: t => if (c =? 43) || (c =? 45) then ([c], t) else ([], s')
                            | [] => ([], []) end in
        match span_digits s'' with ([], _) => ([], s) | (ds, r) => (e :: sign ++ ds, r) end
      else ([], s)
  | [] => ([], [])
  end.

(** The integer part: [0], or digits that do not start with [0]. *)
Definition int_part (s : ustr) : option (ustr * ustr) :=
  match s with
  | c :: s' => if c =? 48 then Some ([c], s') else
               match span_digits s with ([], _) => None | p => Some p end
  | [] => None
  end.

Definition scan_number (s : ustr) : option (jv * ustr) :=
  let '(neg, s1) := match s with c :: t => if c =? 45 then (true, t) else (false, s) | [] => (false, []) end in
  '(ds, s2) ← int_part s1;
  let '(fr, s3) := fraction s2 in
  let '(ex, s4) := exponent s3 in
  match fr, ex with
  | [], [] => n ← parse_nat ds; Some (JvInt (if (neg : bool) then - n else n), s4)
  | _, _ => Some (JvFloat ((if neg then [45] else []) ++ ds ++ fr ++ ex), s4)
  end.

(** The words and numbers. *)
Definition scan_atom (s : ustr) : res (jv * ustr) :=
  match removeprefix (u "null"%string) s, removeprefix (u "true"%string) s, removeprefix (u "false"%string) s, scan_number s,
        removeprefix (u "NaN"%string) s, removeprefix (u "Infinity"%string) s, removeprefix (u "-Infinity"%string) s with
  | Some r, _, _, _, _, _, _ => Ok (JvNull, r)
  | _, Some r, _, _, _, _, _ => Ok (JvBool true, r)
  | _, _, Some r, _, _, _, _ => Ok (JvBool false, r)
  | _, _, _, Some p, _, _, _ => Ok p
  | _, _, _, _, Some r, _, _ => Ok (JvFloat (u "NaN"%string), r)
  | _, _, _, _, _, Some r, _ => Ok (JvFloat (u "Infinity"%string), r)
  | _, _, _, _, _, _, Some r => Ok (JvFloat (u "-Infinity"%string), r)
  | _, _, _, _, _, _, _ => decode_error
  end.

(** One value at the start of the text.  In a dict or list the text starts after
    the bracket or comma and the whitespace behind it. *)
Fixpoint scan_value (fuel : nat) (s : ustr) : res (jv * ustr) :=
  match fuel with
  | O => Raise OutOfFuel
  | S fuel =>
      match s with
      | [] => decode_error
      | c :: s' =>
          if c =? 34 then '(t, r) ← scan_string s'; Ok (JvStr t, r)
          else if c =? 123 then
            match skip_ws s' with
            | [] => decode_error
            | d :: r => if d =? 125 then Ok (JvObj [], r)
                        else '(kvs, r) ← scan_members fuel (d :: r); Ok (JvObj (dict_of kvs), r)
            end
          else if c =? 91 then
            match skip_ws s' with
            | [] => decode_error
            | d :: r => if d =? 93 then Ok (JvArr [], r)
                        else '(xs, r) ← scan_elems fuel (d :: r); Ok (JvArr xs, r)
            end
          else scan_atom s
      end
  end
with scan_members (fuel : nat) (s : ustr) : res (list (ustr * jv) * ustr) :=
  match fuel with
  | O => Raise OutOfFuel
  | S fuel =>
      match s with
      | [] => decode_error
      | c :: s' =>
          if c =? 34 then
            '(k, r) ← scan_string s';
            match skip_ws r with
            | [] => decode_error
            | d :: r =>
                if d =? 58 then
                  '(v, r) ← scan_value fuel (skip_ws r);
                  match skip_ws r with
                  | [] => decode_error
                  | e :: r =>
                      if e =? 125 then Ok ([(k, v)], r)
                      else if e =? 44 then '(kvs, r) ← scan_members fuel (skip_ws r); Ok ((k, v) :: kvs, r)
                      else decode_error
                  end
                else decode_error
            end
          else decode_error
      end
  end
with scan_elems (fuel : nat) (s : ustr) : res (list jv * ustr) :=
  match fuel with
  | O => Raise OutOfFuel
  | S fuel =>
      '(v, r) ← scan_value fuel s;
      match skip_ws r with
      | [] => decode_error
      | e :: r =>
          if e =? 93 then Ok ([v], r)
          else if e =? 44 then '(xs, r) ← scan_elems fuel (skip_ws r); Ok (v :: xs, r)
          else decode_error
      end
  end.

(** [json.loads(s)]: one value and nothing else. *)
Definition loads (s : ustr) : res jv :=
  match s with
  | c :: _ => if c =? 0xFEFF then decode_error
              else '(v, r) ← scan_value (2 * length s + 2) (skip_ws s);
                   match skip_ws r with [] => Ok v | _ => decode_error end
  | [] => decode_error
  end.
