(* ===== verification/JsonProps.v ===== *)
(** * JSON: parsing terminates and inverts printing *)

From Stdlib Require Import ZArith Lia.
From stdpp Require Import base decidable option list sorting strings.
From S2P Require Import Prelude.
From S2P Require Import Utf8.
From S2P Require Import Hex.
From S2P Require Import Values.
From S2P Require Import Coverage.
From S2P Require Import CoverageProps.
From S2P Require Import Json.
#[local] Open Scope Z_scope.

(** ** What is left of the text *)

Lemma skip_ws_length s : (length (skip_ws s) <= length s)%nat.
Proof. induction s as [|c s IH]; simpl; [done|]. destruct (is_ws c); simpl; lia. Qed.

Lemma removeprefix_length p s r : removeprefix p s = Some r -> (length r <= length s)%nat.
Proof.
  revert s. induction p as [|c p IH]; intros [|d s]; simpl; intros H; simplify_eq; [done..|].
  destruct (c =? d); [|done]. apply IH in H. lia.
Qed.

Lemma u_sequence_length s m r : u_sequence s = Some (m, r) -> (length r < length s)%nat.
Proof.
  destruct s as [|? [|? [|? [|? [|? [|? s]]]]]]; try done. unfold u_sequence. case_match; intros [= <- <-]. simpl. lia.
Qed.

Lemma unicode_char_length n s c r : unicode_char n s = Ok (c, r) -> (length r <= length s)%nat.
Proof.
  unfold unicode_char. destruct (high_surrogate n); [|by intros [= <- <-]].
  destruct (u_sequence s) as [[[m|] r']|] eqn:E; try done; [|case_match; [done|by intros [= <- <-]]].
  apply u_sequence_length in E. case_match; intros [= <- <-]; lia.
Qed.

Lemma string_char_length s c r : string_char s = Ok (c, r) -> (length r < length s)%nat.
Proof.
  destruct s as [|d s]; [done|]. unfold string_char. case_match; [intros [= <- <-]; simpl; lia|].
  case_match; [|case_match; [done|intros [= <- <-]; simpl; lia]].
  destruct s as [|e s]; [done|]. case_match; [|case_match; [intros [= <- <-]; simpl; lia|done]].
  destruct (u_sequence _) as [[[n|] r']|] eqn:E; try done. apply u_sequence_length in E.
  destruct (unicode_char n r') as [[x y]|] eqn:Ex; [|done]. apply unicode_char_length in Ex.
  simpl in *. intros [= <- <-]. lia.
Qed.

Lemma string_char_returns s : returns (string_char s).
Proof.
  destruct s as [|d s]; [done|]. unfold string_char. case_match; [done|].
  case_match; [|by case_match]. destruct s as [|e s]; [done|]. case_match; [|by case_match].
  destruct (u_sequence _) as [[[n|] r']|]; try done.
  unfold unicode_char. destruct (high_surrogate n); [|done].
  destruct (u_sequence r') as [[[m|] ?]|]; try done; by case_match.
Qed.

Lemma scan_chars_returns fuel s : (length s < fuel)%nat -> returns (scan_chars fuel s).
Proof.
  revert s. induction fuel as [|fuel IH]; intros s Hf; [lia|]. simpl.
  apply returns_bind; [apply string_char_returns|]. intros [[c|] r] E; [|done].
  apply string_char_length in E. apply returns_bind; [apply IH; lia|]. by intros [? ?] _.
Qed.

Lemma scan_chars_length fuel s t r : scan_chars fuel s = Ok (t, r) -> (length r < length s)%nat.
Proof.
  revert s t r. induction fuel as [|fuel IH]; intros s t r; [done|]. simpl.
  destruct (string_char s) as [[[c|] r1]|] eqn:E; try done; simpl; apply string_char_length in E.
  - destruct (scan_chars fuel r1) as [[t' r']|] eqn:E'; [|done]. simpl. intros [= <- <-]. apply IH in E'. lia.
  - by intros [= <- <-].
Qed.

Lemma scan_string_returns s : returns (scan_string s).
Proof. apply scan_chars_returns. lia. Qed.
Lemma scan_string_length s t r : scan_string s = Ok (t, r) -> (length r < length s)%nat.
Proof. apply scan_chars_length. Qed.

Lemma span_digits_length s : (length (span_digits s).2 <= length s)%nat.
Proof.
  induction s as [|c s IH]; simpl; [done|]. destruct (digit_char c); [|done].
  destruct (span_digits s); simpl in *. lia.
Qed.

Lemma int_part_length s ds r : int_part s = Some (ds, r) -> (length r <= length s)%nat.
Proof.
  unfold int_part. destruct s as [|c s]; [done|]. case_match; [intros [= <- <-]; simpl; lia|].
  pose proof (span_digits_length (c :: s)). destruct (span_digits (c :: s)) as [[|] ?]; [done|]. by intros [= <- <-].
Qed.

Lemma fraction_length s : (length (fraction s).2 <= length s)%nat.
Proof.
  destruct s as [|c s]; [done|]. simpl. case_match; [|done].
  pose proof (span_digits_length s). destruct (span_digits s) as [[|] ?]; simpl in *; lia.
Qed.

Lemma exponent_length s : (length (exponent s).2 <= length s)%nat.
Proof.
  destruct s as [|e s]; [done|]. simpl. case_match; [|done].
  destruct s as [|c s]; [done|]. destruct ((c =? 43) || (c =? 45)).
  - pose proof (span_digits_length s). destruct (span_digits s) as [[|] ?]; simpl in *; lia.
  - pose proof (span_digits_length (c :: s)). destruct (span_digits (c :: s)) as [[|] ?]; simpl in *; lia.
Qed.

Lemma scan_number_length s v r : scan_number s = Some (v, r) -> (length r <= length s)%nat.
Proof.
  unfold scan_number.
  destruct (match s with [] => _ | _ => _ end) as [neg s1] eqn:E1.
  assert (length s1 <= length s)%nat as H1 by (destruct s; repeat case_match; simplify_eq; simpl; lia).
  destruct (int_part s1) as [[ds s2]|] eqn:E2; [|done]. apply int_part_length in E2. simpl.
  pose proof (fraction_length s2). destruct (fraction s2) as [fr s3]. simpl in *.
  pose proof (exponent_length s3). destruct (exponent s3) as [ex s4]. simpl in *.
  intros Hr. assert (r = s4) as -> by (destruct fr, ex, (parse_nat ds); simpl in Hr; simplify_eq; done). lia.
Qed.

Lemma scan_atom_length s v r : scan_atom s = Ok (v, r) -> (length r <= length s)%nat.
Proof.
  unfold scan_atom. intros H. repeat case_match; simplify_eq;
    first [by eapply scan_number_length | by eapply removeprefix_length].
Qed.

Lemma scan_atom_returns s : returns (scan_atom s).
Proof. unfold scan_atom. by repeat case_match. Qed.

(** ** Values *)

Lemma scan_lengths fuel :
  (forall s v r, scan_value fuel s = Ok (v, r) -> (length r <= length s)%nat) /\
  (forall s v r, scan_members fuel s = Ok (v, r) -> (length r <= length s)%nat) /\
  (forall s v r, scan_elems fuel s = Ok (v, r) -> (length r <= length s)%nat).
Proof.
  induction fuel as [|fuel (IHv & IHm & IHe)]; [done|]. split_and!; intros s v r H; simpl in H.
  - destruct s as [|c s]; [done|]. case_match.
    { inv_ok. destruct a as [t r']. inv_ok. apply scan_string_length in E. simpl. lia. }
    pose proof (skip_ws_length s) as Hws. repeat case_match; try done; simplify_eq; simpl in *; try lia.
    + inv_ok. destruct a as [kvs r']. inv_ok. apply IHm in E. simpl in *. lia.
    + inv_ok. destruct a as [xs r']. inv_ok. apply IHe in E. simpl in *. lia.
    + by apply scan_atom_length in H.
  - destruct s as [|c s]; [done|]. case_match; [|done]. inv_ok. destruct a as [k r1].
    apply scan_string_length in E. pose proof (skip_ws_length r1). destruct (skip_ws r1) as [|d r2]; [done|].
    case_match; [|done]. inv_ok. destruct a as [x r3]. apply IHv in E0. pose proof (skip_ws_length r2).
    pose proof (skip_ws_length r3). destruct (skip_ws r3) as [|e r4]; [done|]. simpl in *.
    case_match; [simplify_eq; lia|]. case_match; [|done]. inv_ok. destruct a as [kvs r5]. inv_ok.
    apply IHm in E1. pose proof (skip_ws_length r4). lia.
  - inv_ok. destruct a as [x r1]. apply IHv in E. pose proof (skip_ws_length r1).
    destruct (skip_ws r1) as [|e r2]; [done|]. simpl in *. case_match; [simplify_eq; lia|]. case_match; [|done].
    inv_ok. destruct a as [xs r3]. inv_ok. apply IHe in E0. pose proof (skip_ws_length r2). lia.
Qed.

Lemma scan_returns fuel :
  (forall s, (2 * length s + 1 <= fuel)%nat -> returns (scan_value fuel s)) /\
  (forall s, (2 * length s + 2 <= fuel)%nat -> returns (scan_members fuel s)) /\
  (forall s, (2 * length s + 2 <= fuel)%nat -> returns (scan_elems fuel s)).
Proof.
  induction fuel as [|fuel (IHv & IHm & IHe)]; [split_and!; intros; lia|].
  destruct (scan_lengths fuel) as (Lv & Lm & Le). split_and!; intros s Hs; simpl.
  - destruct s as [|c s]; [done|]. pose proof (skip_ws_length s) as Hws. simpl in Hs.
    case_match; [|case_match; [|case_match]].
    + apply returns_bind; [apply scan_string_returns|by intros [? ?] _].
    + destruct (skip_ws s) as [|d r]; [done|]. case_match; [done|]. simpl in *.
      apply returns_bind; [apply IHm; simpl; lia|by intros [? ?] _].
    + destruct (skip_ws s) as [|d r]; [done|]. case_match; [done|]. simpl in *.
      apply returns_bind; [apply IHe; simpl; lia|by intros [? ?] _].
    + apply scan_atom_returns.
  - destruct s as [|c s]; [done|]. simpl in Hs. case_match; [|done].
    apply returns_bind; [apply scan_string_returns|]. intros [k r1] E.
    apply scan_string_length in E. pose proof (skip_ws_length r1). destruct (skip_ws r1) as [|d r2]; [done|].
    case_match; [|done]. pose proof (skip_ws_length r2). simpl in *.
    apply returns_bind; [apply IHv; lia|]. intros [v r3] Ev. apply Lv in Ev.
    pose proof (skip_ws_length r3). destruct (skip_ws r3) as [|e r4]; [done|].
    case_match; [done|]. case_match; [|done]. pose proof (skip_ws_length r4). simpl in *.
    apply returns_bind; [apply IHm; lia|by intros [? ?] _].
  - apply returns_bind; [apply IHv; lia|]. intros [v r1] Ev.
    apply Lv in Ev. pose proof (skip_ws_length r1). destruct (skip_ws r1) as [|e r2]; [done|].
    case_match; [done|]. case_match; [|done]. pose proof (skip_ws_length r2). simpl in *.
    apply returns_bind; [apply IHe; lia|by intros [? ?] _].
Qed.

(** Parsing terminates on every text. *)
Lemma loads_terminates s : returns (loads s).
Proof.
  destruct s as [|c s]; [done|]. unfold loads. case_match; [done|].
  destruct (scan_returns (2 * length (c :: s) + 2)) as (Hv & _ & _). pose proof (skip_ws_length (c :: s)).
  apply returns_bind; [apply Hv; lia|]. intros [v r] _. by destruct (skip_ws r).
Qed.

(** ** Strings *)

Lemma hex_value_code d : 0 <= d < 16 -> hex_value (hex_code d) = Some d.
Proof.
  intros H. unfold hex_value, hex_code. destruct (d <? 10) eqn:E; zify_bools.
  - replace ((48 <=? 48 + d) && (48 + d <=? 57)) with true by lia. f_equal. lia.
  - replace ((48 <=? 87 + d) && (87 + d <=? 57)) with false by lia.
    replace ((97 <=? 87 + d) && (87 + d <=? 102)) with true by lia. f_equal. lia.
Qed.

Lemma u_sequence_escape n r : 0 <= n < 65536 -> u_sequence (u_escape n ++ r) = Some (Some n, r).
Proof.
  intros H. unfold u_escape, hex4, u_sequence, hex4_value. cbn [app].
  assert (0 <= n / 4096 < 16) by (split; [apply Z.div_pos; lia|apply Z.div_lt_upper_bound; lia]).
  rewrite !hex_value_code by first [done | apply Z.mod_pos_bound; lia]. simpl. do 3 f_equal.
  pose proof (Z.div_mod n 16 ltac:(lia)). pose proof (Z.div_mod (n / 16) 16 ltac:(lia)).
  pose proof (Z.div_mod (n / 256) 16 ltac:(lia)).
  assert (n / 16 / 16 = n / 256) as Hd2 by (by rewrite Z.div_div).
  assert (n / 256 / 16 = n / 4096) as Hd3 by (by rewrite Z.div_div). rewrite Hd2 in *. rewrite Hd3 in *. lia.
Qed.

Lemma string_char_escaped n r : 0 <= n < 65536 ->
  string_char (u_escape n ++ r) = ('(d, r) ← unicode_char n r; Ok (Some d, r)).
Proof.
  intros H. pose proof (u_sequence_escape n r H) as Hu. unfold string_char.
  change (u_escape n ++ r) with (92 :: 117 :: hex4 n ++ r) in *. cbn -[u_sequence hex4]. by rewrite Hu.
Qed.

(** The character of a pair of surrogates. *)
Lemma unicode_char_pair c r : 65536 <= c < 1114112 ->
  unicode_char (0xD800 + (c - 65536) / 1024) (u_escape (0xDC00 + (c - 65536) mod 1024) ++ r) = Ok (c, r).
Proof.
  intros H. set (m := c - 65536).
  assert (Hm : 0 <= m / 1024 < 1024) by (split; [apply Z.div_pos; lia|apply Z.div_lt_upper_bound; lia]).
  pose proof (Z.mod_pos_bound m 1024 ltac:(lia)) as Hl.
  unfold unicode_char, high_surrogate, low_surrogate.
  replace ((55296 <=? 55296 + m / 1024) && (55296 + m / 1024 <=? 56319)) with true by lia.
  rewrite u_sequence_escape by lia.
  replace ((56320 <=? 56320 + m mod 1024) && (56320 + m mod 1024 <=? 57343)) with true by lia.
  pose proof (Z.div_mod m 1024 ltac:(lia)). do 2 f_equal. lia.
Qed.

Lemma scalar_range c : scalar c = true -> 0 <= c < 1114112 /\ high_surrogate c = false.
Proof.
  unfold scalar, high_surrogate. intros H. zify_bools. split; [lia|].
  apply not_true_iff_false. intros E. zify_bools. lia.
Qed.

Lemma short_escape_spec c e : short_escape c = Some e -> unescape e = Some c /\ e <> 117.
Proof. unfold short_escape. intros H. repeat case_match; simplify_eq; zify_bools; subst; done. Qed.

Lemma string_char_json c r : scalar c = true -> string_char (json_char c ++ r) = Ok (Some c, r).
Proof.
  intros Hs. apply scalar_range in Hs as [Hr Hh]. unfold json_char.
  destruct (short_escape c) as [e|] eqn:Ee.
  { apply short_escape_spec in Ee as [Hu Hn]. cbn. rewrite (proj2 (Z.eqb_neq _ _) Hn). by rewrite Hu. }
  destruct ((32 <=? c) && (c <=? 126)) eqn:Ep.
  { cbn. unfold short_escape in Ee.
    destruct (c =? 34); [done|]. destruct (c =? 92); [done|]. zify_bools. rewrite (proj2 (Z.ltb_ge _ _)) by lia. done. }
  destruct (c <? 65536) eqn:E6; zify_bools.
  - rewrite string_char_escaped by lia. unfold unicode_char. by rewrite Hh.
  - rewrite <- app_assoc.
    assert (0 <= (c - 65536) / 1024 < 1024) by (split; [apply Z.div_pos; lia|apply Z.div_lt_upper_bound; lia]).
    rewrite string_char_escaped by lia. by rewrite unicode_char_pair by lia.
Qed.

Lemma json_char_length c : (1 <= length (json_char c))%nat.
Proof. unfold json_char. repeat case_match; simpl; lia. Qed.

Definition text_ok (s : ustr) : Prop := Forall (fun c => scalar c = true) s.

Lemma scan_chars_quote fuel s r :
  text_ok s -> (length s < fuel)%nat -> scan_chars fuel (flat_map json_char s ++ 34 :: r) = Ok (s, r).
Proof.
  intros Hs. revert fuel. induction Hs as [|c s Hc Hs IH]; intros fuel Hf; (destruct fuel as [|fuel]; [simpl in Hf; lia|]).
  - done.
  - cbn [flat_map scan_chars]. rewrite <- app_assoc, string_char_json by done. cbn. rewrite IH by (simpl in Hf; lia). done.
Qed.

Lemma flat_map_length s : (length s <= length (flat_map json_char s))%nat.
Proof. induction s as [|c s IH]; simpl; [done|]. rewrite length_app. pose proof (json_char_length c). lia. Qed.

Lemma scan_string_quote s r : text_ok s -> scan_string (flat_map json_char s ++ 34 :: r) = Ok (s, r).
Proof.
  intros Hs. apply scan_chars_quote; [done|]. rewrite length_app. pose proof (flat_map_length s). simpl. lia.
Qed.

(** ** Numbers *)

(** What may follow a number. *)
Definition stops (r : ustr) : Prop :=
  match r with [] => True | c :: _ => digit_char c = false /\ c <> 46 /\ c <> 101 /\ c <> 69 end.

Lemma digit_char_true c : is_digit c -> digit_char c = true.
Proof. unfold is_digit, digit_char. intros H. lia. Qed.

Lemma span_digits_app ds r : Forall is_digit ds -> stops r -> span_digits (ds ++ r) = (ds, r).
Proof.
  intros Hd Hr. induction Hd as [|c ds Hc _ IH]; simpl.
  - destruct r as [|c r]; [done|]. simpl. by destruct Hr as [-> _].
  - by rewrite digit_char_true, IH.
Qed.

Lemma stops_no_fraction r : stops r -> fraction r = ([], r) /\ exponent r = ([], r).
Proof.
  destruct r as [|c r]; [done|]. intros (_ & H1 & H2 & H3). simpl.
  by rewrite (proj2 (Z.eqb_neq _ _) H1), (proj2 (Z.eqb_neq _ _) H2), (proj2 (Z.eqb_neq _ _) H3).
Qed.

(** A number has no leading zero. *)
Lemma digits_head fuel n c ds : 0 < n < 2 ^ Z.of_nat fuel -> digits fuel n = c :: ds -> c <> 48.
Proof.
  revert n c ds. induction fuel as [|fuel IH]; intros n c ds Hn; [simpl in Hn; lia|]. cbn [digits].
  assert (Hp : 2 ^ Z.of_nat (S fuel) = 2 * 2 ^ Z.of_nat fuel) by (rewrite Nat2Z.inj_succ, Z.pow_succ_r; lia).
  destruct (n <? 10) eqn:E; zify_bools; [intros [= <- _]; lia|]. intros He.
  assert (Hq : 0 < n / 10 < 2 ^ Z.of_nat fuel).
  { split; [apply Z.div_str_pos; lia|]. apply Z.div_lt_upper_bound; lia. }
  destruct (digits fuel (n / 10)) as [|d ds'] eqn:Ed.
  - destruct fuel; [simpl in Hq; lia|]. destruct (digits_spec (S fuel) (n / 10)) as (_ & _ & Hne); [lia|lia|]. by rewrite Ed in Hne.
  - injection He as <- <-. by eapply IH.
Qed.

Lemma int_part_nat n r : 0 <= n -> stops r -> int_part (nat_str n ++ r) = Some (nat_str n, r).
Proof.
  intros Hn Hr. destruct (nat_str_spec n Hn) as (Hd & _ & Hne).
  pose proof (span_digits_app _ _ Hd Hr) as Hsp. destruct (nat_str n) as [|c ds] eqn:E; [done|].
  unfold int_part. cbn [app] in *. destruct (c =? 48) eqn:Ec.
  - apply Z.eqb_eq in Ec as ->. destruct (decide (n = 0)) as [->|Hz]; [by injection E as <-|].
    exfalso. unfold nat_str in E. eapply digits_head in E; [done|]. split; [lia|].
    rewrite Nat2Z.inj_succ, Z2Nat.id by apply Z.log2_nonneg. apply Z.log2_spec. lia.
  - by rewrite Hsp.
Qed.

(** The numbers a report or manifest holds are read back. *)
Lemma scan_number_int z r : stops r -> scan_number (int_str z ++ r) = Some (JvInt z, r).
Proof.
  intros Hr. unfold scan_number, int_str. destruct (stops_no_fraction r Hr) as [Hf He].
  destruct (z <? 0) eqn:E; zify_bools.
  - cbn [app]. rewrite Z.eqb_refl, int_part_nat by (done || lia). simpl. rewrite Hf, He.
    destruct (nat_str_spec (- z)) as (_ & -> & _); [lia|]. simpl. by rewrite Z.opp_involutive.
  - destruct (nat_str_spec z) as (Hd & Hp & Hne); [lia|].
    pose proof (int_part_nat z r ltac:(lia) Hr) as Hi. destruct (nat_str z) as [|c ds] eqn:En; [done|].
    cbn [app] in *. assert (c =? 45 = false) as ->.
    { inversion Hd as [|? ? Hc]; subst. unfold is_digit in Hc. lia. }
    rewrite Hi. cbn -[parse_nat]. rewrite Hf, He. by rewrite Hp.
Qed.

(** ** Values *)

Fixpoint jvsize (v : jv) : nat :=
  match v with
  | JvArr xs => S (list_sum (map (fun x => S (jvsize x)) xs))
  | JvObj kvs => S (list_sum (map (fun kv => S (jvsize kv.2)) kvs))
  | _ => 1
  end.

(** Values that can be written: no floats, texts of scalars, distinct keys. *)
Inductive jv_ok : jv -> Prop :=
  | ok_null : jv_ok JvNull
  | ok_bool b : jv_ok (JvBool b)
  | ok_int z : jv_ok (JvInt z)
  | ok_str s : text_ok s -> jv_ok (JvStr s)
  | ok_arr xs : Forall jv_ok xs -> jv_ok (JvArr xs)
  | ok_obj kvs : NoDup kvs.*1 -> Forall (fun kv => text_ok kv.1 /\ jv_ok kv.2) kvs -> jv_ok (JvObj kvs).

(** Printed values start with a character that is not a space. *)
Definition starts (s : ustr) : Prop := exists c t, s = c :: t /\ is_ws c = false.

Lemma starts_app s r : starts s -> starts (s ++ r).
Proof. intros (c & t & -> & Hc). by exists c, (t ++ r). Qed.

Lemma skip_ws_starts s : starts s -> skip_ws s = s.
Proof. intros (c & t & -> & Hc). simpl. by rewrite Hc. Qed.

Lemma skip_newline level s : starts s -> skip_ws (newline level ++ s) = s.
Proof.
  intros Hs. unfold newline. cbn [app skip_ws]. change (is_ws 10) with true. cbv iota.
  generalize (2 * level)%nat. intros n. induction n as [|n IH]; [by apply skip_ws_starts|]. done.
Qed.

Lemma int_str_first z : exists c t, int_str z = c :: t /\ (c = 45 \/ is_digit c).
Proof.
  unfold int_str. destruct (z <? 0) eqn:E; zify_bools; [eexists _, _; split; [reflexivity|by left]|].
  destruct (nat_str_spec z) as (Hd & _ & Hne); [lia|]. destruct (nat_str z) as [|c ds]; [done|].
  inversion Hd; subst. eexists _, _. split; [reflexivity|by right].
Qed.

Lemma print_first level v : jv_ok v -> exists c t, print level v = c :: t /\ is_ws c = false /\ c <> 93 /\ c <> 65279.
Proof.
  destruct 1 as [|[]|z|s Hs|xs _|kvs _ _]; try by eexists _, _.
  - destruct (int_str_first z) as (c & t & E & Hc). exists c, t. unfold is_digit in Hc.
    split_and!; [done|unfold is_ws; lia|lia|lia].
  - simpl. unfold block. destruct (map _ xs); by eexists _, _.
  - simpl. unfold block. destruct (map _ kvs); by eexists _, _.
Qed.

Lemma print_starts level v : jv_ok v -> starts (print level v).
Proof. intros Hv. destruct (print_first level v Hv) as (c & t & E & Hc & _). by exists c, t. Qed.

Lemma newline_stops level s : stops (newline level ++ s).
Proof. done. Qed.

Lemma scan_atom_int z r : stops r -> scan_atom (int_str z ++ r) = Ok (JvInt z, r).
Proof.
  intros Hr. unfold scan_atom. rewrite scan_number_int by done.
  destruct (int_str_first z) as (c & t' & -> & Hc). unfold is_digit in Hc. cbn [app]. set (t := t' ++ r).
  assert (Hn : forall d p, d > 57 -> removeprefix (d :: p) (c :: t) = None).
  { intros d p Hd. simpl. by replace (d =? c) with false by lia. }
  change (u "null"%string) with (110 :: u "ull"%string). change (u "true"%string) with (116 :: u "rue"%string).
  change (u "false"%string) with (102 :: u "alse"%string). by rewrite !Hn by lia.
Qed.

(** A value that is read back wherever it stands. *)
Definition reads_back (level : nat) (v : jv) : Prop :=
  forall fuel r, (jvsize v <= fuel)%nat -> stops r -> scan_value fuel (print level v ++ r) = Ok (v, r).

Lemma join_cons2 sep a b l : join sep (a :: b :: l) = a ++ sep ++ join sep (b :: l).
Proof. done. Qed.

Lemma join_starts sep a l : starts a -> starts (join sep (a :: l)).
Proof. intros Ha. destruct l as [|b l]; [done|]. rewrite join_cons2. by apply starts_app. Qed.

Lemma scan_elems_print level l0 x xs fuel r :
  Forall jv_ok (x :: xs) -> Forall (reads_back level) (x :: xs) ->
  (list_sum (map (fun x => S (jvsize x)) (x :: xs)) <= fuel)%nat ->
  scan_elems fuel (join (44 :: newline level) (map (print level) (x :: xs)) ++ newline l0 ++ 93 :: r) = Ok (x :: xs, r).
Proof.
  revert x fuel. induction xs as [|y xs IH]; intros x fuel Hok Hrb Hf;
    (destruct fuel as [|fuel]; [simpl in Hf; lia|]);
    apply list.Forall_cons in Hok as [Hx Hok]; apply list.Forall_cons in Hrb as [Rx Hrb];
    simpl in Hf; cbn [scan_elems].
  - cbn [map join]. rewrite Rx by (lia || apply newline_stops). cbn -[newline skip_ws].
    rewrite skip_newline by by eexists _, _. done.
  - cbn [map]. rewrite join_cons2, <- !app_assoc. cbn [app].
    rewrite Rx by (lia || by split). cbn -[newline skip_ws join map scan_elems].
    change (skip_ws (44 :: ?s)) with (44 :: s). cbn -[newline skip_ws join map scan_elems].
    change (print level y :: map (print level) xs) with (map (print level) (y :: xs)).
    rewrite skip_newline.
    + rewrite IH; [done|done|done|simpl; lia].
    + apply starts_app, join_starts, print_starts. by apply list.Forall_cons in Hok as [? _].
Qed.

Lemma scan_members_print level l0 kv kvs fuel r :
  Forall (fun kv => text_ok kv.1 /\ jv_ok kv.2) (kv :: kvs) -> Forall (fun kv => reads_back level kv.2) (kv :: kvs) ->
  (list_sum (map (fun kv => S (jvsize kv.2)) (kv :: kvs)) <= fuel)%nat ->
  scan_members fuel (join (44 :: newline level) (map (fun kv => quote kv.1 ++ [58; 32] ++ print level kv.2) (kv :: kvs)) ++
                     newline l0 ++ 125 :: r) = Ok (kv :: kvs, r).
Proof.
  assert (Hhead : forall (kv : ustr * jv) fuel s,
    text_ok kv.1 -> jv_ok kv.2 -> reads_back level kv.2 -> (jvsize kv.2 <= fuel)%nat -> stops s ->
    scan_members (S fuel) ((quote kv.1 ++ [58; 32] ++ print level kv.2) ++ s) =
    match skip_ws s with
    | [] => decode_error
    | e :: r => if e =? 125 then Ok ([kv], r)
                else if e =? 44 then '(kvs, r) ← scan_members fuel (skip_ws r); Ok (kv :: kvs, r)
                else decode_error
    end).
  { intros [k v] f s Hk Hv Hrb Hf Hs. unfold quote. cbn [fst snd] in *. rewrite <- !app_assoc. cbn [app].
    rewrite <- !app_assoc. cbn [app scan_members]. rewrite Z.eqb_refl, scan_string_quote by done.
    cbn -[skip_ws print scan_members].
    change (skip_ws (58 :: ?x)) with (58 :: x). cbn -[skip_ws print scan_members].
    change (skip_ws (32 :: ?x)) with (skip_ws x).
    rewrite skip_ws_starts by by apply starts_app, print_starts. by rewrite Hrb. }
  revert kv fuel. induction kvs as [|kv' kvs IH]; intros kv fuel Hok Hrb Hf;
    (destruct fuel as [|fuel]; [simpl in Hf; lia|]);
    apply list.Forall_cons in Hok as [[Hk Hv] Hok]; apply list.Forall_cons in Hrb as [Rx Hrb]; simpl in Hf.
  - cbn [map join]. rewrite Hhead by (done || lia || apply newline_stops).
    rewrite skip_newline by by eexists _, _. by destruct kv.
  - cbn [map]. rewrite join_cons2, <- (app_assoc (quote _ ++ _)), Hhead by (done || lia || by split).
    change (((44 :: newline level) ++ ?a) ++ ?b) with (44 :: (newline level ++ a) ++ b).
    change (skip_ws (44 :: ?s)) with (44 :: s). cbv iota.
    change (44 =? 125) with false. change (44 =? 44) with true. cbv iota.
    rewrite <- app_assoc, skip_newline.
    + specialize (IH kv' fuel Hok Hrb ltac:(simpl; lia)). cbn [map] in IH. by rewrite IH.
    + apply starts_app, join_starts. by eexists _, _.
Qed.

Lemma jvsize_arr x xs : x ∈ xs -> (jvsize x < jvsize (JvArr xs))%nat.
Proof. intros Hx. pose proof (list_sum_ge (fun x => S (jvsize x)) _ _ Hx). simpl in *. lia. Qed.
Lemma jvsize_obj kv kvs : kv ∈ kvs -> (jvsize kv.2 < jvsize (JvObj kvs))%nat.
Proof. intros Hx. pose proof (list_sum_ge (fun kv : ustr * jv => S (jvsize kv.2)) _ _ Hx). simpl in *. lia. Qed.

(** A list or dict is read by its loop. *)
Lemma scan_arr fuel level s c t : s = c :: t -> is_ws c = false -> c <> 93 ->
  scan_value (S fuel) (91 :: newline level ++ s) = ('(xs, r) ← scan_elems fuel s; Ok (JvArr xs, r)).
Proof.
  intros -> Hc Hn. cbn [scan_value]. change (91 =? 34) with false. change (91 =? 123) with false.
  change (91 =? 91) with true. cbv iota. rewrite skip_newline by by exists c, t.
  by rewrite (proj2 (Z.eqb_neq _ _) Hn).
Qed.
Lemma scan_obj fuel level s c t : s = c :: t -> is_ws c = false -> c <> 125 ->
  scan_value (S fuel) (123 :: newline level ++ s) = ('(kvs, r) ← scan_members fuel s; Ok (JvObj (dict_of kvs), r)).
Proof.
  intros -> Hc Hn. cbn [scan_value]. change (123 =? 34) with false. change (123 =? 123) with true.
  cbv iota. rewrite skip_newline by by exists c, t. by rewrite (proj2 (Z.eqb_neq _ _) Hn).
Qed.

Lemma join_head sep a l c t : a = c :: t -> exists t', join sep (a :: l) = c :: t'.
Proof. intros ->. destruct l as [|b l]; [by exists t|]. by eexists. Qed.

Lemma print_reads_back n : forall level v, (jvsize v < n)%nat -> jv_ok v -> reads_back level v.
Proof.
  induction n as [|n IH]; intros level v Hn Hv fuel r Hf Hr; [lia|].
  destruct fuel as [|fuel]; [destruct v; simpl in Hf; lia|].
  destruct Hv as [|[]|z|s Hs|xs Hxs|kvs Hnd Hkvs]; try done.
  - simpl print. pose proof (scan_atom_int z r Hr) as Ha. destruct (int_str_first z) as (c & t & E & Hc).
    cbn [scan_value]. revert Ha. rewrite E. cbn [app]. intros Ha. unfold is_digit in Hc.
    by replace (c =? 34) with false by lia; replace (c =? 123) with false by lia; replace (c =? 91) with false by lia.
  - simpl print. unfold quote. cbn [app scan_value]. rewrite Z.eqb_refl, <- app_assoc. cbn [app].
    by rewrite scan_string_quote.
  - cbn [print]. unfold block. destruct xs as [|x xs]; [done|]. cbn [map app].
    pose proof Hxs as Hxs'. apply list.Forall_cons in Hxs' as [Hx _].
    destruct (print_first (S level) x Hx) as (c & t & E & Hc & H93 & _).
    destruct (join_head (44 :: newline (S level)) _ (map (print (S level)) xs) c t E) as [t' Ej].
    rewrite <- !app_assoc. rewrite (scan_arr _ _ _ c (t' ++ newline level ++ [93] ++ r)); [|by rewrite Ej|done|done].
    assert (Hrb : Forall (reads_back (S level)) (x :: xs)).
    { apply list.Forall_forall. intros y Hy. apply IH; [apply jvsize_arr in Hy; lia|by eapply list.Forall_forall in Hxs]. }
    pose proof (scan_elems_print (S level) level x xs fuel r Hxs Hrb ltac:(cbn [jvsize] in Hf; lia)) as He.
    cbn [map] in He. cbn [app]. by rewrite He.
  - cbn [print]. unfold block. destruct kvs as [|kv kvs]; [done|]. cbn [map app].
    match goal with |- context [join ?sep (?a :: ?l)] => destruct (join_head sep a l 34 _ eq_refl) as [t' Ej] end.
    rewrite <- !app_assoc. rewrite (scan_obj _ _ _ 34 (t' ++ newline level ++ [125] ++ r)); [|by rewrite Ej|done|done].
    assert (Hrb : Forall (fun kv => reads_back (S level) kv.2) (kv :: kvs)).
    { apply list.Forall_forall. intros y Hy. apply IH; [apply jvsize_obj in Hy; lia|].
      by eapply list.Forall_forall in Hkvs as [_ ?]. }
    pose proof (scan_members_print (S level) level kv kvs fuel r Hkvs Hrb ltac:(cbn [jvsize] in Hf; lia)) as He.
    cbn [map] in He. cbn [app] in *. rewrite He. simpl. by rewrite dict_of_NoDup.
Qed.

(** ** The fuel of [loads] is enough *)

Lemma length_join sep ls : (length sep >= 1)%nat -> ls <> [] ->
  (list_sum (map length ls) + length ls <= length (join sep ls) + 1)%nat.
Proof.
  intros Hsep. induction ls as [|a [|b ls] IH]; intros Hne; [done|simpl; lia|].
  rewrite join_cons2, !length_app. specialize (IH ltac:(done)). cbn [map list_sum length] in *. simpl in *. lia.
Qed.

Lemma list_sum_map_le {A} (f g : A -> nat) l : (forall x, x ∈ l -> (f x <= g x)%nat) -> (list_sum (map f l) <= list_sum (map g l))%nat.
Proof. intros H. induction l as [|x l IH]; simpl; [done|]. pose proof (H x ltac:(left)). specialize (IH ltac:(intros; apply H; by right)). lia. Qed.

Lemma list_sum_map_double {A} (f : A -> nat) l : list_sum (map (fun x => 2 * f x)%nat l) = (2 * list_sum (map f l))%nat.
Proof. induction l as [|x l IH]; [done|]. cbn [map]. change (list_sum (?a :: ?b)) with (a + list_sum b)%nat. lia. Qed.

Lemma list_sum_map_S {A} (f : A -> nat) l : list_sum (map (fun x => S (f x)) l) = (list_sum (map f l) + length l)%nat.
Proof. induction l as [|x l IH]; simpl; [done|]. lia. Qed.

Lemma length_block level a b items : (list_sum (map length items) + length items <= length (block level a b items))%nat.
Proof.
  unfold block. destruct items as [|i items]; [simpl; lia|].
  pose proof (length_join (44 :: newline (S level)) (i :: items) ltac:(simpl; lia) ltac:(done)).
  cbn [length]. rewrite !length_app. simpl in *. lia.
Qed.

Lemma jvsize_print n : forall level v, (jvsize v < n)%nat -> jv_ok v -> (jvsize v <= 2 * length (print level v))%nat.
Proof.
  induction n as [|n IH]; intros level v Hn Hv; [lia|].
  destruct (print_first level v Hv) as (c & t & E & _).
  assert (Hpos : (1 <= length (print level v))%nat) by (rewrite E; simpl; lia).
  destruct Hv as [| | |s Hs|xs Hxs|kvs Hnd Hkvs]; try (cbn [jvsize]; lia).
  - cbn [print] in *. cbn [jvsize]. rewrite list_sum_map_S.
    pose proof (length_block level 91 93 (map (print (S level)) xs)) as Hb. rewrite map_map, length_map in Hb.
    assert (list_sum (map jvsize xs) <= list_sum (map (fun x => 2 * length (print (S level) x)) xs))%nat as Hle.
    { apply list_sum_map_le. intros x Hx. apply IH; [apply jvsize_arr in Hx; lia|by eapply list.Forall_forall in Hxs]. }
    rewrite list_sum_map_double in Hle. destruct xs as [|x xs]; [simpl; lia|]. cbn [length] in *. lia.
  - cbn [print] in *. cbn [jvsize]. rewrite list_sum_map_S.
    pose proof (length_block level 123 125 (map (fun kv => quote kv.1 ++ [58; 32] ++ print (S level) kv.2) kvs)) as Hb.
    rewrite map_map, length_map in Hb.
    assert (list_sum (map (fun kv : ustr * jv => jvsize kv.2) kvs) <=
      list_sum (map (fun kv => 2 * length (quote kv.1 ++ [58%Z; 32%Z] ++ print (S level) kv.2)) kvs))%nat as Hle.
    { apply list_sum_map_le. intros kv Hx.
      assert (jv_ok kv.2) as Hkv by (by eapply list.Forall_forall in Hkvs as [_ ?]).
      apply jvsize_obj in Hx. pose proof (IH (S level) kv.2 ltac:(lia) Hkv). rewrite !length_app. lia. }
    rewrite list_sum_map_double in Hle. destruct kvs as [|kv kvs]; [simpl; lia|]. cbn [length] in *. lia.
Qed.

(** What is written is read back, with or without the final newline. *)
Lemma loads_dumps v tail : jv_ok v -> tail = [] \/ tail = [10] -> loads (dumps v ++ tail) = Ok v.
Proof.
  intros Hv Ht. pose proof (jvsize_print (S (jvsize v)) 0 v ltac:(lia) Hv) as Hsz. unfold dumps.
  assert (Hst : stops tail) by by destruct Ht as [->| ->].
  pose proof (print_reads_back (S (jvsize v)) 0 v ltac:(lia) Hv (2 * length (print 0 v ++ tail) + 2)%nat tail) as Hrb.
  rewrite length_app in Hrb. specialize (Hrb ltac:(lia) Hst). rewrite <- length_app in Hrb.
  destruct (print_first 0 v Hv) as (c & t & E & Hc & _ & Hbom). rewrite E in *. cbn [app] in *. unfold loads.
  rewrite (proj2 (Z.eqb_neq _ _) Hbom).
  rewrite skip_ws_starts by by exists c, (t ++ tail). rewrite Hrb. cbn. by destruct Ht as [->| ->].
Qed.
