(* ===== verification/GenRun.v ===== *)
(** * [wake-sol gen] ([_gen/run.py])

    Discovery of the IDL files, module names, provenance, the files of the
    package, writing them and the [--check] gate.  Module texts and the manifest
    are texts of code points; names and paths are UTF-8 strings.  What is printed
    on stderr is kept, also when the run fails.  Slugs treat characters beyond
    ASCII as letters. *)

From Stdlib Require Import ZArith Lia.
From Stdlib Require Import Strings.Ascii Strings.Byte.
From stdpp Require Import base decidable option list gmap strings pretty numbers sorting.
From S2P Require Import Prelude.
From S2P Require Import Bytes.
From S2P Require Import Utf8.
From S2P Require Import Hex.
From S2P Require Import Values.
From S2P Require Import Fuzzing.
From S2P Require Import Coverage.
From S2P Require Import GenTypes.
From S2P Require Import GenIdl.
From S2P Require Import GenEmit.
From S2P Require Import Json.

#[local] Open Scope string_scope.

(** ** Text *)

(** The text a UTF-8 string stands for, and back. *)
Definition text_of (s : string) : ustr := default [] (utf8_decode (String.list_byte_of_string s)).
Definition of_text (t : ustr) : option string := String.string_of_list_byte <$> utf8_encode t.

(** A parsed document with its strings in UTF-8.  A string with a lone surrogate
    has no such form. *)
Fixpoint json_of (v : jv) : option json :=
  match v with
  | JvNull => Some JNull
  | JvBool b => Some (JBool b)
  | JvInt z => Some (JInt z)
  | JvFloat _ => Some JFloat
  | JvStr s => JStr <$> of_text s
  | JvArr xs =>
      JArr <$> (fix go (xs : list jv) : option (list json) :=
        match xs with [] => Some [] | x :: xs => y ← json_of x; ys ← go xs; Some (y :: ys) end) xs
  | JvObj kvs =>
      JObj <$> (fix go (kvs : list (ustr * jv)) : option (list (string * json)) :=
        match kvs with
        | [] => Some []
        | (k, x) :: kvs => k ← of_text k; y ← json_of x; ys ← go kvs; Some ((k, y) :: ys)
        end) kvs
  end.

(** ** Output on stderr and errors *)

Definition G (A : Type) : Type := list string -> res A * list string.
#[global] Instance G_ret : MRet G := fun A a err => (Ok a, err).
#[global] Instance G_bind : MBind G := fun A B f m err =>
  match m err with (Ok a, err) => f a err | (Raise x, err) => (Raise x, err) end.
Definition glift {A} (r : res A) : G A := fun err => (r, err).
Definition eprint (line : string) : G unit := fun err => (Ok tt, err ++ [line])%list.

Definition _log (verbose : bool) (msg : string) : G unit := if verbose then eprint ("[gen] " +:+ msg) else mret tt.
Definition _warn (msg : string) : G unit := eprint ("[gen] warning: " +:+ msg).

Fixpoint gfold {A S} (f : S -> A -> G S) (s : S) (xs : list A) : G S :=
  match xs with [] => mret s | x :: xs => s ← f s x; gfold f s xs end.

(** ** Discovery *)

Record idl_file := mkIdlFile { if_path : string; if_stem : string; if_bytes : bytes }.
(** An IDL root: the [*.json] files in it, if it exists. *)
Record idl_root := mkIdlRoot { rt_path : string; rt_files : option (list idl_file) }.

Definition path_le (a b : idl_file) : Prop := str_le (if_path a) (if_path b).
#[global] Instance path_le_dec a b : Decision (path_le a b).
Proof. unfold path_le. apply _. Defined.

Abbreviation found := (list (string * (Idl * string))).

(** A program: its IDL, the path it came from and the source. *)
Record program := mkProgram { pg_idl : Idl; pg_path : string; pg_source : string }.
Abbreviation discovered := (list (string * program)).

(** Files by name. *)
Abbreviation package := (list (string * ustr)).

Section Generator.
(** [hashlib.sha256(b).digest()]. *)
Variable sha256 : bytes -> bytes.

(** [json.loads(raw_bytes)] of a UTF-8 document, with or without a mark. *)
Definition parse_bytes (raw : bytes) : res json :=
  let body := match raw with xef :: xbb :: xbf :: r => r | _ => raw end in
  match utf8_decode body with
  | None => Raise (ValueError "utf-8")
  | Some t => v ← loads t; match json_of v with Some j => Ok j | None => Raise UnicodeEncodeError end
  end.

Definition load_file (f : idl_file) : res Idl :=
  doc ← parse_bytes (if_bytes f);
  load_idl sha256 doc (if_stem f) (default "" (of_text (bytes_hex (sha256 (if_bytes f))))).

Definition collect_file (label : string) (verbose : bool) (out : found) (f : idl_file) : G found :=
  idl ← glift (load_file f);
  match attr_lookup (idl_address idl) out with
  | Some (_, first) =>
      glift (Raise (GenError ("duplicate address " +:+ idl_address idl +:+ " under " +:+ label +:+ ": " +:+ first +:+
                              " and " +:+ if_path f)))
  | None =>
      _log verbose ("discovered " +:+ idl_address idl +:+ " <- " +:+ if_path f +:+ " (" +:+ label +:+ ")");;
      mret (dict_set (idl_address idl) (idl, if_path f) out)
  end.

Definition collect_root (label : string) (verbose : bool) (out : found) (r : idl_root) : G found :=
  match rt_files r with
  | None => _warn (label +:+ " root " +:+ rt_path r +:+ " does not exist (skipping)");; mret out
  | Some files => gfold (collect_file label verbose) out (merge_sort path_le files)
  end.

Definition _collect (roots : list idl_root) (label : string) (verbose : bool) : G found :=
  gfold (collect_root label verbose) [] roots.

Definition merge_target (merged : discovered) (p : string * (Idl * string)) : G discovered :=
  let '(addr, (idl, path)) := p in
  (match attr_lookup addr merged with
   | Some _ => _warn ("address " +:+ addr +:+ " present under both roots; target/idl wins")
   | None => mret tt
   end);;
  mret (dict_set addr (mkProgram idl path "target/idl") merged).

Definition _discover (target_roots dep_roots : list idl_root) (verbose : bool) : G discovered :=
  deps ← _collect dep_roots "idls" verbose;
  targets ← _collect target_roots "target/idl" verbose;
  gfold merge_target ((fun p => (p.1, mkProgram p.2.1 p.2.2 "idls")) <$> deps) targets.

(** ** Module names *)

Definition slug_char (c : ascii) : ascii :=
  let n := N_of_ascii c in
  if (is_ascii_digit c || ((65 <=? n) && (n <=? 90)) || ((97 <=? n) && (n <=? 122)) || (n =? 95) || (128 <=? n))%N
  then c else "_"%char.

Fixpoint lstrip_us (l : list ascii) : list ascii :=
  match l with c :: l' => if decide (c = "_"%char) then lstrip_us l' else l | [] => [] end.
Definition strip_us (l : list ascii) : list ascii := reverse (lstrip_us (reverse (lstrip_us l))).

(** [slug.replace("__", "_")]. *)
Fixpoint replace_uu (l : list ascii) : list ascii :=
  match l with
  | a :: ((b :: l') as t) =>
      if decide (a = "_"%char /\ b = "_"%char) then "_"%char :: replace_uu l' else a :: replace_uu t
  | l => l
  end.

Fixpoint has_uu (l : list ascii) : bool :=
  match l with
  | a :: ((b :: _) as t) => bool_decide (a = "_"%char /\ b = "_"%char) || has_uu t
  | _ => false
  end.

(** [while "__" in slug]: every turn shortens the text, its length is fuel
    enough. *)
Fixpoint collapse (fuel : nat) (l : list ascii) : list ascii :=
  match fuel with
  | O => l
  | S fuel => if has_uu l then collapse fuel (replace_uu l) else l
  end.

Definition _slugify (name : string) : string :=
  let l := ascii_lower <$> strip_us (slug_char <$> String.list_ascii_of_string name) in
  let slug := match String.string_of_list_ascii (collapse (length l) l) with "" => "program" | s => s end in
  match slug with
  | String c _ => if is_ascii_digit c then "p_" +:+ slug else slug
  | EmptyString => slug
  end.

(** [by_slug.setdefault(slug, []).append(addr)]. *)
Definition group_slug (by_slug : list (string * list string)) (p : string * program) : list (string * list string) :=
  let slug := _slugify (idl_name (pg_idl p.2)) in
  dict_set slug (default [] (attr_lookup slug by_slug) ++ [p.1])%list by_slug.

Definition assign_slug (modules : list (string * string)) (g : string * list string) : list (string * string) :=
  let '(slug, addrs) := g in
  match addrs with
  | [addr] => dict_set addr slug modules
  | _ => foldl (fun ms addr => dict_set addr (slug +:+ "_" +:+ String.substring 0 6 addr) ms) modules addrs
  end.

Definition _assign_modules (programs : discovered) : list (string * string) :=
  foldl assign_slug [] (foldl group_slug [] programs).

(** ** Provenance *)

Definition SCHEMA_VERSION : string := "1.1.0".
Definition GENERATOR_VERSION : string := "wake-sol gen 0.2.0".
Definition _REFUSAL_REASON : string := "generation_punt".

Definition _provenance (p : program) (module generated_at : string) (refusal_reason : option string)
    : provenance * provenance :=
  let idl := pg_idl p in
  let prov :=
    ([("schema_version", Some SCHEMA_VERSION); ("program_address", Some (idl_address idl));
      ("program_name", Some (idl_name idl)); ("module", Some module); ("source_root", Some (pg_source p));
      ("idl_path", Some (pg_path p)); ("idl_sha256", Some (idl_sha256 idl));
      ("anchor_version", idl_anchor_version idl); ("generator_version", Some GENERATOR_VERSION)] ++
     match refusal_reason with None => [] | Some r => [("refusal_reason", Some r)] end)%list in
  (prov, dict_set "generated_at" (Some generated_at) prov).

Definition _emit_prov_literal (prov : provenance) : string :=
  lines (["__provenance__ = {"] ++ ((fun kv => "    " +:+ quoted kv.1 +:+ ": " +:+ literal kv.2 +:+ ",") <$> prov) ++ ["}"])%list.

Definition _refusing_stub (idl : Idl) (prov : provenance) (reason : string) : string :=
  "# GENERATED by `wake-sol gen` — do not edit. Refusing stub." +:+ nl +:+
  "from wake_sol._interface import RefusingInterface, register" +:+ nl +:+
  "from wake_sol._native import Pubkey" +:+ sep +:+
  "PROGRAM_ID = Pubkey(" +:+ quoted (idl_address idl) +:+ ")" +:+ nl +:+
  "PROGRAM_NAME = " +:+ quoted (idl_name idl) +:+ sep +:+
  "register(RefusingInterface(" +:+ nl +:+
  "    str(PROGRAM_ID), PROGRAM_NAME, reason=" +:+ py_repr reason +:+ "))" +:+ sep +:+
  "# --- provenance (pinned) ---" +:+ nl +:+ _emit_prov_literal prov +:+ nl.

(** ** The package *)

Definition triple_quote : string := dq +:+ dq +:+ dq.

Definition _init_module (modules_in_order : list string) : string :=
  lines ([triple_quote +:+ "Generated by `wake-sol gen`. Importing this package registers";
          "every program below into wake_sol._interface.REGISTRY (import";
          "side effect)." +:+ triple_quote] ++
         ((fun m => "from . import " +:+ m +:+ " as " +:+ m +:+ "  # noqa: F401") <$> modules_in_order) ++
         [""; "__all__ = [" +:+ commas (quoted <$> modules_in_order) +:+ "]";
          "__generated_by__ = " +:+ quoted GENERATOR_VERSION])%list +:+ nl.

Definition prov_json (prov : provenance) : jv :=
  JvObj (dict_of ((fun kv => (text_of kv.1, match kv.2 with None => JvNull | Some s => JvStr (text_of s) end)) <$> prov)).

(** One program: its module's text and its manifest entry. *)
Definition program_module (generated_at : string) (strict verbose : bool) (module addr : string) (p : program)
    : G (string * provenance) :=
  let '(prov, prov_ts) := _provenance p module generated_at None in
  match emit_module (pg_idl p) prov with
  | Ok content => _log verbose ("emitted " +:+ module +:+ ".py for " +:+ addr);; mret (content, prov_ts)
  | Raise (GenError exc) =>
      if strict then glift (Raise (GenError (addr +:+ " (" +:+ idl_name (pg_idl p) +:+ "): " +:+ exc)))
      else
        let reason := _REFUSAL_REASON +:+ ": " +:+ exc in
        let '(prov, prov_ts) := _provenance p module generated_at (Some reason) in
        _warn (addr +:+ " (" +:+ idl_name (pg_idl p) +:+ ") refused: " +:+ exc +:+ " -> emitting refusing stub");;
        mret (_refusing_stub (pg_idl p) prov reason, prov_ts)
  | Raise x => glift (Raise x)
  end.

Record building := mkBuilding {
  bd_files : package;
  bd_manifest : list (ustr * jv);
  bd_order : list string;
}.

Definition build_program (generated_at : string) (strict verbose : bool) (modules : list (string * string))
    (b : building) (p : string * program) : G building :=
  module ← (match attr_lookup p.1 modules with Some m => mret m | None => glift (Raise (KeyError p.1)) end);
  '(content, prov_ts) ← program_module generated_at strict verbose module p.1 p.2;
  mret (mkBuilding (dict_set (module +:+ ".py") (text_of content) (bd_files b))
          (dict_set (text_of p.1) (prov_json prov_ts) (bd_manifest b)) (bd_order b ++ [module])%list).

Definition manifest_text (manifest : list (ustr * jv)) : ustr := (dumps (JvObj manifest) ++ [10%Z])%list.

Definition _build_files (programs : discovered) (modules : list (string * string)) (strict verbose : bool)
    (generated_at : string) : G package :=
  b ← gfold (build_program generated_at strict verbose modules) (mkBuilding [] [] []) programs;
  mret (dict_set "_manifest.json" (manifest_text (bd_manifest b))
          (dict_set "__init__.py" (text_of (_init_module (bd_order b))) (bd_files b))).

(** ** Writing

    The directories [out] and [out.tmp]: the files in each, if it exists.  A
    package is written in steps, each of which is one system call. *)
Record disk := mkDisk { dk_out : option package; dk_tmp : option package }.

Inductive disk_op :=
  | UnlinkTmp (name : string) | RmdirTmp
  | MkdirTmp | WriteTmp (name : string) (content : ustr)
  | UnlinkOut (name : string) | RmdirOut
  | Rename.

Definition remove_file (name : string) (d : package) : package := List.filter (fun p => negb (bool_decide (p.1 = name))) d.

Definition disk_step (op : disk_op) (d : disk) : disk :=
  match op with
  | UnlinkTmp n => mkDisk (dk_out d) (remove_file n <$> dk_tmp d)
  | RmdirTmp => mkDisk (dk_out d) None
  | MkdirTmp => mkDisk (dk_out d) (Some (default [] (dk_tmp d)))
  | WriteTmp n c => mkDisk (dk_out d) (dict_set n c <$> dk_tmp d)
  | UnlinkOut n => mkDisk (remove_file n <$> dk_out d) (dk_tmp d)
  | RmdirOut => mkDisk None (dk_tmp d)
  | Rename => mkDisk (dk_tmp d) None
  end.

Definition rmtree_ops (unlink : string -> disk_op) (rmdir : disk_op) (dir : option package) : list disk_op :=
  match dir with None => [] | Some files => ((fun f => unlink f.1) <$> files) ++ [rmdir] end%list.

Definition _write_package (files : package) (d : disk) : list disk_op :=
  (rmtree_ops UnlinkTmp RmdirTmp (dk_tmp d) ++ [MkdirTmp] ++ ((fun f => WriteTmp f.1 f.2) <$> files) ++
   rmtree_ops UnlinkOut RmdirOut (dk_out d) ++ [Rename])%list.

Definition run_ops (ops : list disk_op) (d : disk) : disk := foldl (fun d op => disk_step op d) d ops.

(** ** The drift gate *)

Fixpoint pop_generated_at (entries : list (ustr * jv)) : res (list (ustr * jv)) :=
  match entries with
  | [] => Ok []
  | (k, JvObj e) :: entries =>
      rest ← pop_generated_at entries;
      Ok ((k, JvObj (List.filter (fun kv => negb (bool_decide (kv.1 = text_of "generated_at"))) e)) :: rest)
  | (_, JvArr _) :: _ => Raise (TypeError "pop")
  | _ :: _ => Raise (AttributeError "pop")
  end.

Definition _strip_generated_at (manifest_text : ustr) : res ustr :=
  match loads manifest_text with
  | Ok (JvObj data) => data ← pop_generated_at data; Ok (dumps (sort_keys (JvObj data)))
  | Ok _ => Raise (AttributeError "values")
  | Raise (ValueError _) => Ok manifest_text
  | Raise e => Raise e
  end.

Definition ends_with_py (name : string) : bool :=
  match rev (String.list_ascii_of_string name) with
  | "y"%char :: "p"%char :: "."%char :: _ => true
  | _ => false
  end.

Definition check_file (existing : package) (f : string * ustr) : res (list string) :=
  let '(name, content) := f in
  match attr_lookup name existing with
  | None => Ok ["missing committed file: " +:+ name]
  | Some old =>
      if decide (name = "_manifest.json")
      then a ← _strip_generated_at old; b ← _strip_generated_at content;
           Ok (if decide (a = b) then [] else ["manifest drift: " +:+ name])
      else Ok (if decide (old = content) then [] else ["content drift: " +:+ name])
  end.

Definition stale (files : package) (name : string) : list string :=
  match attr_lookup name files with
  | Some _ => []
  | None => if ends_with_py name || bool_decide (name = "_manifest.json") then ["stale committed file: " +:+ name] else []
  end.

Definition _check (d : disk) (files : package) : res (list string) :=
  let existing := default [] (dk_out d) in
  drift ← mapM_res (check_file existing) files;
  Ok (concat drift ++ flat_map (stale files) existing.*1)%list.

(** ** [run_gen] *)

Record gen_run_options := mkGenRun {
  gr_target_idls : list idl_root;
  gr_dep_idls : list idl_root;
  gr_out : string;
  gr_only : list string;
  gr_check : bool;
  gr_strict : bool;
  gr_verbose : bool;
}.

Definition addr_le (a b : string * program) : Prop := str_le a.1 b.1.
#[global] Instance addr_le_dec a b : Decision (addr_le a b).
Proof. unfold addr_le. apply _. Defined.

Definition select_only (only : list string) (found : discovered) : G discovered :=
  match only with
  | [] => mret found
  | _ =>
      let kept := List.filter (fun p : string * program => bool_decide (p.1 ∈ only)) found in
      let missing := List.filter (fun a => negb (bool_decide (a ∈ kept.*1))) (merge_sort str_le (remove_dups only)) in
      (match missing with [] => mret tt | _ => _warn ("--only addresses not found: " +:+ commas missing) end);;
      mret kept
  end.

(** The files a run would write. *)
Definition generate (o : gen_run_options) (generated_at : string) : G (package * nat) :=
  found ← _discover (gr_target_idls o) (gr_dep_idls o) (gr_verbose o);
  found ← select_only (gr_only o) found;
  (match found with [] => _warn "no IDLs discovered; nothing to generate" | _ => mret tt end);;
  let programs := merge_sort addr_le found in
  files ← _build_files programs (_assign_modules programs) (gr_strict o) (gr_verbose o) generated_at;
  mret (files, length programs).

Definition report_drift (drift : list string) : G unit :=
  eprint "gen --check: pytypes/ is out of sync with the IDLs:";;
  gfold (fun _ d => eprint ("  - " +:+ d)) tt drift.

Definition run_gen (o : gen_run_options) (generated_at : string) (d : disk) (err : list string)
    : res Z * disk * list string :=
  match generate o generated_at err with
  | (Raise (GenError exc), err) => (Ok 2%Z, d, err ++ ["[gen] error: " +:+ exc])%list
  | (Raise x, err) => (Raise x, d, err)
  | (Ok (files, n), err) =>
      if gr_check o then
        match _check d files with
        | Raise x => (Raise x, d, err)
        | Ok [] => (Ok 0%Z, d, (_log (gr_verbose o) "--check: in sync" err).2)
        | Ok drift => (Ok 2%Z, d, (report_drift drift err).2)
        end
      else
        (Ok 0%Z, run_ops (_write_package files d) d,
         (_log (gr_verbose o) ("wrote " +:+ pretty n +:+ " program module(s) to " +:+ gr_out o) err).2)
  end.

End Generator.

(** [wake-sol gen list] ([cli.py]): one line per program, by address. *)
Definition gen_list (sha256 : bytes -> bytes) (target_idls dep_idls : list idl_root) (verbose : bool) : G (list string) :=
  found ← _discover sha256 target_idls dep_idls verbose;
  let tab := String "009"%char EmptyString in
  mret ((fun p : string * program => p.1 +:+ tab +:+ pg_path p.2 +:+ tab +:+ "(" +:+ pg_source p.2 +:+ ")")
        <$> merge_sort addr_le found).
