(* ===== verification/GenRunProps.v ===== *)
(** * Correctness of [wake-sol gen]

    A package that was just written is in sync; it replaces the committed one
    without ever showing a mixture; every program has its module. *)

From Stdlib Require Import ZArith Lia.
From Stdlib Require Import Strings.Ascii Strings.Byte.
From stdpp Require Import base decidable option list gmap strings pretty numbers sorting.
From S2P Require Import Prelude.
From S2P Require Import Bytes.
From S2P Require Import Utf8.
From S2P Require Import Values.
From S2P Require Import Fuzzing.
From S2P Require Import Coverage.
From S2P Require Import GenTypes.
From S2P Require Import GenIdl.
From S2P Require Import GenEmit.
From S2P Require Import BuilderProps.
From S2P Require Import Json.
From S2P Require Import JsonProps.
From S2P Require Import GenRun.

#[local] Open Scope string_scope.

(** ** Dicts *)

Lemma dict_set_keys {K A} `{EqDecision K} (k : K) (v : A) d x : x ∈ (dict_set k v d).*1 <-> x = k \/ x ∈ d.*1.
Proof.
  induction d as [|[k' v'] d IH]; simpl; [rewrite list_elem_of_singleton, elem_of_nil; naive_solver|].
  case_decide as Hk; simpl; rewrite !elem_of_cons; [subst; naive_solver|]. rewrite IH. naive_solver.
Qed.

Lemma dict_set_NoDup {K A} `{EqDecision K} (k : K) (v : A) d : NoDup d.*1 -> NoDup (dict_set k v d).*1.
Proof.
  induction d as [|[k' v'] d IH]; simpl; intros Hd; [repeat constructor; by intros ?%elem_of_nil|].
  apply NoDup_cons in Hd as [Hn Hd]. case_decide as Hk; simpl; constructor; auto.
  rewrite dict_set_keys. intros [->|Hin]; done.
Qed.

Lemma dict_of_keys_NoDup {K A} `{EqDecision K} (ps : list (K * A)) : NoDup (dict_of ps).*1.
Proof.
  unfold dict_of. assert (Hg : forall acc : list (K * A), NoDup acc.*1 -> NoDup (foldl (fun d p => dict_set p.1 p.2 d) acc ps).*1).
  { induction ps as [|p ps IH]; intros acc Ha; [done|]. by apply IH, dict_set_NoDup. }
  apply Hg. constructor.
Qed.

Lemma dict_set_Forall {K A} `{EqDecision K} (P : K * A -> Prop) k v d :
  P (k, v) -> Forall P d -> Forall P (dict_set k v d).
Proof.
  intros Hp Hd. induction Hd as [|[k' v'] d Hx Hd IH]; simpl; [by repeat constructor|].
  case_decide as Hk; [subst; by constructor|by constructor].
Qed.

Lemma dict_of_Forall {K A} `{EqDecision K} (P : K * A -> Prop) ps : Forall P ps -> Forall P (dict_of ps).
Proof.
  intros Hp. unfold dict_of.
  assert (Hg : forall acc, Forall P acc -> Forall P (foldl (fun d p => dict_set p.1 p.2 d) acc ps)); [|by apply Hg].
  induction Hp as [|[k v] ps Hx Hp IH]; intros acc Ha; [done|]. by apply IH, dict_set_Forall.
Qed.

(** Values mapped, keys kept. *)
Lemma fmap_dict_set {K A B} `{EqDecision K} (g : A -> B) (k : K) v d :
  prod_map id g <$> dict_set k v d = dict_set k (g v) (prod_map id g <$> d).
Proof. induction d as [|[k' v'] d IH]; simpl; [done|]. case_decide as Hk; simpl; [done|]. f_equal. apply IH. Qed.

(** ** The manifest *)

Lemma utf8_decode_text bs t : utf8_decode bs = Some t -> text_ok t.
Proof.
  intros Hd%utf8_encode_decode. revert bs Hd. induction t as [|c t IH]; intros bs He; [constructor|].
  simpl in He. destruct (scalar c) eqn:Ec; [|done].
  destruct (utf8_encode t) as [bs'|] eqn:E; [|done]. constructor; [done|]. by apply (IH bs').
Qed.

Lemma text_of_ok s : text_ok (text_of s).
Proof.
  unfold text_of. destruct (utf8_decode _) as [t|] eqn:E; [by apply utf8_decode_text in E|constructor].
Qed.

Definition strip_entry (v : jv) : jv :=
  match v with
  | JvObj e => JvObj (List.filter (fun kv => negb (bool_decide (kv.1 = text_of "generated_at"))) e)
  | v => v
  end.
Definition is_obj (v : jv) : Prop := match v with JvObj _ => True | _ => False end.

Lemma pop_objs m : Forall (fun kv => is_obj kv.2) m -> pop_generated_at m = Ok (prod_map id strip_entry <$> m).
Proof.
  induction 1 as [|[k v] m Hv Hm IH]; [done|]. destruct v; try done. cbn [pop_generated_at]. by rewrite IH.
Qed.

Lemma filter_dict_set {A} (g : ustr) (v : A) d :
  List.filter (fun kv => negb (bool_decide (kv.1 = g))) (dict_set g v d) =
  List.filter (fun kv => negb (bool_decide (kv.1 = g))) d.
Proof.
  induction d as [|[k' v'] d IH]; simpl; [by rewrite bool_decide_true|].
  case_decide as Hk; simpl; [subst; by rewrite bool_decide_true|]. by rewrite IH.
Qed.

Lemma prov_json_ok prov : is_obj (prov_json prov) /\ jv_ok (prov_json prov).
Proof.
  split; [done|]. constructor; [apply dict_of_keys_NoDup|]. apply dict_of_Forall, list.Forall_fmap, list.Forall_forall.
  intros [k v] _. simpl. split; [apply text_of_ok|]. destruct v; constructor. apply text_of_ok.
Qed.

(** The time is the last entry, and dropping it leaves the rest. *)
Lemma strip_provenance p module t t' reason :
  strip_entry (prov_json (_provenance p module t reason).2) = strip_entry (prov_json (_provenance p module t' reason).2).
Proof.
  assert (Hd : forall t, (_provenance p module t reason).2 =
                         ((_provenance p module t reason).1 ++ [("generated_at", Some t)])%list).
  { intros t0. destruct reason; reflexivity. }
  assert (Hs : forall t, strip_entry (prov_json (_provenance p module t reason).2) =
                         strip_entry (prov_json (_provenance p module t reason).1)).
  { intros t0. rewrite Hd. unfold prov_json, dict_of. rewrite fmap_app, foldl_app. cbn [strip_entry fmap list_fmap foldl].
    by rewrite filter_dict_set. }
  rewrite !Hs. by destruct reason.
Qed.

(** ** Two builds at different times *)

Record manifest_ok (m : list (ustr * jv)) : Prop := mkManifestOk {
  mo_obj : Forall (fun kv => is_obj kv.2) m;
  mo_keys : NoDup m.*1;
  mo_vals : Forall (fun kv => text_ok kv.1 /\ jv_ok kv.2) m;
}.

Lemma manifest_ok_set k prov m : manifest_ok m -> manifest_ok (dict_set (text_of k) (prov_json prov) m).
Proof.
  intros [H1 H2 H3]. destruct (prov_json_ok prov) as [Ho Hj].
  split; [by apply dict_set_Forall|by apply dict_set_NoDup|apply dict_set_Forall; [|done]].
  split; [apply text_of_ok|done].
Qed.

Record same_build (b b' : building) : Prop := mkSameBuild {
  sb_files : bd_files b = bd_files b';
  sb_order : bd_order b = bd_order b';
  sb_strip : prod_map id strip_entry <$> bd_manifest b = prod_map id strip_entry <$> bd_manifest b';
  sb_ok : manifest_ok (bd_manifest b);
  sb_ok' : manifest_ok (bd_manifest b');
}.

Lemma program_module_time t t' strict verbose module addr p err c ts err' :
  program_module t strict verbose module addr p err = (Ok (c, ts), err') ->
  exists ts', program_module t' strict verbose module addr p err = (Ok (c, ts'), err') /\
    strip_entry (prov_json ts) = strip_entry (prov_json ts').
Proof.
  unfold program_module. intros H.
  pose proof (strip_provenance p module t t' None) as Hn.
  assert (Hp : (_provenance p module t None).1 = (_provenance p module t' None).1) by done.
  destruct (_provenance p module t None) as [prov ts0] eqn:E, (_provenance p module t' None) as [prov' ts0'] eqn:E'.
  simpl in Hp, Hn. subst prov'. destruct (emit_module (pg_idl p) prov) as [content|x].
  - unfold mbind, G_bind in *. destruct (_log _ _ err) as [[[]|] err1]; [|done].
    injection H as <- <- <-. eexists. split; [reflexivity|done].
  - destruct x as [|m| | | | | | | | | | | | |]; try done. destruct strict; [done|].
    pose proof (strip_provenance p module t t' (Some (_REFUSAL_REASON +:+ ": " +:+ m))) as Hs.
    assert (Hq : (_provenance p module t (Some (_REFUSAL_REASON +:+ ": " +:+ m))).1 =
                 (_provenance p module t' (Some (_REFUSAL_REASON +:+ ": " +:+ m))).1) by done.
    destruct (_provenance p module t (Some _)) as [pr ts1], (_provenance p module t' (Some _)) as [pr' ts1'].
    simpl in Hq, Hs. subst pr'. injection H as <- <- <-. eexists. split; [reflexivity|done].
Qed.

Lemma build_program_time t t' strict verbose modules b b' p err b1 err' :
  same_build b b' ->
  build_program t strict verbose modules b p err = (Ok b1, err') ->
  exists b1', build_program t' strict verbose modules b' p err = (Ok b1', err') /\ same_build b1 b1'.
Proof.
  intros [Hf Ho Hs Hk Hk'] H. unfold build_program, mbind, G_bind in *.
  destruct (attr_lookup p.1 modules) as [module|]; cbn -[program_module] in *; [|done].
  destruct (program_module t strict verbose module p.1 p.2 err) as [[[c ts]|] err1] eqn:Em; [|done].
  destruct (program_module_time _ t' _ _ _ _ _ _ _ _ _ Em) as (ts' & -> & Hts).
  injection H as <- <-. eexists. split; [reflexivity|]. split; cbn [bd_files bd_order bd_manifest].
  - by rewrite Hf.
  - by rewrite Ho.
  - by rewrite !fmap_dict_set, Hs, Hts.
  - by apply manifest_ok_set.
  - by apply manifest_ok_set.
Qed.

Lemma build_programs_time t t' strict verbose modules ps b b' err b1 err' :
  same_build b b' ->
  gfold (build_program t strict verbose modules) b ps err = (Ok b1, err') ->
  exists b1', gfold (build_program t' strict verbose modules) b' ps err = (Ok b1', err') /\ same_build b1 b1'.
Proof.
  revert b b' err. induction ps as [|p ps IH]; intros b b' err Hb H; cbn [gfold] in *.
  { injection H as <- <-. by exists b'. }
  unfold mbind, G_bind in *.
  destruct (build_program t strict verbose modules b p err) as [[b2|] err2] eqn:Ep; [|done].
  destruct (build_program_time _ t' _ _ _ _ _ _ _ _ _ Hb Ep) as (b2' & -> & Hb2). by apply (IH b2 b2').
Qed.

(** Two packages with the same files but for the time in the manifest. *)
Record same_package (f f' : package) : Prop := mkSamePackage {
  sp_names : f.*1 = f'.*1;
  sp_NoDup : NoDup f.*1;
  sp_content : forall name c, name <> "_manifest.json" -> (name, c) ∈ f' -> (name, c) ∈ f;
  sp_manifest : exists m m', ("_manifest.json", manifest_text m) ∈ f /\ ("_manifest.json", manifest_text m') ∈ f' /\
    manifest_ok m /\ manifest_ok m' /\ prod_map id strip_entry <$> m = prod_map id strip_entry <$> m';
}.

Lemma dict_set_same_names {A} (k : string) (v v' : A) d : (dict_set k v d).*1 = (dict_set k v' d).*1.
Proof. induction d as [|[k' w] d IH]; simpl; [done|]. case_decide as Hk; simpl; [done|]. by f_equal. Qed.

Lemma dict_set_elem {A} (k k' : string) (v c : A) d : k' <> k -> (k', c) ∈ dict_set k v d <-> (k', c) ∈ d.
Proof.
  intros Hn. induction d as [|[k1 w] d IH]; simpl; [rewrite list_elem_of_singleton, elem_of_nil; naive_solver|].
  case_decide as Hk; rewrite !elem_of_cons; [naive_solver|]. rewrite IH. naive_solver.
Qed.

Lemma dict_set_here {A} (k : string) (v : A) d : (k, v) ∈ dict_set k v d.
Proof. induction d as [|[k1 w] d IH]; simpl; [by left|]. case_decide as Hk; [subst; by left|by right]. Qed.

Lemma gfold_inv {A S} (P : S -> Prop) (f : S -> A -> G S) xs s err s' err' :
  P s -> (forall s x err s' err', P s -> f s x err = (Ok s', err') -> P s') ->
  gfold f s xs err = (Ok s', err') -> P s'.
Proof.
  intros Hs Hstep. revert s err Hs. induction xs as [|x xs IH]; intros s err Hs H; cbn [gfold] in H.
  { by injection H as <- <-. }
  unfold mbind, G_bind in H. destruct (f s x err) as [[s1|] err1] eqn:E; [|done]. eauto.
Qed.

Lemma build_files_time t t' programs modules strict verbose err files err' :
  _build_files programs modules strict verbose t err = (Ok files, err') ->
  exists files', _build_files programs modules strict verbose t' err = (Ok files', err') /\ same_package files files'.
Proof.
  unfold _build_files, mbind, G_bind. intros H.
  destruct (gfold _ _ programs err) as [[b|] err1] eqn:E; [|done]. injection H as <- <-.
  assert (NoDup (bd_files b).*1) as Hnd.
  { eapply (gfold_inv (fun b => NoDup (bd_files b).*1)); [|clear E|exact E]; [constructor|].
    intros s x e s' e' Hs Hb. unfold build_program, mbind, G_bind in Hb.
    destruct (attr_lookup x.1 modules); cbn -[program_module] in Hb; [|done].
    destruct (program_module _ _ _ _ _ _ _) as [[[c ts]|] ?]; [|done]. injection Hb as <- _. by apply dict_set_NoDup. }
  destruct (build_programs_time _ t' _ _ _ _ _ (mkBuilding [] [] []) _ _ _ ltac:(by repeat constructor) E)
    as (b' & -> & [Hf Ho Hs Hk Hk']).
  eexists. split; [reflexivity|]. rewrite <- Hf, <- Ho. split.
  - apply dict_set_same_names.
  - by do 2 apply dict_set_NoDup.
  - intros name c Hn. by rewrite !(dict_set_elem "_manifest.json").
  - exists (bd_manifest b), (bd_manifest b'). split_and!; try done; apply dict_set_here.
Qed.

Lemma strip_manifest m : manifest_ok m ->
  _strip_generated_at (manifest_text m) = Ok (dumps (sort_keys (JvObj (prod_map id strip_entry <$> m)))).
Proof.
  intros [Ho Hk Hv]. unfold _strip_generated_at, manifest_text.
  rewrite (loads_dumps (JvObj m)) by (by constructor || by right). by rewrite pop_objs.
Qed.

(** ** Writing *)

Lemma run_ops_app a b d : run_ops (a ++ b)%list d = run_ops b (run_ops a d).
Proof. apply foldl_app. Qed.

(** Along a list of operations. *)
Fixpoint always (P : disk -> Prop) (ops : list disk_op) (d : disk) : Prop :=
  P d /\ match ops with [] => True | op :: ops => always P ops (disk_step op d) end.

Lemma always_app P a b d : always P a d -> always P b (run_ops a d) -> always P (a ++ b)%list d.
Proof.
  revert d. induction a as [|op a IH]; intros d Ha Hb; [done|]. destruct Ha as [Hp Ha]. split; [done|]. by apply IH.
Qed.

Lemma always_prefix P ops d k : always P ops d -> P (run_ops (take k ops) d).
Proof.
  revert d k. induction ops as [|op ops IH]; intros d k [Hp Ha]; [by rewrite take_nil|].
  destruct k as [|k]; [done|]. by apply (IH (disk_step op d)).
Qed.

(** Operations on the temporary directory do not touch the package. *)
Definition on_tmp (op : disk_op) : Prop :=
  match op with UnlinkTmp _ | RmdirTmp | MkdirTmp | WriteTmp _ _ => True | _ => False end.

Lemma tmp_out ops d : Forall on_tmp ops -> always (fun d' => dk_out d' = dk_out d) ops d /\ dk_out (run_ops ops d) = dk_out d.
Proof.
  intros Ho. assert (Hg : forall d0, dk_out d0 = dk_out d ->
    always (fun d' => dk_out d' = dk_out d) ops d0 /\ dk_out (run_ops ops d0) = dk_out d); [|by apply Hg].
  induction Ho as [|op ops Hop Ho IH]; intros d0 Hd; [done|].
  destruct (IH (disk_step op d0)) as [Ha Hb]; [by destruct op|]. by split.
Qed.

Lemma unlinks_out names d files :
  dk_out d = Some files ->
  always (fun d' => exists left, dk_out d' = Some left /\ left ⊆ files) (UnlinkOut <$> names) d /\
  dk_tmp (run_ops (UnlinkOut <$> names) d) = dk_tmp d.
Proof.
  intros Hd. assert (Hg : forall d0, dk_tmp d0 = dk_tmp d -> (exists left, dk_out d0 = Some left /\ left ⊆ files) ->
    always (fun d' => exists left, dk_out d' = Some left /\ left ⊆ files) (UnlinkOut <$> names) d0 /\
    dk_tmp (run_ops (UnlinkOut <$> names) d0) = dk_tmp d); [|apply Hg; [done|by exists files]].
  induction names as [|n names IH]; intros d0 Ht Hl; [done|].
  destruct Hl as (l & Hl & Hs). destruct (IH (disk_step (UnlinkOut n) d0)) as [Ha Hb]; [done| |].
  - exists (remove_file n l). split; [simpl; by rewrite Hl|]. unfold remove_file. intros x Hx.
    rewrite list_elem_of_In, filter_In, <- list_elem_of_In in Hx. by apply Hs, Hx.
  - split; [split; [by exists l|done]|done].
Qed.

Lemma writes_tmp files d acc :
  dk_tmp d = Some acc ->
  dk_tmp (run_ops ((fun f => WriteTmp f.1 f.2) <$> files) d) = Some (foldl (fun d p => dict_set p.1 p.2 d) acc files).
Proof. revert d acc. induction files as [|f files IH]; intros d acc Hd; [done|]. apply IH. simpl. by rewrite Hd. Qed.

(** The part of the write that prepares the temporary directory. *)
Definition prepare (files : package) (d : disk) : list disk_op :=
  (rmtree_ops UnlinkTmp RmdirTmp (dk_tmp d) ++ [MkdirTmp] ++ ((fun f => WriteTmp f.1 f.2) <$> files))%list.

Lemma prepare_spec files d :
  NoDup files.*1 -> Forall on_tmp (prepare files d) /\ dk_tmp (run_ops (prepare files d) d) = Some files.
Proof.
  intros Hnd. split.
  - unfold prepare, rmtree_ops. apply Forall_app. split.
    + destruct (dk_tmp d); [|constructor]. apply Forall_app. split; [|by repeat constructor].
      apply list.Forall_fmap, list.Forall_forall. by intros.
    + constructor; [done|]. apply list.Forall_fmap, list.Forall_forall. by intros.
  - unfold prepare. rewrite !run_ops_app. rewrite (writes_tmp _ _ []); [f_equal; by apply dict_of_NoDup|].
    unfold rmtree_ops. destruct (dk_tmp d) as [old|] eqn:E; [|simpl; by rewrite E]. rewrite run_ops_app. done.
Qed.

Lemma write_package_split files d :
  _write_package files d = (prepare files d ++ rmtree_ops UnlinkOut RmdirOut (dk_out d) ++ [Rename])%list.
Proof. unfold _write_package, prepare. by rewrite <- !app_assoc. Qed.

Lemma run_write files d : NoDup files.*1 -> run_ops (_write_package files d) d = mkDisk (Some files) None.
Proof.
  intros Hnd. destruct (prepare_spec files d Hnd) as [Ht Hf]. destruct (tmp_out _ d Ht) as [_ Ho].
  rewrite write_package_split, !run_ops_app. set (d1 := run_ops (prepare files d) d) in *.
  unfold rmtree_ops. destruct (dk_out d) as [old|] eqn:E; [|simpl; by rewrite Hf].
  rewrite run_ops_app. destruct (unlinks_out old.*1 d1 old Ho) as [_ Hu].
  rewrite <- list_fmap_compose in Hu. unfold compose in Hu. simpl. by rewrite Hu, Hf.
Qed.

(** C16: writing a package never shows a mixture.  Whatever step the process dies
    at, the output directory holds files of the old package only, or does not
    exist, or holds exactly the new package; and when all steps are done it holds
    the new package and the temporary directory is gone. *)
Theorem write_package_atomic files d k :
  NoDup files.*1 ->
  (match dk_out (run_ops (take k (_write_package files d)) d) with
   | None => True
   | Some now => now = files \/ exists old, dk_out d = Some old /\ now ⊆ old
   end) /\
  run_ops (_write_package files d) d = mkDisk (Some files) None.
Proof.
  intros Hnd. split; [|by apply run_write].
  apply (always_prefix (fun d' => match dk_out d' with
    | None => True | Some now => now = files \/ exists old, dk_out d = Some old /\ now ⊆ old end)).
  destruct (prepare_spec files d Hnd) as [Ht Hf]. destruct (tmp_out _ d Ht) as [Ha Ho].
  assert (Himp : forall (P Q : disk -> Prop) ops d, (forall d, P d -> Q d) -> always P ops d -> always Q ops d).
  { intros P Q ops. induction ops as [|op ops IH]; intros d0 Hpq [H1 H2]; (split; [by apply Hpq|]); [done|]. by apply IH. }
  rewrite write_package_split. apply always_app.
  { eapply Himp; [|exact Ha]. intros d' ->. destruct (dk_out d) as [old|]; [|done]. right. by exists old. }
  set (d1 := run_ops (prepare files d) d) in *. unfold rmtree_ops. destruct (dk_out d) as [old|] eqn:E.
  - destruct (unlinks_out old.*1 d1 old Ho) as [Hu Htmp]. rewrite <- list_fmap_compose in Hu, Htmp. unfold compose in Hu, Htmp.
    rewrite <- app_assoc. apply always_app.
    + eapply Himp; [|exact Hu]. intros d' (l & -> & Hl). right. by exists old.
    + assert (Hend : exists l, dk_out (run_ops ((fun f => UnlinkOut f.1) <$> old) d1) = Some l /\ l ⊆ old).
      { apply (always_prefix _ _ _ (length old)) in Hu. rewrite take_ge in Hu; [done|]. by rewrite length_fmap. }
      destruct Hend as (l & Hl0 & Hl). split; [rewrite Hl0; right; by exists old|]. simpl. rewrite Htmp, Hf. auto.
  - simpl. rewrite Ho, Hf. auto.
Qed.

(** ** Checking *)

Lemma flat_map_nil {A B} (g : A -> list B) l : (forall x, x ∈ l -> g x = []) -> flat_map g l = [].
Proof.
  intros Hg. induction l as [|x l IH]; [done|]. simpl. rewrite Hg by by left. apply IH. intros y Hy. apply Hg. by right.
Qed.

Lemma same_package_in_sync f f' tmp : same_package f f' -> _check (mkDisk (Some f) tmp) f' = Ok [].
Proof.
  intros [Hn Hnd Hc (m & m' & Hm & Hm' & Hk & Hk' & Hs)]. unfold _check. cbn [dk_out].
  assert (Hall : forall x, x ∈ f' -> check_file f x = Ok []).
  { intros [name c] Hx. unfold check_file. destruct (decide (name = "_manifest.json")) as [->|Hne].
    - assert (c = manifest_text m') as ->.
      { apply (lookup_NoDup _ _ f') in Hx; [|by rewrite <- Hn]. apply (lookup_NoDup _ _ f') in Hm'; [|by rewrite <- Hn]. congruence. }
      rewrite (lookup_NoDup _ _ _ Hnd Hm), !strip_manifest by done. simpl. by rewrite Hs, decide_True.
    - rewrite (lookup_NoDup _ c _ Hnd) by auto. by rewrite decide_True. }
  assert (Hmap : mapM_res (check_file f) f' = Ok ((fun _ => []) <$> f')).
  { clear -Hall. induction f' as [|x f' IH]; [done|]. simpl. rewrite Hall by by left.
    simpl. rewrite IH; [done|]. intros y Hy. apply Hall. by right. }
  cbv zeta. change (default [] (Some f)) with f. rewrite Hmap. unfold mbind, res_bind. f_equal.
  assert (Hcat : concat ((fun _ : string * ustr => @nil string) <$> f') = []) by (clear; by induction f').
  rewrite Hcat, Hn. cbn [app]. assert (Hst : forall x, x ∈ f'.*1 -> stale f' x = []).
  { intros x Hx. apply list_elem_of_fmap in Hx as ([n c] & -> & Hx). unfold stale.
    by rewrite (lookup_NoDup n c f') by (done || by rewrite <- Hn). }
  by apply flat_map_nil.
Qed.

Definition with_check (o : gen_run_options) : gen_run_options :=
  mkGenRun (gr_target_idls o) (gr_dep_idls o) (gr_out o) (gr_only o) true (gr_strict o) (gr_verbose o).

Lemma generate_time sha256 o t t' err files n err' :
  generate sha256 o t err = (Ok (files, n), err') ->
  exists files', generate sha256 (with_check o) t' err = (Ok (files', n), err') /\ same_package files files'.
Proof.
  unfold generate, mbind, G_bind. cbn [with_check gr_target_idls gr_dep_idls gr_only gr_strict gr_verbose]. intros H.
  destruct (_discover _ _ _ _ err) as [[found|] err1]; [|done].
  destruct (select_only _ found err1) as [[kept|] err2]; [|done].
  destruct ((match kept with [] => _warn "no IDLs discovered; nothing to generate" | _ => mret tt end : G unit) err2)
    as [[[]|] err3]; [|done].
  destruct (_build_files _ _ _ _ t err3) as [[fs|] err4] eqn:E; [|done]. injection H as <- <- <-.
  destruct (build_files_time _ t' _ _ _ _ _ _ _ E) as (fs' & -> & Hs). by exists fs'.
Qed.

(** C15: a package that was just written is in sync.  After a successful run of
    the generator, [gen --check] over the same IDLs exits with 0 at any later
    time, writes nothing, and the package is what the run wrote. *)
Theorem gen_then_check sha256 o t t' d err d' err' :
  gr_check o = false -> run_gen sha256 o t d err = (Ok 0%Z, d', err') ->
  exists files err'', run_gen sha256 (with_check o) t' d' err = (Ok 0%Z, d', err'') /\
    d' = mkDisk (Some files) None /\ NoDup files.*1.
Proof.
  unfold run_gen. intros Hc. destruct (generate sha256 o t err) as [[[files n]|x] err1] eqn:E.
  - rewrite Hc. intros [= <- <-]. destruct (generate_time _ _ _ t' _ _ _ _ E) as (files' & -> & Hs).
    pose proof (sp_NoDup _ _ Hs) as Hnd. rewrite run_write by done. cbn [with_check gr_check].
    rewrite (same_package_in_sync _ _ None Hs). by eexists files, _.
  - by destruct x.
Qed.

(** ** Module names *)

Lemma replace_uu_length l : (length (replace_uu l) <= length l)%nat /\ (has_uu l = true -> (length (replace_uu l) < length l)%nat).
Proof.
  enough (forall n l, (length l < n)%nat -> (length (replace_uu l) <= length l)%nat /\
    (has_uu l = true -> (length (replace_uu l) < length l)%nat)) as Hn by (apply (Hn (S (length l))); lia).
  clear l. induction n as [|n IH]; intros l Hl; [lia|]. destruct l as [|a [|b l]]; [by split; [simpl; lia|]..|].
  cbn [replace_uu has_uu]. case_decide as Hd.
  - destruct (IH l) as [H1 _]; [simpl in Hl; lia|]. simpl. split; [lia|]. intros _. lia.
  - rewrite bool_decide_false by done. destruct (IH (b :: l)) as [H1 H2]; [simpl in *; lia|].
    split; [simpl in *; lia|]. intros Hu. specialize (H2 Hu). simpl in *. lia.
Qed.

Lemma collapse_no_uu fuel l : (length l <= fuel)%nat -> has_uu (collapse fuel l) = false.
Proof.
  revert l. induction fuel as [|fuel IH]; intros l Hl; simpl; [by destruct l; simpl in Hl; [|lia]|].
  destruct (has_uu l) eqn:E; [|done]. apply IH. destruct (replace_uu_length l) as [_ Hr]. specialize (Hr E). lia.
Qed.

Lemma replace_uu_head l : head (replace_uu l) = head l.
Proof. destruct l as [|a [|b l]]; [done..|]. cbn [replace_uu]. case_decide as Hd; [by destruct Hd as [-> _]|done]. Qed.

Lemma collapse_head fuel l : head (collapse fuel l) = head l.
Proof.
  revert l. induction fuel as [|fuel IH]; intros l; simpl; [done|]. destruct (has_uu l); [|done].
  by rewrite IH, replace_uu_head.
Qed.

Lemma lstrip_us_spec l : head (lstrip_us l) <> Some "_"%char /\ exists k, l = (k ++ lstrip_us l)%list.
Proof.
  induction l as [|c l [IH1 IH2]]; simpl; [split; [done|by exists []]|]. case_decide as Hc.
  - split; [done|]. destruct IH2 as [k IH2]. exists (c :: k). by rewrite IH2 at 1.
  - split; [simpl; congruence|by exists []].
Qed.

Lemma strip_us_head l : head (strip_us l) <> Some "_"%char.
Proof.
  unfold strip_us. destruct (lstrip_us_spec l) as [Hh _]. destruct (lstrip_us_spec (reverse (lstrip_us l))) as [_ [k Hk]].
  apply (f_equal reverse) in Hk. rewrite reverse_involutive, reverse_app in Hk.
  destruct (reverse (lstrip_us (reverse (lstrip_us l)))) as [|c r]; [done|]. rewrite Hk in Hh. done.
Qed.

Lemma ascii_lower_us c : ascii_lower c = "_"%char -> c = "_"%char.
Proof. destruct c as [[] [] [] [] [] [] [] []]; vm_compute; congruence. Qed.

(** A slug is not empty, starts with neither an underscore nor a digit. *)
Lemma slugify_head name : exists c s, _slugify name = String c s /\ c <> "_"%char /\ is_ascii_digit c = false.
Proof.
  unfold _slugify. set (l := ascii_lower <$> _).
  assert (Hh : head (collapse (length l) l) <> Some "_"%char).
  { rewrite collapse_head. subst l. pose proof (strip_us_head (slug_char <$> String.list_ascii_of_string name)) as Hs.
    destruct (strip_us _) as [|c r]; [done|]. simpl in *. intros [= Hc]. apply Hs. f_equal. by apply ascii_lower_us. }
  destruct (collapse (length l) l) as [|c r]; simpl; [by exists "p"%char, "rogram"|].
  destruct (is_ascii_digit c) eqn:E; [by eexists _, _|]. exists c, (String.string_of_list_ascii r).
  split_and!; [done| |done]. intros ->. by apply Hh.
Qed.

Definition slug_of (p : string * program) : string := _slugify (idl_name (pg_idl p.2)).

(** With distinct slugs every program gets its own. *)
Lemma assign_modules_distinct programs :
  NoDup programs.*1 -> NoDup (slug_of <$> programs) -> _assign_modules programs = (fun p => (p.1, slug_of p)) <$> programs.
Proof.
  intros Ha Hs. unfold _assign_modules.
  assert (H1 : forall ps acc, NoDup (acc.*1 ++ (slug_of <$> ps))%list ->
    foldl group_slug acc ps = (acc ++ ((fun p => (slug_of p, [p.1])) <$> ps))%list).
  { induction ps as [|p ps IH]; intros acc Hn; [by rewrite app_nil_r|]. cbn [foldl fmap list_fmap].
    apply list.NoDup_app in Hn as Hn'. destruct Hn' as (_ & Hd & _).
    assert (Hf : slug_of p ∉ acc.*1) by (intros Hin; apply (Hd _ Hin); left).
    assert (group_slug acc p = (acc ++ [(slug_of p, [p.1])])%list) as ->.
    { unfold group_slug. fold (slug_of p). rewrite (attr_lookup_fresh _ _ Hf). by apply dict_set_fresh. }
    rewrite IH, <- app_assoc; [done|]. rewrite fmap_app, <- app_assoc. done. }
  rewrite (H1 programs []) by done. cbn [app].
  assert (H2 : forall ps acc, NoDup (acc.*1 ++ ps.*1)%list ->
    foldl assign_slug acc ((fun p => (slug_of p, [p.1])) <$> ps) = (acc ++ ((fun p => (p.1, slug_of p)) <$> ps))%list).
  { induction ps as [|p ps IH]; intros acc Hn; [by rewrite app_nil_r|]. cbn [foldl fmap list_fmap assign_slug].
    apply list.NoDup_app in Hn as Hn'. destruct Hn' as (_ & Hd & _).
    rewrite dict_set_fresh by (intros Hin; apply (Hd _ Hin); left).
    rewrite IH, <- app_assoc; [done|]. rewrite fmap_app, <- app_assoc. done. }
  by rewrite (H2 programs []).
Qed.

(** The text of a program's module: what the emitter renders, or a stub that
    refuses to decode and says why. *)
Definition module_text (p : program) (module : string) : option string :=
  match emit_module (pg_idl p) (_provenance p module "" None).1 with
  | Ok content => Some content
  | Raise (GenError exc) =>
      let reason := _REFUSAL_REASON +:+ ": " +:+ exc in
      Some (_refusing_stub (pg_idl p) (_provenance p module "" (Some reason)).1 reason)
  | Raise _ => None
  end.

Lemma program_module_text t strict verbose module addr p err c ts err' :
  program_module t strict verbose module addr p err = (Ok (c, ts), err') -> module_text p module = Some c.
Proof.
  unfold program_module, module_text. cbn [_provenance fst].
  destruct (emit_module (pg_idl p) _) as [content|x]; intros H.
  - unfold mbind, G_bind in H. destruct (_log _ _ err) as [[[]|] err1]; [|done]. by injection H as <- _ _.
  - destruct x as [|m| | | | | | | | | | | | |]; try done. destruct strict; [done|]. by injection H as <- _ _.
Qed.

Definition module_file (p : string * program) : string * ustr :=
  (slug_of p +:+ ".py", text_of (default "" (module_text p.2 (slug_of p)))).

Lemma list_ascii_app a b : String.list_ascii_of_string (a +:+ b) =
  (String.list_ascii_of_string a ++ String.list_ascii_of_string b)%list.
Proof. induction a as [|c a IH]; [done|]. by rewrite append_cons; simpl; rewrite IH. Qed.

Lemma string_app_inj_l a b t : a +:+ t = b +:+ t -> a = b.
Proof.
  intros H%(f_equal String.list_ascii_of_string). rewrite !list_ascii_app in H. apply app_inv_tail in H.
  apply (f_equal String.string_of_list_ascii) in H. by rewrite !String.string_of_list_ascii_of_string in H.
Qed.

Lemma build_programs_files t strict verbose modules ps b err b' err' :
  (forall p, p ∈ ps -> attr_lookup p.1 modules = Some (slug_of p)) ->
  NoDup ((bd_files b).*1 ++ ((fun p => slug_of p +:+ ".py") <$> ps))%list ->
  gfold (build_program t strict verbose modules) b ps err = (Ok b', err') ->
  bd_files b' = (bd_files b ++ (module_file <$> ps))%list /\ bd_order b' = (bd_order b ++ (slug_of <$> ps))%list.
Proof.
  revert b err. induction ps as [|p ps IH]; intros b err Hm Hn H; cbn [gfold] in H.
  { injection H as <- <-. by rewrite !app_nil_r. }
  unfold mbind, G_bind in H. destruct (build_program t strict verbose modules b p err) as [[b1|] err1] eqn:Eb; [|done].
  unfold build_program, mbind, G_bind in Eb. rewrite (Hm p) in Eb by by left. cbn -[program_module] in Eb.
  destruct (program_module _ _ _ _ _ _ _) as [[[c ts]|] err2] eqn:Ep; [|done].
  apply program_module_text in Ep. injection Eb as <- <-.
  apply list.NoDup_app in Hn as Hn'. destruct Hn' as (_ & Hd & _).
  assert (Hf : slug_of p +:+ ".py" ∉ (bd_files b).*1) by (intros Hin; apply (Hd _ Hin); left).
  apply IH in H as [H1 H2]; cbn [bd_files bd_order] in *.
  - rewrite H1, H2, dict_set_fresh by done. unfold module_file at 2. rewrite <- !app_assoc. simpl. by rewrite Ep.
  - intros q Hq. apply Hm. by right.
  - rewrite dict_set_fresh by done. rewrite fmap_app, <- app_assoc. done.
Qed.

(** Every program has its module.  When the names of the programs give
    distinct slugs, the package is exactly one module per program, named after
    its slug and holding its rendered text or its refusing stub, then
    [__init__.py] importing them in the order of the addresses, and the
    manifest; no file replaces another. *)
Theorem one_module_per_program programs strict verbose t err files err' :
  NoDup programs.*1 -> NoDup (slug_of <$> programs) ->
  _build_files programs (_assign_modules programs) strict verbose t err = (Ok files, err') ->
  exists manifest, files = ((module_file <$> programs) ++
    [("__init__.py", text_of (_init_module (slug_of <$> programs))); ("_manifest.json", manifest_text manifest)])%list.
Proof.
  intros Ha Hs. rewrite (assign_modules_distinct programs Ha Hs). unfold _build_files, mbind, G_bind.
  destruct (gfold _ _ programs err) as [[b|] err1] eqn:E; [|done]. intros [= <- <-]. exists (bd_manifest b).
  assert (Hpy : NoDup ((fun p => slug_of p +:+ ".py") <$> programs)).
  { change (fun p => slug_of p +:+ ".py") with ((fun s => s +:+ ".py") ∘ slug_of). rewrite list_fmap_compose.
    assert (Inj eq eq (fun s => s +:+ ".py")) by (intros x y; apply string_app_inj_l). by apply NoDup_fmap_2. }
  apply build_programs_files in E as [Hf Ho]; [|intros p Hp|done].
  2: { apply lookup_NoDup; [by rewrite <- list_fmap_compose|]. apply list_elem_of_fmap. by exists p. }
  cbn [bd_files bd_order app] in Hf, Ho. rewrite Hf, Ho.
  assert (Hhead : forall s, String "_"%char s ∉ (module_file <$> programs).*1).
  { intros s Hin. rewrite <- list_fmap_compose in Hin. apply list_elem_of_fmap in Hin as (p & He & _).
    unfold compose, module_file in He. simpl in He. destruct (slugify_head (idl_name (pg_idl p.2))) as (c & r & Hc & Hne & _).
    unfold slug_of in He. rewrite Hc in He. rewrite append_cons in He. by injection He as <- _. }
  rewrite (dict_set_fresh "__init__.py") by apply Hhead. rewrite dict_set_fresh; [by rewrite <- app_assoc|].
  rewrite fmap_app, elem_of_app. intros [Hin|Hin]; [by apply Hhead in Hin|].
  simpl in Hin. rewrite list_elem_of_singleton in Hin. done.
Qed.

(** ** Witnesses *)

(** Two small programs, the second with a type the engine refuses. *)
Definition demo_program (addr name : string) (arg : json) : string * program :=
  (addr, mkProgram (mkIdl addr name "0.1.0" None "00" [] []
    [mkInstruction "init" (replicate 8 x01) [mkIxArg "amount" arg] [] None] [] []) (name +:+ ".json") "idls").
Definition demo_programs : discovered :=
  [demo_program "Addr1" "vault" (JStr "u64"); demo_program "Addr2" "my-dex" (JStr "u256")].

Lemma one_module_per_program_witness :
  exists files err, _build_files demo_programs (_assign_modules demo_programs) false false "2026" [] = (Ok files, err) /\
    files.*1 = ["vault.py"; "my_dex.py"; "__init__.py"; "_manifest.json"].
Proof.
  destruct (_build_files demo_programs (_assign_modules demo_programs) false false "2026" []) as [[files|] err] eqn:E;
    [|vm_compute in E; discriminate E].
  exists files, err. split; [reflexivity|].
  destruct (one_module_per_program demo_programs false false "2026" [] files err) as [m ->].
  - apply (bool_decide_unpack _). vm_compute. exact I.
  - apply (bool_decide_unpack _). vm_compute. exact I.
  - exact E.
  - vm_compute. reflexivity.
Defined.

Lemma write_package_atomic_witness :
  NoDup (["a.py"; "_manifest.json"] : list string) /\
  dk_out (run_ops (take 4 (_write_package [("a.py", []); ("_manifest.json", [])] (mkDisk (Some [("old.py", [])]) None)))
            (mkDisk (Some [("old.py", [])]) None)) = Some [].
Proof.
  assert (Hn : NoDup ((["a.py"; "_manifest.json"] : list string))) by (apply (bool_decide_unpack _); vm_compute; exact I).
  destruct (write_package_atomic [("a.py", []); ("_manifest.json", [])] (mkDisk (Some [("old.py", [])]) None) 4 Hn)
    as [_ _].
  split; [exact Hn|vm_compute; reflexivity].
Defined.

(** One root with one IDL file. *)
Definition demo_options : gen_run_options :=
  mkGenRun [mkIdlRoot "target/idl" (Some [mkIdlFile "target/idl/v.json" "v"
    (String.list_byte_of_string (String.concat dq ["{"; "address"; ":"; "Addr1"; ","; "name"; ":"; "v"; "}"]))])]
    [mkIdlRoot "idls" None] "pytypes" [] false true false.
Definition demo_run : res Z * disk * list string := run_gen (fun b => b) demo_options "2026" (mkDisk None None) [].

Lemma gen_then_check_witness :
  demo_run.1.1 = Ok 0%Z /\
  exists err, run_gen (fun b => b) (with_check demo_options) "2027" demo_run.1.2 [] = (Ok 0%Z, demo_run.1.2, err).
Proof.
  assert (Hok : demo_run.1.1 = Ok 0%Z) by (vm_compute; reflexivity). split; [exact Hok|].
  destruct demo_run as [[r d'] err'] eqn:E. simpl in *. subst r.
  destruct (gen_then_check (fun b => b) demo_options "2026" "2027" (mkDisk None None) [] d' err' eq_refl E)
    as (files & err'' & H & _). exists err''. exact H.
Defined.

(** Two programs of the same name whose addresses agree in six characters share
    a file: the module of the first is lost. *)
Lemma module_names_collide :
  let programs := [demo_program "AddrXX1" "vault" (JStr "u64"); demo_program "AddrXX2" "vault" (JStr "u8")] in
  _assign_modules programs = [("AddrXX1", "vault_AddrXX"); ("AddrXX2", "vault_AddrXX")] /\
  match _build_files programs (_assign_modules programs) true false "2026" [] with
  | (Ok files, _) => files.*1 = ["vault_AddrXX.py"; "__init__.py"; "_manifest.json"]
  | _ => False
  end.
Proof. split; vm_compute; reflexivity. Qed.
