(* ===== verification/Regex.v ===== *)
(** * Regular expressions ([re])

    The backtracking matcher of Python's [re], for the constructs the sources
    use: classes of characters, sequences, choices, greedy and lazy repetition,
    groups, word boundaries and line anchors ([MULTILINE], [DOTALL]).  A match
    tries alternatives in order and the first that lets the rest match wins. *)

From Stdlib Require Import ZArith Lia.
From stdpp Require Import base decidable option list strings.
From S2P Require Import Prelude.
From S2P Require Import Utf8.
From S2P Require Import Values.
From S2P Require Import Coverage.
#[local] Open Scope Z_scope.

Inductive re :=
  | RSet (f : Z -> bool)
  | REps
  | RSeq (a b : re)
  | RAlt (a b : re)
  | RStar (greedy : bool) (a : re)
  | RRepeat (a : re) (lo hi : nat)     (** [a{lo,hi}], greedy *)
  | RGroup (n : nat) (a : re)
  | RBol                               (** [^] *)
  | REol                               (** [$] *)
  | RWordB.                            (** [\b] *)

(** Where the matcher stands: the character before, what follows, how far from
    the start, and the groups so far as (number, text). *)
Record rstate := mkRState {
  rs_before : option Z;
  rs_rest : ustr;
  rs_taken : ustr;               (** consumed since the match began, reversed *)
  rs_groups : list (nat * ustr);
}.

Definition is_word (c : Z) : bool :=
  ((48 <=? c) && (c <=? 57)) || ((65 <=? c) && (c <=? 90)) || ((97 <=? c) && (c <=? 122)) || (c =? 95).
Definition at_word (o : option Z) : bool := match o with Some c => is_word c | None => false end.

Definition advance (c : Z) (s : ustr) (st : rstate) : rstate :=
  mkRState (Some c) s (c :: rs_taken st) (rs_groups st).

(** The text consumed between two states. *)
Definition taken_between (st st' : rstate) : ustr :=
  reverse (take (length (rs_taken st') - length (rs_taken st)) (rs_taken st')).

Fixpoint rmatch (r : re) (st : rstate) (k : rstate -> option rstate) : option rstate :=
  match r with
  | RSet f => match rs_rest st with
              | c :: s => if f c then k (advance c s st) else None
              | [] => None
              end
  | REps => k st
  | RSeq a b => rmatch a st (fun st => rmatch b st k)
  | RAlt a b => match rmatch a st k with Some x => Some x | None => rmatch b st k end
  | RStar greedy a =>
      (* every turn consumes a character, so the rest bounds the turns *)
      (fix loop (n : nat) (st : rstate) : option rstate :=
         match n with
         | O => k st
         | S n =>
             let more := rmatch a st (fun st' => if (length (rs_rest st') <? length (rs_rest st))%nat then loop n st' else None) in
             if greedy then match more with Some x => Some x | None => k st end
             else match k st with Some x => Some x | None => more end
         end) (length (rs_rest st)) st
  | RRepeat a lo hi =>
      (fix rep (lo n : nat) (st : rstate) : option rstate :=
         match n with
         | O => k st
         | S n =>
             let more := rmatch a st (rep (pred lo) n) in
             match more, lo with Some x, _ => Some x | None, O => k st | None, S _ => None end
         end) lo hi st
  | RGroup n a =>
      rmatch a st (fun st' => k (mkRState (rs_before st') (rs_rest st') (rs_taken st')
                                   ((n, taken_between st st') :: rs_groups st')))
  | RBol => match rs_before st with None => k st | Some c => if c =? 10 then k st else None end
  | REol => match rs_rest st with [] => k st | c :: _ => if c =? 10 then k st else None end
  | RWordB => if xorb (at_word (rs_before st)) (at_word (head (rs_rest st))) then k st else None
  end.

(** [pattern.match] at a position. *)
Definition match_at (r : re) (before : option Z) (s : ustr) : option rstate :=
  rmatch r (mkRState before s [] []) Some.

(** [pattern.search]: the text before the match, and the match. *)
Fixpoint search_from (r : re) (before : option Z) (skipped s : ustr) : option (ustr * rstate) :=
  match match_at r before s with
  | Some st => Some (reverse skipped, st)
  | None => match s with
            | [] => None
            | c :: s => search_from r (Some c) (c :: skipped) s
            end
  end.
Definition search (r : re) (s : ustr) : option (ustr * rstate) := search_from r None [] s.

(** [m.group(n)]. *)
Definition group (n : nat) (st : rstate) : option ustr := attr_lookup n (rs_groups st).

(** ** Building blocks *)

Definition lit (c : Z) : re := RSet (fun d => d =? c).
Definition word (s : ustr) : re := foldr (fun c r => RSeq (lit c) r) REps s.
Definition anychar : re := RSet (fun _ => true).
(** [\s] on ASCII. *)
Definition space : re := RSet is_space.
Definition star (a : re) : re := RStar true a.
Definition lazy_star (a : re) : re := RStar false a.
Definition plus (a : re) : re := RSeq a (RStar true a).
Definition seqs (rs : list re) : re := foldr RSeq REps rs.
Definition one_of (s : ustr) : re := RSet (fun c => bool_decide (c ∈ s)).
Definition none_of (s : ustr) : re := RSet (fun c => negb (bool_decide (c ∈ s))).

(** ** What is matched is in the text *)

Definition continues (st st' : rstate) : Prop :=
  exists t, rs_rest st = t ++ rs_rest st' /\ rs_taken st' = reverse t ++ rs_taken st.

#[global] Instance continues_preorder : PreOrder continues.
Proof.
  split; [intros st; by exists []|]. intros st1 st2 st3 (t & H1 & H2) (t' & H3 & H4). exists (t ++ t').
  rewrite H1, H3, H4, H2, reverse_app, !app_assoc. done.
Qed.

(** A successful match calls the rest at a state further on. *)
Lemma rmatch_continues r : forall st k x, rmatch r st k = Some x -> exists st', continues st st' /\ k st' = Some x.
Proof.
  induction r as [f| |a IHa b IHb|a IHa b IHb|greedy a IHa|a IHa lo hi|n a IHa| | |]; intros st k x H; simpl in H.
  - destruct (rs_rest st) as [|c s] eqn:E; [done|]. destruct (f c); [|done].
    eexists. split; [|exact H]. exists [c]. by rewrite E.
  - by exists st.
  - apply IHa in H as (st1 & H1 & H). apply IHb in H as (st2 & H2 & H). exists st2. split; [by etrans|done].
  - destruct (rmatch a st k) eqn:E; [apply IHa; congruence|by apply IHb].
  - generalize dependent (length (rs_rest st)). intros n. revert st. induction n as [|n IHn]; intros st H; [by exists st|].
    assert (Hmore : forall y, rmatch a st (fun st' => if (length (rs_rest st') <? length (rs_rest st))%nat then
      (fix loop (n : nat) (st : rstate) : option rstate :=
         match n with
         | O => k st
         | S n =>
             let more := rmatch a st (fun st' => if (length (rs_rest st') <? length (rs_rest st))%nat then loop n st' else None) in
             if greedy then match more with Some x => Some x | None => k st end
             else match k st with Some x => Some x | None => more end
         end) n st' else None) = Some y -> y = x -> exists st', continues st st' /\ k st' = Some x).
    { intros y Hy ->. apply IHa in Hy as (st1 & H1 & Hy). case_match; [|done]. apply IHn in Hy as (st2 & H2 & Hy).
      exists st2. split; [by etrans|done]. }
    destruct greedy.
    + destruct (rmatch a st _) as [y|] eqn:E; [|by exists st]. injection H as ->. by apply (Hmore x).
    + destruct (k st) as [y|] eqn:E; [injection H as ->; by exists st|]. by apply (Hmore x).
  - revert lo st H. induction hi as [|hi IHh]; intros lo st H; [by exists st|].
    destruct (rmatch a st _) as [y|] eqn:E.
    + injection H as ->. apply IHa in E as (st1 & H1 & E). apply IHh in E as (st2 & H2 & E).
      exists st2. split; [by etrans|done].
    + destruct lo; [by exists st|done].
  - apply IHa in H as (st1 & H1 & H). eexists. split; [|exact H]. exact H1.
  - exists st. split; [done|]. destruct (rs_before st) as [c|]; [|done]. by destruct (c =? 10).
  - exists st. split; [done|]. destruct (rs_rest st) as [|c s]; [done|]. by destruct (c =? 10).
  - exists st. split; [done|]. by destruct (xorb _ _).
Qed.

(** The match of a search is a part of the text. *)
Lemma search_splits r s pre st : search r s = Some (pre, st) -> s = pre ++ reverse (rs_taken st) ++ rs_rest st.
Proof.
  unfold search. assert (Hg : forall before skipped s pre st, search_from r before skipped s = Some (pre, st) ->
    reverse skipped ++ s = pre ++ reverse (rs_taken st) ++ rs_rest st); [|by intros H%Hg].
  intros before skipped s0. revert before skipped. induction s0 as [|c s0 IH]; intros before skipped p q H; cbn [search_from] in H.
  - destruct (match_at r before []) as [st'|] eqn:E; [|done]. injection H as <- <-.
    apply rmatch_continues in E as (st1 & (t & H1 & H2) & [= ->]). simpl in *. rewrite H2, (app_nil_r (reverse t)), reverse_involutive. by rewrite <- H1.
  - destruct (match_at r before (c :: s0)) as [st'|] eqn:E.
    + injection H as <- <-. apply rmatch_continues in E as (st1 & (t & H1 & H2) & [= ->]). simpl in *.
      rewrite H2, (app_nil_r (reverse t)), reverse_involutive. by rewrite <- H1.
    + apply IH in H. rewrite <- H, reverse_cons, <- app_assoc. done.
Qed.
