(* ===== verification/GenSource.v ===== *)
(** * Source links ([_gen/source.py])

    The file that declares a program and the lines of its handlers, found by
    pattern in the Rust sources.  A source file is its path, its resolved URI and
    its text, [None] when it cannot be read. *)

From Stdlib Require Import ZArith Lia.
From stdpp Require Import base decidable option list strings sorting.
From S2P Require Import Prelude.
From S2P Require Import Utf8.
From S2P Require Import Values.
From S2P Require Import Coverage.
From S2P Require Import Regex.
#[local] Open Scope Z_scope.

Record rs_file := mkRsFile { rf_path : ustr; rf_uri : ustr; rf_text : option ustr }.

Definition rs_le (a b : rs_file) : Prop := ustr_le (rf_path a) (rf_path b).
#[global] Instance rs_le_dec a b : Decision (rs_le a b).
Proof. unfold rs_le. apply _. Defined.

Definition base58 (c : Z) : bool :=
  ((49 <=? c) && (c <=? 57)) || ((65 <=? c) && (c <=? 72)) || ((74 <=? c) && (c <=? 78)) ||
  ((80 <=? c) && (c <=? 90)) || ((97 <=? c) && (c <=? 107)) || ((109 <=? c) && (c <=? 122)).

Definition _DECLARE_ID_RE : re :=
  seqs [word (u "declare_id!"%string); star space; lit 40; star space; lit 34;
        RGroup 1 (RRepeat (RSet base58) 32 44); lit 34].

Definition ident_first (c : Z) : bool := ((65 <=? c) && (c <=? 90)) || ((97 <=? c) && (c <=? 122)) || (c =? 95).

Definition _PUB_FN_RE : re :=
  seqs [RWordB; word (u "pub"%string); plus space; word (u "fn"%string); plus space;
        RGroup 1 (RSeq (RSet ident_first) (star (RSet is_word)))].

(** Roots that are not directories are [None]. *)
Definition crate_of (crates : list (ustr * rs_file)) (f : rs_file) : list (ustr * rs_file) :=
  match rf_text f with
  | None => crates
  | Some text =>
      match search _DECLARE_ID_RE text with
      | None => crates
      | Some (_, m) =>
          let addr := default [] (group 1 m) in
          match attr_lookup addr crates with Some _ => crates | None => dict_set addr f crates end
      end
  end.

Definition index_crates (source_roots : list (option (list rs_file))) : list (ustr * rs_file) :=
  foldl (fun crates root => foldl crate_of crates (merge_sort rs_le (default [] root))) [] source_roots.

(** ** Handlers *)

Fixpoint scan_lines (wanted : list ustr) (f : rs_file) (lineno : Z) (lines : list ustr)
    (found : list (ustr * (rs_file * Z))) : list (ustr * (rs_file * Z)) :=
  match lines with
  | [] => found
  | line :: lines =>
      let found :=
        match search _PUB_FN_RE line with
        | Some (_, m) =>
            let name := default [] (group 1 m) in
            if bool_decide (name ∈ wanted) && negb (bool_decide (name ∈ found.*1)) then dict_set name (f, lineno) found else found
        | None => found
        end in
      scan_lines wanted f (lineno + 1) lines found
  end.

Fixpoint scan_files (wanted : list ustr) (files : list rs_file) (found : list (ustr * (rs_file * Z)))
    : list (ustr * (rs_file * Z)) :=
  match files with
  | [] => found
  | f :: files =>
      if forallb (fun n => bool_decide (n ∈ found.*1)) wanted then found
      else
        match rf_text f with
        | None => scan_files wanted files found
        | Some text => scan_files wanted files (scan_lines wanted f 1 (splitlines text) found)
        end
  end.

(** [crate] holds the files below the directory of [lib_rs]. *)
Definition handler_uris (lib_rs : rs_file) (crate : list rs_file) (names : list ustr) : list (ustr * ustr) :=
  let siblings := List.filter (fun f => negb (bool_decide (rf_path f = rf_path lib_rs))) (merge_sort rs_le crate) in
  (fun p => (p.1, rf_uri p.2.1 ++ u "#L"%string ++ int_str p.2.2)) <$> scan_files names (lib_rs :: siblings) [].

(** ** A link leads to the handler *)

(** Line [n] of the file declares [name]. *)
Definition declares (f : rs_file) (n : Z) (name : ustr) : Prop :=
  exists text line pre m, rf_text f = Some text /\ splitlines text !! Z.to_nat (n - 1) = Some line /\
    search _PUB_FN_RE line = Some (pre, m) /\ default [] (group 1 m) = name.

Lemma scan_lines_sound wanted f text done_lines todo found :
  rf_text f = Some text -> splitlines text = done_lines ++ todo ->
  Forall (fun p => p.1 ∈ wanted /\ declares p.2.1 p.2.2 p.1) found ->
  Forall (fun p => p.1 ∈ wanted /\ declares p.2.1 p.2.2 p.1)
    (scan_lines wanted f (Z.of_nat (length done_lines) + 1) todo found).
Proof.
  intros Ht. revert done_lines found. induction todo as [|line todo IH]; intros dl found Hs Hf; [done|]. cbn [scan_lines].
  replace (Z.of_nat (length dl) + 1 + 1) with (Z.of_nat (length (dl ++ [line])) + 1) by (rewrite length_app; simpl; lia).
  apply IH; [by rewrite Hs, <- app_assoc|].
  destruct (search _PUB_FN_RE line) as [[pre m]|] eqn:Em; [|done].
  case_bool_decide as Hw; [|done]. case_bool_decide as Hn; [done|]. simpl.
  rewrite dict_set_fresh by done. apply Forall_app. split; [done|]. constructor; [|constructor]. simpl. split; [done|].
  exists text, line, pre, m. split_and!; [done| |done|done].
  rewrite Hs. replace (Z.to_nat (Z.of_nat (length dl) + 1 - 1)) with (length dl) by lia. by apply list_lookup_middle.
Qed.

(** Every link is for a wanted name and its line holds that handler. *)
Lemma scan_files_sound wanted files found :
  Forall (fun p => p.1 ∈ wanted /\ declares p.2.1 p.2.2 p.1) found ->
  Forall (fun p => p.1 ∈ wanted /\ declares p.2.1 p.2.2 p.1) (scan_files wanted files found).
Proof.
  revert found. induction files as [|f files IH]; intros found Hf; [done|]. cbn [scan_files].
  destruct (forallb _ wanted); [done|]. destruct (rf_text f) as [text|] eqn:E; [|by apply IH].
  apply IH. by apply (scan_lines_sound _ _ text []).
Qed.

Example handler_example :
  let f := mkRsFile (u "a/src/lib.rs"%string) (u "file:///a/src/lib.rs"%string)
             (Some (u "mod x;"%string ++ [10] ++ u "    pub fn init(ctx: C) {}"%string)) in
  handler_uris f [f] [u "init"%string; u "other"%string] = [(u "init"%string, u "file:///a/src/lib.rs#L2"%string)].
Proof. vm_compute. reflexivity. Qed.
