(* ===== verification/GenErrors.v ===== *)
(** * The generator of the error catalogs ([_gen/errors_catalog.py])

    The tables the bundled error classes come from, the modules emitted from
    them, the member blocks filled into [_errors_base.py] and the [--check] gate.
    [ErrorsCatalog] transcribes the checked-in output; here it is shown to be what
    the tables give. *)

From Stdlib Require Import ZArith Lia.
From stdpp Require Import base decidable option list gmap strings pretty numbers.
From S2P Require Import Prelude.
From S2P Require Import Utf8.
From S2P Require Import Values.
From S2P Require Import ErrorsBase.
From S2P Require Import ErrorsCatalog.
From S2P Require Import Coverage.
From S2P Require Import GenEmit.
From S2P Require Import GenRun.
From S2P Require Import Regex.

#[local] Open Scope string_scope.

(** ** The tables *)

Definition _SOLANA_NAMES : list string := [
  "GenericError"; "InvalidArgument"; "InvalidInstructionData"; "InvalidAccountData"; "AccountDataTooSmall";
  "InsufficientFunds"; "IncorrectProgramId"; "MissingRequiredSignature"; "AccountAlreadyInitialized";
  "UninitializedAccount"; "UnbalancedInstruction"; "ModifiedProgramId"; "ExternalAccountLamportSpend";
  "ExternalAccountDataModified"; "ReadonlyLamportChange"; "ReadonlyDataModified"; "DuplicateAccountIndex";
  "ExecutableModified"; "RentEpochModified"; "NotEnoughAccountKeys"; "AccountDataSizeChanged";
  "AccountNotExecutable"; "AccountBorrowFailed"; "AccountBorrowOutstanding"; "DuplicateAccountOutOfSync";
  "InvalidError"; "ExecutableDataModified"; "ExecutableLamportChange"; "ExecutableAccountNotRentExempt";
  "UnsupportedProgramId"; "CallDepth"; "MissingAccount"; "ReentrancyNotAllowed"; "MaxSeedLengthExceeded";
  "InvalidSeeds"; "InvalidRealloc"; "ComputationalBudgetExceeded"; "PrivilegeEscalation";
  "ProgramEnvironmentSetupFailure"; "ProgramFailedToComplete"; "ProgramFailedToCompile"; "Immutable";
  "IncorrectAuthority"; "BorshIoError"; "AccountNotRentExempt"; "InvalidAccountOwner"; "ArithmeticOverflow";
  "UnsupportedSysvar"; "IllegalOwner"; "MaxAccountsDataAllocationsExceeded"; "MaxAccountsExceeded";
  "MaxInstructionTraceLengthExceeded"; "BuiltinProgramsMustConsumeComputeUnits"; "AccountInUse";
  "AccountLoadedTwice"; "AccountNotFound"; "ProgramAccountNotFound"; "InsufficientFundsForFee";
  "InvalidAccountForFee"; "AlreadyProcessed"; "BlockhashNotFound"; "CallChainTooDeep"; "MissingSignatureForFee";
  "InvalidAccountIndex"; "SignatureFailure"; "InvalidProgramForExecution"; "SanitizeFailure"; "ClusterMaintenance";
  "WouldExceedMaxBlockCostLimit"; "UnsupportedVersion"; "InvalidWritableAccount"; "WouldExceedMaxAccountCostLimit";
  "WouldExceedAccountDataBlockLimit"; "TooManyAccountLocks"; "AddressLookupTableNotFound";
  "InvalidAddressLookupTableOwner"; "InvalidAddressLookupTableData"; "InvalidAddressLookupTableIndex";
  "InvalidRentPayingAccount"; "WouldExceedMaxVoteCostLimit"; "WouldExceedAccountDataTotalLimit";
  "DuplicateInstruction"; "InsufficientFundsForRent"; "MaxLoadedAccountsDataSizeExceeded";
  "InvalidLoadedAccountsDataSizeLimit"; "ResanitizationNeeded"; "ProgramExecutionTemporarilyRestricted";
  "UnbalancedTransaction"; "ProgramCacheHitMaxLimit"; "CommitCancelled"].

Definition _ANCHOR_TABLE : list (string * Z) := [
  ("InstructionMissing", 100%Z); ("InstructionFallbackNotFound", 101%Z); ("InstructionDidNotDeserialize", 102%Z);
  ("InstructionDidNotSerialize", 103%Z); ("IdlInstructionStub", 1000%Z); ("IdlInstructionInvalidProgram", 1001%Z);
  ("IdlAccountNotEmpty", 1002%Z); ("EventInstructionStub", 1500%Z); ("ConstraintMut", 2000%Z);
  ("ConstraintHasOne", 2001%Z); ("ConstraintSigner", 2002%Z); ("ConstraintRaw", 2003%Z); ("ConstraintOwner", 2004%Z);
  ("ConstraintRentExempt", 2005%Z); ("ConstraintSeeds", 2006%Z); ("ConstraintExecutable", 2007%Z);
  ("ConstraintState", 2008%Z); ("ConstraintAssociated", 2009%Z); ("ConstraintAssociatedInit", 2010%Z);
  ("ConstraintClose", 2011%Z); ("ConstraintAddress", 2012%Z); ("ConstraintZero", 2013%Z);
  ("ConstraintTokenMint", 2014%Z); ("ConstraintTokenOwner", 2015%Z); ("ConstraintMintMintAuthority", 2016%Z);
  ("ConstraintMintFreezeAuthority", 2017%Z); ("ConstraintMintDecimals", 2018%Z); ("ConstraintSpace", 2019%Z);
  ("ConstraintAccountIsNone", 2020%Z); ("ConstraintTokenTokenProgram", 2021%Z);
  ("ConstraintMintTokenProgram", 2022%Z); ("ConstraintAssociatedTokenTokenProgram", 2023%Z);
  ("ConstraintMintGroupPointerExtension", 2024%Z); ("ConstraintMintGroupPointerExtensionAuthority", 2025%Z);
  ("ConstraintMintGroupPointerExtensionGroupAddress", 2026%Z); ("ConstraintMintGroupMemberPointerExtension", 2027%Z);
  ("ConstraintMintGroupMemberPointerExtensionAuthority", 2028%Z);
  ("ConstraintMintGroupMemberPointerExtensionMemberAddress", 2029%Z);
  ("ConstraintMintMetadataPointerExtension", 2030%Z); ("ConstraintMintMetadataPointerExtensionAuthority", 2031%Z);
  ("ConstraintMintMetadataPointerExtensionMetadataAddress", 2032%Z);
  ("ConstraintMintCloseAuthorityExtension", 2033%Z); ("ConstraintMintCloseAuthorityExtensionAuthority", 2034%Z);
  ("ConstraintMintPermanentDelegateExtension", 2035%Z); ("ConstraintMintPermanentDelegateExtensionDelegate", 2036%Z);
  ("ConstraintMintTransferHookExtension", 2037%Z); ("ConstraintMintTransferHookExtensionAuthority", 2038%Z);
  ("ConstraintMintTransferHookExtensionProgramId", 2039%Z); ("RequireViolated", 2500%Z);
  ("RequireEqViolated", 2501%Z); ("RequireKeysEqViolated", 2502%Z); ("RequireNeqViolated", 2503%Z);
  ("RequireKeysNeqViolated", 2504%Z); ("RequireGtViolated", 2505%Z); ("RequireGteViolated", 2506%Z);
  ("AccountDiscriminatorAlreadySet", 3000%Z); ("AccountDiscriminatorNotFound", 3001%Z);
  ("AccountDiscriminatorMismatch", 3002%Z); ("AccountDidNotDeserialize", 3003%Z); ("AccountDidNotSerialize", 3004%Z);
  ("AccountNotEnoughKeys", 3005%Z); ("AccountNotMutable", 3006%Z); ("AccountOwnedByWrongProgram", 3007%Z);
  ("InvalidProgramId", 3008%Z); ("InvalidProgramExecutable", 3009%Z); ("AccountNotSigner", 3010%Z);
  ("AccountNotSystemOwned", 3011%Z); ("AccountNotInitialized", 3012%Z); ("AccountNotProgramData", 3013%Z);
  ("AccountNotAssociatedTokenAccount", 3014%Z); ("AccountSysvarMismatch", 3015%Z);
  ("AccountReallocExceedsLimit", 3016%Z); ("AccountDuplicateReallocs", 3017%Z);
  ("DeclaredProgramIdMismatch", 4100%Z); ("TryingToInitPayerAsProgramAccount", 4101%Z);
  ("InvalidNumericConversion", 4102%Z); ("Deprecated", 5000%Z)].

Definition _SYSTEM_ERRORS : list (Z * string * string) := [
  (0%Z, "AccountAlreadyInUse", "an account with the same address already exists");
  (1%Z, "ResultWithNegativeLamports", "account does not have enough SOL to perform the operation");
  (2%Z, "InvalidProgramId", "cannot assign account to this program id");
  (3%Z, "InvalidAccountDataLength", "cannot allocate account data of this length");
  (4%Z, "MaxSeedLengthExceeded", "length of requested seed is too long");
  (5%Z, "AddressWithSeedMismatch", "provided address does not match the address derived from seed");
  (6%Z, "NonceNoRecentBlockhashes", "advancing stored nonce requires a populated RecentBlockhashes sysvar");
  (7%Z, "NonceBlockhashNotExpired", "stored nonce is still in recent_blockhashes");
  (8%Z, "NonceUnexpectedBlockhashValue", "specified nonce does not match stored nonce")].

Definition _TOKEN_ERRORS : list (Z * string * string) := [
  (0%Z, "NotRentExempt", "lamport balance below rent-exempt threshold");
  (1%Z, "InsufficientFunds", "insufficient funds");
  (2%Z, "InvalidMint", "invalid mint");
  (3%Z, "MintMismatch", "account not associated with this mint");
  (4%Z, "OwnerMismatch", "owner does not match");
  (5%Z, "FixedSupply", "fixed supply");
  (6%Z, "AlreadyInUse", "already in use");
  (7%Z, "InvalidNumberOfProvidedSigners", "invalid number of provided signers");
  (8%Z, "InvalidNumberOfRequiredSigners", "invalid number of required signers");
  (9%Z, "UninitializedState", "state is uninitialized");
  (10%Z, "NativeNotSupported", "instruction does not support native tokens");
  (11%Z, "NonNativeHasBalance", "non-native account can only be closed if its balance is zero");
  (12%Z, "InvalidInstruction", "invalid instruction");
  (13%Z, "InvalidState", "state is invalid for requested operation");
  (14%Z, "Overflow", "operation overflowed");
  (15%Z, "AuthorityTypeNotSupported", "account does not support specified authority type");
  (16%Z, "MintCannotFreeze", "this token mint cannot freeze accounts");
  (17%Z, "AccountFrozen", "account is frozen");
  (18%Z, "MintDecimalsMismatch", "the provided decimals value different from the mint decimals");
  (19%Z, "NonNativeNotSupported", "instruction does not support non-native tokens")].

(** ** Catalog modules *)

Definition _HEADER : string := "# @generated by wake_sol._gen.errors_catalog — do not edit." +:+ nl.
Definition doc_quote : string := dq +:+ dq +:+ dq.

(** [entries] holds the printed key of each class. *)
Definition _catalog_module (base doc : string) (classes : list string) (map_name key_type : string)
    (entries : list (string * string)) : string :=
  let map_lines :=
    ([map_name +:+ ": dict[" +:+ key_type +:+ ", type[" +:+ base +:+ "]] = {"] ++
     ((fun e => "    " +:+ e.1 +:+ ": " +:+ e.2 +:+ ",") <$> entries) ++ ["}"])%list in
  String.concat sep
    ([_HEADER +:+ doc_quote +:+ doc +:+ nl +:+ nl +:+ "Generated from ``wake_sol._gen.errors_catalog`` — do not edit." +:+ doc_quote;
      "from __future__ import annotations";
      "from .._errors_base import " +:+ base] ++ classes ++ [lines map_lines])%list +:+ nl.

Definition _emit_solana : string :=
  _catalog_module "SolanaError" "Native Solana runtime error catalog (name-keyed; no numeric code)."
    ((fun n => "class " +:+ n +:+ "(SolanaError):" +:+ nl +:+ "    pass") <$> _SOLANA_NAMES)
    "BY_NAME" "str" ((fun n => (py_repr n, n)) <$> _SOLANA_NAMES).

Definition _emit_anchor : string :=
  _catalog_module "AnchorError" "Anchor framework error catalog (built-in codes < 6000)."
    ((fun e => "class " +:+ e.1 +:+ "(AnchorError):" +:+ nl +:+ "    code = " +:+ pretty e.2) <$> _ANCHOR_TABLE)
    "BY_CODE" "int" ((fun e => (pretty e.2, e.1)) <$> _ANCHOR_TABLE).

Definition _emit_coded_msg (base doc : string) (table : list (Z * string * string)) : string :=
  _catalog_module base doc
    ((fun '(c, n, m) => "class " +:+ n +:+ "(" +:+ base +:+ "):" +:+ nl +:+ "    code = " +:+ pretty c +:+ nl +:+
                        "    msg = " +:+ py_repr m) <$> table)
    "BY_CODE" "int" ((fun '(c, n, _) => (pretty c, n)) <$> table).

Definition _emit_init : string :=
  _HEADER +:+ doc_quote +:+ "Static catalogs of the built-in error classes (native / Anchor / System / Token)." +:+ nl +:+ nl +:+
  "One real ``class`` per bundled error, so ``AnchorError.ConstraintSeeds`` and friends are" +:+ nl +:+
  "visible to type checkers. Generated from ``wake_sol._gen.errors_catalog`` — do not edit." +:+ doc_quote +:+ nl.

(** ** Member blocks *)

Definition _CATEGORIES : list (string * list string) :=
  [("solana", _SOLANA_NAMES); ("anchor", fst <$> _ANCHOR_TABLE);
   ("system", (fun e => e.1.2) <$> _SYSTEM_ERRORS); ("token", (fun e => e.1.2) <$> _TOKEN_ERRORS)].

Definition _member_block (module : string) (names : list string) : string :=
  let indent := "        " in
  lines ([indent +:+ "from ._errors_catalog." +:+ module +:+ " import ("] ++
         ((fun n => indent +:+ "    " +:+ n +:+ " as " +:+ n +:+ ",") <$> names) ++ [indent +:+ ")"])%list.

(** The marker pair of a category, as groups 1 and 2. *)
Definition marker_pattern (cat : string) : re :=
  seqs [RGroup 1 (seqs [star (lit 32); word (u ("# >>>GEN:" +:+ cat +:+ ">>>")); lit 10]);
        lazy_star anychar;
        RGroup 2 (seqs [lit 10; star (lit 32); word (u ("# <<<GEN:" +:+ cat +:+ "<<<"))])].

(** [pattern.sub]: every match that does not overlap the one before.  A match
    is never empty, so the length of the text is fuel enough. *)
Fixpoint sub_from (fuel : nat) (r : re) (repl : rstate -> ustr) (before : option Z) (s : ustr) : ustr :=
  match fuel with
  | O => s
  | S fuel =>
      match search_from r before [] s with
      | None => s
      | Some (pre, st) => (pre ++ repl st ++ sub_from fuel r repl (rs_before st) (rs_rest st))%list
      end
  end.
Definition sub (r : re) (repl : rstate -> ustr) (s : ustr) : ustr := sub_from (S (length s)) r repl None s.

Definition fill_category (text : res ustr) (c : string * list string) : res ustr :=
  text ← text;
  let pattern := marker_pattern c.1 in
  match search pattern text with
  | None => Raise (RuntimeError ("marker for category " +:+ py_repr c.1 +:+ " not found in _errors_base.py"))
  | Some _ =>
      let body := text_of (_member_block c.1 c.2) in
      Ok (sub pattern (fun m => default [] (group 1 m) ++ body ++ default [] (group 2 m))%list text)
  end.

Definition _fill_member_blocks (text : ustr) : res ustr := foldl fill_category (Ok text) _CATEGORIES.

(** ** Regeneration

    The files of the package by their path below it. *)
Abbreviation source_tree := (list (string * ustr)).

Definition base_path : string := "_errors_base.py".

Definition _planned_outputs (tree : source_tree) : res (list (string * ustr)) :=
  match attr_lookup base_path tree with
  | None => Raise (RuntimeError "FileNotFoundError")
  | Some base =>
      filled ← _fill_member_blocks base;
      Ok [("_errors_catalog/__init__.py", text_of _emit_init);
          ("_errors_catalog/solana.py", text_of _emit_solana);
          ("_errors_catalog/anchor.py", text_of _emit_anchor);
          ("_errors_catalog/system.py",
           text_of (_emit_coded_msg "SystemProgramError" "Native System Program error catalog." _SYSTEM_ERRORS));
          ("_errors_catalog/token.py",
           text_of (_emit_coded_msg "TokenError" "SPL Token / Token-2022 error catalog." _TOKEN_ERRORS));
          (base_path, filled)]
  end.

(** The exit status and the tree afterwards. *)
Definition regenerate (check : bool) (tree : source_tree) : res (Z * source_tree) :=
  outputs ← _planned_outputs tree;
  if check
  then let stale := List.filter (fun o => negb (bool_decide (attr_lookup o.1 tree = Some o.2))) outputs in
       Ok (match stale with [] => 0%Z | _ => 2%Z end, tree)
  else Ok (0%Z, foldl (fun t o => dict_set o.1 o.2 t) tree outputs).

(** ** Properties *)

Definition cat_module (m : string) : string := "wake_sol._errors_catalog." +:+ m.

(** The checked-in catalogs are what the tables give.  The classes of the
    four modules, with their codes and messages, their lookup maps and the
    member blocks of the bases list exactly the entries of the generator's
    tables, in order; no table repeats a name, and no table of codes a code. *)
Theorem catalogs_in_sync :
  solana_classes = (leaf (cat_module "solana") <$> _SOLANA_NAMES) /\
  solana_BY_NAME = ((fun n => (n, n)) <$> _SOLANA_NAMES) /\
  anchor_classes = ((fun e => leaf_code (cat_module "anchor") e.1 e.2) <$> _ANCHOR_TABLE) /\
  anchor_BY_CODE = ((fun e => (e.2, e.1)) <$> _ANCHOR_TABLE) /\
  system_classes = ((fun '(c, n, m) => leaf_msg (cat_module "system") n c m) <$> _SYSTEM_ERRORS) /\
  system_BY_CODE = ((fun '(c, n, _) => (c, n)) <$> _SYSTEM_ERRORS) /\
  token_classes = ((fun '(c, n, m) => leaf_msg (cat_module "token") n c m) <$> _TOKEN_ERRORS) /\
  token_BY_CODE = ((fun '(c, n, _) => (c, n)) <$> _TOKEN_ERRORS) /\
  _CATEGORIES = [("solana", solana_members); ("anchor", anchor_members); ("system", system_members); ("token", token_members)] /\
  Forall (fun c => NoDup c.2) _CATEGORIES /\
  NoDup (snd <$> _ANCHOR_TABLE) /\ NoDup (fst <$> (fst <$> _SYSTEM_ERRORS)) /\ NoDup (fst <$> (fst <$> _TOKEN_ERRORS)).
Proof. repeat match goal with |- _ /\ _ => split end; first [reflexivity | apply (bool_decide_unpack _); vm_compute; exact I]. Qed.
