(* ===== verification/CoverageText.v ===== *)
(** * Coverage: crates, sidecars and the summary ([coverage.py])

    The roots a report is confined to, with the crate compiled from each; the
    JSON text of the sidecar; the table of the summary.  The file system is a
    parameter of the roots. *)

From Stdlib Require Import ZArith Lia.
From stdpp Require Import base decidable option list gmap strings sorting.
From S2P Require Import Prelude.
From S2P Require Import Bytes.
From S2P Require Import Utf8.
From S2P Require Import Values.
From S2P Require Import Coverage.
From S2P Require Import CoverageProps.
From S2P Require Import MpServer.
From S2P Require Import Json.
From S2P Require Import JsonProps.
From S2P Require Import Regex.
From S2P Require Import GenRun.
From S2P Require Import GenRunProps.
#[local] Open Scope Z_scope.

(** ** Crates *)

Definition _CRATE_SEARCH_DEPTH : nat := 3.

Definition quote_char : re := one_of [34; 39].

(** A [package] header alone on its lines, then the first [name = '...'] at the
    start of a line, in either kind of quotes. *)
Definition _PACKAGE_NAME : re :=
  seqs [RBol; star space; word (u "[package]"%string); star space; REol; lazy_star anychar;
        RBol; star space; word (u "name"%string); star space; lit 61; star space; quote_char;
        RGroup 1 (plus (none_of [34; 39])); quote_char].

(** [text] is [None] when the manifest cannot be read. *)
Definition _crate_name (text : option ustr) : option ustr :=
  match text with
  | None => None
  | Some t =>
      match search _PACKAGE_NAME t with
      | None => None
      | Some (_, m) => Some ((fun c => if c =? 45 then 95 else c) <$> default [] (group 1 m))
      end
  end.

(** What the roots see of the file system: [resolve], the ancestors of a
    directory from the nearest, the text of [dir/Cargo.toml] (outer [None]: no
    such file) and the directories at a depth that hold one. *)
Record file_system := mkFs {
  fs_cwd : ustr;
  fs_resolve : ustr -> ustr;
  fs_parents : ustr -> list ustr;
  fs_manifest : ustr -> option (option ustr);
  fs_glob : ustr -> nat -> list ustr;
}.

(** A root and its crate, [""] for none. *)
Abbreviation roots := (list (ustr * ustr)).

Definition add_root (pairs : roots) (directory : ustr) (name : option ustr) : roots :=
  let key := (directory, default [] name) in
  if bool_decide (key ∈ pairs) then pairs else pairs ++ [key].

(** The manifest that governs a root: its own, or the nearest ancestor's. *)
Fixpoint governing (fs : file_system) (pairs : roots) (candidates : list ustr) : roots :=
  match candidates with
  | [] => pairs
  | c :: candidates =>
      match fs_manifest fs c with
      | Some text => add_root pairs c (_crate_name text)
      | None => governing fs pairs candidates
      end
  end.

Definition add_crate (fs : file_system) (pairs : roots) (dir : ustr) : roots :=
  match fs_manifest fs dir with
  | Some text => add_root pairs dir (_crate_name text)
  | None => add_root pairs dir None
  end.

Definition roots_of (fs : file_system) (pairs : roots) (raw : ustr) : roots :=
  let root := fs_resolve fs raw in
  let pairs := add_root pairs root None in
  let pairs := governing fs pairs (root :: fs_parents fs root) in
  foldl (fun pairs depth => foldl (add_crate fs) pairs (fs_glob fs root depth)) pairs (seq 1 _CRATE_SEARCH_DEPTH).

(** [_ROOTS_CACHE]. *)
Abbreviation roots_cache := (list (list ustr * roots)).

Definition _roots (fs : file_system) (source_roots : option (list ustr)) (cache : roots_cache) : roots * roots_cache :=
  let source_roots := default [fs_cwd fs] source_roots in
  match attr_lookup source_roots cache with
  | Some cached => (cached, cache)
  | None =>
      let pairs := foldl (roots_of fs) [] source_roots in
      (pairs, dict_set source_roots pairs cache)
  end.

(** ** Sidecars *)

Definition meta_json (m : meta) : jv :=
  JvObj [(u "programs"%string,
          JvObj (dict_of ((fun p => (text_of p.1, JvObj [(u "text_sha256"%string, JvStr (text_of (text_sha256 p.2)));
                                                         (u "instructions_total"%string, JvInt (instructions_total p.2))])) <$> m)))].

(** [_write_meta]: the text written beside a report. *)
Definition _write_meta (r : cov_report) : ustr := dumps (meta_json (meta_of r)) ++ [10].

(** An entry as [_check_builds] and a later merge read it. *)
Definition build_entry (v : jv) : option build_info :=
  match v with
  | JvObj e =>
      let sha := match attr_lookup (u "text_sha256"%string) e with Some (JvStr s) => default ""%string (of_text s) | _ => ""%string end in
      let total := match attr_lookup (u "instructions_total"%string) e with Some (JvInt z) => z | _ => 0 end in
      Some (mkBuild sha total)
  | _ => None
  end.

Fixpoint build_entries (kvs : list (ustr * jv)) : option meta :=
  match kvs with
  | [] => Some []
  | (k, v) :: kvs => k ← of_text k; b ← build_entry v; m ← build_entries kvs; Some ((k, b) :: m)
  end.

(** [_read_meta]; [text] is [None] when the file is missing. *)
Definition _read_meta (text : option ustr) : res (list (ustr * jv)) :=
  match text with
  | None => Ok []
  | Some t =>
      match loads t with
      | Ok (JvObj doc) =>
          match attr_lookup (u "programs"%string) doc with
          | None => Ok []
          | Some (JvObj programs) => Ok programs
          | Some _ => Raise (AttributeError "items"%string)
          end
      | Ok _ => Raise (AttributeError "get"%string)
      | Raise (ValueError _) => Ok []
      | Raise e => Raise e
      end
  end.

(** ** The summary *)

(** [n / d] rounded half to even. *)
Definition rne_div (n d : Z) : Z :=
  let q := n / d in
  let r := n mod d in
  if (d <? 2 * r) || ((d =? 2 * r) && Z.odd q) then q + 1 else q.

(** The double nearest to [a / b], as [m / 2^e], for positive [a] and [b]. *)
Definition double_div (a b : Z) : Z * Z :=
  let e0 := 53 - (Z.log2 a - Z.log2 b) in
  let e := if b * 2 ^ 53 <=? a * 2 ^ e0 then e0 - 1 else e0 in
  (rne_div (a * 2 ^ e) b, e).

(** [f"{100.0 * hit / total:.1f}%"]: tenths of a percent. *)
Definition tenths (hit total : Z) : Z :=
  if hit =? 0 then 0
  else let '(m, e) := double_div (100 * hit) total in rne_div (10 * m) (2 ^ e).

Definition _pct (hit total : Z) : ustr :=
  if total =? 0 then [0x2014]
  else let t := tenths hit total in int_str (t / 10) ++ [46] ++ int_str (t mod 10) ++ [37].

(** [Path(path).relative_to(cwd)], or the path. *)
Definition _display (cwd path : ustr) : ustr :=
  if decide (path = cwd) then [46]
  else match removeprefix (cwd ++ [47]) path with Some rest => rest | None => path end.

Definition ljust (width : nat) (s : ustr) : ustr := s ++ replicate (width - length s) 32.
Definition rjust (width : nat) (s : ustr) : ustr := replicate (width - length s) 32 ++ s.

Definition row (width : nat) (name : ustr) (hit total : Z) : ustr :=
  ljust width name ++ [32; 32] ++ rjust 5 (int_str hit) ++ [47] ++ ljust 5 (int_str total) ++ [32] ++ rjust 6 (_pct hit total).

(** The warnings about programs, by kind. *)
Inductive program_note := TextMismatch | NoLineInfo (executed : Z) | OutsideRoots.

Definition note_of (p : program_cov) : option program_note :=
  if text_mismatch p then Some TextMismatch
  else if instructions_covered p =? 0 then None
  else if negb (has_debug_info p) then Some (NoLineInfo (instructions_covered p))
  else if lines_resolved p =? 0 then Some OutsideRoots
  else None.

Definition hit_lines (m : Lines) : Z := Z.of_nat (length (List.filter (fun nc => negb (nc.2 =? 0)) (map_to_list m))).

Definition totals (files : FileLines) : Z * Z :=
  foldl (fun t path => let m := default ∅ (files !! path) in (t.1 + hit_lines m, t.2 + Z.of_nat (size m))) (0, 0) (sorted_paths files).

Record summary_text := mkSummaryText {
  st_notes : list (string * program_note);
  st_rows : list ustr;
}.

Definition summary (cwd : ustr) (data : cov_report) : summary_text :=
  let files := cr_files data in
  let notes := omap (fun p => pair (pc_program_id p) <$> note_of p) (cr_programs data) in
  if decide (files = ∅) then mkSummaryText notes [u "No source-line coverage collected."%string]
  else
    let width := list_max (map (fun f => length (_display cwd f)) (sorted_paths files)) in
    let file_rows := (fun path => let m := default ∅ (files !! path) in
                                  row width (_display cwd path) (hit_lines m) (Z.of_nat (size m))) <$> sorted_paths files in
    let '(hit, total) := totals files in
    mkSummaryText notes (file_rows ++ (if (1 <? size files)%nat then [row width (u "TOTAL"%string) hit total] else [])).

(** ** Properties of the roots *)

Lemma add_root_spec pairs d n :
  NoDup pairs -> NoDup (add_root pairs d n) /\ pairs ⊆ add_root pairs d n /\ (d, default [] n) ∈ add_root pairs d n.
Proof.
  intros Hn. unfold add_root. case_bool_decide as Hin; [done|]. split_and!.
  - apply list.NoDup_app. split_and!; [done| |repeat constructor; by intros ?%elem_of_nil].
    intros x Hx Hy%list_elem_of_singleton. by subst.
  - intros x Hx. apply elem_of_app. by left.
  - apply elem_of_app. right. by apply list_elem_of_singleton.
Qed.

(** [f] only adds, and adds no pair twice. *)
Definition grows {A} (f : roots -> A -> roots) : Prop := forall pairs x, NoDup pairs -> NoDup (f pairs x) /\ pairs ⊆ f pairs x.

Lemma foldl_grows {A} (f : roots -> A -> roots) xs pairs :
  grows f -> NoDup pairs -> NoDup (foldl f pairs xs) /\ pairs ⊆ foldl f pairs xs.
Proof.
  intros Hg. revert pairs. induction xs as [|x xs IH]; intros pairs Hn; [done|]. simpl.
  destruct (Hg pairs x Hn) as [H1 H2]. destruct (IH _ H1) as [H3 H4]. split; [done|by etrans].
Qed.

Lemma governing_grows fs : grows (governing fs).
Proof.
  intros pairs cs Hn. induction cs as [|c cs IH]; [done|]. simpl.
  destruct (fs_manifest fs c); [|done]. destruct (add_root_spec pairs c (_crate_name o) Hn) as (? & ? & _). done.
Qed.

Lemma add_crate_grows fs : grows (add_crate fs).
Proof.
  intros pairs d Hn. unfold add_crate.
  destruct (fs_manifest fs d) as [o|]; [destruct (add_root_spec pairs d (_crate_name o) Hn) as (? & ? & _)
    |destruct (add_root_spec pairs d None Hn) as (? & ? & _)]; done.
Qed.

Lemma roots_of_spec fs pairs raw : NoDup pairs ->
  NoDup (roots_of fs pairs raw) /\ pairs ⊆ roots_of fs pairs raw /\ (fs_resolve fs raw, []) ∈ roots_of fs pairs raw.
Proof.
  intros Hn. unfold roots_of. destruct (add_root_spec pairs (fs_resolve fs raw) None Hn) as (H1 & H2 & H3).
  destruct (governing_grows fs _ (fs_resolve fs raw :: fs_parents fs (fs_resolve fs raw)) H1) as [H4 H5].
  edestruct (foldl_grows (fun pairs depth => foldl (add_crate fs) pairs (fs_glob fs (fs_resolve fs raw) depth))) as [H6 H7];
    [|exact H4|].
  - intros ps depth Hps. apply foldl_grows; [apply add_crate_grows|done].
  - split_and!; [exact H6|by do 2 (etrans; [eassumption|])|]. by apply H7, H5.
Qed.

Lemma foldl_roots fs sr pairs : NoDup pairs ->
  NoDup (foldl (roots_of fs) pairs sr) /\ pairs ⊆ foldl (roots_of fs) pairs sr /\
  forall raw, raw ∈ sr -> (fs_resolve fs raw, []) ∈ foldl (roots_of fs) pairs sr.
Proof.
  revert pairs. induction sr as [|r sr IH]; intros pairs Hn; simpl.
  { split_and!; [done|done|by intros raw ?%elem_of_nil]. }
  destruct (roots_of_spec fs pairs r Hn) as (H1 & H2 & H3). destruct (IH _ H1) as (H4 & H5 & H6).
  split_and!; [done|by etrans|]. intros raw [->|Hin]%elem_of_cons; [by apply H5|by apply H6].
Qed.

Definition cache_ok (fs : file_system) (cache : roots_cache) : Prop :=
  forall k v, attr_lookup k cache = Some v -> v = foldl (roots_of fs) [] k.

(** The roots a report is confined to are right.  Every requested root is
    among them without a crate, which confines absolute paths even where no
    manifest is found, and no pair occurs twice; and the cache changes nothing:
    while the project's layout is the same, an answer from it is the one a fresh
    walk gives, and it stays such a cache. *)
Theorem roots_confined fs source_roots cache :
  cache_ok fs cache ->
  let '(pairs, cache') := _roots fs source_roots cache in
  pairs = (_roots fs source_roots []).1 /\ cache_ok fs cache' /\ NoDup pairs /\
  forall raw, raw ∈ default [fs_cwd fs] source_roots -> (fs_resolve fs raw, []) ∈ pairs.
Proof.
  intros Hc. unfold _roots. set (sr := default _ source_roots).
  destruct (foldl_roots fs sr [] ltac:(constructor)) as (H1 & _ & H2).
  destruct (attr_lookup sr cache) as [cached|] eqn:E.
  - apply Hc in E as ->. split_and!; done.
  - split_and!; [done| |done|done]. intros k v. rewrite lookup_dict_set. case_decide as Hk; [|apply Hc].
    subst k. by intros [= <-].
Qed.

Definition demo_fs : file_system :=
  mkFs (u "/p"%string) (fun p => p) (fun _ => [u "/"%string])
    (fun d => if decide (d = u "/p"%string) then Some (Some (u "[package]"%string ++ [10] ++ u "name = 'my-crate'"%string)) else None)
    (fun _ _ => []).

Lemma roots_confined_witness :
  cache_ok demo_fs [] /\ (_roots demo_fs None []).1 = [(u "/p"%string, []); (u "/p"%string, u "my_crate"%string)] /\
  (fs_resolve demo_fs (u "/p"%string), []) ∈ (_roots demo_fs None []).1.
Proof.
  assert (Hc : cache_ok demo_fs []) by (intros k v H; discriminate H).
  pose proof (roots_confined demo_fs None [] Hc) as H.
  destruct (_roots demo_fs None []) as [pairs cache'] eqn:E. destruct H as (_ & _ & _ & H).
  split; [exact Hc|]. split; [vm_compute in E; injection E as <- _; reflexivity|].
  apply H. vm_compute. left.
Defined.

(** ** Properties of the sidecar *)

(** A name that survives the encoding. *)
Definition is_text (s : string) : Prop := of_text (text_of s) = Some s.

Lemma is_text_inj a b : is_text a -> is_text b -> text_of a = text_of b -> a = b.
Proof. unfold is_text. congruence. Qed.

Lemma meta_json_ok m : jv_ok (meta_json m).
Proof.
  unfold meta_json. constructor; [repeat constructor; by intros ?%elem_of_nil|]. constructor; [|constructor]. simpl.
  split; [repeat constructor|]. constructor; [apply dict_of_keys_NoDup|].
  apply dict_of_Forall, list.Forall_fmap, list.Forall_forall. intros [k b] _. simpl. split; [apply text_of_ok|].
  constructor; [apply (bool_decide_unpack _); vm_compute; exact I|].
  repeat constructor. apply text_of_ok.
Qed.

Lemma build_entries_meta m :
  Forall (fun p => is_text p.1 /\ is_text (text_sha256 p.2)) m ->
  build_entries ((fun p => (text_of p.1, JvObj [(u "text_sha256"%string, JvStr (text_of (text_sha256 p.2)));
    (u "instructions_total"%string, JvInt (instructions_total p.2))])) <$> m) = Some m.
Proof.
  induction 1 as [|[k [sha total]] m [Hk Hs] Hm IH]; [done|]. cbn [fmap list_fmap build_entries fst snd text_sha256 instructions_total] in *.
  unfold is_text in *. rewrite Hk. simpl. rewrite Hs. simpl. by rewrite IH.
Qed.

(** What a run records beside its report is what a later merge reads. *)
Lemma sidecar_roundtrip r :
  Forall (fun p => is_text p.1 /\ is_text (text_sha256 p.2)) (meta_of r) ->
  exists entries, _read_meta (Some (_write_meta r)) = Ok entries /\ build_entries entries = Some (meta_of r).
Proof.
  intros Hv. unfold _read_meta, _write_meta. rewrite loads_dumps by (apply meta_json_ok || by right).
  unfold meta_json. simpl attr_lookup. cbn -[dict_of build_entries text_of]. eexists. split; [reflexivity|].
  rewrite dict_of_NoDup; [by apply build_entries_meta|].
  assert (Hnd : NoDup (meta_of r).*1) by apply dict_of_keys_NoDup.
  rewrite <- list_fmap_compose. unfold compose. simpl. revert Hv Hnd. generalize (meta_of r). clear r.
  induction 1 as [|p m [Hp _] Hm IH]; intros Hn; [constructor|]. simpl in *. apply NoDup_cons in Hn as [Hx Hn].
  constructor; [|by apply IH]. intros Hin. apply list_elem_of_fmap in Hin as (q & Hq & Hin). apply Hx.
  rewrite list.Forall_forall in Hm. destruct (Hm q Hin) as [Hqt _].
  apply (is_text_inj _ _ Hp Hqt) in Hq. rewrite Hq. by apply (list_elem_of_fmap_2 fst).
Qed.

(** ** Properties of the summary *)

Lemma rne_div_exact q d : 0 < d -> rne_div (q * d) d = q.
Proof.
  intros Hd. unfold rne_div. rewrite Z.div_mul, Z.mod_mul by lia. change (2 * 0) with 0.
  replace (d <? 0) with false by lia. by replace (d =? 0) with false by lia.
Qed.

Lemma log2_hundred n : 0 < n -> 6 <= Z.log2 (100 * n) - Z.log2 n <= 7.
Proof.
  intros Hn. pose proof (Z.log2_mul_above 100 n ltac:(lia) ltac:(lia)). pose proof (Z.log2_mul_below 100 n ltac:(lia) Hn).
  change (Z.log2 100) with 6 in *. lia.
Qed.

(** Full and zero coverage print as such. *)
Lemma pct_full n : 0 < n -> _pct n n = u "100.0%"%string /\ _pct 0 n = u "0.0%"%string.
Proof.
  intros Hn. unfold _pct. replace (n =? 0) with false by lia. split; [|done]. unfold tenths.
  replace (n =? 0) with false by lia. unfold double_div. pose proof (log2_hundred n Hn).
  set (e := if n * 2 ^ 53 <=? _ then _ else _). assert (He : 0 <= e) by (subst e; case_match; lia). clearbody e.
  replace (100 * n * 2 ^ e) with (100 * 2 ^ e * n) by lia. rewrite rne_div_exact by done.
  replace (10 * (100 * 2 ^ e)) with (1000 * 2 ^ e) by lia. rewrite rne_div_exact by (apply Z.pow_pos_nonneg; lia). done.
Qed.
