(* ===== verification/CoverageNative.v ===== *)
(** * The coverage recorder ([src/coverage.rs]; the wrappers in [coverage.py])

    Counters per executed instruction, their resolution to source lines through
    a program's line table, and the LCOV report.  The ELF and DWARF readers, the
    digest and the file system are parameters.  A [HashMap] is an association
    list in the order it happens to be iterated; a [BTreeMap] is a finite map
    listed by its keys, which for texts is the order of their UTF-8 bytes. *)

From Stdlib Require Import ZArith Lia.
From Stdlib Require Import Strings.Byte Strings.Ascii.
From stdpp Require Import base decidable option list gmap strings sorting numbers.
From S2P Require Import Prelude.
From S2P Require Import Maps.
From S2P Require Import Bytes.
From S2P Require Import Utf8.
From S2P Require Import Values.
From S2P Require Import Hex.
From S2P Require Import Coverage.
From S2P Require Import Json.
From S2P Require Import GenRun.
From S2P Require Import CoverageText.

(** ** Counting *)

Definition INSN_SIZE : Z := 8.
Definition U64_MAX : Z := 2 ^ 64 - 1.
Definition saturating_add (a b : Z) : Z := Z.min U64_MAX (a + b).

(** [hits[pc]], and the deployed ELF once it was seen. *)
Record ProgramCounters := mkCounters { pc_hits : list Z; pc_elf : option bytes }.

Record Counters := mkAll {
  programs : list (bytes * ProgramCounters);
  debug_elfs : list (bytes * bytes);
}.

(** One program invocation of a transaction: its program key, the length of its
    text, what the account database has of its ELF, and register 11 of every
    traced instruction. *)
Record invocation := mkInvocation {
  iv_program : option bytes;
  iv_text_len : nat;
  iv_elf : option bytes;
  iv_pcs : list nat;
}.

Definition bump (hits : list Z) (pc : nat) : list Z :=
  match hits !! pc with Some n => <[pc := saturating_add n 1]> hits | None => hits end.

Definition new_counters (n_insns : nat) : ProgramCounters := mkCounters (replicate n_insns 0) None.

Definition record (c : Counters) (iv : invocation) : Counters :=
  match iv_program iv with
  | None => c
  | Some program_id =>
      let n_insns := (iv_text_len iv / 8)%nat in
      let entry := default (new_counters n_insns) (attr_lookup program_id (programs c)) in
      let elf := match pc_elf entry with Some e => Some e | None => iv_elf iv end in
      let hits := foldl bump (pc_hits entry) (iv_pcs iv) in
      mkAll (dict_set program_id (mkCounters hits elf) (programs c)) (debug_elfs c)
  end.

Definition after_invocation (register_tracing_enabled : bool) (c : Counters) (ivs : list invocation) : Counters :=
  if register_tracing_enabled then foldl record c ivs else c.

(** ** The line table *)

(** A row of a line program; [rr_file] is the directory index, the directory
    and the name of its file, [None] when they cannot be read. *)
Record raw_row := mkRaw {
  rr_address : Z;
  rr_end_sequence : bool;
  rr_is_stmt : bool;
  rr_line : option Z;
  rr_file_index : Z;
  rr_file : option (Z * option ustr * ustr);
}.

(** A unit: its [DW_AT_name], its compilation directory and its rows, or none
    without a line program. *)
Record dwarf_unit := mkUnit { un_name : option ustr; un_comp_dir : option ustr; un_rows : option (list raw_row) }.

Record StmtRow := mkRow { address : Z; file : ustr; line : Z }.

(** The [object], [gimli] and [sha2] crates and [std::fs]. *)
Class Env := {
  elf_parses : bytes -> bool;
  has_line_table : bytes -> bool;
  elf_text : bytes -> option bytes;
  text_address : bytes -> option Z;
  dwarf_units : bytes -> option (list dwarf_unit);
  sha256 : bytes -> bytes;
  is_file : ustr -> bool;
  line_count : ustr -> option Z;          (** [None]: unreadable, no bound *)
  read_file : ustr -> option bytes;
}.

Definition slash : Z := 47.

Definition push_component (path component : ustr) : ustr :=
  let path :=
    match component with
    | c :: _ =>
        if c =? slash then []
        else if negb (bool_decide (path = [])) && negb (bool_decide (list.last path = Some slash)) then path ++ [slash] else path
    | [] => if negb (bool_decide (path = [])) && negb (bool_decide (list.last path = Some slash)) then path ++ [slash] else path
    end in
  path ++ component.

(** [compose_path]: the directory index 0 is the compilation directory. *)
Definition compose_path (comp_dir : option ustr) (directory_index : Z) (directory : option ustr) (name : ustr) : ustr :=
  let path := match comp_dir with Some d => push_component [] d | None => [] end in
  let path := if directory_index =? 0 then path
              else match directory with Some d => push_component path d | None => path end in
  push_component path name.

(** The text after the first [/@/], if any. *)
Fixpoint after_marker (s : ustr) : option ustr :=
  match removeprefix (u "/@/") s with
  | Some rest => Some rest
  | None => match s with [] => None | _ :: s => after_marker s end
  end.
Fixpoint before_marker (s : ustr) : ustr :=
  match removeprefix (u "/@/") s with
  | Some _ => []
  | None => match s with [] => [] | c :: s => c :: before_marker s end
  end.

(** [name.split("/@/").nth(1)], then [split('.').next()]. *)
Definition unit_crate_name (name : option ustr) : option ustr :=
  n ← name; tail ← after_marker n; Some (partition_at 46 (before_marker tail)).1.

(** The components of an absolute path, as [Path] compares them. *)
Fixpoint components_from (acc : ustr) (s : ustr) : list ustr :=
  match s with
  | [] => match acc with [] => [] | _ => [acc] end
  | c :: s =>
      if c =? slash then match acc with [] => components_from [] s | _ => acc :: components_from [] s end
      else components_from (acc ++ [c]) s
  end.
Definition components (s : ustr) : list ustr :=
  List.filter (fun c => negb (bool_decide (c = [46]))) (components_from [] s).
Definition is_absolute (s : ustr) : bool := match s with c :: _ => c =? slash | [] => false end.
Definition starts_with (path dir : ustr) : bool :=
  eqb (is_absolute path) (is_absolute dir) && bool_decide (take (length (components dir)) (components path) = components dir).

(** [root.dir.join(candidate)] for a relative candidate. *)
Definition path_join (dir candidate : ustr) : ustr :=
  match dir with
  | [] => candidate
  | _ => if bool_decide (list.last dir = Some slash) then dir ++ candidate else dir ++ [slash] ++ candidate
  end.

Section resolve.
Context `{Env}.

Fixpoint find_in_roots (path krate : ustr) (rs : roots) : option ustr :=
  match rs with
  | [] => None
  | (dir, crate_name) :: rs =>
      if negb (bool_decide (crate_name = krate)) then find_in_roots path krate rs
      else if is_file (path_join dir path) then Some (path_join dir path) else find_in_roots path krate rs
  end.

Definition resolve_path (path : ustr) (krate : option ustr) (rs : roots) : option ustr :=
  if is_absolute path then
    if match rs with [] => true | _ => false end || existsb (fun r => starts_with path r.1) rs then Some path else None
  else krate ← krate; find_in_roots path krate rs.

(** The rows of a unit, with [resolved] remembering the first answer per file
    index. *)
Fixpoint unit_rows (krate comp_dir : option ustr) (rs : roots) (resolved : list (Z * option ustr)) (rows : list raw_row) : list StmtRow :=
  match rows with
  | [] => []
  | r :: rows =>
      if rr_end_sequence r || negb (rr_is_stmt r) then unit_rows krate comp_dir rs resolved rows
      else
        match rr_line r with
        | None => unit_rows krate comp_dir rs resolved rows
        | Some l =>
            let '(file, resolved) :=
              match attr_lookup (rr_file_index r) resolved with
              | Some f => (f, resolved)
              | None =>
                  let f := '(index, directory, name) ← rr_file r;
                           resolve_path (compose_path comp_dir index directory name) krate rs in
                  (f, dict_set (rr_file_index r) f resolved)
              end in
            match file with
            | None => unit_rows krate comp_dir rs resolved rows
            | Some f =>
                let l := l mod 2 ^ 32 in
                if match line_count f with Some n => n <? l | None => false end then unit_rows krate comp_dir rs resolved rows
                else mkRow (rr_address r) f l :: unit_rows krate comp_dir rs resolved rows
            end
        end
  end.

Definition statement_rows (units : list dwarf_unit) (rs : roots) : list StmtRow :=
  flat_map (fun un => match un_rows un with
                      | None => []
                      | Some rows => unit_rows (unit_crate_name (un_name un)) (un_comp_dir un) rs [] rows
                      end) units.

(** ** Comparing builds *)

Fixpoint chunks8 (fuel : nat) (b : bytes) : list bytes :=
  match fuel with
  | O => []
  | S fuel => if (length b <? 8)%nat then [] else take 8 b :: chunks8 fuel (drop 8 b)
  end.
Definition chunks_exact (b : bytes) : list bytes := chunks8 (S (length b)) b.

Definition CALL_IMM : byte := x85.
Definition insn_matches (p : bytes * bytes) : bool :=
  let '(a, b) := p in
  if bool_decide (head a = Some CALL_IMM) && bool_decide (head b = Some CALL_IMM)
  then bool_decide (take 4 a = take 4 b) else bool_decide (a = b).

Definition text_matches (a b : option bytes) : bool :=
  match a, b with
  | Some a, Some b =>
      (length a =? length b)%nat && forallb insn_matches (zip (chunks_exact a) (chunks_exact b))
  | _, _ => false
  end.
End resolve.

(** ** Charging lines *)

Definition hits_at (text_addr : Z) (hits : list Z) (addr : Z) : Z :=
  if addr <? text_addr then 0
  else default 0 (hits !! Z.to_nat ((addr - text_addr) / INSN_SIZE)).

Definition line_entry (lines : FileLines) (f : ustr) (l : Z) : Z := default 0 (lines !! f ≫= (fun m => m !! l)).
Definition set_line (lines : FileLines) (f : ustr) (l v : Z) : FileLines :=
  <[f := <[l := v]> (default ∅ (lines !! f))]> lines.

(** One row: a line is charged when a run of its rows begins. *)
Definition charge_step (at_addr : Z -> Z) (st : FileLines * option (ustr * Z)) (row : StmtRow) : FileLines * option (ustr * Z) :=
  let '(lines, prev) := st in
  let key := (file row, line row) in
  let slot := line_entry lines (file row) (line row) in
  let v := if bool_decide (prev = Some key) then slot else Z.max slot (at_addr (address row)) in
  (set_line lines (file row) (line row) v, Some key).

Definition charge (at_addr : Z -> Z) (rows : list StmtRow) : FileLines :=
  (foldl (charge_step at_addr) (∅, None) rows).1.

(** [*slot = slot.saturating_add(count)] for every line. *)
Definition merge_counts (out lines : FileLines) : FileLines := merge_into (merge_into saturating_add 0) ∅ out lines.

(** ** Reports *)

Record ProgramReport := mkProgramReport {
  pr_program_id : string;
  pr_instructions_covered : Z;
  pr_instructions_total : Z;
  pr_has_debug_info : bool;
  pr_lines_resolved : Z;
  pr_text_mismatch : bool;
  pr_text_sha256 : ustr;
}.

(** The parsed line tables, by program, build and roots. *)
Abbreviation RowCache := (list (ustr * (Z * list StmtRow))).

Definition address_le (a b : StmtRow) : Prop := address a <= address b.
#[global] Instance address_le_dec a b : Decision (address_le a b).
Proof. unfold address_le. apply _. Defined.

Definition roots_fingerprint (rs : roots) : ustr := join [2] ((fun r => r.1 ++ [1] ++ r.2) <$> rs).

Section report.
Context `{Native} `{Env}.

Definition sha256_hex (b : bytes) : ustr := bytes_hex (sha256 b).

(** The table of [elf], through the cache; [None] is one of the early returns. *)
Definition line_table (key : ustr) (elf : bytes) (rs : roots) (cache : RowCache) : option (Z * list StmtRow) * RowCache :=
  match attr_lookup key cache with
  | Some t => (Some t, cache)
  | None =>
      match text_address elf, dwarf_units elf with
      | Some text_addr, Some units =>
          let t := (text_addr, merge_sort address_le (statement_rows units rs)) in
          (Some t, dict_set key t cache)
      | _, _ => (None, cache)
      end
  end.

(** The ELF to resolve against: a registered sidecar of the same build first. *)
Inductive elf_choice := UseElf (elf : bytes) | Mismatch | NoElf.
Definition choose_elf (debug_elf deployed : option bytes) : elf_choice :=
  match debug_elf, deployed with
  | Some sidecar, Some deployed =>
      if text_matches (elf_text sidecar) (elf_text deployed) then UseElf sidecar else Mismatch
  | Some sidecar, None => UseElf sidecar
  | None, Some deployed => UseElf deployed
  | None, None => NoElf
  end.

Definition program_digest (c : ProgramCounters) : ustr :=
  match pc_elf c ≫= elf_text with Some text => sha256_hex text | None => [] end.

Definition resolve_program (program_id : bytes) (c : ProgramCounters) (debug_elf : option bytes) (rs : roots)
    (out : FileLines) (cache : RowCache) : ProgramReport * FileLines * RowCache :=
  let digest := program_digest c in
  let report debug resolved mismatch :=
    mkProgramReport (address_to_str program_id) (Z.of_nat (length (List.filter (fun h => 0 <? h) (pc_hits c))))
      (Z.of_nat (length (pc_hits c))) debug resolved mismatch digest in
  match choose_elf debug_elf (pc_elf c) with
  | Mismatch => (report false 0 true, out, cache)
  | NoElf => (report false 0 false, out, cache)
  | UseElf elf =>
      if negb (elf_parses elf) then (report false 0 false, out, cache)
      else
        let debug := has_line_table elf in
        let key := GenRun.text_of (address_to_str program_id) ++ [3] ++ digest ++ [3] ++ roots_fingerprint rs in
        match line_table key elf rs cache with
        | (None, cache) => (report debug 0 false, out, cache)
        | (Some (text_addr, rows), cache) =>
            let r := report debug (Z.of_nat (length rows)) false in
            match rows with
            | [] => (r, out, cache)
            | _ => (r, merge_counts out (charge (hits_at text_addr (pc_hits c)) rows), cache)
            end
        end
  end.

Fixpoint resolve_all (ps : list (bytes * ProgramCounters)) (elfs : list (bytes * bytes)) (rs : roots)
    (out : FileLines) (cache : RowCache) : list ProgramReport * FileLines * RowCache :=
  match ps with
  | [] => ([], out, cache)
  | (program_id, c) :: ps =>
      let '(r, out, cache) := resolve_program program_id c (attr_lookup program_id elfs) rs out cache in
      let '(reports, out, cache) := resolve_all ps elfs rs out cache in
      (r :: reports, out, cache)
  end.

Definition report_le (a b : ProgramReport) : Prop := String.leb (pr_program_id a) (pr_program_id b) = true.
#[global] Instance report_le_dec a b : Decision (report_le a b).
Proof. unfold report_le. apply _. Defined.

Definition build_report (rs : roots) (c : Counters) (cache : RowCache) : FileLines * list ProgramReport * RowCache :=
  let '(reports, lines, cache) := resolve_all (programs c) (debug_elfs c) rs ∅ cache in
  (lines, merge_sort report_le reports, cache).
End report.

(** ** LCOV *)

(** The order of [String]: that of the UTF-8 bytes. *)
Fixpoint bytes_leb (a b : bytes) : bool :=
  match a, b with
  | [], _ => true
  | _, [] => false
  | x :: a, y :: b => (Z_of_byte x <? Z_of_byte y) || ((Z_of_byte x =? Z_of_byte y) && bytes_leb a b)
  end.
Definition utf8_le (a b : ustr) : Prop := bytes_leb (default [] (utf8_encode a)) (default [] (utf8_encode b)) = true.
#[global] Instance utf8_le_dec a b : Decision (utf8_le a b).
Proof. unfold utf8_le. apply _. Defined.

Definition lcov_record (path : ustr) (m : Lines) : ustr :=
  u "TN:" ++ [10] ++ (u "SF:" ++ path ++ [10]) ++
  flat_map (fun lc => u "DA:" ++ int_str lc.1 ++ u "," ++ int_str lc.2 ++ [10])
    ((fun l => (l, default 0 (m !! l))) <$> merge_sort Z.le (map_to_list m).*1) ++
  (u "LF:" ++ int_str (Z.of_nat (size m)) ++ [10]) ++
  (u "LH:" ++ int_str (Z.of_nat (length (List.filter (fun lc => 0 <? lc.2) (map_to_list m)))) ++ [10]) ++
  u "end_of_record" ++ [10].

Definition to_lcov (lines : FileLines) : ustr :=
  flat_map (fun path => lcov_record path (default ∅ (lines !! path))) (merge_sort utf8_le (map_to_list lines).*1).

Definition dquote (s : ustr) : ustr := [34] ++ s ++ [34].
Definition meta_entry (p : ProgramReport) : ustr :=
  u "    " ++ dquote (GenRun.text_of (pr_program_id p)) ++ u ": {" ++ [10] ++ u "      " ++ dquote (u "text_sha256") ++ u ": " ++
  dquote (pr_text_sha256 p) ++ u "," ++ [10] ++ u "      " ++ dquote (u "instructions_total") ++ u ": " ++
  int_str (pr_instructions_total p) ++ [10] ++ u "    }".
Definition to_meta_json (ps : list ProgramReport) : ustr :=
  u "{" ++ [10] ++ u "  " ++ dquote (u "programs") ++ u ": {" ++ [10] ++ join (u "," ++ [10]) (meta_entry <$> ps) ++
  [10] ++ u "  }" ++ [10] ++ u "}" ++ [10].

(** ** The module's state and its functions *)

Record cov_state := mkCov { cv_counters : Counters; cv_enabled : bool; cv_rows : RowCache }.
Definition cov_init : cov_state := mkCov (mkAll [] []) false [].

Definition coverage_enable (s : cov_state) : cov_state := mkCov (cv_counters s) true (cv_rows s).
Definition coverage_disable (s : cov_state) : cov_state := mkCov (cv_counters s) false (cv_rows s).
Definition coverage_enabled (s : cov_state) : bool := cv_enabled s.
Definition coverage_reset (s : cov_state) : cov_state := mkCov (mkAll [] (debug_elfs (cv_counters s))) (cv_enabled s) (cv_rows s).

Definition register_debug_elf (program_id elf : bytes) (s : cov_state) : cov_state :=
  let c := cv_counters s in
  mkCov (mkAll (programs c) (dict_set program_id elf (debug_elfs c))) (cv_enabled s) (cv_rows s).

Section functions.
Context `{Native} `{Env}.

Definition coverage_add_debug_elf (program_id path : ustr) (s : cov_state) : res cov_state :=
  match address_from_str program_id with
  | None => Raise (RuntimeError "bad program id")
  | Some a =>
      match read_file path with
      | None => Raise (RuntimeError "reading")
      | Some b => if has_line_table b then Ok (register_debug_elf a b s) else Raise (RuntimeError "no .debug_line section")
      end
  end.

Definition coverage_report (rs : roots) (s : cov_state) : (FileLines * list ProgramReport) * cov_state :=
  let '(lines, ps, cache) := build_report rs (cv_counters s) (cv_rows s) in
  ((lines, ps), mkCov (cv_counters s) (cv_enabled s) cache).

(** The number of files, the report and its sidecar. *)
Definition coverage_lcov (rs : roots) (s : cov_state) : (nat * ustr * ustr) * cov_state :=
  let '(lines, ps, cache) := build_report rs (cv_counters s) (cv_rows s) in
  ((size lines, to_lcov lines, to_meta_json ps), mkCov (cv_counters s) (cv_enabled s) cache).
End functions.

(** ** [coverage.py] *)

(** The native state with [_ROOTS_CACHE]. *)
Record py_cov := mkPyCov { py_native : cov_state; py_roots : roots_cache }.
Definition on_native (f : cov_state -> cov_state) (s : py_cov) : py_cov := mkPyCov (f (py_native s)) (py_roots s).

Definition enable (s : py_cov) : py_cov := on_native coverage_enable s.
Definition disable (s : py_cov) : py_cov := on_native coverage_disable s.
Definition enabled (s : py_cov) : bool := coverage_enabled (py_native s).
Definition reset (s : py_cov) : py_cov := on_native coverage_reset s.

Section wrappers.
Context `{Native} `{Env}.

Definition add_debug_elf (program_id path : ustr) (s : py_cov) : res py_cov :=
  n ← coverage_add_debug_elf program_id path (py_native s); Ok (mkPyCov n (py_roots s)).

Definition report (fs : file_system) (source_roots : option (list ustr)) (s : py_cov) : (FileLines * list ProgramReport) * py_cov :=
  let '(rs, cache) := _roots fs source_roots (py_roots s) in
  let '(r, n) := coverage_report rs (py_native s) in
  (r, mkPyCov n cache).

Definition write_lcov (fs : file_system) (source_roots : option (list ustr)) (s : py_cov) : (nat * ustr * ustr) * py_cov :=
  let '(rs, cache) := _roots fs source_roots (py_roots s) in
  let '(r, n) := coverage_lcov rs (py_native s) in
  (r, mkPyCov n cache).
End wrappers.
