(* ===== verification/CoverageNativeProps.v ===== *)
(** * Correctness of the coverage recorder

    Counts are exact up to saturation, a line takes the count of its busiest
    run, a report does not depend on the order of a [HashMap], no line is
    credited to a file outside the roots, and what is written is what the Python
    side reads. *)

From Stdlib Require Import ZArith Lia.
From Stdlib Require Import Strings.Byte Strings.Ascii.
From stdpp Require Import base decidable option list gmap strings sorting numbers.
From S2P Require Import Prelude.
From S2P Require Import Maps.
From S2P Require Import Bytes.
From S2P Require Import Utf8.
From S2P Require Import Values.
From S2P Require Import Hex.
From S2P Require Import Coverage.
From S2P Require Import CoverageProps.
From S2P Require Import Json.
From S2P Require Import JsonProps.
From S2P Require Import GenRun.
From S2P Require Import GenRunProps.
From S2P Require Import CoverageText.
From S2P Require Import CoverageNative.

(** ** Counting *)

Definition u64 (z : Z) : Prop := 0 <= z <= U64_MAX.

(** How often [pc] is executed. *)
Definition executions (pc : nat) (pcs : list nat) : Z := Z.of_nat (length (List.filter (Nat.eqb pc) pcs)).

Lemma executions_cons pc x pcs : executions pc (x :: pcs) = (if (pc =? x)%nat then 1 else 0) + executions pc pcs.
Proof. unfold executions. simpl. destruct (pc =? x)%nat; simpl; lia. Qed.

Lemma executions_app pc a b : executions pc (a ++ b) = executions pc a + executions pc b.
Proof. unfold executions. rewrite List.filter_app, length_app. lia. Qed.

Lemma executions_nonneg pc pcs : 0 <= executions pc pcs.
Proof. unfold executions. lia. Qed.

Lemma bump_lookup hits x pc :
  bump hits x !! pc = (if (pc =? x)%nat then fun n => saturating_add n 1 else id) <$> hits !! pc.
Proof.
  unfold bump. destruct (pc =? x)%nat eqn:E.
  - apply Nat.eqb_eq in E as ->. destruct (hits !! x) eqn:Ex; [|by rewrite Ex].
    rewrite list_lookup_insert_eq; [done|]. by eapply lookup_lt_Some.
  - apply Nat.eqb_neq in E. rewrite option_fmap_id. destruct (hits !! x); [|done]. by rewrite list_lookup_insert_ne.
Qed.

Lemma bumps_lookup pcs : forall hits pc, (forall n, hits !! pc = Some n -> u64 n) ->
  foldl bump hits pcs !! pc = (fun n => saturating_add n (executions pc pcs)) <$> hits !! pc.
Proof.
  induction pcs as [|x pcs IH]; intros hits pc Hu; cbn [foldl].
  - destruct (hits !! pc) as [n|] eqn:E; [|done]. simpl. f_equal. specialize (Hu n eq_refl). unfold saturating_add, executions, u64 in *. simpl. lia.
  - rewrite IH.
    + rewrite bump_lookup, executions_cons. destruct (hits !! pc) as [n|] eqn:E; [|done]. simpl. f_equal. specialize (Hu n eq_refl).
      pose proof (executions_nonneg pc pcs). unfold saturating_add, u64 in *. destruct (pc =? x)%nat; simpl; lia.
    + intros n. rewrite bump_lookup. intros (m & Hm & ->)%fmap_Some. specialize (Hu m Hm). unfold u64, saturating_add in *.
      destruct (pc =? x)%nat; simpl; lia.
Qed.

Lemma bumps_length pcs : forall hits, length (foldl bump hits pcs) = length hits.
Proof.
  induction pcs as [|x pcs IH]; intros hits; [done|]. simpl. rewrite IH. unfold bump. destruct (hits !! x); [|done]. apply length_insert.
Qed.

Definition counters_ok (c : Counters) : Prop := Forall (fun p => Forall u64 (pc_hits p.2)) (programs c).

Definition hits_of (c : Counters) (p : bytes) : option (list Z) := pc_hits <$> attr_lookup p (programs c).

(** The instructions a list of invocations executes in [p]. *)
Definition run_pcs (p : bytes) (ivs : list invocation) : list nat :=
  flat_map (fun iv => if bool_decide (iv_program iv = Some p) then iv_pcs iv else []) ivs.

(** The counters a program starts from: its own, or zeroes for the text of its
    first invocation. *)
Definition initial_hits (c : Counters) (p : bytes) (ivs : list invocation) : option (list Z) :=
  match hits_of c p with
  | Some h => Some h
  | None => (fun iv => replicate (iv_text_len iv / 8) 0) <$> List.find (fun iv => bool_decide (iv_program iv = Some p)) ivs
  end.

Lemma hits_of_record c iv p :
  hits_of (record c iv) p =
  if bool_decide (iv_program iv = Some p)
  then Some (foldl bump (default (replicate (iv_text_len iv / 8) 0) (hits_of c p)) (iv_pcs iv)) else hits_of c p.
Proof.
  unfold record, hits_of. destruct (iv_program iv) as [q|]; [|done]. cbn [programs]. rewrite lookup_dict_set.
  destruct (decide (q = p)) as [->|Hn].
  - rewrite bool_decide_eq_true_2 by done. simpl. by destruct (attr_lookup p (programs c)).
  - by rewrite bool_decide_eq_false_2 by congruence.
Qed.

Lemma hits_of_ok c p h : counters_ok c -> hits_of c p = Some h -> Forall u64 h.
Proof.
  unfold hits_of, counters_ok. rewrite list.Forall_forall. intros Hc (e & He & ->)%fmap_Some. apply attr_lookup_elem in He. by apply (Hc (p, e)).
Qed.

Lemma u64_zero : u64 0.
Proof. done. Qed.

Lemma bumps_ok pcs hits : Forall u64 hits -> Forall u64 (foldl bump hits pcs).
Proof.
  intros Hu. apply Forall_lookup. intros pc n Hn. rewrite bumps_lookup in Hn by (intros m Hm; by eapply Forall_lookup_1).
  apply fmap_Some in Hn as (m & Hm & ->). pose proof (Forall_lookup_1 _ _ _ _ Hu Hm) as Hmu. pose proof (executions_nonneg pc pcs).
  unfold u64, saturating_add in *. lia.
Qed.

Lemma record_ok c iv : counters_ok c -> counters_ok (record c iv).
Proof.
  intros Hc. unfold record. destruct (iv_program iv) as [q|]; [|done]. unfold counters_ok. cbn [programs].
  apply dict_set_Forall; [|done]. cbn [snd pc_hits]. apply bumps_ok.
  destruct (attr_lookup q (programs c)) as [e|] eqn:E; simpl; [|by apply Forall_replicate].
  apply (hits_of_ok c q); [done|]. unfold hits_of. by rewrite E.
Qed.

Lemma initial_hits_cons c p iv ivs :
  initial_hits c p (iv :: ivs) =
  if bool_decide (iv_program iv = Some p) then Some (default (replicate (iv_text_len iv / 8) 0) (hits_of c p)) else initial_hits c p ivs.
Proof. unfold initial_hits. cbn [List.find]. destruct (bool_decide _); by destruct (hits_of c p). Qed.

Lemma initial_hits_record c p iv ivs :
  initial_hits (record c iv) p ivs =
  if bool_decide (iv_program iv = Some p)
  then Some (foldl bump (default (replicate (iv_text_len iv / 8) 0) (hits_of c p)) (iv_pcs iv)) else initial_hits c p ivs.
Proof. unfold initial_hits. rewrite hits_of_record. by destruct (bool_decide _). Qed.

(** C21: execution counts are exact.  After any traced invocations the count of
    an instruction is what it was, or zero for a program seen for the first
    time, plus the number of times the invocations executed it, saturating at
    the largest 64-bit count; instructions outside the recorded text are
    ignored, other programs are untouched, and without tracing nothing changes. *)
Theorem recorded_counts c ivs :
  counters_ok c ->
  counters_ok (after_invocation true c ivs) /\ after_invocation false c ivs = c /\
  forall p pc, (hits_of (after_invocation true c ivs) p ≫= lookup pc) =
    (fun n => saturating_add n (executions pc (run_pcs p ivs))) <$> (initial_hits c p ivs ≫= lookup pc).
Proof.
  unfold after_invocation. intros Hc. split; [|split; [done|]]; revert c Hc; induction ivs as [|iv ivs IH]; intros c Hc; cbn [foldl].
  - done.
  - by apply IH, record_ok.
  - intros p pc. unfold initial_hits. simpl. destruct (hits_of c p) as [h|] eqn:E; [|done]. simpl.
    destruct (h !! pc) as [n|] eqn:En; [|done]. simpl. f_equal. pose proof (Forall_lookup_1 _ _ _ _ (hits_of_ok _ _ _ Hc E) En).
    unfold u64, saturating_add, executions in *. simpl. lia.
  - intros p pc. rewrite IH by (by apply record_ok). cbn [run_pcs flat_map]. rewrite executions_app.
    rewrite initial_hits_cons, initial_hits_record. destruct (bool_decide (iv_program iv = Some p)); [|done].
    fold (run_pcs p ivs). set (h := default (replicate (iv_text_len iv / 8) 0) (hits_of c p)).
    assert (Hh : Forall u64 h).
    { unfold h. destruct (hits_of c p) eqn:E; [by eapply hits_of_ok|by apply Forall_replicate]. }
    cbn [mbind option_bind].
    rewrite bumps_lookup by (intros m Hm; by eapply Forall_lookup_1). destruct (h !! pc) as [n|] eqn:En; [|done]. simpl. f_equal.
    pose proof (Forall_lookup_1 _ _ _ _ Hh En). pose proof (executions_nonneg pc (iv_pcs iv)). pose proof (executions_nonneg pc (run_pcs p ivs)).
    unfold u64, saturating_add in *. lia.
Qed.

Definition demo_counters : Counters := mkAll [([x01], mkCounters [5; U64_MAX] None)] [].
Definition demo_run : list invocation := [mkInvocation (Some [x01]) 16 None [0; 0; 1; 7]%nat; mkInvocation (Some [x02]) 8 None [0]%nat].

Lemma recorded_counts_witness :
  counters_ok demo_counters /\ (hits_of (after_invocation true demo_counters demo_run) [x01] ≫= lookup 1%nat) = Some U64_MAX.
Proof.
  assert (H : counters_ok demo_counters) by (repeat constructor; discriminate).
  split; [exact H|]. rewrite (proj2 (proj2 (recorded_counts demo_counters demo_run H))). reflexivity.
Defined.

(** ** Lines *)

Definition row_key (r : StmtRow) : ustr * Z := (file r, line r).

(** The rows that begin a run: the row before is of another line. *)
Fixpoint run_starts (prev : option (ustr * Z)) (rows : list StmtRow) : list StmtRow :=
  match rows with
  | [] => []
  | r :: rows =>
      if bool_decide (prev = Some (row_key r)) then run_starts prev rows else r :: run_starts (Some (row_key r)) rows
  end.

(** The count of the busiest run of [k]. *)
Definition busiest (at_addr : Z -> Z) (k : ustr * Z) (starts : list StmtRow) : Z :=
  foldr Z.max 0 ((fun r => at_addr (address r)) <$> List.filter (fun r => bool_decide (row_key r = k)) starts).

Definition entry_of (lines : FileLines) (k : ustr * Z) : option Z := lines !! k.1 ≫= lookup k.2.

Lemma entry_set_line lines f l v k : entry_of (set_line lines f l v) k = if bool_decide (k = (f, l)) then Some v else entry_of lines k.
Proof.
  destruct k as [f' l']. unfold entry_of, set_line. cbn [fst snd]. destruct (decide (f' = f)) as [->|Hf].
  - rewrite lookup_insert_eq. simpl. destruct (decide (l' = l)) as [->|Hl].
    + rewrite lookup_insert_eq. by rewrite bool_decide_eq_true_2.
    + rewrite lookup_insert_ne by done. rewrite bool_decide_eq_false_2 by congruence. by destruct (lines !! f).
  - rewrite lookup_insert_ne by done. by rewrite bool_decide_eq_false_2 by congruence.
Qed.

Lemma busiest_nonneg at_addr k rows : 0 <= busiest at_addr k rows.
Proof. unfold busiest. generalize ((fun r => at_addr (address r)) <$> List.filter (fun r => bool_decide (row_key r = k)) rows). intros zs. induction zs; simpl; lia. Qed.

Lemma busiest_cons at_addr k r rows :
  busiest at_addr k (r :: rows) = if bool_decide (row_key r = k) then Z.max (at_addr (address r)) (busiest at_addr k rows) else busiest at_addr k rows.
Proof. unfold busiest. simpl. by destruct (bool_decide (row_key r = k)). Qed.

Lemma busiest_absent at_addr k rows : forall prev, k ∉ row_key <$> rows -> busiest at_addr k (run_starts prev rows) = 0.
Proof.
  induction rows as [|r rows IH]; intros prev Hin; [done|]. rewrite fmap_cons, not_elem_of_cons in Hin. destruct Hin as [Hr Hin].
  cbn [run_starts]. case_bool_decide; [by apply IH|]. rewrite busiest_cons, bool_decide_eq_false_2 by done. by apply IH.
Qed.

Lemma charge_from at_addr rows : forall lines prev k,
  (forall a, 0 <= at_addr a) -> 0 <= default 0 (entry_of lines k) -> (prev = Some k -> is_Some (entry_of lines k)) ->
  entry_of (foldl (charge_step at_addr) (lines, prev) rows).1 k =
  if bool_decide (k ∈ row_key <$> rows) then Some (Z.max (default 0 (entry_of lines k)) (busiest at_addr k (run_starts prev rows)))
  else entry_of lines k.
Proof.
  induction rows as [|r rows IH]; intros lines prev k Ha Hn Hp; cbn [foldl]; [done|].
  cbn [charge_step]. fold (row_key r).
  set (v := if bool_decide (prev = Some (row_key r)) then line_entry lines (file r) (line r)
            else Z.max (line_entry lines (file r) (line r)) (at_addr (address r))).
  assert (Hslot : line_entry lines (file r) (line r) = default 0 (entry_of lines (row_key r))) by done.
  assert (Hv : row_key r = k -> 0 <= v).
  { intros <-. unfold v. rewrite Hslot. case_bool_decide; lia. }
  assert (Hentry : entry_of (set_line lines (file r) (line r) v) k = if bool_decide (k = row_key r) then Some v else entry_of lines k)
    by apply entry_set_line.
  rewrite IH; [|done|rewrite Hentry; case_bool_decide; subst; simpl; auto|].
  2: { intros [= <-]. rewrite Hentry, bool_decide_eq_true_2 by done. by eexists. }
  rewrite Hentry, fmap_cons. cbn [run_starts].
  destruct (decide (k = row_key r)) as [->|Hk].
  - rewrite (bool_decide_eq_true_2 (row_key r = row_key r)) by done. rewrite (bool_decide_eq_true_2 (row_key r ∈ row_key r :: _)) by (by left).
    cbn [from_option id]. unfold v. rewrite Hslot.
    destruct (decide (prev = Some (row_key r))) as [Hpr|Hpr]; [rewrite !(bool_decide_eq_true_2 _ Hpr)|rewrite !(bool_decide_eq_false_2 _ Hpr)].
    + subst prev. clear v Hv Hentry. case_bool_decide as Hin; [done|]. destruct (Hp eq_refl) as [x Hx]. rewrite Hx in *. simpl in *.
      rewrite busiest_absent by done. f_equal. lia.
    + rewrite busiest_cons. rewrite (bool_decide_eq_true_2 (row_key r = row_key r)) by done. clear v Hv Hentry. case_bool_decide as Hin; f_equal; [lia|].
      rewrite busiest_absent by done. pose proof (Ha (address r)). lia.
  - rewrite !(bool_decide_eq_false_2 (k = row_key r)) by done.
    rewrite (bool_decide_ext (k ∈ row_key r :: _) (k ∈ row_key <$> rows)) by (rewrite elem_of_cons; tauto).
    clear v Hv Hentry. case_bool_decide as Hin; [|done]. do 2 f_equal.
    destruct (decide (prev = Some (row_key r))) as [Hpr|Hpr]; [by rewrite (bool_decide_eq_true_2 _ Hpr), Hpr|rewrite (bool_decide_eq_false_2 _ Hpr)].
    by rewrite busiest_cons, bool_decide_eq_false_2 by congruence.
Qed.

(** A line takes the count of its busiest run.  Every line with code is in
    the report, executed or not, and its count is the largest count of the
    instructions at which a run of its rows begins, in address order. *)
Theorem charge_busiest_run at_addr rows k :
  (forall a, 0 <= at_addr a) ->
  entry_of (charge at_addr rows) k =
  if bool_decide (k ∈ row_key <$> rows) then Some (busiest at_addr k (run_starts None rows)) else None.
Proof.
  intros Ha. unfold charge. rewrite charge_from by done.
  unfold entry_of. rewrite lookup_empty. simpl. case_bool_decide; [|done]. f_equal. pose proof (busiest_nonneg at_addr k (run_starts None rows)). lia.
Qed.

Definition demo_rows : list StmtRow := [mkRow 0 (u "a") 1; mkRow 8 (u "a") 1; mkRow 16 (u "a") 2; mkRow 24 (u "a") 1; mkRow 32 (u "a") 3].

Lemma charge_busiest_run_witness :
  entry_of (charge (fun a => Z.abs (a - 16)) demo_rows) (u "a"%string, 1) = Some 16 /\ entry_of (charge (fun a => Z.abs (a - 16)) demo_rows) (u "b"%string, 1) = None.
Proof.
  assert (H : forall a, 0 <= Z.abs (a - 16)) by (intros; lia).
  split; [rewrite (charge_busiest_run _ demo_rows _ H)|rewrite (charge_busiest_run _ demo_rows _ H)]; vm_compute; reflexivity.
Defined.

(** ** Files *)

Section confined.
Context `{Env}.

(** Where a unit of crate [krate] may put a line. *)
Inductive placed (rs : roots) (krate : option ustr) : ustr -> Prop :=
  | placed_absolute f :
      is_absolute f = true -> rs = [] \/ (exists r, r ∈ rs /\ starts_with f r.1 = true) -> placed rs krate f
  | placed_relative dir k path :
      krate = Some k -> (dir, k) ∈ rs -> is_absolute path = false -> is_file (path_join dir path) = true ->
      placed rs krate (path_join dir path).

Lemma find_in_roots_placed path k rs rs' f :
  is_absolute path = false -> (forall r, r ∈ rs -> r ∈ rs') -> find_in_roots path k rs = Some f -> placed rs' (Some k) f.
Proof.
  intros Hp. induction rs as [|[dir c] rs IH]; intros Hsub; simpl; [done|]. case_bool_decide as Hc; simpl.
  - subst c. destruct (is_file (path_join dir path)) eqn:Ef.
    + intros [= <-]. apply (placed_relative _ _ dir k); [done|apply Hsub; by left|done|done].
    + apply IH. intros. apply Hsub. by right.
  - apply IH. intros. apply Hsub. by right.
Qed.

Lemma resolve_path_placed path krate rs f : resolve_path path krate rs = Some f -> placed rs krate f.
Proof.
  unfold resolve_path. destruct (is_absolute path) eqn:Ea.
  - destruct (_ || _) eqn:E; [|done]. intros [= <-]. apply placed_absolute; [done|]. apply orb_true_iff in E as [E|E].
    + left. by destruct rs.
    + right. apply existsb_exists in E as (r & Hr & Hs). exists r. by rewrite list_elem_of_In.
  - destruct krate as [k|]; [|done]. simpl. by apply find_in_roots_placed.
Qed.

Definition row_fits (rs : roots) (krate : option ustr) (r : StmtRow) : Prop :=
  placed rs krate (file r) /\ forall n, line_count (file r) = Some n -> line r <= n.

Lemma kept_row_fits rs krate a f l rest :
  placed rs krate f -> Forall (row_fits rs krate) rest ->
  Forall (row_fits rs krate) (if match line_count f with Some n => n <? l | None => false end then rest else mkRow a f l :: rest).
Proof.
  intros Hf Hr. destruct (line_count f) as [n|] eqn:En.
  - destruct (n <? l) eqn:Ec; [done|]. constructor; [|done]. split; [done|]. intros n'. cbn [file line]. rewrite En.
    intros [= <-]. by apply Z.ltb_ge in Ec.
  - constructor; [|done]. split; [done|]. cbn [file]. by rewrite En.
Qed.

Lemma unit_rows_fit krate comp_dir rs rows : forall resolved,
  (forall i f, (i, Some f) ∈ resolved -> placed rs krate f) ->
  Forall (row_fits rs krate) (unit_rows krate comp_dir rs resolved rows).
Proof.
  induction rows as [|r rows IH]; intros resolved Hr; [constructor|]. cbn [unit_rows].
  destruct (_ || _); [by apply IH|]. destruct (rr_line r) as [l|]; [|by apply IH].
  destruct (attr_lookup (rr_file_index r) resolved) as [f|] eqn:El.
  - destruct f as [f|]; [|by apply IH]. apply attr_lookup_elem in El. apply kept_row_fits; [by eapply Hr|by apply IH].
  - set (f := '(index, directory, name) ← rr_file r; resolve_path (compose_path comp_dir index directory name) krate rs).
    assert (Hf : forall g, f = Some g -> placed rs krate g).
    { intros g. unfold f. destruct (rr_file r) as [[[index directory] name]|]; [|done]. simpl. apply resolve_path_placed. }
    assert (Hr' : forall i g, (i, Some g) ∈ dict_set (rr_file_index r) f resolved -> placed rs krate g).
    { intros i g Hin. assert (Hall : Forall (fun e => forall g, e.2 = Some g -> placed rs krate g) (dict_set (rr_file_index r) f resolved)).
      - apply dict_set_Forall; [done|]. apply list.Forall_forall. intros [i' o] Hi g' Hg. simpl in Hg. subst o. by eapply Hr.
      - rewrite list.Forall_forall in Hall. by apply (Hall _ Hin). }
    clearbody f. destruct f as [f|]; [|by apply IH]. apply kept_row_fits; [by apply Hf|by apply IH].
Qed.

(** C22: no line is credited to a file that is not the user's.  A row kept from
    the line table is in an absolute file under a source root (any, without
    roots), or in a file that exists under a root of the very crate the unit was
    compiled from; and its number does not exceed the file's lines. *)
Theorem statement_rows_confined units rs r :
  r ∈ statement_rows units rs -> exists un, un ∈ units /\ row_fits rs (unit_crate_name (un_name un)) r.
Proof.
  unfold statement_rows. rewrite list_elem_of_In, in_flat_map. intros (un & Hun & Hr). exists un. rewrite list_elem_of_In. split; [done|].
  destruct (un_rows un) as [rows|]; [|done].
  pose proof (unit_rows_fit (unit_crate_name (un_name un)) (un_comp_dir un) rs rows [] ltac:(by intros ? ? ?%elem_of_nil)) as Hf.
  rewrite list.Forall_forall in Hf. apply Hf. by apply list_elem_of_In.
Qed.
End confined.

(** ** The order of texts and of their UTF-8 bytes *)

Definition scalars (s : ustr) : Prop := Forall (fun c => scalar c = true) s.

Definition lex (a b : bytes) : Prop := exists p x y a' b', a = p ++ x :: a' /\ b = p ++ y :: b' /\ Z_of_byte x < Z_of_byte y.

Lemma bytes_leb_lex a b : lex a b -> bytes_leb a b = true /\ bytes_leb b a = false.
Proof.
  intros (p & x & y & a' & b' & -> & -> & Hxy). induction p as [|z p IH]; simpl.
  - split; [by rewrite (proj2 (Z.ltb_lt _ _)) by lia|]. apply orb_false_iff. split; [apply Z.ltb_ge; lia|].
    apply andb_false_iff. left. apply Z.eqb_neq. lia.
  - by rewrite Z.ltb_irrefl, Z.eqb_refl.
Qed.

Lemma lex_app p a b : lex a b -> lex (p ++ a) (p ++ b).
Proof. intros (q & x & y & a' & b' & -> & -> & ?). exists (p ++ q), x, y, a', b'. by rewrite <- !app_assoc. Qed.

Lemma bytes_leb_app p a b : bytes_leb (p ++ a) (p ++ b) = bytes_leb a b.
Proof. induction p as [|x p IH]; simpl; [done|]. by rewrite Z.ltb_irrefl, Z.eqb_refl. Qed.

Lemma lex_head x y a b : Z_of_byte x < Z_of_byte y -> lex (x :: a) (y :: b).
Proof. intros. by exists [], x, y, a, b. Qed.
Lemma lex_cons x y a b : x = y -> lex a b -> lex (x :: a) (y :: b).
Proof. intros -> Hl. by apply (lex_app [y]). Qed.

Ltac euclid := Z.to_euclidean_division_equations; lia.

(** Encoded scalars compare like the scalars. *)
Lemma utf8_char_lex c d a b : scalar c = true -> scalar d = true -> c < d -> lex (utf8_char c ++ a) (utf8_char d ++ b).
Proof.
  unfold scalar. rewrite !andb_true_iff, !Z.leb_le. intros [[Hc1 Hc2] _] [[Hd1 Hd2] _] Hlt. unfold utf8_char.
  destruct (c <? 0x80) eqn:C1; destruct (d <? 0x80) eqn:D1; [..|apply Z.ltb_ge in C1; apply Z.ltb_lt in D1; lia|];
    [apply Z.ltb_lt in C1, D1; apply lex_head; rewrite !lead_byte by lia; lia|apply Z.ltb_lt in C1; apply Z.ltb_ge in D1|apply Z.ltb_ge in C1, D1].
  - repeat case_match; apply lex_head; rewrite ?lead_byte; try lia; try euclid.
  - destruct (c <? 0x800) eqn:C2; destruct (d <? 0x800) eqn:D2; [apply Z.ltb_lt in C2, D2|apply Z.ltb_lt in C2; apply Z.ltb_ge in D2|apply Z.ltb_ge in C2; apply Z.ltb_lt in D2; lia|apply Z.ltb_ge in C2, D2].
    + destruct (decide (c / 64 < d / 64)); [apply lex_head; rewrite !lead_byte by euclid; lia|].
      apply lex_cons; [do 2 f_equal; euclid|]. apply lex_head. rewrite !lead_byte by euclid. euclid.
    + destruct (d <? 0x10000) eqn:D3; apply lex_head; rewrite !lead_byte by (rewrite ?Z.ltb_lt, ?Z.ltb_ge in *; euclid); euclid.
    + destruct (c <? 0x10000) eqn:C3; destruct (d <? 0x10000) eqn:D3; [apply Z.ltb_lt in C3, D3|apply Z.ltb_lt in C3; apply Z.ltb_ge in D3|apply Z.ltb_ge in C3; apply Z.ltb_lt in D3; lia|apply Z.ltb_ge in C3, D3].
      * destruct (decide (c / 4096 < d / 4096)); [apply lex_head; rewrite !lead_byte by euclid; lia|].
        apply lex_cons; [do 2 f_equal; euclid|].
        destruct (decide ((c / 64) mod 64 < (d / 64) mod 64)); [apply lex_head; rewrite !lead_byte by euclid; lia|].
        apply lex_cons; [do 2 f_equal; euclid|]. apply lex_head. rewrite !lead_byte by euclid. euclid.
      * apply lex_head. rewrite !lead_byte by euclid. euclid.
      * destruct (decide (c / 262144 < d / 262144)); [apply lex_head; rewrite !lead_byte by euclid; lia|].
        apply lex_cons; [do 2 f_equal; euclid|].
        destruct (decide ((c / 4096) mod 64 < (d / 4096) mod 64)); [apply lex_head; rewrite !lead_byte by euclid; lia|].
        apply lex_cons; [do 2 f_equal; euclid|].
        destruct (decide ((c / 64) mod 64 < (d / 64) mod 64)); [apply lex_head; rewrite !lead_byte by euclid; lia|].
        apply lex_cons; [do 2 f_equal; euclid|]. apply lex_head. rewrite !lead_byte by euclid. euclid.
Qed.

Lemma utf8_le_ustr a b : scalars a -> scalars b -> (utf8_le a b <-> ustr_le a b).
Proof.
  unfold utf8_le, ustr_le. intros Ha. revert b. induction Ha as [|c a Hc Ha IH]; intros b Hb; [done|].
  assert (Henc : forall s, scalars s -> exists e, utf8_encode s = Some e).
  { clear. induction 1 as [|c s Hc _ [e He]]; [by eexists|]. simpl. rewrite Hc, He. by eexists. }
  destruct Hb as [|d b Hd Hb]; simpl.
  - rewrite Hc. destruct (Henc a Ha) as [e ->]. simpl. assert (utf8_char c <> []) by (unfold utf8_char; by repeat case_match).
    by destruct (utf8_char c).
  - specialize (IH b Hb). rewrite Hc, Hd. destruct (Henc a Ha) as [ea Ea], (Henc b Hb) as [eb Eb]. rewrite Ea, Eb in *. simpl in *.
    destruct (Z.lt_trichotomy c d) as [Hl|[->|Hl]].
    + rewrite (proj2 (Z.ltb_lt _ _) Hl). simpl. by destruct (bytes_leb_lex _ _ (utf8_char_lex c d ea eb Hc Hd Hl)) as [-> _].
    + by rewrite bytes_leb_app, Z.ltb_irrefl, Z.eqb_refl.
    + rewrite (proj2 (Z.ltb_ge _ _)), (proj2 (Z.eqb_neq _ _)) by lia. simpl.
      by destruct (bytes_leb_lex _ _ (utf8_char_lex d c eb ea Hd Hc Hl)) as [_ ->].
Qed.

#[global] Instance utf8_le_total : Total utf8_le.
Proof.
  intros a b. unfold utf8_le. generalize (default [] (utf8_encode a)) as p, (default [] (utf8_encode b)) as q. clear.
  intros p. induction p as [|x a IH]; intros [|y b]; simpl; auto. destruct (IH b) as [H|H]; rewrite H;
    destruct (Z.lt_trichotomy (Z_of_byte x) (Z_of_byte y)) as [Hl|[->|Hl]]; rewrite ?Z.ltb_irrefl, ?Z.eqb_refl; auto;
    [left|right|left|right]; by rewrite (proj2 (Z.ltb_lt _ _) Hl).
Qed.

#[global] Instance ustr_le_total : Total ustr_le.
Proof.
  intros a. unfold ustr_le. induction a as [|x a IH]; intros [|y b]; simpl; auto. destruct (IH b) as [H|H]; rewrite H;
    destruct (Z.lt_trichotomy x y) as [Hl|[->|Hl]]; rewrite ?Z.ltb_irrefl, ?Z.eqb_refl; auto;
    [left|right|left|right]; by rewrite (proj2 (Z.ltb_lt _ _) Hl).
Qed.

#[global] Instance ustr_le_trans : Transitive ustr_le.
Proof.
  unfold ustr_le. intros a. induction a as [|x a IH]; intros [|y b] [|z c]; simpl; try done.
  rewrite !orb_true_iff, !andb_true_iff, !Z.ltb_lt, !Z.eqb_eq. intros [?|[-> ?]] [?|[-> ?]]; [left; lia|by left|by left|right]. eauto.
Qed.

#[global] Instance ustr_le_antisym : AntiSymm (=) ustr_le.
Proof.
  unfold ustr_le. intros a. induction a as [|x a IH]; intros [|y b]; simpl; try done.
  rewrite !orb_true_iff, !andb_true_iff, !Z.ltb_lt, !Z.eqb_eq. intros [?|[-> ?]] [?|[? ?]]; try lia. f_equal. auto.
Qed.

(** Listing by bytes is listing by code points. *)
Lemma sort_paths l : Forall scalars l -> merge_sort utf8_le l = merge_sort ustr_le l.
Proof.
  intros Hl. apply (Sorted_unique ustr_le); [|apply Sorted_merge_sort, _|by rewrite !merge_sort_Permutation].
  assert (Hs : Forall scalars (merge_sort utf8_le l)) by (by rewrite merge_sort_Permutation).
  pose proof (Sorted_merge_sort utf8_le l) as Hsort. revert Hs. induction Hsort as [|x l' Hl' IH Hhd]; intros Hs; [constructor|].
  inversion Hs as [|? ? Hx Hs']; subst. constructor; [by apply IH|]. destruct Hhd as [|y l'' Hxy]; constructor.
  inversion Hs'; subst. by apply utf8_le_ustr.
Qed.

(** ** The report written is the report read *)

Definition counts_ok (f : FileLines) : Prop := forall k c, entry_of f k = Some c -> u64 c.

Lemma lh_count (m : Lines) :
  (forall l c, m !! l = Some c -> u64 c) ->
  List.filter (fun lc : Z * Z => 0 <? lc.2) (map_to_list m) = List.filter (fun nc => negb (nc.2 =? 0)) (map_to_list m).
Proof.
  intros Hm. apply List.filter_ext_in. intros [l c] Hin%list_elem_of_In%elem_of_map_to_list. apply Hm in Hin. unfold u64 in Hin. simpl.
  apply eq_true_iff_eq. rewrite negb_true_iff, Z.ltb_lt, Z.eqb_neq. lia.
Qed.

Lemma da_lines_text ncs :
  flat_map (fun lc => u "DA:" ++ int_str lc.1 ++ u "," ++ int_str lc.2 ++ [10]) ncs = flat_map (fun l => l ++ [10]) (da_line <$> ncs).
Proof.
  induction ncs as [|nc ncs IH]; [done|]. rewrite fmap_cons. cbn [flat_map]. rewrite <- IH. unfold da_line. by rewrite <- !app_assoc.
Qed.

Lemma lcov_record_lines path m : (forall l c, m !! l = Some c -> u64 c) -> lcov_record path m = lines_text (record_lines path m).
Proof.
  intros Hm. unfold lcov_record, record_lines, lines_text. rewrite lh_count, da_lines_text by done. rewrite !flat_map_app.
  change (flat_map (fun l => l ++ [10]) [u "TN:"; u "SF:" ++ path]) with ((u "TN:" ++ [10]) ++ ((u "SF:" ++ path) ++ [10]) ++ []).
  cbn [flat_map]. unfold sorted_lines. by rewrite !app_nil_r, <- !app_assoc.
Qed.

(** The recorder and [format_lcov] write the same text. *)
Lemma to_lcov_format f : (forall path, is_Some (f !! path) -> scalars path) -> counts_ok f -> to_lcov f = format_lcov f.
Proof.
  intros Hp Hc. assert (Hs : merge_sort utf8_le (map_to_list f).*1 = sorted_paths f).
  { apply sort_paths, list.Forall_forall. intros p ([p' m] & -> & Hin%elem_of_map_to_list)%list_elem_of_fmap. apply Hp. by eexists. }
  set (ls := flat_map (fun path => record_lines path (default ∅ (f !! path))) (sorted_paths f)).
  assert (Ht : format_lcov f = lines_text ls).
  { unfold format_lcov. fold ls. destruct ls; [done|]. by apply join_lines. }
  rewrite Ht. unfold to_lcov. rewrite Hs. unfold ls. clear Ht ls Hs. induction (sorted_paths f) as [|p ps IH]; [done|]. cbn [flat_map].
  unfold lines_text in *. rewrite flat_map_app, IH. f_equal. apply lcov_record_lines. intros l c Hl.
  apply (Hc (p, l)). unfold entry_of. cbn [fst snd]. by destruct (f !! p).
Qed.

Lemma entry_empty k : entry_of ∅ k = None.
Proof. unfold entry_of. by rewrite lookup_empty. Qed.

Lemma merge_counts_entry out lines k :
  entry_of (merge_counts out lines) k =
  match entry_of lines k with
  | Some c => Some (saturating_add (default 0 (entry_of out k)) c)
  | None => entry_of out k
  end.
Proof.
  unfold entry_of, merge_counts. rewrite merge_into_lookup. destruct (lines !! k.1) as [m|]; simpl; [|done].
  rewrite merge_into_lookup. destruct (m !! k.2); simpl; destruct (out !! k.1); simpl; by rewrite ?lookup_empty.
Qed.

Lemma merge_counts_ok out lines : counts_ok out -> counts_ok lines -> counts_ok (merge_counts out lines).
Proof.
  intros Ho Hl k c. rewrite merge_counts_entry. destruct (entry_of lines k) as [c'|] eqn:E; [|apply Ho].
  intros [= <-]. apply Hl in E. destruct (entry_of out k) as [c0|] eqn:E0; [apply Ho in E0|]; unfold u64, saturating_add in *; simpl; lia.
Qed.

Lemma hits_at_ok addr hits a : Forall u64 hits -> u64 (hits_at addr hits a).
Proof.
  intros Hh. unfold hits_at. destruct (a <? addr); [done|]. destruct (hits !! _) as [n|] eqn:E; [|done]. by apply (Forall_lookup_1 _ _ _ _ Hh E).
Qed.

Lemma busiest_ok at_addr k rows : (forall a, u64 (at_addr a)) -> u64 (busiest at_addr k rows).
Proof.
  intros Ha. induction rows as [|r rows IH]; [done|]. rewrite busiest_cons. case_bool_decide; [|done].
  specialize (Ha (address r)). unfold u64 in *. lia.
Qed.

Section written.
Context `{Native} `{Env}.

Lemma charge_ok at_addr rows : (forall a, u64 (at_addr a)) -> counts_ok (charge at_addr rows).
Proof.
  intros Ha k c. unfold charge. rewrite charge_from, entry_empty; [|intros a; apply Ha|by rewrite entry_empty|done].
  case_bool_decide; [|done]. intros [= <-]. pose proof (busiest_ok at_addr k (run_starts None rows) Ha). unfold u64 in *. simpl. lia.
Qed.

Lemma resolve_program_ok p c elf rs out cache :
  Forall u64 (pc_hits c) -> counts_ok out -> counts_ok (resolve_program p c elf rs out cache).1.2.
Proof.
  intros Hc Ho. unfold resolve_program. destruct (choose_elf _ _); [|done|done]. destruct (negb _); [done|].
  destruct (line_table _ _ _ _) as [[[text_addr rows]|] cache']; [|done]. destruct rows as [|r rows]; [done|]. cbn [fst snd].
  apply merge_counts_ok; [done|]. apply charge_ok. intros a. by apply hits_at_ok.
Qed.

Lemma resolve_all_ok ps elfs rs : forall out cache,
  Forall (fun p => Forall u64 (pc_hits p.2)) ps -> counts_ok out -> counts_ok (resolve_all ps elfs rs out cache).1.2.
Proof.
  induction ps as [|[p c] ps IH]; intros out cache Hps Ho; [done|]. inversion Hps as [|? ? Hc Hps']; subst. cbn [resolve_all].
  pose proof (resolve_program_ok p c (attr_lookup p elfs) rs out cache Hc Ho) as Hr.
  destruct (resolve_program _ _ _ _ _ _) as [[r out'] cache']. cbn [fst snd] in Hr.
  specialize (IH out' cache' Hps' Hr). by destruct (resolve_all ps elfs rs out' cache') as [[rs' out''] cache''].
Qed.

Lemma build_report_ok rs c cache : counters_ok c -> counts_ok (build_report rs c cache).1.1.
Proof.
  intros Hc. unfold build_report.
  assert (He : counts_ok ∅) by (intros k n; by rewrite entry_empty).
  pose proof (resolve_all_ok (programs c) (debug_elfs c) rs ∅ cache Hc He) as Hr.
  by destruct (resolve_all _ _ _ _ _) as [[reports lines] cache'].
Qed.
End written.

(** ** The sidecar *)

(** Text JSON writes as it is. *)
Definition json_plain (s : ustr) : Prop := Forall (fun c => json_char c = [c] /\ scalar c = true) s.

Lemma quote_plain s : json_plain s -> quote s = dquote s.
Proof.
  intros Hs. unfold quote, dquote. simpl. do 2 f_equal. induction Hs as [|c s [Hc _] _ IH]; [done|]. simpl. by rewrite Hc, IH.
Qed.

Definition report_entry (p : ProgramReport) : ustr * jv :=
  (text_of (pr_program_id p), JvObj [(u "text_sha256"%string, JvStr (pr_text_sha256 p));
                                     (u "instructions_total"%string, JvInt (pr_instructions_total p))]).

Definition report_plain (p : ProgramReport) : Prop := json_plain (text_of (pr_program_id p)) /\ json_plain (pr_text_sha256 p).

Lemma meta_entry_print p : report_plain p -> meta_entry p = u "    "%string ++ quote (report_entry p).1 ++ [58; 32] ++ print 2 (report_entry p).2.
Proof.
  intros [H1 H2]. unfold meta_entry, report_entry. cbn [fst snd print map]. rewrite !quote_plain by (done || by repeat constructor).
  unfold block, newline. rewrite !join_cons2. cbn [join].
  rewrite <- !app_assoc. cbn -[int_str dquote text_of]. rewrite <- ?app_assoc. cbn -[int_str dquote text_of]. reflexivity.
Qed.

Definition report_json (ps : list ProgramReport) : jv := JvObj [(u "programs"%string, JvObj (report_entry <$> ps))].

Lemma join_meta_entries ps : Forall report_plain ps -> ps <> [] ->
  join (u ","%string ++ [10]) (meta_entry <$> ps) =
  u "    "%string ++ join (44 :: newline 2) (map (fun kv => quote kv.1 ++ [58; 32] ++ print 2 kv.2) (report_entry <$> ps)).
Proof.
  intros Hp. induction Hp as [|p ps Hpl Hp IH]; intros Hne; [done|]. destruct ps as [|q ps].
  - simpl join. by apply meta_entry_print.
  - rewrite !fmap_cons in *. cbn [map]. rewrite !join_cons2, meta_entry_print by done.
    rewrite IH by done. cbn [map]. rewrite <- !app_assoc. reflexivity.
Qed.

Lemma to_meta_json_dumps ps : Forall report_plain ps -> ps <> [] -> to_meta_json ps = dumps (report_json ps) ++ [10].
Proof.
  intros Hp Hne. unfold to_meta_json, dumps, report_json. rewrite join_meta_entries by done. cbn [print map fst snd].
  rewrite quote_plain by (by repeat constructor). unfold block at 1. cbn [join].
  destruct (map _ (report_entry <$> ps)) as [|l ls] eqn:E; [by destruct ps|]. unfold block.
  generalize (join (44 :: newline 2) (l :: ls)) as body, (dquote (u "programs"%string)) as key. intros body key.
  unfold newline. cbn. do 3 (rewrite <- ?app_assoc; cbn). reflexivity.
Qed.

Lemma bytes_hex_plain bs : json_plain (bytes_hex bs).
Proof.
  unfold bytes_hex. induction bs as [|b bs IH]; [constructor|]. cbn [flat_map byte_hex app].
  constructor; [|constructor; [|exact IH]]; destruct b; vm_compute; by split.
Qed.

Lemma read_meta_native ps :
  Forall report_plain ps -> NoDup (text_of ∘ pr_program_id <$> ps) -> _read_meta (Some (to_meta_json ps)) = Ok (report_entry <$> ps).
Proof.
  intros Hp Hnd. destruct ps as [|p ps]; [vm_compute; reflexivity|]. unfold _read_meta. rewrite to_meta_json_dumps by done.
  rewrite loads_dumps; [done| |by right]. constructor; [repeat constructor; by intros ?%elem_of_nil|].
  constructor; [|constructor]. split; [by repeat constructor|]. cbn [fst snd]. constructor.
  - by rewrite <- list_fmap_compose.
  - apply list.Forall_fmap. eapply list.Forall_impl; [exact Hp|]. intros q [H1 H2].
    assert (Hok : forall s, json_plain s -> text_ok s) by (intros s Hs; eapply list.Forall_impl; [exact Hs|]; by intros c [_ ?]).
    split; [by apply Hok|]. constructor; [apply (bool_decide_unpack _); vm_compute; exact I|].
    repeat constructor; simpl. by apply Hok.
Qed.

Section read_back.
Context `{Native} `{Env}.

Lemma resolve_program_report p c elf rs out cache :
  let r := (resolve_program p c elf rs out cache).1.1 in
  pr_program_id r = address_to_str p /\ pr_text_sha256 r = program_digest c.
Proof.
  unfold resolve_program. destruct (choose_elf _ _); [|done|done]. destruct (negb _); [done|].
  by destruct (line_table _ _ _ _) as [[[text_addr [|r rows]]|] cache'].
Qed.

Lemma resolve_all_reports ps elfs rs : forall out cache,
  let reports := (resolve_all ps elfs rs out cache).1.1 in
  pr_program_id <$> reports = address_to_str <$> ps.*1 /\ Forall (fun r => json_plain (pr_text_sha256 r)) reports.
Proof.
  induction ps as [|[p c] ps IH]; intros out cache; [by split|]. cbn [resolve_all].
  pose proof (resolve_program_report p c (attr_lookup p elfs) rs out cache) as [H1 H2].
  destruct (resolve_program _ _ _ _ _ _) as [[r out'] cache']. cbn [fst snd] in H1, H2.
  specialize (IH out' cache'). destruct (resolve_all ps elfs rs out' cache') as [[rs' out''] cache'']. cbn [fst snd] in *.
  destruct IH as [IH1 IH2]. rewrite !fmap_cons. split; [by rewrite H1, IH1|]. constructor; [|done].
  rewrite H2. unfold program_digest. destruct (pc_elf c ≫= elf_text); [|constructor]. apply bytes_hex_plain.
Qed.

(** One report per program, under the text of its key. *)
Lemma build_report_programs rs c cache :
  let reports := (build_report rs c cache).1.2 in
  (pr_program_id <$> reports) ≡ₚ (address_to_str <$> (programs c).*1) /\ Forall (fun r => json_plain (pr_text_sha256 r)) reports.
Proof.
  unfold build_report. pose proof (resolve_all_reports (programs c) (debug_elfs c) rs ∅ cache) as [H1 H2].
  destruct (resolve_all _ _ _ _ _) as [[reports ls] cache']. cbn [fst snd] in *. rewrite merge_sort_Permutation. by rewrite H1.
Qed.

(** C19: what the recorder writes is what the Python side reads.  The LCOV text
    of [write_lcov] is the one [format_lcov] gives for the files [report]
    returns, it parses back to them, the number returned is theirs, and the
    sidecar names the build of every program of the report, once each. *)
Theorem written_report_reads_back fs source_roots s lines ps s1 n text sidecar s2 :
  let keys := address_to_str <$> (programs (cv_counters (py_native s))).*1 in
  report fs source_roots s = ((lines, ps), s1) -> write_lcov fs source_roots s = ((n, text, sidecar), s2) ->
  counters_ok (cv_counters (py_native s)) ->
  NoDup (text_of <$> keys) -> Forall json_plain (text_of <$> keys) ->
  (forall path, is_Some (lines !! path) -> scalars path /\ clean_path path) ->
  n = size lines /\ text = format_lcov lines /\ parse_lcov text = lines /\
  (pr_program_id <$> ps) ≡ₚ keys /\ _read_meta (Some sidecar) = Ok (report_entry <$> ps).
Proof.
  unfold report, write_lcov, coverage_report, coverage_lcov. destruct (_roots fs source_roots (py_roots s)) as [rs cache].
  intros Hr Hw Hc Hnd Hk Hp. pose proof (build_report_ok rs _ (cv_rows (py_native s)) Hc) as Hok.
  pose proof (build_report_programs rs (cv_counters (py_native s)) (cv_rows (py_native s))) as [Hids Hsha].
  destruct (build_report _ _ _) as [[ls rps] cache']. cbn [fst snd] in *. simplify_eq. split; [done|].
  assert (Hf : to_lcov lines = format_lcov lines) by (apply to_lcov_format; [intros path Hx; by apply Hp|done]).
  split; [done|]. split; [rewrite Hf; apply parse_format; intros path Hx; by apply Hp|]. split; [done|].
  apply read_meta_native.
  - rewrite list.Forall_fmap, <- Hids, list.Forall_fmap in Hk. apply list.Forall_forall. intros r Hr.
    rewrite list.Forall_forall in Hk, Hsha. split; [by apply Hk|by apply Hsha].
  - rewrite list_fmap_compose. by rewrite Hids.
Qed.
End read_back.

(** ** A recorded program and its report *)

(** An ELF is its text at address 0; one unit maps its two instructions to
    lines 3 and 9 of [/p/a.rs], a file of five lines. *)
Definition demo_env : Env := {|
  elf_parses := fun _ => true;
  has_line_table := fun _ => true;
  elf_text := Some;
  text_address := fun _ => Some 0;
  dwarf_units := fun _ => Some [mkUnit None None (Some [mkRaw 0 false true (Some 3) 1 (Some (0, None, u "/p/a.rs"));
                                                        mkRaw 8 false true (Some 9) 1 (Some (0, None, u "/p/a.rs"))])];
  sha256 := fun b => b;
  is_file := fun _ => true;
  line_count := fun _ => Some 5;
  read_file := fun _ => None;
|}.
Definition demo_fs : file_system := mkFs (u "/p") (fun p => p) (fun _ => []) (fun _ => None) (fun _ _ => []).
Definition demo_key : bytes := repeat x61 32.
Definition demo_cov : py_cov :=
  mkPyCov (mkCov (mkAll [(demo_key, mkCounters [2; 0] (Some [x01; x02]))] []) true []) [].

Lemma demo_path_clean : scalars (u "/p/a.rs"%string) /\ clean_path (u "/p/a.rs"%string).
Proof.
  split; [repeat constructor|]. split; [repeat constructor|]. intros c s' E.
  apply (f_equal list.last) in E. rewrite last_snoc in E. injection E as <-. reflexivity.
Qed.

Definition demo_lines : FileLines := {[ u "/p/a.rs"%string := {[ 3 := 2 ]} ]}.

Lemma written_report_reads_back_witness :
  exists lines ps text sidecar,
  (report (H:=toy_native) (H0:=demo_env) demo_fs None demo_cov).1 = (lines, ps) /\
  (write_lcov (H:=toy_native) (H0:=demo_env) demo_fs None demo_cov).1 = (1%nat, text, sidecar) /\
  lines = demo_lines /\ parse_lcov text = demo_lines /\ _read_meta (Some sidecar) = Ok (report_entry <$> ps).
Proof.
  assert (Hl : (report (H:=toy_native) (H0:=demo_env) demo_fs None demo_cov).1.1 = demo_lines) by (vm_compute; reflexivity).
  assert (Hn : (write_lcov (H:=toy_native) (H0:=demo_env) demo_fs None demo_cov).1.1.1 = 1%nat) by (vm_compute; reflexivity).
  destruct (report (H:=toy_native) (H0:=demo_env) demo_fs None demo_cov) as [[lines ps] s1] eqn:Er.
  destruct (write_lcov (H:=toy_native) (H0:=demo_env) demo_fs None demo_cov) as [[[n text] sidecar] s2] eqn:Ew.
  cbn [fst] in Hl, Hn. subst n. exists lines, ps, text, sidecar. split; [done|]. split; [done|]. split; [done|].
  destruct (written_report_reads_back (H:=toy_native) (H0:=demo_env) demo_fs None demo_cov lines ps s1 1 text sidecar s2) as (_ & _ & Hp & _ & Hm).
  - exact Er.
  - exact Ew.
  - repeat constructor; discriminate.
  - apply (bool_decide_unpack _). vm_compute. exact I.
  - repeat constructor; discriminate.
  - intros path. rewrite Hl. intros [m Hm]. unfold demo_lines in Hm. apply lookup_singleton_Some in Hm as [<- _]. exact demo_path_clean.
  - split; [by rewrite Hp|exact Hm].
Defined.

Lemma statement_rows_confined_witness :
  let units := [mkUnit None None (Some [mkRaw 0 false true (Some 3) 1 (Some (0, None, u "/p/a.rs"%string))])] in
  let rs := [(u "/p"%string, u ""%string)] in
  statement_rows (H:=demo_env) units rs = [mkRow 0 (u "/p/a.rs"%string) 3] /\ placed (H:=demo_env) rs None (u "/p/a.rs"%string).
Proof.
  split; [vm_compute; reflexivity|].
  destruct (statement_rows_confined (H:=demo_env) [mkUnit None None (Some [mkRaw 0 false true (Some 3) 1 (Some (0, None, u "/p/a.rs"%string))])]
    [(u "/p"%string, u ""%string)] (mkRow 0 (u "/p/a.rs"%string) 3)) as (un & Hun & Hfit & _); [vm_compute; left|].
  apply list_elem_of_singleton in Hun as ->. exact Hfit.
Defined.

(** ** A debug build registered after a report *)

Section late.
Context `{Native} `{Env}.

(** Where the table of a program is kept. *)
Definition table_key (p : bytes) (c : ProgramCounters) (rs : roots) : ustr :=
  text_of (address_to_str p) ++ [3] ++ program_digest c ++ [3] ++ roots_fingerprint rs.

Lemma resolve_stripped p c rs stripped addr out :
  pc_elf c = Some stripped -> elf_parses stripped = true -> text_address stripped = Some addr -> dwarf_units stripped = Some [] ->
  exists r, resolve_program p c None rs out [] = (r, out, [(table_key p c rs, (addr, []))]).
Proof.
  intros Hc Hp Ha Hu. unfold resolve_program. rewrite Hc. cbn [choose_elf]. rewrite Hp. cbn [negb]. fold (table_key p c rs).
  unfold line_table. cbn [attr_lookup]. rewrite Ha, Hu. by eexists.
Qed.

Lemma resolve_no_rows p c elf rs out cache addr :
  attr_lookup (table_key p c rs) cache = Some (addr, []) -> (resolve_program p c elf rs out cache).1.2 = out.
Proof.
  intros Hk. unfold resolve_program. fold (table_key p c rs). destruct (choose_elf elf (pc_elf c)); [|done|done].
  destruct (negb _); [done|]. unfold line_table. by rewrite Hk.
Qed.

End late.

(** The one-byte ELF is stripped, the two-byte one has a line; both have the
    same text. *)
Definition late_env : Env := {|
  elf_parses := fun _ => true;
  has_line_table := fun b => (1 <? length b)%nat;
  elf_text := fun _ => Some [x95];
  text_address := fun _ => Some 0;
  dwarf_units := fun b => Some (match b with [_] => [] | _ => [mkUnit None None (Some [mkRaw 0 false true (Some 3) 1 (Some (0, None, u "/p/a.rs"))])] end);
  sha256 := fun b => b;
  is_file := fun _ => true;
  line_count := fun _ => None;
  read_file := fun _ => None;
|}.


(** ** The order of the programs *)

Lemma saturating_swap x a b : 0 <= x -> 0 <= a -> 0 <= b ->
  saturating_add (saturating_add x a) b = saturating_add (saturating_add x b) a.
Proof. unfold saturating_add. lia. Qed.

Lemma counts_ok_file (f : FileLines) path m l n : counts_ok f -> f !! path = Some m -> m !! l = Some n -> 0 <= n.
Proof. intros Hf Hp Hl. apply (Hf (path, l) n). unfold entry_of. cbn [fst snd]. by rewrite Hp. Qed.

Lemma merge_counts_swap d a b : counts_ok d -> counts_ok a -> counts_ok b ->
  merge_counts (merge_counts d a) b = merge_counts (merge_counts d b) a.
Proof.
  intros Hd Ha Hb. apply map_eq. intros path. unfold merge_counts. rewrite !merge_into_lookup.
  destruct (a !! path) as [ma|] eqn:Ea, (b !! path) as [mb|] eqn:Eb; simpl; try done. f_equal.
  apply map_eq. intros l. rewrite !merge_into_lookup.
  destruct (ma !! l) as [na|] eqn:Ela, (mb !! l) as [nb|] eqn:Elb; simpl; try done. f_equal.
  apply saturating_swap; [|by eapply (counts_ok_file a)|by eapply (counts_ok_file b)].
  destruct (d !! path) as [md|] eqn:Ed; simpl; [|by rewrite lookup_empty]. destruct (md !! l) eqn:Eld; simpl; [|lia]. by eapply (counts_ok_file d).
Qed.

Section order.
Context `{Native} `{Env} (rs : roots) (elfs : list (bytes * bytes)).

Definition same_cache (a b : RowCache) : Prop := forall k, attr_lookup k a = attr_lookup k b.

(** A program uses and changes its own entry of the cache only, and adds its
    lines, or nothing, to what the others gave. *)
Lemma line_table_key key elf a b : attr_lookup key a = attr_lookup key b ->
  (line_table key elf rs a).1 = (line_table key elf rs b).1 /\ attr_lookup key (line_table key elf rs a).2 = attr_lookup key (line_table key elf rs b).2.
Proof.
  intros Hab. unfold line_table. rewrite <- Hab. destruct (attr_lookup key a) eqn:E; [cbn [fst snd]; split; [done|congruence]|].
  destruct (text_address elf), (dwarf_units elf); cbn [fst snd]; try (split; [done|congruence]). split; [done|]. by rewrite !lookup_dict_set, !decide_True by done.
Qed.

Lemma line_table_other key elf a k : k <> key -> attr_lookup k (line_table key elf rs a).2 = attr_lookup k a.
Proof.
  intros Hk. unfold line_table. destruct (attr_lookup key a); [done|]. destruct (text_address elf), (dwarf_units elf); try done.
  cbn [snd]. rewrite lookup_dict_set. by rewrite decide_False.
Qed.

Lemma resolve_program_key p c elf out a b : attr_lookup (table_key p c rs) a = attr_lookup (table_key p c rs) b ->
  (resolve_program p c elf rs out a).1 = (resolve_program p c elf rs out b).1 /\
  attr_lookup (table_key p c rs) (resolve_program p c elf rs out a).2 = attr_lookup (table_key p c rs) (resolve_program p c elf rs out b).2.
Proof.
  intros Hab. unfold resolve_program. fold (table_key p c rs). destruct (choose_elf elf (pc_elf c)) as [e| |]; [|done|done]. destruct (negb _); [done|].
  destruct (line_table_key (table_key p c rs) e a b Hab) as [H1 H2].
  destruct (line_table (table_key p c rs) e rs a) as [t ca], (line_table (table_key p c rs) e rs b) as [t' cb]. cbn [fst snd] in *. subst t'.
  by destruct t as [[addr [|r rows]]|].
Qed.

Lemma resolve_program_other p c elf out a k : k <> table_key p c rs -> attr_lookup k (resolve_program p c elf rs out a).2 = attr_lookup k a.
Proof.
  intros Hk. unfold resolve_program. fold (table_key p c rs). destruct (choose_elf elf (pc_elf c)) as [e| |]; [|done|done]. destruct (negb _); [done|].
  pose proof (line_table_other (table_key p c rs) e a k Hk) as Hl. destruct (line_table (table_key p c rs) e rs a) as [t ca].
  by destruct t as [[addr [|r rows]]|].
Qed.

Lemma resolve_program_adds p c elf cache : Forall u64 (pc_hits c) ->
  exists r lines cache', (forall l, lines = Some l -> counts_ok l) /\
    forall out, resolve_program p c elf rs out cache = (r, match lines with Some l => merge_counts out l | None => out end, cache').
Proof.
  intros Hc. unfold resolve_program. destruct (choose_elf elf (pc_elf c)) as [e| |]; [|by eexists _, None, _..]. destruct (negb _); [by eexists _, None, _|].
  destruct (line_table _ e rs cache) as [[[addr [|r rows]]|] cache']; [by eexists _, None, _| |by eexists _, None, _].
  eexists _, (Some (charge (hits_at addr (pc_hits c)) (r :: rows))), _. split; [|done]. intros l [= <-]. apply charge_ok. intros x. by apply hits_at_ok.
Qed.

Lemma resolve_program_same p c elf out a b : same_cache a b ->
  (resolve_program p c elf rs out a).1 = (resolve_program p c elf rs out b).1 /\
  same_cache (resolve_program p c elf rs out a).2 (resolve_program p c elf rs out b).2.
Proof.
  intros Hab. destruct (resolve_program_key p c elf out a b (Hab _)) as [H1 H2]. split; [done|]. intros k.
  destruct (decide (k = table_key p c rs)) as [->|Hk]; [done|]. by rewrite !resolve_program_other.
Qed.

Lemma resolve_all_same ps : forall out a b, same_cache a b ->
  (resolve_all ps elfs rs out a).1 = (resolve_all ps elfs rs out b).1 /\
  same_cache (resolve_all ps elfs rs out a).2 (resolve_all ps elfs rs out b).2.
Proof.
  induction ps as [|[p c] ps IH]; intros out a b Hab; [done|]. cbn [resolve_all].
  destruct (resolve_program_same p c (attr_lookup p elfs) out a b Hab) as [H1 H2].
  destruct (resolve_program p c (attr_lookup p elfs) rs out a) as [[r o] ca], (resolve_program p c (attr_lookup p elfs) rs out b) as [[r' o'] cb].
  cbn [fst snd] in *. simplify_eq. destruct (IH o' ca cb H2) as [H3 H4].
  destruct (resolve_all ps elfs rs o' ca) as [[x y] z], (resolve_all ps elfs rs o' cb) as [[x' y'] z']. cbn [fst snd] in *. by simplify_eq.
Qed.

(** Two programs of different keys, in either order. *)
Lemma resolve_program_swap p c p' c' out cache :
  table_key p c rs <> table_key p' c' rs -> Forall u64 (pc_hits c) -> Forall u64 (pc_hits c') -> counts_ok out ->
  exists r r' out' a b, same_cache a b /\
    (let x := resolve_program p c (attr_lookup p elfs) rs out cache in
     x.1.1 = r /\ resolve_program p' c' (attr_lookup p' elfs) rs x.1.2 x.2 = (r', out', a)) /\
    (let y := resolve_program p' c' (attr_lookup p' elfs) rs out cache in
     y.1.1 = r' /\ resolve_program p c (attr_lookup p elfs) rs y.1.2 y.2 = (r, out', b)).
Proof.
  intros Hne Hc Hc' Ho.
  destruct (resolve_program_adds p c (attr_lookup p elfs) cache Hc) as (r & l & a & Hl & Ha).
  destruct (resolve_program_adds p' c' (attr_lookup p' elfs) cache Hc') as (r' & l' & b & Hl' & Hb).
  pose proof (fun k Hk => resolve_program_other p c (attr_lookup p elfs) out cache k Hk) as Oa. rewrite Ha in Oa. cbn [snd] in Oa.
  pose proof (fun k Hk => resolve_program_other p' c' (attr_lookup p' elfs) out cache k Hk) as Ob. rewrite Hb in Ob. cbn [snd] in Ob.
  set (oa := match l with Some l => merge_counts out l | None => out end) in *.
  set (ob := match l' with Some l => merge_counts out l | None => out end) in *.
  destruct (resolve_program_key p' c' (attr_lookup p' elfs) oa a cache) as [A1 A2]; [apply Oa; congruence|]. rewrite Hb in A1, A2. cbn [fst snd] in A1, A2.
  destruct (resolve_program_key p c (attr_lookup p elfs) ob b cache) as [B1 B2]; [by apply Ob|]. rewrite Ha in B1, B2. cbn [fst snd] in B1, B2.
  pose proof (fun k Hk => resolve_program_other p' c' (attr_lookup p' elfs) oa a k Hk) as Oaa.
  pose proof (fun k Hk => resolve_program_other p c (attr_lookup p elfs) ob b k Hk) as Obb.
  rewrite Ha, Hb. cbn [fst snd]. fold oa ob.
  destruct (resolve_program p' c' (attr_lookup p' elfs) rs oa a) as [[r1 o1] a'], (resolve_program p c (attr_lookup p elfs) rs ob b) as [[r2 o2] b'].
  cbn [fst snd] in *. injection A1 as -> ->. injection B1 as -> ->. eexists _, _, _, a', b'. split; [|split; [done|split; [done|]]].
  - intros k. destruct (decide (k = table_key p c rs)) as [->|H1]; [rewrite Oaa by done; congruence|].
    destruct (decide (k = table_key p' c' rs)) as [->|H2]; [by rewrite Obb|].
    rewrite Oaa, Obb by done. by rewrite Oa, Ob.
  - f_equal. f_equal. unfold oa, ob. destruct l as [l|], l' as [l'|]; try done. symmetry. apply merge_counts_swap; [done|by apply Hl|by apply Hl'].
Qed.

Definition distinct_keys (ps : list (bytes * ProgramCounters)) : Prop := NoDup ((fun q => table_key q.1 q.2 rs) <$> ps).

(** The reports come in the order of the programs, the lines do not depend on
    it. *)
Lemma resolve_all_permutation ps ps' : ps ≡ₚ ps' -> forall out cache,
  distinct_keys ps -> Forall (fun q => Forall u64 (pc_hits q.2)) ps -> counts_ok out ->
  (resolve_all ps elfs rs out cache).1.1 ≡ₚ (resolve_all ps' elfs rs out cache).1.1 /\
  (resolve_all ps elfs rs out cache).1.2 = (resolve_all ps' elfs rs out cache).1.2 /\
  same_cache (resolve_all ps elfs rs out cache).2 (resolve_all ps' elfs rs out cache).2.
Proof.
  intros Hperm. induction Hperm as [|[p c] ps ps' Hperm IH|[p c] [p' c'] ps|ps ps1 ps' H1 IH1 H2 IH2]; intros out cache Hd Hu Ho.
  - done.
  - apply list.NoDup_cons in Hd as [_ Hd]. apply list.Forall_cons in Hu as [Hc Hu]. cbn [resolve_all].
    pose proof (resolve_program_ok p c (attr_lookup p elfs) rs out cache Hc Ho) as Hok.
    destruct (resolve_program p c (attr_lookup p elfs) rs out cache) as [[r o] ca]. cbn [fst snd] in Hok. specialize (IH o ca Hd Hu Hok).
    destruct (resolve_all ps elfs rs o ca) as [[x y] z], (resolve_all ps' elfs rs o ca) as [[x' y'] z']. cbn [fst snd] in *.
    destruct IH as (-> & -> & Hs). done.
  - unfold distinct_keys in Hd. rewrite !fmap_cons in Hd. apply list.NoDup_cons in Hd as [Hd _]. apply list.Forall_cons in Hu as [Hc' Hu]. apply list.Forall_cons in Hu as [Hc _].
    assert (Hne : table_key p c rs <> table_key p' c' rs) by (intros E; apply Hd; apply elem_of_cons; left; by symmetry).
    destruct (resolve_program_swap p c p' c' out cache Hne Hc Hc' Ho) as (r & r' & o & a & b & Hab & (E1 & E2) & (E3 & E4)). cbn [resolve_all].
    destruct (resolve_program p c (attr_lookup p elfs) rs out cache) as [[r1 o1] a1], (resolve_program p' c' (attr_lookup p' elfs) rs out cache) as [[r2 o2] b1].
    cbn [fst snd] in *. subst r1 r2. rewrite E2, E4. destruct (resolve_all_same ps o a b Hab) as [H3 H4].
    destruct (resolve_all ps elfs rs o a) as [[x y] z], (resolve_all ps elfs rs o b) as [[x' y'] z']. cbn [fst snd] in *. simplify_eq.
    split; [by constructor|]. split; [done|]. intros k. symmetry. apply H4.
  - destruct (IH1 out cache Hd Hu Ho) as (A1 & A2 & A3).
    destruct (IH2 out cache) as (B1 & B2 & B3); [unfold distinct_keys; by rewrite <- H1|by rewrite <- H1|done|].
    split; [by rewrite A1|]. split; [congruence|]. intros k. by rewrite A3.
Qed.
End order.

Lemma plain_no_separator s : json_plain s -> 3 ∉ s.
Proof. intros Hs Hin. unfold json_plain in Hs. rewrite list.Forall_forall in Hs. destruct (Hs 3 Hin) as [Hc _]. vm_compute in Hc. discriminate Hc. Qed.

Lemma separated_inj (a b x y : ustr) : 3 ∉ a -> 3 ∉ b -> a ++ 3 :: x = b ++ 3 :: y -> a = b.
Proof.
  revert b. induction a as [|c a IH]; intros [|d b] Ha Hb E; simplify_eq/=; [done|set_solver|set_solver|].
  f_equal. apply IH; [set_solver|set_solver|done].
Qed.

Section report_order.
Context `{Native} `{Env}.

Lemma report_le_unique l1 l2 : NoDup (pr_program_id <$> l1) -> l1 ≡ₚ l2 -> merge_sort report_le l1 = merge_sort report_le l2.
Proof.
  intros Hn Hp. assert (Ht : Transitive report_le).
  { intros a b c. unfold report_le. rewrite <- !Is_true_true. apply (transitivity (R := String.le)). }
  assert (Htot : Total report_le).
  { intros a b. unfold report_le. apply String.leb_total. }
  apply (Sorted_unique_strong report_le).
  - intros a b Ha Hb H1 H2. rewrite merge_sort_Permutation in Ha, Hb. rewrite <- Hp in Hb.
    assert (Hid : pr_program_id a = pr_program_id b) by (by apply String.leb_antisym).
    apply list_elem_of_lookup in Ha as [i Hi], Hb as [j Hj].
    assert (Hij : i = j). { eapply (NoDup_lookup _ i j (pr_program_id a) Hn); rewrite list_lookup_fmap; [by rewrite Hi|rewrite Hj; simpl; by rewrite Hid]. }
    subst j. congruence.
  - by apply Sorted_merge_sort.
  - by apply Sorted_merge_sort.
  - by rewrite !merge_sort_Permutation.
Qed.

(** C20: a report does not depend on the order in which the recorder's hash map
    yields the programs: the lines and the list of programs are the same, byte
    for byte, whichever of them is resolved first, and whatever tables earlier
    reports have left in the cache. *)
Theorem report_order_irrelevant rs ps ps' elfs cache :
  let keys := text_of <$> (address_to_str <$> ps.*1) in
  ps ≡ₚ ps' -> counters_ok (mkAll ps elfs) -> NoDup keys -> Forall json_plain keys ->
  (build_report rs (mkAll ps elfs) cache).1 = (build_report rs (mkAll ps' elfs) cache).1.
Proof.
  intros keys Hp Hc Hn Hk.
  assert (Hd : distinct_keys rs ps).
  { unfold distinct_keys. unfold keys in *. clear -Hn Hk. induction ps as [|q ps IH]; [constructor|]. rewrite !fmap_cons in *.
    apply list.NoDup_cons in Hn as [Hq Hn]. apply list.Forall_cons in Hk as [Hkq Hk]. apply list.NoDup_cons. split; [|by apply IH].
    intros Hin. apply Hq. apply list_elem_of_fmap in Hin as (q' & E & Hq').
    assert (Hk' : text_of (address_to_str q'.1) ∈ text_of <$> (address_to_str <$> ps.*1)) by (do 3 apply list_elem_of_fmap_2; done).
    unfold table_key in E. apply separated_inj in E; [by rewrite E|by apply plain_no_separator|]. apply plain_no_separator.
    rewrite list.Forall_forall in Hk. by apply Hk. }
  assert (He : counts_ok ∅) by (intros k n; by rewrite entry_empty).
  destruct (resolve_all_permutation rs elfs ps ps' Hp ∅ cache Hd Hc He) as (H1 & H2 & _).
  pose proof (resolve_all_reports ps elfs rs ∅ cache) as [Hids _]. unfold build_report. cbn [programs debug_elfs].
  destruct (resolve_all ps elfs rs ∅ cache) as [[r l] z], (resolve_all ps' elfs rs ∅ cache) as [[r' l'] z']. cbn [fst snd] in *. subst l'.
  f_equal. apply report_le_unique; [|done]. rewrite Hids. apply (NoDup_fmap_1 text_of). exact Hn.
Qed.
End report_order.

Lemma report_order_irrelevant_witness :
  let a := (demo_key, mkCounters [2; 0] (Some [x01; x02])) in
  let b := (repeat x62 32, mkCounters [3; 1] (Some [x03; x04])) in
  (build_report (H:=toy_native) (H0:=demo_env) [] (mkAll [a; b] []) []).1 = (build_report (H:=toy_native) (H0:=demo_env) [] (mkAll [b; a] []) []).1.
Proof.
  apply (report_order_irrelevant (H:=toy_native) (H0:=demo_env)).
  - constructor.
  - repeat constructor; discriminate.
  - apply (bool_decide_unpack _). vm_compute. exact I.
  - repeat constructor; discriminate.
Defined.
