(* ===== verification/Trace.v ===== *)
(** * Call trees from a transaction's logs ([src/trace.rs], [src/lib.rs])

    The runtime reports the instructions a transaction made as flat lists tagged
    with stack heights, and a stream of log lines.  [nest] rebuilds the tree,
    [attach_logs] gives every node the lines of its own frame, [hoist_cpi_events]
    turns Anchor's self-calls into events, and [failing_program] finds the
    program a custom error code came from, which [_errors.build] resolves.

    Log lines are texts as code points.  The parallel vectors of [attach_logs]
    are one list of records.  Base64 and the transaction message are of other
    crates: the class [Base64] and the record [message]. *)

From Stdlib Require Import ZArith Lia.
From Stdlib Require Import Strings.Byte Strings.Ascii.
From stdpp Require Import base decidable option list gmap strings numbers.
From S2P Require Import Prelude.
From S2P Require Import Bytes.
From S2P Require Import Utf8.
From S2P Require Import Values.
From S2P Require Import Coverage.
From S2P Require Import GenRun.
From S2P Require Import ErrorsBase.
From S2P Require Import Errors.
From S2P Require Import Interface.

(** ** Texts, as [str] has them *)

(** [char::is_whitespace]: the Unicode property [White_Space]. *)
Definition is_whitespace (c : Z) : bool :=
  ((9 <=? c) && (c <=? 13)) || (c =? 32) || (c =? 0x85) || (c =? 0xA0) || (c =? 0x1680) || ((0x2000 <=? c) && (c <=? 0x200A)) ||
  (c =? 0x2028) || (c =? 0x2029) || (c =? 0x202F) || (c =? 0x205F) || (c =? 0x3000).

Fixpoint trim_start (s : ustr) : ustr :=
  match s with c :: s' => if is_whitespace c then trim_start s' else s | [] => [] end.
Definition trim_end (s : ustr) : ustr := rev (trim_start (rev s)).
Definition trim (s : ustr) : ustr := trim_end (trim_start s).

Fixpoint words_from (word : ustr) (s : ustr) : list ustr :=
  match s with
  | [] => match word with [] => [] | _ => [word] end
  | c :: s =>
      if is_whitespace c then match word with [] => words_from [] s | _ => word :: words_from [] s end
      else words_from (word ++ [c]) s
  end.
Definition split_whitespace (s : ustr) : list ustr := words_from [] s.

(** [s.split_once(sep)]: around the first occurrence. *)
Fixpoint split_once (sep s : ustr) : option (ustr * ustr) :=
  match removeprefix sep s with
  | Some rest => Some ([], rest)
  | None => match s with [] => None | c :: s => '(a, b) ← split_once sep s; Some (c :: a, b) end
  end.

(** [from_str_radix] of an unsigned type: an optional sign, then digits; [None]
    without digits, on another character, or when the value exceeds [max]. *)
Definition digit_value (radix c : Z) : option Z :=
  let v := if (48 <=? c) && (c <=? 57) then c - 48
           else if (97 <=? c) && (c <=? 122) then c - 87
           else if (65 <=? c) && (c <=? 90) then c - 55 else radix in
  if v <? radix then Some v else None.
Fixpoint parse_from (radix max acc : Z) (s : ustr) : option Z :=
  match s with
  | [] => Some acc
  | c :: s => d ← digit_value radix c; if acc * radix + d <=? max then parse_from radix max (acc * radix + d) s else None
  end.
Definition from_str_radix (radix max : Z) (s : ustr) : option Z :=
  match (match s with 43 :: s => s | _ => s end) with [] => None | digits => parse_from radix max 0 digits end.

Definition u32_max : Z := 2 ^ 32 - 1.
Definition u64_max : Z := 2 ^ 64 - 1.

(** ** The message and its instructions *)

Record CompiledInstruction := mkCompiled { ci_program_id_index : nat; ci_accounts : list nat; ci_data : bytes }.
Record InnerInstruction := mkInner { ii_instruction : CompiledInstruction; ii_stack_height : nat }.

(** What the code asks of a [VersionedMessage]. *)
Record message := mkMessage {
  static_account_keys : list bytes;
  is_signer : nat -> bool;
  is_maybe_writable : nat -> bool;
  instructions : list CompiledInstruction;
}.

(** [STANDARD.decode]. *)
Class Base64 := { b64_decode : ustr -> option bytes }.

(** ** Nodes *)

Inductive NodeStatus := Success | Failed | Unknown.
#[global] Instance NodeStatus_eq_dec : EqDecision NodeStatus.
Proof. solve_decision. Defined.
Definition status_str (s : NodeStatus) : string :=
  match s with Success => "success" | Failed => "failed" | Unknown => "unknown" end.

(** What the logs say of a node. *)
Record node_info := mkInfo {
  logs : list ustr;
  compute_units : option Z;
  status : NodeStatus;
  error_msg : option ustr;
  return_data : option bytes;
  event_data : list bytes;
}.
Definition no_info : node_info := mkInfo [] None Unknown None None [].

Inductive Traced := mkTraced {
  program_id : bytes;
  accounts : list (bytes * bool * bool);
  data : bytes;
  stack_height : nat;
  info : node_info;
  children : list Traced;
}.

Definition zero_address : bytes := replicate 32 x00.

Definition resolve_account (m : message) (i : nat) : bytes * bool * bool :=
  match static_account_keys m !! i with
  | Some pubkey => (pubkey, is_signer m i, is_maybe_writable m i)
  | None => (zero_address, false, false)
  end.

Definition resolve (m : message) (ci : CompiledInstruction) (height : nat) : Traced :=
  mkTraced (default zero_address (static_account_keys m !! ci_program_id_index ci)) (resolve_account m <$> ci_accounts ci)
    (ci_data ci) height no_info [].

(** ** Rebuilding the tree *)

Definition push_child (parent child : Traced) : Traced :=
  mkTraced (program_id parent) (accounts parent) (data parent) (stack_height parent) (info parent) (children parent ++ [child]).

(** The open nodes, the innermost first: closed while there are at least
    [depth] of them, and more than one. *)
Fixpoint close_to (depth : nat) (top : Traced) (below : list Traced) : Traced * list Traced :=
  match below with
  | [] => (top, [])
  | parent :: below' => if (depth <=? S (length below))%nat then close_to depth (push_child parent top) below' else (top, below)
  end.

Definition nest_step (m : message) (stack : Traced * list Traced) (entry : InnerInstruction) : Traced * list Traced :=
  let '(top, below) := close_to (ii_stack_height entry) stack.1 stack.2 in
  (resolve m (ii_instruction entry) (ii_stack_height entry), top :: below).

Definition nest (m : message) (root : Traced) (inner : list InnerInstruction) : Traced :=
  let '(top, below) := foldl (nest_step m) (root, []) inner in
  (close_to 0 top below).1.

(** ** Attributing the logs *)

Inductive verb := VInvoke | VConsumed | VSuccess | VFailed.
Definition verb_of (word : ustr) : option verb :=
  if bool_decide (word = u "invoke") then Some VInvoke
  else if bool_decide (word = u "consumed") then Some VConsumed
  else if bool_decide (word = u "success") then Some VSuccess
  else if bool_decide (word = u "failed:") then Some VFailed else None.

Definition marker_verb (l : ustr) : option (ustr * verb) :=
  match removeprefix (u "Program ") l with
  | None => None
  | Some _ =>
      match split_whitespace l with
      | _ :: pid :: rest => v ← verb_of (default [] (head rest)); Some (pid, v)
      | _ => None
      end
  end.

Definition is_precompile_pid (pid : ustr) : bool :=
  bool_decide (pid ∈ [u "Ed25519SigVerify111111111111111111111111111"; u "KeccakSecp256k11111111111111111111111111111";
                      u "Secp256r1SigVerify1111111111111111111111111"]).

Fixpoint after_word (w : ustr) (ws : list ustr) : option ustr :=
  match ws with [] => None | x :: ws => if bool_decide (x = w) then head ws else after_word w ws end.
Definition parse_consumed (l : ustr) : option Z :=
  n ← after_word (u "consumed") (split_whitespace l); from_str_radix 10 u64_max n.

(** The nodes in order of execution. *)
Fixpoint nodes (t : Traced) : list Traced := t :: concat (map nodes (children t)).

Section logs.
Context `{Native} `{Base64}.

Definition pid_text (p : bytes) : ustr := text_of (address_to_str p).

(** The infos of the nodes in order, the open frames (innermost first), the
    node the next [invoke] opens, and whether the stream still agrees with the
    tree. *)
Record log_state := mkLog { ls_infos : list node_info; ls_stack : list nat; ls_next : nat; ls_aligned : bool }.

Definition on_top (f : node_info -> node_info) (st : log_state) : log_state :=
  match ls_stack st with
  | i :: _ => mkLog (alter f i (ls_infos st)) (ls_stack st) (ls_next st) (ls_aligned st)
  | [] => st
  end.
Definition pop (st : log_state) : log_state := mkLog (ls_infos st) (tail (ls_stack st)) (ls_next st) (ls_aligned st).
Definition when_aligned (f : log_state -> log_state) (st : log_state) : log_state := if ls_aligned st then f st else st.

Definition add_log (msg : ustr) (i : node_info) : node_info :=
  mkInfo (logs i ++ [msg]) (compute_units i) (status i) (error_msg i) (return_data i) (event_data i).
Definition set_units (cu : option Z) (i : node_info) : node_info :=
  mkInfo (logs i) cu (status i) (error_msg i) (return_data i) (event_data i).
Definition set_success (i : node_info) : node_info :=
  mkInfo (logs i) (compute_units i) Success (error_msg i) (return_data i) (event_data i).
Definition set_failed (msg : option ustr) (i : node_info) : node_info :=
  mkInfo (logs i) (compute_units i) Failed msg (return_data i) (event_data i).
Definition set_return (b : bytes) (i : node_info) : node_info :=
  mkInfo (logs i) (compute_units i) (status i) (error_msg i) (Some b) (event_data i).
Definition push_event (b : bytes) (i : node_info) : node_info :=
  mkInfo (logs i) (compute_units i) (status i) (error_msg i) (return_data i) (event_data i ++ [b]).

(** The first node from [next] on that is not a precompile. *)
Fixpoint skip_precompiles (pids : list ustr) (next : nat) : nat :=
  match pids with
  | [] => next
  | p :: pids => if is_precompile_pid p then skip_precompiles pids (S next) else next
  end.

Definition open_frame (pids : list ustr) (pid : ustr) (st : log_state) : log_state :=
  let next := skip_precompiles (drop (ls_next st) pids) (ls_next st) in
  if bool_decide (pids !! next = Some pid) then mkLog (ls_infos st) (next :: ls_stack st) (S next) true
  else mkLog (ls_infos st) (ls_stack st) next false.

Definition log_step (pids : list ustr) (st : log_state) (raw : ustr) : log_state :=
  let l := trim raw in
  match l with
  | [] => st
  | _ =>
      match removeprefix (u "Program return: ") l with
      | Some rest =>
          when_aligned (match split_once [32] rest with
                        | Some (_, b64) => match b64_decode (trim b64) with Some b => on_top (set_return b) | None => id end
                        | None => id
                        end) st
      | None =>
          match removeprefix (u "Program data: ") l with
          | Some rest =>
              when_aligned (match b64_decode (default [] (head (split_whitespace rest))) with
                            | Some b => on_top (push_event b)
                            | None => id
                            end) st
          | None =>
              match marker_verb l with
              | Some (pid, VInvoke) => when_aligned (open_frame pids pid) st
              | Some (_, VConsumed) => when_aligned (on_top (set_units (parse_consumed l))) st
              | Some (_, VSuccess) => when_aligned (fun st => pop (on_top set_success st)) st
              | Some (_, VFailed) =>
                  when_aligned (fun st => pop (on_top (set_failed ('(_, m) ← split_once (u "failed: ") l; Some (trim m))) st)) st
              | None => on_top (add_log (default l (removeprefix (u "Program log: ") l))) st
              end
          end
      end
  end.

(** Handing the infos back to the nodes, in the same order. *)
Fixpoint distribute (t : Traced) (infos : list node_info) : Traced * list node_info :=
  let go := fix go (ts : list Traced) (infos : list node_info) : list Traced * list node_info :=
    match ts with
    | [] => ([], infos)
    | t :: ts => let '(t, infos) := distribute t infos in let '(ts, infos) := go ts infos in (t :: ts, infos)
    end in
  let '(ch, rest) := go (children t) (tail infos) in
  (mkTraced (program_id t) (accounts t) (data t) (stack_height t) (default no_info (head infos)) ch, rest).
Fixpoint distribute_all (ts : list Traced) (infos : list node_info) : list Traced :=
  match ts with
  | [] => []
  | t :: ts => let '(t, infos) := distribute t infos in t :: distribute_all ts infos
  end.

Definition attach_logs (tree : list Traced) (ls : list ustr) : list Traced :=
  let pids := pid_text ∘ program_id <$> concat (map nodes tree) in
  match pids with
  | [] => tree
  | _ => distribute_all tree (ls_infos (foldl (log_step pids) (mkLog (replicate (length pids) no_info) [] 0 true) ls))
  end.

(** ** Events of self-calls *)

Definition ANCHOR_EVENT_CPI_TAG : bytes := [xe4; x45; xa5; x2e; x51; xcb; x9a; x1d].

Definition is_event_cpi (parent child : Traced) : bool :=
  bool_decide (program_id child = program_id parent) && (16 <=? length (data child))%nat &&
  bool_decide (take 8 (data child) = ANCHOR_EVENT_CPI_TAG).

Definition add_events (bs : list bytes) (i : node_info) : node_info :=
  mkInfo (logs i) (compute_units i) (status i) (error_msg i) (return_data i) (event_data i ++ bs).

Fixpoint hoist (t : Traced) : Traced :=
  let go := fix go (ts : list Traced) : list Traced :=
    match ts with [] => [] | c :: ts => if is_event_cpi t c then go ts else hoist c :: go ts end in
  mkTraced (program_id t) (accounts t) (data t) (stack_height t)
    (add_events ((fun c => drop 8 (data c)) <$> List.filter (is_event_cpi t) (children t)) (info t)) (go (children t)).
Definition hoist_cpi_events (ts : list Traced) : list Traced := hoist <$> ts.

Definition build_call_tree (m : message) (inner_instructions : list (list InnerInstruction)) (ls : list ustr) : list Traced :=
  let tree := imap (fun i ci =>
    let root := resolve m ci 1 in
    match inner_instructions !! i with
    | Some (e :: inner) => nest m root (e :: inner)
    | _ => root
    end) (instructions m) in
  hoist_cpi_events (attach_logs tree ls).

(** ** Reading the tree *)

(** The events of all nodes, decoded by the Python registry. *)
Definition collect_events (r : Interface.registry) (ts : list Traced) : list event_result :=
  flat_map (fun t => decode_events r (address_to_str (program_id t)) (event_data (info t))) (concat (map nodes ts)).

(** The data of the last invocation of a program. *)
Definition return_candidate (ts : list Traced) (pid : bytes) : option bytes :=
  foldl (fun found n => if bool_decide (program_id n = pid) then Some (data n) else found) None (concat (map nodes ts)).

Definition parse_custom_code (msg : ustr) : option Z :=
  hex ← removeprefix (u "custom program error: 0x") (trim msg);
  from_str_radix 16 u32_max (default hex (head (split_whitespace hex))).

Definition failing_step (code : Z) (found : option bytes * option bytes) (n : Traced) : option bytes * option bytes :=
  if bool_decide (status (info n) = Failed) then
    (if bool_decide (error_msg (info n) ≫= parse_custom_code = Some code) then Some (program_id n) else found.1, Some (program_id n))
  else found.
Definition failing_program (ts : list Traced) (code : Z) : option bytes :=
  let '(matched, failed) := foldl (failing_step code) (None, None) (concat (map nodes ts)) in
  match matched with Some p => Some p | None => failed end.

(** *** [extract_error] and [build_exception] *)

Record StructuredErr := mkErr {
  se_code : option Z;
  se_native : option string;
  se_instruction_index : option Z;
  se_account_index : option Z;
  se_program_id : option string;
}.

(** The variants the code tells apart; the others by their name. *)
Inductive TransactionError :=
  | InstructionCustom (idx : Z) (code : Z)
  | InstructionOther (idx : Z) (name : string)
  | DuplicateInstruction (idx : Z)
  | InsufficientFundsForRent (account_index : Z)
  | ProgramExecutionTemporarilyRestricted (account_index : Z)
  | OtherError (name : string).

Definition extract_error (err : TransactionError) (tree : list Traced) : StructuredErr :=
  match err with
  | InstructionCustom idx code => mkErr (Some code) None (Some idx) None (address_to_str <$> failing_program tree code)
  | InstructionOther idx name => mkErr None (Some name) (Some idx) None None
  | DuplicateInstruction i => mkErr None (Some "DuplicateInstruction"%string) (Some i) None None
  | InsufficientFundsForRent a => mkErr None (Some "InsufficientFundsForRent"%string) None (Some a) None
  | ProgramExecutionTemporarilyRestricted a => mkErr None (Some "ProgramExecutionTemporarilyRestricted"%string) None (Some a) None
  | OtherError name => mkErr None (Some name) None None None
  end.

Definition build_exception (reg : Errors.registry) (e : StructuredErr) : failure :=
  build reg (se_code e) (se_native e) (se_instruction_index e) (se_account_index e) (se_program_id e).

(** *** Indexing a trace *)

(** [trace[index]], from the end when negative. *)
Definition trace_getitem (ts : list Traced) (index : Z) : res Traced :=
  let len := Z.of_nat (length ts) in
  let i := if index <? 0 then index + len else index in
  if (i <? 0) || (len <=? i) then Raise IndexError
  else match ts !! Z.to_nat i with Some t => Ok t | None => Raise IndexError end.
End logs.
