(* ===== verification/TraceProps.v ===== *)
(** * What the call tree shows of an execution

    The abstract specification: a transaction is a sequence of calls, a call a
    sequence of outputs and nested calls with an outcome.  The runtime reports it
    as flat instruction lists and a stream of lines; [build_call_tree] gives the
    calls back, each with exactly its own outputs.  A custom error code is then
    attributed to the program it came from. *)

From Stdlib Require Import ZArith Lia.
From Stdlib Require Import Strings.Byte Strings.Ascii.
From stdpp Require Import base decidable option list gmap strings numbers.
From S2P Require Import Prelude.
From S2P Require Import Bytes.
From S2P Require Import Utf8.
From S2P Require Import Values.
From S2P Require Import Coverage.
From S2P Require Import CoverageProps.
From S2P Require Import GenRun.
From S2P Require Import ErrorsBase.
From S2P Require Import Errors.
From S2P Require Import Interface.
From S2P Require Import Hex.
From S2P Require Import Trace.

(** ** Texts *)

Definition unspaced (s : ustr) : Prop := Forall (fun c => is_whitespace c = false) s.

(** A word, and a text that [trim] leaves alone. *)
Definition word (s : ustr) : Prop := s <> [] /\ unspaced s.
Definition ends_solid (s : ustr) : Prop := exists s' c, s = s' ++ [c] /\ is_whitespace c = false.
Definition starts_solid (s : ustr) : Prop := exists c s', s = c :: s' /\ is_whitespace c = false.
Definition solid (s : ustr) : Prop := starts_solid s /\ ends_solid s.

Lemma trim_solid s : solid s -> trim s = s.
Proof.
  intros [(c & s' & -> & Hc) (s2 & d & E & Hd)]. unfold trim. cbn [trim_start]. rewrite Hc. unfold trim_end. rewrite E, rev_unit.
  cbn [trim_start]. rewrite Hd. cbn [rev]. by rewrite rev_involutive.
Qed.

Lemma word_ends s : word s -> ends_solid s.
Proof.
  intros [Hne Hs]. destruct s as [|c s _] using rev_ind; [done|]. exists s, c. split; [done|].
  apply Forall_app in Hs as [_ Hs]. by apply Forall_inv in Hs.
Qed.

Lemma ends_solid_app s t : ends_solid t -> ends_solid (s ++ t).
Proof. intros (t' & c & -> & Hc). exists (s ++ t'), c. by rewrite app_assoc. Qed.

Lemma words_from_word w : forall acc s, unspaced w -> words_from acc (w ++ s) = words_from (acc ++ w) s.
Proof.
  induction w as [|c w IH]; intros acc s Hw; [by rewrite app_nil_r|]. apply list.Forall_cons in Hw as [Hc Hw]. cbn [words_from app].
  rewrite Hc, IH by done. by rewrite <- app_assoc.
Qed.

Lemma split_word w s : word w -> split_whitespace (w ++ 32 :: s) = w :: split_whitespace s.
Proof.
  intros [Hne Hw]. unfold split_whitespace. rewrite words_from_word by done. cbn [app words_from].
  rewrite (eq_refl : is_whitespace 32 = true). by destruct w.
Qed.

Lemma split_last_word w : word w -> split_whitespace w = [w].
Proof.
  intros [Hne Hw]. unfold split_whitespace. rewrite <- (app_nil_r w) at 1. rewrite words_from_word by done. cbn [app words_from]. by destruct w.
Qed.

Lemma removeprefix_self p s : removeprefix p (p ++ s) = Some s.
Proof. induction p as [|c p IH]; [done|]. cbn. by rewrite Z.eqb_refl. Qed.

(** A literal that ends in a colon is no prefix of a word without one. *)
Lemma no_colon_prefix w p s : 32 ∉ w -> 58 ∉ p -> removeprefix (w ++ [58; 32]) (p ++ 32 :: s) = None.
Proof.
  revert p. induction w as [|a w IH]; intros [|c p] Hw Hp; cbn [app removeprefix].
  - done.
  - destruct (58 =? c) eqn:E; [|done]. apply Z.eqb_eq in E. set_solver.
  - destruct (a =? 32) eqn:E; [|done]. apply Z.eqb_eq in E. set_solver.
  - destruct (a =? c); [|done]. apply IH; set_solver.
Qed.

Lemma split_once_here sep s : split_once sep (sep ++ s) = Some ([], s).
Proof. generalize (removeprefix_self sep s). intros E. destruct (sep ++ s) eqn:Es; cbn [split_once]; by rewrite E. Qed.

Lemma split_once_word (w p s : ustr) : 32 ∉ w -> 58 ∉ p -> w <> [] ->
  split_once (w ++ [58; 32]) (p ++ 32 :: w ++ 58 :: 32 :: s) = Some (p ++ [32], s).
Proof.
  intros Hw Hp Hne. induction p as [|c p IH].
  - assert (Hn : removeprefix (w ++ [58; 32]) (32 :: w ++ 58 :: 32 :: s) = None) by (by apply (no_colon_prefix w [])).
    cbn [split_once app]. rewrite Hn. replace (w ++ 58 :: 32 :: s) with ((w ++ [58; 32]) ++ s) by (by rewrite <- app_assoc).
    by rewrite split_once_here.
  - assert (Hn : removeprefix (w ++ [58; 32]) ((c :: p) ++ 32 :: w ++ 58 :: 32 :: s) = None) by (by apply no_colon_prefix).
    cbn [split_once app] in *. rewrite Hn. rewrite IH by set_solver. done.
Qed.

(** ** Numbers *)

(** Rust's [{}] (radix ten) and [{:x}] of an unsigned number. *)
Definition digit_char (d : Z) : Z := if d <? 10 then 48 + d else 87 + d.
Fixpoint print_from (fuel : nat) (radix n : Z) (acc : ustr) : ustr :=
  match fuel with
  | O => acc
  | S fuel => if n <? radix then digit_char n :: acc else print_from fuel radix (n / radix) (digit_char (n mod radix) :: acc)
  end.
Definition print_radix (radix n : Z) : ustr := print_from (S (Z.to_nat (Z.log2 n))) radix n [].

Lemma digit_value_char radix d : 0 <= d < radix -> radix <= 16 -> digit_value radix (digit_char d) = Some d.
Proof.
  intros Hd Hr. unfold digit_value, digit_char. destruct (d <? 10) eqn:E; zify_bools.
  - rewrite (proj2 (Z.leb_le 48 (48 + d))), (proj2 (Z.leb_le (48 + d) 57)) by lia. cbn [andb].
    rewrite (proj2 (Z.ltb_lt _ _)) by lia. f_equal. lia.
  - rewrite (proj2 (Z.leb_gt (87 + d) 57)), andb_false_r by lia. rewrite (proj2 (Z.leb_le 97 (87 + d))), (proj2 (Z.leb_le (87 + d) 122)) by lia.
    cbn [andb]. rewrite (proj2 (Z.ltb_lt _ _)) by lia. f_equal. lia.
Qed.

Lemma digit_char_solid radix d : 0 <= d < radix -> radix <= 16 -> is_whitespace (digit_char d) = false /\ digit_char d <> 43.
Proof.
  intros Hd Hr. unfold is_whitespace, digit_char.
  destruct (d <? 10) eqn:E; zify_bools; split; try lia; apply not_true_iff_false;
    rewrite !orb_true_iff, !andb_true_iff, !Z.leb_le, !Z.eqb_eq; lia.
Qed.

(** Reading the printed digits back from any accumulator. *)
Lemma parse_print_from radix max fuel : forall n acc v,
  2 <= radix <= 16 -> 0 <= n < 2 ^ Z.of_nat fuel -> n <= max -> parse_from radix max n acc = v ->
  parse_from radix max 0 (print_from fuel radix n acc) = v.
Proof.
  induction fuel as [|fuel IH]; intros n acc v Hr Hn Hm Hv.
  - assert (n = 0) as -> by (cbn in Hn; lia). done.
  - cbn [print_from]. destruct (n <? radix) eqn:E; zify_bools.
    + cbn [parse_from]. rewrite digit_value_char by lia. cbn [mbind option_bind]. rewrite Z.mul_0_l, Z.add_0_l.
      by rewrite (proj2 (Z.leb_le n max)) by lia.
    + assert (Hdm := Z.div_mod n radix). assert (Hmod := Z.mod_pos_bound n radix).
      assert (Hlt : n / radix < 2 ^ Z.of_nat fuel).
      { rewrite Nat2Z.inj_succ, Z.pow_succ_r in Hn by lia. apply Z.div_lt_upper_bound; nia. }
      assert (0 <= n / radix <= n) by (split; [apply Z.div_pos; lia|apply Z.div_le_upper_bound; nia]).
      apply IH; [done|lia|lia|]. cbn [parse_from]. rewrite digit_value_char by lia. cbn [mbind option_bind].
      replace (n / radix * radix + n mod radix) with n by lia. by rewrite (proj2 (Z.leb_le n max)) by lia.
Qed.

Lemma print_from_chars radix fuel : forall n acc, 2 <= radix <= 16 -> 0 <= n ->
  Forall (fun c => is_whitespace c = false /\ c <> 43) acc -> Forall (fun c => is_whitespace c = false /\ c <> 43) (print_from fuel radix n acc).
Proof.
  induction fuel as [|fuel IH]; intros n acc Hr Hn Ha; [done|]. cbn [print_from]. assert (Hmod := Z.mod_pos_bound n radix).
  destruct (n <? radix) eqn:E; zify_bools.
  - constructor; [|done]. apply (digit_char_solid radix); lia.
  - apply IH; [done|apply Z.div_pos; lia|]. constructor; [|done]. apply (digit_char_solid radix); lia.
Qed.

Lemma print_from_nonempty radix n acc fuel : acc <> [] -> print_from fuel radix n acc <> [].
Proof. revert n acc. induction fuel as [|fuel IH]; intros n acc Ha; [done|]. cbn [print_from]. destruct (n <? radix); [done|]. by apply IH. Qed.

Lemma print_radix_chars radix n : 2 <= radix <= 16 -> 0 <= n ->
  Forall (fun c => is_whitespace c = false /\ c <> 43) (print_radix radix n) /\ print_radix radix n <> [].
Proof.
  intros Hr Hn. unfold print_radix. split; [by apply print_from_chars|]. cbn [print_from].
  destruct (n <? radix); [done|]. by apply print_from_nonempty.
Qed.

Lemma print_radix_word radix n : 2 <= radix <= 16 -> 0 <= n -> word (print_radix radix n).
Proof. intros Hr Hn. destruct (print_radix_chars radix n Hr Hn) as [Hc Hne]. split; [done|]. eapply list.Forall_impl; [exact Hc|tauto]. Qed.

Lemma from_str_print radix max n : 2 <= radix <= 16 -> 0 <= n <= max -> from_str_radix radix max (print_radix radix n) = Some n.
Proof.
  intros Hr Hn. destruct (print_radix_chars radix n) as [Hc Hne]; [done|lia|].
  assert (Hp : parse_from radix max 0 (print_radix radix n) = Some n).
  { unfold print_radix. apply (parse_print_from _ _ _ n); [done| |lia|done]. split; [lia|].
    rewrite Nat2Z.inj_succ, Z2Nat.id by apply Z.log2_nonneg. destruct (decide (n = 0)) as [->|]; [done|]. apply Z.log2_spec. lia. }
  unfold from_str_radix. destruct (print_radix radix n) as [|c s]; [done|]. apply list.Forall_cons in Hc as [[_ Hc] _].
  destruct c as [|c|c]; try done. destruct (decide (c = 43%positive)) as [->|Hne']; [done|].
  repeat (destruct c as [c|c|]; try exact Hp; try done).
Qed.

(** ** The abstract specification *)

(** What a frame puts in the log besides its calls: a message of the program, a
    line the runtime or a builtin writes, the payloads of [sol_log_data], return
    data, and the units used. *)
Inductive out :=
  | Msg (text : ustr)
  | Note (line : ustr)
  | Data (payload : bytes) (more : list bytes)
  | Ret (value : bytes)
  | Units (used limit : Z).

(** A call: its instruction, what it does in order, and its failure, if any. *)
Inductive call := Call (ix : CompiledInstruction) (steps : list (out + call)) (failure : option ustr).

Definition call_ix (c : call) : CompiledInstruction := let '(Call ix _ _) := c in ix.
Definition call_failure (c : call) : option ustr := let '(Call _ _ f) := c in f.
Definition calls_in (steps : list (out + call)) : list call := omap (fun s => match s with inr c => Some c | inl _ => None end) steps.
Definition outs_in (steps : list (out + call)) : list out := omap (fun s => match s with inl o => Some o | inr _ => None end) steps.

(** Induction over a call and its steps, first to last. *)
Section call_ind.
Variables (P : call -> Prop) (Q : list (out + call) -> Prop).
Hypotheses (Hcall : forall ix steps f, Q steps -> P (Call ix steps f)) (Hnil : Q [])
  (Hout : forall o steps, Q steps -> Q (inl o :: steps)) (Hsub : forall c steps, P c -> Q steps -> Q (inr c :: steps)).
Fixpoint call_steps_ind (c : call) : P c :=
  match c with
  | Call ix steps f =>
      Hcall ix steps f ((fix go (steps : list (out + call)) : Q steps :=
        match steps with
        | [] => Hnil
        | inl o :: steps => Hout o steps (go steps)
        | inr c :: steps => Hsub c steps (call_steps_ind c) (go steps)
        end) steps)
  end.
End call_ind.

(** What follows a prefix. *)
Fixpoint strip_bytes (p s : bytes) : option bytes :=
  match p, s with
  | [], _ => Some s
  | a :: p, b :: s => if bool_decide (a = b) then strip_bytes p s else None
  | _, [] => None
  end.

(** A top-level instruction that ran: a call, or a precompile, which logs
    nothing. *)
Inductive ran := Ran (c : call) | Silent (ix : CompiledInstruction).

(** A transaction: the instructions that ran, and those never reached. *)
Record run := mkRun { executed : list ran; unreached : list CompiledInstruction }.
Definition ran_ix (r : ran) : CompiledInstruction := match r with Ran c => call_ix c | Silent ix => ix end.

(** Over the calls among the steps. *)
Definition over {A} (f : call -> list A) (s : out + call) : list A := match s with inl _ => [] | inr c => f c end.

(** The flat list of a call and those below it, with stack heights. *)
Fixpoint call_inner (d : nat) (c : call) : list InnerInstruction :=
  let '(Call ix steps _) := c in mkInner ix d :: flat_map (over (call_inner (S d))) steps.
Definition ran_inner (r : ran) : list InnerInstruction :=
  match r with Ran (Call _ steps _) => flat_map (over (call_inner 2)) steps | Silent _ => [] end.

(** What the logs of a frame amount to. *)
Definition out_info (i : node_info) (o : out) : node_info :=
  match o with
  | Msg text => add_log text i
  | Note line => add_log line i
  | Data payload _ => push_event payload i
  | Ret value => set_return value i
  | Units used _ => set_units (Some used) i
  end.
Definition close_info (failure : option ustr) (i : node_info) : node_info :=
  match failure with None => set_success i | Some msg => set_failed (Some msg) i end.
Definition call_info (steps : list (out + call)) (failure : option ustr) : node_info :=
  close_info failure (foldl out_info no_info (outs_in steps)).

Section spec.
Context `{Native} `{Base64}.
Variable m : message.
Variable b64_encode : bytes -> ustr.

Definition ix_program (ix : CompiledInstruction) : bytes := program_id (resolve m ix 1).
Definition ix_pid (ix : CompiledInstruction) : ustr := pid_text (ix_program ix).

(** The lines of the log. *)
Definition out_line (pid : ustr) (o : out) : ustr :=
  match o with
  | Msg text => u "Program log: " ++ text
  | Note line => line
  | Data payload more => u "Program data: " ++ b64_encode payload ++ flat_map (fun b => 32 :: b64_encode b) more
  | Ret value => u "Program return: " ++ pid ++ 32 :: b64_encode value
  | Units used limit =>
      u "Program " ++ pid ++ u " consumed " ++ print_radix 10 used ++ u " of " ++ print_radix 10 limit ++ u " compute units"
  end.
Definition invoke_line (pid : ustr) (d : nat) : ustr := u "Program " ++ pid ++ u " invoke [" ++ print_radix 10 (Z.of_nat d) ++ u "]".
Definition close_line (pid : ustr) (failure : option ustr) : ustr :=
  u "Program " ++ pid ++ match failure with None => u " success" | Some msg => u " failed: " ++ msg end.

Fixpoint call_lines (d : nat) (c : call) : list ustr :=
  let '(Call ix steps failure) := c in
  invoke_line (ix_pid ix) d ::
  flat_map (fun s => match s with inl o => [out_line (ix_pid ix) o] | inr c => call_lines (S d) c end) steps ++
  [close_line (ix_pid ix) failure].
Definition ran_lines (r : ran) : list ustr := match r with Ran c => call_lines 1 c | Silent _ => [] end.

(** The tree the builder should give: every node with its own outputs; a call to
    oneself that carries Anchor's event tag is an event of the caller. *)
Definition event_of (ix ix' : CompiledInstruction) : option bytes :=
  if bool_decide (ix_program ix' = ix_program ix)
  then payload ← strip_bytes ANCHOR_EVENT_CPI_TAG (ci_data ix'); if (8 <=? length payload)%nat then Some payload else None
  else None.

Definition ix_node (ix : CompiledInstruction) (d : nat) (i : node_info) (ch : list Traced) : Traced :=
  mkTraced (ix_program ix) (resolve_account m <$> ci_accounts ix) (ci_data ix) d i ch.

Fixpoint seen (d : nat) (c : call) : Traced :=
  let '(Call ix steps failure) := c in
  ix_node ix d (add_events (omap (fun c => event_of ix (call_ix c)) (calls_in steps)) (call_info steps failure))
    (flat_map (over (fun c => match event_of ix (call_ix c) with Some _ => [] | None => [seen (S d) c] end)) steps).
Definition ran_seen (r : ran) : Traced := match r with Ran c => seen 1 c | Silent ix => ix_node ix 1 no_info [] end.
Definition run_seen (r : run) : list Traced := (ran_seen <$> executed r) ++ ((fun ix => ix_node ix 1 no_info []) <$> unreached r).

(** *** When the stream can be read *)

(** A message must not start with a word that closes or opens a frame. *)
Definition out_ok (o : out) : Prop :=
  match o with
  | Msg text => ends_solid text /\ verb_of (default [] (head (split_whitespace text))) = None
  | Note line => solid line /\ marker_verb line = None /\
      Forall (fun p => removeprefix (u p) line = None) ["Program return: "; "Program data: "; "Program log: "]%string
  | Data payload more => Forall (fun b => b <> []) (payload :: more)
  | Ret value => value <> []
  | Units used limit => 0 <= used <= u64_max /\ 0 <= limit
  end.
Definition pid_ok (pid : ustr) : Prop := word pid /\ 58 ∉ pid /\ pid <> u "consumed".
Inductive call_ok : call -> Prop :=
  | call_ok_intro ix steps failure :
      pid_ok (ix_pid ix) -> is_precompile_pid (ix_pid ix) = false -> Forall out_ok (outs_in steps) ->
      (forall msg, failure = Some msg -> solid msg) -> Forall call_ok (calls_in steps) -> call_ok (Call ix steps failure).
Definition ran_ok (r : ran) : Prop :=
  match r with Ran c => call_ok c | Silent ix => is_precompile_pid (ix_pid ix) = true end.
End spec.

(** ** Reading one line *)

Lemma word_literal (s : string) : forallb (fun c => negb (is_whitespace c)) (u s) = true -> u s <> [] -> word (u s).
Proof.
  intros Hf Hne. split; [done|]. apply list.Forall_forall. intros c Hc. rewrite forallb_forall in Hf.
  apply list_elem_of_In in Hc. specialize (Hf c Hc). by destruct (is_whitespace c).
Qed.

(** A literal that ends in a blank, cut into words. *)
Lemma split_literal (s : string) rest : word (u s) -> split_whitespace (u s ++ 32 :: rest) = u s :: split_whitespace rest.
Proof. apply split_word. Qed.

Lemma starts_program l : starts_solid (u "Program " ++ l).
Proof. by exists 80, (u "rogram " ++ l). Qed.

Section lines.
Context `{Native} `{Base64}.

(** Lines that open with the program are none of the two prefixed kinds. *)
Lemma marker_prefixes pid rest : pid_ok pid ->
  removeprefix (u "Program return: ") (u "Program " ++ pid ++ 32 :: rest) = None /\
  removeprefix (u "Program data: ") (u "Program " ++ pid ++ 32 :: rest) = None.
Proof.
  intros (_ & Hc & _). split.
  - by apply (no_colon_prefix (u "return") pid rest); [vm_compute; set_solver|].
  - by apply (no_colon_prefix (u "data") pid rest); [vm_compute; set_solver|].
Qed.

Lemma marker_words pid rest : word pid -> split_whitespace (u "Program " ++ pid ++ 32 :: rest) = u "Program" :: pid :: split_whitespace rest.
Proof.
  intros Hp. change (u "Program " ++ pid ++ 32 :: rest) with (u "Program" ++ 32 :: pid ++ 32 :: rest).
  rewrite split_word by (by apply word_literal). by rewrite split_word.
Qed.

Lemma marker_line pid rest v vt tl : word pid -> split_whitespace rest = vt :: tl -> verb_of vt = Some v ->
  marker_verb (u "Program " ++ pid ++ 32 :: rest) = Some (pid, v).
Proof. intros Hp Hr Hv. unfold marker_verb. rewrite removeprefix_self, marker_words, Hr by done. cbn -[u verb_of]. by rewrite Hv. Qed.

(** What a marker line does, from its verb. *)
Lemma log_step_marker pids st pid rest v vt tl : pid_ok pid -> ends_solid rest -> split_whitespace rest = vt :: tl -> verb_of vt = Some v ->
  log_step pids st (u "Program " ++ pid ++ 32 :: rest) =
  let l := u "Program " ++ pid ++ 32 :: rest in
  match v with
  | VInvoke => when_aligned (open_frame pids pid) st
  | VConsumed => when_aligned (on_top (set_units (parse_consumed l))) st
  | VSuccess => when_aligned (fun st => pop (on_top set_success st)) st
  | VFailed => when_aligned (fun st => pop (on_top (set_failed ('(_, m) ← split_once (u "failed: ") l; Some (trim m))) st)) st
  end.
Proof.
  intros Hp He Hr Hv. unfold log_step. rewrite trim_solid.
  2:{ split; [apply starts_program|]. change (32 :: rest) with ([32] ++ rest). by do 3 apply ends_solid_app. }
  cbv zeta. destruct (marker_prefixes pid rest Hp) as [-> ->]. rewrite (marker_line pid rest v vt tl (proj1 Hp) Hr Hv). by destruct v.
Qed.
Lemma invoke_step pids st pid d : pid_ok pid -> log_step pids st (invoke_line pid d) = when_aligned (open_frame pids pid) st.
Proof.
  intros Hp. set (n := print_radix 10 (Z.of_nat d)).
  change (invoke_line pid d) with (u "Program " ++ pid ++ 32 :: (u "invoke" ++ 32 :: (91 :: n ++ [93]))).
  eapply (log_step_marker pids st pid _ VInvoke (u "invoke")); [done| |by apply split_word, word_literal|done].
  change (32 :: 91 :: n ++ [93]) with ((32 :: 91 :: n) ++ [93]). do 2 apply ends_solid_app. by exists [], 93.
Qed.

Lemma close_step pids st pid failure : pid_ok pid -> (forall msg, failure = Some msg -> solid msg) ->
  log_step pids st (close_line pid failure) = when_aligned (fun st => pop (on_top (close_info failure) st)) st.
Proof.
  intros Hp Hf. destruct failure as [msg|].
  - specialize (Hf msg eq_refl). change (close_line pid (Some msg)) with (u "Program " ++ pid ++ 32 :: (u "failed:" ++ 32 :: msg)).
    rewrite (log_step_marker pids st pid _ VFailed (u "failed:") (split_whitespace msg)); [|done| |by apply split_word, word_literal|done].
    2:{ change (32 :: msg) with ([32] ++ msg). do 2 apply ends_solid_app. apply Hf. }
    cbv zeta. replace (u "Program " ++ pid ++ 32 :: u "failed:" ++ 32 :: msg) with ((u "Program " ++ pid) ++ 32 :: u "failed" ++ 58 :: 32 :: msg)
      by (by rewrite <- app_assoc).
    change (u "failed: ") with (u "failed" ++ [58; 32]). destruct Hp as (_ & Hc & _).
    rewrite split_once_word; [cbn [mbind option_bind]|vm_compute; set_solver| |done].
    + by rewrite trim_solid.
    + rewrite elem_of_app. intros [Hin|Hin]; [|done]. vm_compute in Hin. set_solver.
  - change (close_line pid None) with (u "Program " ++ pid ++ 32 :: u "success").
    apply (log_step_marker pids st pid _ VSuccess (u "success") []); [done| |by apply split_last_word, word_literal|done].
    by apply word_ends, word_literal.
Qed.

Lemma units_step enc pids st pid used limit : pid_ok pid -> 0 <= used <= u64_max -> 0 <= limit ->
  log_step pids st (out_line enc pid (Units used limit)) = when_aligned (on_top (set_units (Some used))) st.
Proof.
  intros Hp Hu Hl. set (n := print_radix 10 used). set (k := print_radix 10 limit).
  change (out_line _ pid (Units used limit)) with (u "Program " ++ pid ++ 32 :: (u "consumed" ++ 32 :: (n ++ 32 :: (u "of " ++ k ++ u " compute units")))).
  assert (Hn : word n) by (apply print_radix_word; lia). assert (Hw : word (u "consumed")) by (by apply word_literal).
  rewrite (log_step_marker pids st pid _ VConsumed (u "consumed") (split_whitespace (n ++ 32 :: (u "of " ++ k ++ u " compute units"))) Hp); [| |by apply split_word|done].
  2:{ change (32 :: n ++ 32 :: u "of " ++ k ++ u " compute units") with ([32] ++ n ++ [32] ++ u "of " ++ k ++ u " compute units").
      do 6 apply ends_solid_app. by exists (u " compute unit"), 115. }
  cbv zeta. do 3 f_equal. unfold parse_consumed. rewrite marker_words by apply Hp. rewrite split_word by done. rewrite split_word by done.
  cbn [after_word]. rewrite (bool_decide_eq_false_2 (u "Program" = _)) by done. rewrite (bool_decide_eq_false_2 (pid = _)) by apply Hp.
  rewrite bool_decide_eq_true_2 by done. cbn [head mbind option_bind]. by apply from_str_print.
Qed.

(** A line of the program's own. *)
Lemma msg_step pids st text : ends_solid text -> verb_of (default [] (head (split_whitespace text))) = None ->
  log_step pids st (u "Program log: " ++ text) = on_top (add_log text) st.
Proof.
  intros He Hv. unfold log_step. rewrite trim_solid by (split; [apply (starts_program (u "log: " ++ text))|by apply ends_solid_app]).
  change (removeprefix (u "Program return: ") (u "Program log: " ++ text)) with (@None ustr).
  change (removeprefix (u "Program data: ") (u "Program log: " ++ text)) with (@None ustr).
  assert (Hm : marker_verb (u "Program log: " ++ text) = None).
  { unfold marker_verb. change (u "Program log: " ++ text) with (u "Program " ++ u "log:" ++ 32 :: text). rewrite removeprefix_self.
    rewrite marker_words by (by apply word_literal). cbn -[u verb_of]. by rewrite Hv. }
  rewrite Hm, removeprefix_self. done.
Qed.

Lemma note_step pids st line : out_ok (Note line) -> log_step pids st line = on_top (add_log line) st.
Proof.
  intros (Hs & Hm & Hp). unfold log_step. rewrite trim_solid by done. rewrite !list.Forall_cons in Hp. destruct Hp as (-> & -> & -> & _).
  rewrite Hm. destruct Hs as [(c & s & -> & _) _]. done.
Qed.
End lines.

(** What the engine documents: decoding undoes encoding, and the text of some
    bytes is a word. *)
Class Base64Laws `{Base64} (b64_encode : bytes -> ustr) := {
  b64_round_trip b : b64_decode (b64_encode b) = Some b;
  b64_word b : b <> [] -> word (b64_encode b);
}.

Section frames.
Context `{Native} `{Base64} (b64_encode : bytes -> ustr) `{!Base64Laws b64_encode}.

Lemma chunks_end more : Forall (fun b => b <> []) more -> forall s, ends_solid s -> ends_solid (s ++ flat_map (fun b => 32 :: b64_encode b) more).
Proof using Base64Laws0.
  induction 1 as [|b more Hb _ IH]; intros s Hs; cbn [flat_map]; [by rewrite app_nil_r|]. rewrite app_assoc.
  apply IH, ends_solid_app, (ends_solid_app [32]), word_ends. by apply b64_word.
Qed.

Lemma head_word w rest : word w -> head (split_whitespace (w ++ rest)) = Some w \/ (exists c s, rest = c :: s /\ is_whitespace c = false).
Proof.
  intros Hw. destruct rest as [|c s].
  - left. rewrite app_nil_r. by rewrite split_last_word.
  - destruct (is_whitespace c) eqn:E; [|right; by eauto]. left. unfold split_whitespace. rewrite words_from_word by apply Hw. cbn [words_from app].
    rewrite E. destruct Hw as [Hne _]. by destruct w.
Qed.

Lemma data_step pids st pid payload more : Forall (fun b => b <> []) (payload :: more) ->
  log_step pids st (out_line b64_encode pid (Data payload more)) = when_aligned (on_top (push_event payload)) st.
Proof using Base64Laws0.
  intros [Hp Hm]%list.Forall_cons. unfold log_step. cbn [out_line]. set (rest := flat_map _ more).
  assert (Hw : word (b64_encode payload)) by (by apply b64_word).
  rewrite trim_solid.
  2:{ split; [apply (starts_program (u "data: " ++ _))|]. apply ends_solid_app, chunks_end; [done|by apply word_ends]. }
  change (removeprefix (u "Program return: ") (u "Program data: " ++ b64_encode payload ++ rest)) with (@None ustr).
  rewrite removeprefix_self. assert (Hh : head (split_whitespace (b64_encode payload ++ rest)) = Some (b64_encode payload)).
  { destruct (head_word _ rest Hw) as [|(c & s & E & Hc)]; [done|]. unfold rest in E. destruct more as [|b more]; [done|]. injection E as <- _. done. }
  rewrite Hh. cbn [from_option id]. by rewrite b64_round_trip.
Qed.

Lemma split_once_blank w s : word w -> split_once [32] (w ++ 32 :: s) = Some (w, s).
Proof.
  intros [_ Hw]. induction Hw as [|c w Hc Hw IH]; [done|]. cbn [app split_once removeprefix].
  destruct (32 =? c) eqn:E; [apply Z.eqb_eq in E; by subst c|]. by rewrite IH.
Qed.

Lemma ret_step pids st pid value : word pid -> value <> [] ->
  log_step pids st (out_line b64_encode pid (Ret value)) = when_aligned (on_top (set_return value)) st.
Proof using Base64Laws0.
  intros Hp Hv. assert (Hw : word (b64_encode value)) by (by apply b64_word). unfold log_step. cbn [out_line].
  rewrite trim_solid.
  2:{ split; [apply (starts_program (u "return: " ++ _))|]. apply ends_solid_app, ends_solid_app, (ends_solid_app [32]). by apply word_ends. }
  rewrite removeprefix_self, split_once_blank by done.
  rewrite (trim_solid (b64_encode value)), b64_round_trip; [done|]. split; [|by apply word_ends].
  destruct Hw as [Hne Hw]. destruct (b64_encode value) as [|c s]; [done|]. exists c, s. apply list.Forall_cons in Hw. tauto.
Qed.

(** Any output of the open frame goes to its node. *)
Lemma out_step pids st pid o : pid_ok pid -> out_ok o -> ls_aligned st = true ->
  log_step pids st (out_line b64_encode pid o) = on_top (fun i => out_info i o) st.
Proof using Base64Laws0.
  intros Hp Ho Ha. assert (Hw : forall f, when_aligned f st = f st) by (intros f; unfold when_aligned; by rewrite Ha).
  destruct o as [text|line|payload more|value|used limit]; cbn [out_ok] in Ho.
  - destruct Ho. by apply msg_step.
  - by apply note_step.
  - rewrite data_step by done. apply Hw.
  - rewrite ret_step by (done || apply Hp). apply Hw.
  - rewrite units_step by (done || tauto). apply Hw.
Qed.

(** ** Reading the stream *)

Variable m : message.

(** The programs and infos of a call's nodes, in order of execution. *)
Fixpoint call_pids (c : call) : list ustr :=
  let '(Call ix steps _) := c in ix_pid m ix :: flat_map (over call_pids) steps.
Fixpoint call_infos (c : call) : list node_info :=
  let '(Call _ steps failure) := c in call_info steps failure :: flat_map (over call_infos) steps.

Lemma skip_here A B n pids c : pids = A ++ call_pids c ++ B -> call_ok m c -> n = length A -> skip_precompiles (drop n pids) n = n.
Proof. intros -> Hc ->. rewrite drop_app_length. destruct Hc as [ix steps f _ Hpre _ _ _]. cbn [call_pids app skip_precompiles]. by rewrite Hpre. Qed.

Lemma open_here A B S n pids infos c : pids = A ++ call_pids c ++ B -> skip_precompiles (drop n pids) n = length A ->
  open_frame pids (ix_pid m (call_ix c)) (mkLog infos S n true) = mkLog infos (length A :: S) (1 + length A) true.
Proof.
  intros E Hs. unfold open_frame. cbn [ls_next ls_infos ls_stack]. rewrite Hs. rewrite bool_decide_eq_true_2; [done|].
  subst pids. rewrite lookup_app_r, Nat.sub_diag by lia. by destruct c.
Qed.

Lemma on_top_at f IA i ID n S k : k = length IA ->
  on_top f (mkLog (IA ++ i :: ID) (k :: S) n true) = mkLog (IA ++ f i :: ID) (k :: S) n true.
Proof. intros ->. unfold on_top. cbn [ls_stack ls_infos ls_next ls_aligned]. by rewrite alter_app_r_alt, Nat.sub_diag by lia. Qed.

Lemma call_infos_length c : length (call_infos c) = length (call_pids c).
Proof.
  apply (call_steps_ind (fun c => length (call_infos c) = length (call_pids c))
    (fun steps => length (flat_map (over call_infos) steps) = length (flat_map (over call_pids) steps))); clear c; try done.
  - intros ix steps f IH. cbn [call_infos call_pids length]. by rewrite IH.
  - intros c steps IHc IH. cbn [flat_map over]. rewrite !length_app. lia.
Qed.

(** A call, read from any aligned state at its place, fills exactly its own
    infos and leaves the open frames as they were. *)
Lemma call_run c : call_ok m c -> forall d pids A B IA IB K n,
  pids = A ++ call_pids c ++ B -> length IA = length A -> skip_precompiles (drop n pids) n = length A ->
  foldl (log_step pids) (mkLog (IA ++ replicate (length (call_pids c)) no_info ++ IB) K n true) (call_lines m b64_encode d c) =
  mkLog (IA ++ call_infos c ++ IB) K (length A + length (call_pids c)) true.
Proof using Base64Laws0.
  apply (call_steps_ind (fun c => call_ok m c -> forall d pids A B IA IB K n,
    pids = A ++ call_pids c ++ B -> length IA = length A -> skip_precompiles (drop n pids) n = length A ->
    foldl (log_step pids) (mkLog (IA ++ replicate (length (call_pids c)) no_info ++ IB) K n true) (call_lines m b64_encode d c) =
    mkLog (IA ++ call_infos c ++ IB) K (length A + length (call_pids c)) true)
   (fun steps => forall pid d pids A B IA i ID IB K, pid_ok pid -> Forall out_ok (outs_in steps) -> Forall (call_ok m) (calls_in steps) ->
    pids = A ++ flat_map (over call_pids) steps ++ B -> length (IA ++ i :: ID) = length A ->
    foldl (log_step pids) (mkLog (IA ++ i :: ID ++ replicate (length (flat_map (over call_pids) steps)) no_info ++ IB) (length IA :: K) (length A) true)
      (flat_map (fun s => match s with inl o => [out_line b64_encode pid o] | inr c => call_lines m b64_encode d c end) steps) =
    mkLog (IA ++ foldl out_info i (outs_in steps) :: ID ++ flat_map (over call_infos) steps ++ IB) (length IA :: K)
      (length A + length (flat_map (over call_pids) steps)) true)); clear c.
  - intros ix steps f IH Hok d pids A B IA IB K n E HA Hs. inversion Hok as [? ? ? Hp Hpre Ho Hf Hc]; subst.
    cbn [call_lines foldl]. rewrite invoke_step by done. unfold when_aligned at 1. cbn [ls_aligned].
    rewrite (open_here A B K n _ _ (Call ix steps f) eq_refl Hs). rewrite foldl_app. cbn [foldl]. cbn [call_pids length replicate app].
    rewrite <- HA.
    replace (1 + length IA)%nat with (length (A ++ [ix_pid m ix])) by (rewrite length_app; simpl; lia).
    rewrite (IH (ix_pid m ix) (S d) _ (A ++ [ix_pid m ix]) B IA no_info [] IB K Hp Ho Hc); [| by rewrite <- app_assoc |rewrite !length_app; simpl; lia].
    rewrite close_step by done. unfold when_aligned. cbn [ls_aligned app]. rewrite on_top_at by done. unfold pop.
    cbn [ls_infos ls_stack ls_next ls_aligned tail call_infos app]. f_equal. rewrite length_app. simpl. lia.
  - intros pid d pids A B IA i ID IB K Hp Ho Hc E HA. cbn. by rewrite Nat.add_0_r.
  - intros o steps IH pid d pids A B IA i ID IB K Hp Ho Hc E HA. cbn in Ho. apply list.Forall_cons in Ho as [Ho Hos].
    cbn [flat_map app foldl over]. rewrite out_step by done. rewrite on_top_at by done. eapply IH; try done. by rewrite !length_app in *.
  - intros c steps IHc IH pid d pids A B IA i ID IB K Hp Ho Hc E HA. cbn in Hc. apply list.Forall_cons in Hc as [Hc Hcs].
    cbn [flat_map over] in *. rewrite <- app_assoc in E. rewrite foldl_app, length_app, replicate_add, <- !app_assoc.
    change (i :: ID ++ ?x) with ((i :: ID) ++ x). rewrite (app_assoc IA).
    rewrite (IHc Hc d pids A _ _ _ _ (length A) E HA) by (by eapply skip_here). rewrite <- (app_assoc IA). cbn [app].
    rewrite <- length_app. rewrite (app_assoc ID). 
    rewrite (IH pid d pids (A ++ call_pids c) B IA i (ID ++ call_infos c) IB K Hp Ho Hcs); [|by rewrite <- app_assoc|].
    + cbn. rewrite <- app_assoc, length_app. f_equal. lia.
    + rewrite !length_app in *. cbn in *. rewrite length_app, call_infos_length. lia.
Qed.

(** The instructions that ran, in order. *)
Definition ran_pids (r : ran) : list ustr := match r with Ran c => call_pids c | Silent ix => [ix_pid m ix] end.
Definition ran_infos (r : ran) : list node_info := match r with Ran c => call_infos c | Silent _ => [no_info] end.

Lemma ran_infos_length r : length (ran_infos r) = length (ran_pids r).
Proof. destruct r; [apply call_infos_length|done]. Qed.

Lemma exec_run rs : Forall (ran_ok m) rs -> forall pids A B IA IB n,
  pids = A ++ flat_map ran_pids rs ++ B -> length IA = length A ->
  skip_precompiles (drop n pids) n = skip_precompiles (drop (length A) pids) (length A) ->
  ls_infos (foldl (log_step pids) (mkLog (IA ++ replicate (length (flat_map ran_pids rs)) no_info ++ IB) [] n true)
    (flat_map (ran_lines m b64_encode) rs)) = IA ++ flat_map ran_infos rs ++ IB.
Proof using Base64Laws0.
  induction 1 as [|r rs Hr _ IH]; intros pids A B IA IB n E HA Hs; [done|]. cbn [flat_map] in *. rewrite <- app_assoc in E.
  rewrite foldl_app, length_app, replicate_add, <- !app_assoc.
  assert (Hr' : exists n', foldl (log_step pids) (mkLog (IA ++ replicate (length (ran_pids r)) no_info ++
      replicate (length (flat_map ran_pids rs)) no_info ++ IB) [] n true) (ran_lines m b64_encode r) =
      mkLog (IA ++ ran_infos r ++ replicate (length (flat_map ran_pids rs)) no_info ++ IB) [] n' true /\
      skip_precompiles (drop n' pids) n' = skip_precompiles (drop (length (A ++ ran_pids r)) pids) (length (A ++ ran_pids r))).
  { destruct r as [c|ix]; cbn [ran_lines ran_pids ran_infos] in *.
    - eexists. split; [|by rewrite length_app]. apply (call_run c Hr 1 pids A _ IA _ [] n E HA). rewrite Hs. by eapply skip_here.
    - exists n. split; [done|]. rewrite Hs, length_app, E, drop_app_length. cbn [app length skip_precompiles]. rewrite (Hr : is_precompile_pid _ = true).
      change (ix_pid m ix :: ?x) with ([ix_pid m ix] ++ x).
      rewrite (app_assoc A [_]), drop_app_length' by (rewrite length_app; cbn; lia). f_equal. lia. }
  destruct Hr' as (n' & -> & Hn'). rewrite (app_assoc IA (ran_infos r)).
  rewrite (IH pids (A ++ ran_pids r) B (IA ++ ran_infos r) IB n'); [by rewrite <- app_assoc|by rewrite E, <- app_assoc| |done].
  rewrite !length_app, ran_infos_length. lia.
Qed.

(** ** Rebuilding the tree *)

(** The tree of a call before the logs are read, and after. *)
Fixpoint bare (d : nat) (c : call) : Traced :=
  let '(Call ix steps _) := c in ix_node m ix d no_info (flat_map (over (fun c => [bare (S d) c])) steps).
Fixpoint logged (d : nat) (c : call) : Traced :=
  let '(Call ix steps failure) := c in ix_node m ix d (call_info steps failure) (flat_map (over (fun c => [logged (S d) c])) steps).

Lemma close_close d d' : (d <= d')%nat -> forall below top,
  (close_to d (close_to d' top below).1 (close_to d' top below).2) = close_to d top below.
Proof.
  intros Hd. induction below as [|p below IH]; intros top; [done|]. cbn [close_to]. destruct (d' <=? S (length (p :: below)))%nat eqn:E.
  - apply Nat.leb_le in E. rewrite (proj2 (Nat.leb_le d _)) by lia. apply IH.
  - done.
Qed.

Lemma close_stops d top below : (S (length below) < d)%nat -> close_to d top below = (top, below).
Proof. intros Hd. destruct below as [|p below]; [done|]. cbn [close_to]. by rewrite (proj2 (Nat.leb_gt _ _)) by (cbn in *; lia). Qed.

Definition push_children (t : Traced) (ch : list Traced) : Traced := foldl push_child t ch.
Lemma push_children_eq ch : forall t, push_children t ch =
  mkTraced (program_id t) (accounts t) (data t) (stack_height t) (info t) (children t ++ ch).
Proof.
  unfold push_children. induction ch as [|c ch IH]; intros t; cbn [foldl]; [destruct t; cbn; by rewrite app_nil_r|].
  rewrite IH. cbn. by rewrite <- app_assoc.
Qed.

(** The flat calls below depth [d] become children of the open node there. *)
Lemma nest_call c : forall d st t below, close_to d st.1 st.2 = (t, below) -> (length below + 2)%nat = d ->
  let st' := foldl (nest_step m) st (call_inner d c) in close_to d st'.1 st'.2 = (push_child t (bare d c), below).
Proof.
  apply (call_steps_ind (fun c => forall d st t below, close_to d st.1 st.2 = (t, below) -> (length below + 2)%nat = d ->
      let st' := foldl (nest_step m) st (call_inner d c) in close_to d st'.1 st'.2 = (push_child t (bare d c), below))
    (fun steps => forall d st t below, close_to d st.1 st.2 = (t, below) -> (length below + 2)%nat = d ->
      let st' := foldl (nest_step m) st (flat_map (over (call_inner d)) steps) in
      close_to d st'.1 st'.2 = (push_children t (flat_map (over (fun c => [bare d c])) steps), below))); clear c.
  - intros ix steps f IH d st t below E Hd. cbn [call_inner foldl bare].
    assert (En : nest_step m st (mkInner ix d) = (resolve m ix d, t :: below)) by (unfold nest_step; cbn [ii_stack_height]; by rewrite E).
    rewrite En. clear En.
    specialize (IH (S d) (resolve m ix d, t :: below) (resolve m ix d) (t :: below)). cbv zeta in *.
    set (st' := foldl _ _ _) in *. rewrite <- (close_close d (S d)) by lia. rewrite IH; [|apply close_stops; cbn; lia|cbn; lia].
    cbn [fst snd close_to]. rewrite (proj2 (Nat.leb_le d _)) by (cbn; lia). rewrite close_stops by lia. by rewrite push_children_eq.
  - intros d st t below E Hd. exact E.
  - intros o steps IH. exact IH.
  - intros c steps IHc IH d st t below E Hd. cbn [flat_map over]. rewrite foldl_app. cbv zeta.
    rewrite (IH d _ _ _ (IHc d st t below E Hd) Hd). done.
Qed.

Lemma nest_steps steps : forall d st t below, close_to d st.1 st.2 = (t, below) -> (length below + 2)%nat = d ->
  let st' := foldl (nest_step m) st (flat_map (over (call_inner d)) steps) in
  close_to d st'.1 st'.2 = (push_children t (flat_map (over (fun c => [bare d c])) steps), below).
Proof.
  induction steps as [|[o|c] steps IH]; intros d st t below E Hd; [done|by apply IH|].
  cbn [flat_map over]. rewrite foldl_app. cbv zeta. apply (IH d _ (push_child t (bare d c))); [by apply nest_call|done].
Qed.

Lemma nest_ran ix steps f : nest m (resolve m ix 1) (ran_inner (Ran (Call ix steps f))) = bare 1 (Call ix steps f).
Proof.
  unfold nest. cbn [ran_inner]. pose proof (nest_steps steps 2 (resolve m ix 1, []) _ [] eq_refl eq_refl) as E. cbv zeta in E.
  destruct (foldl _ _ _) as [top below]. cbn [fst snd] in E. rewrite <- (close_close 0 2), E by lia. cbn [close_to fst snd bare].
  by rewrite push_children_eq.
Qed.

(** *** The nodes, and what is handed to them *)

Lemma bare_pids c : forall d, pid_text ∘ program_id <$> nodes (bare d c) = call_pids c.
Proof.
  apply (call_steps_ind (fun c => forall d, pid_text ∘ program_id <$> nodes (bare d c) = call_pids c)
    (fun steps => forall d, pid_text ∘ program_id <$> concat (map nodes (flat_map (over (fun c => [bare d c])) steps)) =
      flat_map (over call_pids) steps)); clear c; try done.
  - intros ix steps f IH d. cbn [bare nodes children ix_node call_pids]. rewrite fmap_cons. f_equal. apply IH.
  - intros c steps IHc IH d. cbn [flat_map over map concat app]. by rewrite fmap_app, IHc, IH.
Qed.

Fixpoint distribute_list (ts : list Traced) (infos : list node_info) : list Traced * list node_info :=
  match ts with
  | [] => ([], infos)
  | t :: ts => let '(t, infos) := distribute t infos in let '(ts, infos) := distribute_list ts infos in (t :: ts, infos)
  end.
Lemma distribute_eq t infos : distribute t infos =
  let '(ch, rest) := distribute_list (children t) (tail infos) in
  (mkTraced (program_id t) (accounts t) (data t) (stack_height t) (default no_info (head infos)) ch, rest).
Proof. by destruct t. Qed.

Lemma distribute_bare c : forall d rest, distribute (bare d c) (call_infos c ++ rest) = (logged d c, rest).
Proof.
  apply (call_steps_ind (fun c => forall d rest, distribute (bare d c) (call_infos c ++ rest) = (logged d c, rest))
    (fun steps => forall d rest, distribute_list (flat_map (over (fun c => [bare d c])) steps) (flat_map (over call_infos) steps ++ rest) =
      (flat_map (over (fun c => [logged d c])) steps, rest))); clear c; try done.
  - intros ix steps f IH d rest. rewrite distribute_eq. cbn [bare ix_node children call_infos app tail]. by rewrite IH.
  - intros c steps IHc IH d rest. cbn [flat_map over app distribute_list]. rewrite <- app_assoc, IHc, IH. done.
Qed.

(** *** Self-calls as events *)

Lemma strip_bytes_eq p : forall s, strip_bytes p s = if bool_decide (take (length p) s = p) then Some (drop (length p) s) else None.
Proof.
  induction p as [|a p IH]; intros [|b s]; cbn [strip_bytes length take drop]; try done. rewrite IH.
  case_bool_decide as E; [subst b|].
  - repeat case_bool_decide; congruence.
  - rewrite bool_decide_eq_false_2; [done|congruence].
Qed.

Lemma event_of_cpi ix ix' t c : program_id t = ix_program m ix -> program_id c = ix_program m ix' -> data c = ci_data ix' ->
  event_of m ix ix' = if is_event_cpi t c then Some (drop 8 (data c)) else None.
Proof.
  intros Et Ec Ed. unfold event_of, is_event_cpi. rewrite strip_bytes_eq, Et, Ec, Ed. case_bool_decide; [|done]. cbn [andb].
  change (length ANCHOR_EVENT_CPI_TAG) with 8%nat. case_bool_decide; [|by rewrite andb_false_r]. rewrite andb_true_r. cbn [mbind option_bind].
  rewrite length_drop. destruct (16 <=? length (ci_data ix'))%nat eqn:E.
  - apply Nat.leb_le in E. by rewrite (proj2 (Nat.leb_le _ _)) by lia.
  - apply Nat.leb_gt in E. by rewrite (proj2 (Nat.leb_gt _ _)) by lia.
Qed.

Lemma hoist_eq t : hoist t = mkTraced (program_id t) (accounts t) (data t) (stack_height t)
  (add_events ((fun c => drop 8 (data c)) <$> List.filter (is_event_cpi t) (children t)) (info t))
  (flat_map (fun c => if is_event_cpi t c then [] else [hoist c]) (children t)).
Proof.
  destruct t as [p a b h i ch]. cbn [hoist program_id accounts data stack_height info children]. f_equal.
  set (t := mkTraced _ _ _ _ _ _). clearbody t. induction ch as [|c ch IH]; [done|]. cbn [flat_map]. destruct (is_event_cpi t c); [done|]. by rewrite IH.
Qed.

Lemma logged_fields d c : program_id (logged d c) = ix_program m (call_ix c) /\ data (logged d c) = ci_data (call_ix c).
Proof. by destruct c. Qed.

Lemma hoist_logged c : forall d, hoist (logged d c) = seen m d c.
Proof.
  apply (call_steps_ind (fun c => forall d, hoist (logged d c) = seen m d c)
    (fun steps => forall d t ix, program_id t = ix_program m ix ->
      (fun c => drop 8 (data c)) <$> List.filter (is_event_cpi t) (flat_map (over (fun c => [logged d c])) steps) =
        omap (fun c => event_of m ix (call_ix c)) (calls_in steps) /\
      flat_map (fun c => if is_event_cpi t c then [] else [hoist c]) (flat_map (over (fun c => [logged d c])) steps) =
        flat_map (over (fun c => match event_of m ix (call_ix c) with Some _ => [] | None => [seen m d c] end)) steps)); clear c; try done.
  - intros ix steps f IH d. rewrite hoist_eq. destruct (IH (S d) (logged d (Call ix steps f)) ix eq_refl) as [E1 E2].
    cbn [logged ix_node children program_id accounts data stack_height info] in *. rewrite E1, E2. done.
  - intros c steps IHc IH d t ix Et. destruct (IH d t ix Et) as [E1 E2], (logged_fields d c) as [Ep Ed].
    cbn [flat_map over app List.filter]. change (calls_in (inr c :: steps)) with (c :: calls_in steps). cbn [omap list_omap].
    rewrite (event_of_cpi ix (call_ix c) t (logged d c)) by done. destruct (is_event_cpi t (logged d c)).
    + cbn [app]. rewrite fmap_cons. split; [f_equal; apply E1|apply E2].
    + cbn [app]. rewrite IHc. split; [apply E1|f_equal; apply E2].
Qed.

(** *** A whole transaction *)

Definition ran_bare (r : ran) : Traced := match r with Ran c => bare 1 c | Silent ix => resolve m ix 1 end.
Definition ran_logged (r : ran) : Traced := match r with Ran c => logged 1 c | Silent ix => resolve m ix 1 end.

Lemma bare_tree r k : instructions m = (ran_ix <$> executed r) ++ unreached r ->
  imap (fun i ci =>
    let root := resolve m ci 1 in
    match ((ran_inner <$> executed r) ++ replicate k []) !! i with
    | Some (e :: inner) => nest m root (e :: inner)
    | _ => root
    end) (instructions m) = (ran_bare <$> executed r) ++ ((fun ix => resolve m ix 1) <$> unreached r).
Proof.
  intros Ei. rewrite Ei. apply list_eq. intros i. rewrite list_lookup_imap.
  destruct (decide (i < length (executed r))%nat) as [Hi|Hi].
  - rewrite !lookup_app_l by (by rewrite length_fmap). rewrite !list_lookup_fmap.
    destruct (lookup_lt_is_Some_2 (executed r) i Hi) as [x ->]. cbn [fmap option_fmap option_map]. f_equal.
    destruct x as [[ix steps f]|ix]; [|done]. cbn [ran_bare ran_ix call_ix]. rewrite <- nest_ran.
    destruct (ran_inner _); [|done]. done.
  - rewrite !lookup_app_r by (rewrite length_fmap; lia). rewrite !length_fmap, list_lookup_fmap.
    destruct (unreached r !! _) as [ix|]; [|done]. cbn [fmap option_fmap option_map]. f_equal.
    destruct (replicate k [] !! _) as [l|] eqn:E; [|done]. apply lookup_replicate in E as [-> _]. done.
Qed.

Lemma distribute_ran rs : forall ts infos,
  distribute_all ((ran_bare <$> rs) ++ ts) (flat_map ran_infos rs ++ infos) = (ran_logged <$> rs) ++ distribute_all ts infos.
Proof.
  induction rs as [|r rs IH]; intros ts infos; [done|]. rewrite !fmap_cons. cbn [flat_map app distribute_all]. rewrite <- app_assoc.
  assert (E : forall rest, distribute (ran_bare r) (ran_infos r ++ rest) = (ran_logged r, rest)) by (intros rest; destruct r; [apply distribute_bare|done]).
  by rewrite E, IH.
Qed.

Lemma distribute_roots ixs : distribute_all ((fun ix => resolve m ix 1) <$> ixs) (replicate (length ixs) no_info) = (fun ix => resolve m ix 1) <$> ixs.
Proof.
  induction ixs as [|ix ixs IH]; [done|]. rewrite fmap_cons. cbn [length replicate distribute_all].
  assert (E : forall rest, distribute (resolve m ix 1) (no_info :: rest) = (resolve m ix 1, rest)) by done. by rewrite E, IH.
Qed.

Lemma tree_pids r : pid_text ∘ program_id <$> concat (map nodes ((ran_bare <$> executed r) ++ ((fun ix => resolve m ix 1) <$> unreached r))) =
  flat_map ran_pids (executed r) ++ (ix_pid m <$> unreached r).
Proof.
  rewrite map_app, concat_app, fmap_app. f_equal.
  - induction (executed r) as [|x rs IH]; [done|]. rewrite fmap_cons. cbn [map concat flat_map]. rewrite fmap_app, IH. f_equal.
    destruct x; [apply bare_pids|done].
  - induction (unreached r) as [|ix ixs IH]; [done|]. rewrite fmap_cons. cbn [map concat]. rewrite fmap_app, IH. done.
Qed.

Definition run_lines (r : run) : list ustr := flat_map (ran_lines m b64_encode) (executed r).

Lemma attach_run r : Forall (ran_ok m) (executed r) ->
  attach_logs ((ran_bare <$> executed r) ++ ((fun ix => resolve m ix 1) <$> unreached r)) (run_lines r) =
  (ran_logged <$> executed r) ++ ((fun ix => resolve m ix 1) <$> unreached r).
Proof using Base64Laws0.
  intros Hr. unfold attach_logs. rewrite tree_pids. set (pids := flat_map ran_pids _ ++ _).
  pose proof (exec_run _ Hr pids [] (ix_pid m <$> unreached r) [] (replicate (length (unreached r)) no_info) 0 eq_refl eq_refl eq_refl) as E.
  cbn [app] in E. rewrite <- (length_fmap (ix_pid m) (unreached r)), <- replicate_add, <- length_app in E at 1. fold pids in E.
  unfold run_lines. cbv zeta. rewrite E. rewrite distribute_ran, distribute_roots. destruct pids eqn:Ep; [|done].
  apply app_eq_nil in Ep as [E1 E2]. apply fmap_nil_inv in E2. rewrite E2. destruct (executed r) as [|x rs]; [done|].
  cbn [flat_map] in E1. apply app_eq_nil in E1 as [E1 _]. by destruct x as [[]|].
Qed.

Lemma hoist_run r : hoist_cpi_events ((ran_logged <$> executed r) ++ ((fun ix => resolve m ix 1) <$> unreached r)) = run_seen m r.
Proof.
  unfold hoist_cpi_events, run_seen. rewrite fmap_app, <- !list_fmap_compose. f_equal. apply list_fmap_ext.
  intros _ [c|ix] _; [apply hoist_logged|done].
Qed.

(** C32: the call tree shows the execution.  For every transaction of calls whose
    messages do not open with a marker word, from the flat instruction lists and
    the log lines the runtime reports of it, [build_call_tree] gives every call
    back at its place and depth, with exactly its own messages, payloads, return
    data, units and outcome; precompiles, which log nothing, and instructions
    never reached carry nothing, and a program's tagged calls to itself are its
    events. *)
Theorem call_tree_rebuilt r k : Forall (ran_ok m) (executed r) -> instructions m = (ran_ix <$> executed r) ++ unreached r ->
  build_call_tree m ((ran_inner <$> executed r) ++ replicate k []) (run_lines r) = run_seen m r.
Proof using Base64Laws0. intros Hr Ei. unfold build_call_tree. cbv zeta. by rewrite bare_tree, attach_run, hoist_run. Qed.

(** ** Where a custom error comes from *)

(** The runtime's text of [Custom(code)]. *)
Definition custom_text (code : Z) : ustr := u "custom program error: 0x" ++ print_radix 16 code.

Lemma parse_custom_text code : 0 <= code <= u32_max -> parse_custom_code (custom_text code) = Some code.
Proof.
  intros Hc. assert (Hw : word (print_radix 16 code)) by (apply print_radix_word; lia). unfold parse_custom_code, custom_text.
  rewrite trim_solid by (split; [by exists 99, (u "ustom program error: 0x" ++ print_radix 16 code)|by apply ends_solid_app, word_ends]).
  rewrite removeprefix_self. cbn [mbind option_bind]. rewrite split_last_word by done. cbn [head from_option id]. by apply from_str_print.
Qed.

(** The frames of a call in order, and whether one reports a code. *)
Fixpoint frames (c : call) : list (CompiledInstruction * option ustr) :=
  let '(Call ix steps failure) := c in (ix, failure) :: flat_map (over frames) steps.
Definition reports (code : Z) (failure : option ustr) : bool := bool_decide (failure ≫= parse_custom_code = Some code).
Definition quiet (code : Z) (c : call) : Prop := Forall (fun f => reports code f.2 = false) (frames c).

(** A call fails with a code that the instruction [o] produced: it reports the
    code itself, no call below it did, or its last call, whose failure ended it,
    fails with the code. *)
Inductive originates (code : Z) : call -> CompiledInstruction -> Prop :=
  | originates_here ix steps failure :
      reports code failure = true -> Forall (fun c => event_of m ix (call_ix c) <> None \/ quiet code c) (calls_in steps) ->
      originates code (Call ix steps failure) ix
  | originates_below ix steps failure before c o :
      calls_in steps = before ++ [c] -> event_of m ix (call_ix c) = None -> originates code c o ->
      originates code (Call ix steps failure) o.

Lemma over_calls {A} (f : call -> list A) steps : flat_map (over f) steps = flat_map f (calls_in steps).
Proof. induction steps as [|[o|c] steps IH]; [done|exact IH|]. cbn [flat_map over]. by rewrite IH. Qed.

Lemma outs_status outs : forall i, status (foldl out_info i outs) = status i /\ error_msg (foldl out_info i outs) = error_msg i.
Proof. induction outs as [|o outs IH]; intros i; [done|]. cbn [foldl]. destruct (IH (out_info i o)) as [-> ->]. by destruct o. Qed.

Lemma step_seen code acc d c :
  (failing_step code acc (seen m d c)).1 = if reports code (call_failure c) then Some (ix_program m (call_ix c)) else acc.1.
Proof.
  destruct c as [ix steps [msg|]]; unfold failing_step, reports; cbn [seen ix_node info program_id call_ix call_failure]; cbn.
  - repeat case_bool_decide; done.
  - done.
Qed.

Definition search (code : Z) (acc : option bytes * option bytes) (ts : list Traced) : option bytes * option bytes :=
  foldl (failing_step code) acc (concat (map nodes ts)).
Lemma search_app code acc ts ts' : search code acc (ts ++ ts') = search code (search code acc ts) ts'.
Proof. unfold search. by rewrite map_app, concat_app, foldl_app. Qed.

Definition kids (d : nat) (ix : CompiledInstruction) (cs : list call) : list Traced :=
  flat_map (fun c => match event_of m ix (call_ix c) with Some _ => [] | None => [seen m (S d) c] end) cs.
Lemma search_seen code acc d ix steps failure :
  search code acc [seen m d (Call ix steps failure)] =
  search code (failing_step code acc (seen m d (Call ix steps failure))) (kids d ix (calls_in steps)).
Proof. unfold search, kids. cbn [map concat]. rewrite app_nil_r. cbn [seen nodes foldl]. cbn [children ix_node]. by rewrite over_calls. Qed.

Lemma search_quiet code c : quiet code c -> forall d acc, (search code acc [seen m d c]).1 = acc.1.
Proof.
  apply (call_steps_ind (fun c => quiet code c -> forall d acc, (search code acc [seen m d c]).1 = acc.1)
    (fun steps => Forall (quiet code) (calls_in steps) -> forall d ix acc, (search code acc (kids d ix (calls_in steps))).1 = acc.1)); clear c.
  - intros ix steps f IH Hq d acc. rewrite search_seen. unfold quiet in Hq. cbn [frames] in Hq. apply list.Forall_cons in Hq as [Hf Hs].
    rewrite IH, step_seen; [cbn [call_failure snd] in *; by rewrite Hf|]. rewrite over_calls in Hs. by apply Forall_flat_map in Hs.
  - done.
  - intros o steps IH. exact IH.
  - intros c steps IHc IH Hq d ix acc. change (calls_in (inr c :: steps)) with (c :: calls_in steps) in *. apply list.Forall_cons in Hq as [Hc Hq].
    change (kids d ix (c :: calls_in steps)) with ((match event_of m ix (call_ix c) with Some _ => [] | None => [seen m (S d) c] end) ++ kids d ix (calls_in steps)).
    rewrite search_app, IH by done. destruct (event_of _ _ _); [done|by apply IHc].
Qed.

Lemma search_origin code c o : originates code c o -> forall d acc, (search code acc [seen m d c]).1 = Some (ix_program m o).
Proof.
  induction 1 as [ix steps f Hr Hq|ix steps f before c o E He _ IH]; intros d acc; rewrite search_seen.
  - assert (Hk : forall cs acc, Forall (fun c => event_of m ix (call_ix c) <> None \/ quiet code c) cs -> (search code acc (kids d ix cs)).1 = acc.1).
    { intros cs acc' Hcs. revert acc'. induction Hcs as [|c cs Hc _ IH]; intros acc'; [done|].
      change (kids d ix (c :: cs)) with ((match event_of m ix (call_ix c) with Some _ => [] | None => [seen m (S d) c] end) ++ kids d ix cs).
      rewrite search_app, IH. destruct Hc as [Hc|Hc]; destruct (event_of m ix (call_ix c)); try done; by apply search_quiet. }
    rewrite Hk by done. rewrite step_seen. cbn [call_failure call_ix]. by rewrite Hr.
  - rewrite E. unfold kids. rewrite flat_map_app. cbn [flat_map]. rewrite He, app_nil_r, search_app. apply IH.
Qed.

Lemma search_roots code acc ixs : search code acc ((fun ix => ix_node m ix 1 no_info []) <$> ixs) = acc.
Proof. unfold search. induction ixs as [|ix ixs IH]; [done|]. rewrite fmap_cons. exact IH. Qed.

Lemma failing_program_search ts code : failing_program ts code = match (search code (None, None) ts).1 with Some p => Some p | None => (search code (None, None) ts).2 end.
Proof. unfold failing_program, search. by destruct (foldl _ _ _). Qed.

Lemma run_origin code r before c o : executed r = before ++ [Ran c] -> originates code c o -> failing_program (run_seen m r) code = Some (ix_program m o).
Proof.
  intros E Ho. rewrite failing_program_search. unfold run_seen. rewrite search_app, search_roots, E, fmap_app, search_app.
  change (ran_seen m <$> [Ran c]) with [seen m 1 c]. by rewrite (search_origin code c o Ho).
Qed.

(** C33: a custom error is blamed on the program that produced it.  When the last
    instruction that ran fails with a code that some call below it produced and
    every frame in between passed on, the exception built from the transaction's
    logs is resolved against that program: its built-in table when it has one,
    else its own registered class, whatever other programs declare for the same
    code. *)
Theorem custom_error_attributed reg r k before c o idx code :
  Forall (ran_ok m) (executed r) -> instructions m = (ran_ix <$> executed r) ++ unreached r ->
  executed r = before ++ [Ran c] -> originates code c o ->
  let p := address_to_str (ix_program m o) in
  let exn := build_exception reg (extract_error (InstructionCustom idx code)
    (build_call_tree m ((ran_inner <$> executed r) ++ replicate k []) (run_lines r))) in
  exn = build reg (Some code) None (Some idx) None (Some p) /\
  (forall table, attr_lookup p _BUILTIN_BY_PROGRAM = Some table ->
    exn = new_failure (default UnknownError (attr_lookup code table)) (Some code) (Some idx) None None) /\
  (forall cls, attr_lookup p _BUILTIN_BY_PROGRAM = None -> reg !! (Some p, code) = Some cls ->
    exn = new_failure cls (Some code) (Some idx) None None).
Proof using Base64Laws0.
  intros Hr Ei E Ho p exn.
  assert (Hb : exn = build reg (Some code) None (Some idx) None (Some p)).
  { unfold exn, build_call_tree. cbv zeta. rewrite bare_tree, attach_run, hoist_run by done. unfold build_exception. cbn [extract_error].
    by rewrite (run_origin code r before c o). }
  split; [done|]. rewrite Hb. unfold build. cbn [mbind option_bind]. split.
  - intros table ->. by destruct (attr_lookup code table).
  - intros cls -> ->. done.
Qed.

(** ** A program's own text as a marker *)

(** [marker_verb] looks at the third word only: a message of the program that
    starts with a marker word acts as the marker. *)
Lemma text_success pids st : log_step pids st (u "Program log: success") = when_aligned (fun st => pop (on_top set_success st)) st.
Proof. reflexivity. Qed.

Lemma text_failed pids st : log_step pids st (u "Program log: failed: no") = when_aligned (fun st => pop (on_top (set_failed (Some (u "no"))) st)) st.
Proof. reflexivity. Qed.

Lemma text_invoke pids st : ls_aligned st = true -> u "log:" ∉ pids -> ls_aligned (log_step pids st (u "Program log: invoke")) = false.
Proof.
  intros Ha Hp. change (log_step pids st (u "Program log: invoke")) with (when_aligned (open_frame pids (u "log:")) st).
  unfold when_aligned, open_frame. rewrite Ha, bool_decide_eq_false_2; [done|]. intros E. apply list_elem_of_lookup_2 in E. done.
Qed.

End frames.

(** ** A concrete transaction *)

Module Sample.
(** Keys as their hexadecimal text, apart from one of a precompile; payloads in
    hexadecimal. *)
Definition verifier : bytes := replicate 32 x07.
Definition native : Native := {|
  address_from_str _ := None;
  address_to_str p := if bool_decide (p = verifier) then "Ed25519SigVerify111111111111111111111111111"
                      else String.string_of_list_ascii ((fun c => ascii_of_N (Z.to_N c)) <$> bytes_hex p);
  find_program_address _ _ := (replicate 32 x00, 255) |}.
Definition base64 : Base64 := {| b64_decode := fromhex |}.

Lemma byte_hex_solid b : forallb (fun c => negb (is_whitespace c)) (byte_hex b) = true.
Proof. by destruct b. Qed.

Lemma hex_laws : @Base64Laws base64 bytes_hex.
Proof.
  split; [apply fromhex_hex|]. intros b Hb. split; [by destruct b|]. unfold unspaced. clear Hb.
  induction b as [|c b IH]; [constructor|]. change (bytes_hex (c :: b)) with (byte_hex c ++ bytes_hex b). apply Forall_app. split; [|done].
  apply list.Forall_forall. intros x Hx%list_elem_of_In. pose proof (byte_hex_solid c) as Hf. rewrite forallb_forall in Hf.
  specialize (Hf x Hx). by destruct (is_whitespace x).
Qed.

Definition key (b : byte) : bytes := replicate 32 b.
Definition ix (p : nat) (d : bytes) : CompiledInstruction := mkCompiled p [0%nat] d.
Definition payload : bytes := [x01; x02; x03; x04; x05; x06; x07; x08; x2a].

(** A precompile, then a vault that logs, asks a token program, emits an event
    by calling itself, and fails with the token program's code. *)
Definition token_call : call :=
  Call (ix 2 [x09]) [inl (Msg (u "Instruction: Burn")); inl (Units 200 1000)] (Some (u "custom program error: 0x1")).
Definition vault_call : call :=
  Call (ix 1 [x0a]) [inl (Msg (u "Instruction: Withdraw")); inr (Call (ix 1 (ANCHOR_EVENT_CPI_TAG ++ payload)) [] None);
    inl (Data [x05] [[x06]]); inr token_call; inl (Units 700 2000)] (Some (u "custom program error: 0x1")).
Definition history : run := mkRun [Silent (ix 3 []); Ran vault_call] [ix 2 [x0b]].
Definition sample_msg : message := {|
  static_account_keys := [key x01; key x02; key x03; verifier];
  is_signer i := bool_decide (i = 0%nat); is_maybe_writable i := bool_decide (i = 0%nat);
  instructions := (ran_ix <$> executed history) ++ unreached history |}.

#[local] Existing Instances native base64.

Lemma solid_end s c : is_whitespace c = false -> ends_solid (s ++ [c]).
Proof. by exists s, c. Qed.

Lemma pid_fine i : (i < 3)%nat -> pid_ok (ix_pid sample_msg (ix i [])) /\ is_precompile_pid (ix_pid sample_msg (ix i [])) = false.
Proof.
  intros Hi. assert (Hw : forallb (fun c => negb (is_whitespace c)) (ix_pid sample_msg (ix i [])) = true /\ forallb (fun c => negb (58 =? c)) (ix_pid sample_msg (ix i [])) = true
    /\ ix_pid sample_msg (ix i []) <> [] /\ ix_pid sample_msg (ix i []) <> u "consumed" /\ is_precompile_pid (ix_pid sample_msg (ix i [])) = false).
  { do 3 (destruct i as [|i]; [by vm_compute|]). lia. }
  destruct Hw as (Hw & H58 & Hne & Hcon & Hpre). split; [|done]. split; [split; [done|]|split; [|done]].
  - apply list.Forall_forall. intros x Hx%list_elem_of_In. rewrite forallb_forall in Hw. specialize (Hw x Hx). by destruct (is_whitespace x).
  - intros Hx%list_elem_of_In. rewrite forallb_forall in H58. by specialize (H58 58 Hx).
Qed.

Lemma history_ok : Forall (ran_ok sample_msg) (executed history).
Proof.
  assert (Hs : forall s c, is_whitespace c = false -> is_whitespace (hd 0 (s ++ [c])) = false -> solid (s ++ [c])).
  { intros s c Hc Hh. split; [|by apply solid_end]. destruct s as [|d s]; [by exists c, []|by exists d, (s ++ [c])]. }
  assert (Hf : forall text, Some (u "custom program error: 0x1") = Some text -> solid text).
  { intros ? [= <-]. by apply (Hs (u "custom program error: 0x") 49). }
  assert (Htoken : call_ok sample_msg token_call).
  { constructor; [by apply pid_fine; lia|by apply pid_fine; lia| |done|constructor]. repeat constructor; try done; try lia.
    by apply (solid_end (u "Instruction: Bur")). }
  assert (Hvault : call_ok sample_msg vault_call).
  { constructor; [by apply pid_fine; lia|by apply pid_fine; lia| |done|].
    - repeat constructor; try done; try lia. by apply (solid_end (u "Instruction: Withdra")).
    - constructor; [|constructor; [exact Htoken|constructor]].
      constructor; [by apply pid_fine; lia|by apply pid_fine; lia|constructor|done|constructor]. }
  constructor; [done|]. constructor; [exact Hvault|constructor].
Qed.

(** The tree of this transaction, from its lines. *)
Lemma call_tree_rebuilt_witness :
  Forall (ran_ok sample_msg) (executed history) /\
  build_call_tree sample_msg [[]; ran_inner (Ran vault_call)] (run_lines bytes_hex sample_msg history) = run_seen sample_msg history.
Proof.
  split; [exact history_ok|]. exact (@call_tree_rebuilt native base64 bytes_hex hex_laws sample_msg history 0 history_ok eq_refl).
Defined.

Example run_lines_text : run_lines bytes_hex sample_msg (mkRun [Ran (Call (ix 1 []) [inl (Data [x05] [[x06]])] None)] []) =
  [u "Program 0202020202020202020202020202020202020202020202020202020202020202 invoke [1]"; u "Program data: 05 06";
   u "Program 0202020202020202020202020202020202020202020202020202020202020202 success"].
Proof. vm_compute. reflexivity. Qed.

(** The vault's failure is the token program's. *)
Definition token_error : eclass := Subclass TransactionFailed (base_stmt "TokenFailure").
Lemma custom_error_attributed_witness :
  originates sample_msg 1 vault_call (ix 2 [x09]) /\
  build_exception {[ (Some (address_to_str (key x03)), 1) := token_error ]}
    (extract_error (InstructionCustom 1 1) (build_call_tree sample_msg [[]; ran_inner (Ran vault_call)] (run_lines bytes_hex sample_msg history))) =
  new_failure token_error (Some 1) (Some 1) None None.
Proof.
  assert (Ho : originates sample_msg 1 vault_call (ix 2 [x09])).
  { eapply (originates_below sample_msg 1 _ _ _ [_] token_call); [reflexivity|vm_compute; reflexivity|]. apply originates_here; [vm_compute; reflexivity|constructor]. }
  split; [exact Ho|].
  destruct (@custom_error_attributed native base64 bytes_hex hex_laws sample_msg {[ (Some (address_to_str (key x03)), 1) := token_error ]}
    history 0 [Silent (ix 3 [])] vault_call (ix 2 [x09]) 1 1 history_ok eq_refl eq_refl Ho) as (_ & _ & Hc).
  apply Hc; vm_compute; reflexivity.
Defined.

End Sample.
