(* ===== verification/Imports.v ===== *)
(** * The package's modules and how they import each other
    ([wake_sol/__init__.py] and the import statements of every module)

    A module's body is the sequence of its top-level statements as far as they
    bind names: imports, definitions, [__all__] and the calls made while it is
    loaded.  The import system is the interpreter's: [sys.modules] is consulted
    first, a parent package is loaded before its submodule, a module is entered
    in [sys.modules] before its body runs (so a cycle sees it half built), and
    becomes an attribute of its parent afterwards.  Modules of other
    distributions are assumed to be installed. *)

From Stdlib Require Import ZArith Lia.
From Stdlib Require Import Strings.Ascii Strings.Byte.
From stdpp Require Import base decidable option list gmap strings numbers.
From S2P Require Import Prelude.
From S2P Require Import Values.
From S2P Require Import ErrorsBase.
From S2P Require Import ErrorsCatalog.
From S2P Require Import GenEmit.

#[local] Open Scope string_scope.
#[local] Open Scope list_scope.

(** ** Statements *)

Inductive all_item :=
  | AllNames (names : list string)
  | AllFrom (var : string) (except : list string).   (** [*(n for n in var.__all__ if n not in except)] *)

Inductive stmt :=
  | From (module : string) (names : list (string * string))
  | FromStar (module : string)
  | Import (module : string)
  | Extern (module : string) (names : list string)
  | Define (names : list string)                     (** definitions, one after the other *)
  | Assign (name value : string)
  | Call (callee : string)
  | SetAll (items : list all_item).

(** [from m import a, b] without renaming. *)
Definition From_ (m : string) (names : list string) : stmt := From m ((fun n => (n, n)) <$> names).
Definition defines (names : list string) : list stmt := [Define names].

(** ** Interpreter state *)

(** What a name is bound to: an object made by a module of the package, by
    another distribution, or a module of the package. *)
Inductive obj := Def (module name : string) | Ext (module name : string) | Mod (module : string).
#[global] Instance obj_eq_dec : EqDecision obj.
Proof. solve_decision. Defined.

Record module_state := mkModule { ms_names : list (string * obj); ms_all : option (list string) }.

(** [sys.modules], and the calls made by module bodies, in order. *)
Record interp := mkInterp { sys_modules : list (string * module_state); calls : list (string * string) }.
Definition fresh : interp := mkInterp [] [].

Inductive import_error :=
  | ModuleNotFoundError (module : string)
  | ImportError (module name : string)
  | AttributeError (module name : string)
  | NameError (name : string)
  | OutOfFuel.
Inductive outcome (A : Type) := Done (a : A) | Err (e : import_error).
Arguments Done {A} a.
Arguments Err {A} e.
#[global] Instance outcome_ret : MRet outcome := @Done.
#[global] Instance outcome_bind : MBind outcome := fun A B f m => match m with Done a => f a | Err e => Err e end.

Definition dotted (m n : string) : string := m +:+ "." +:+ n.
Definition dot_parts (m : string) : list string := split_on "."%char m.
Definition parent (m : string) : option string :=
  match rev (dot_parts m) with _ :: p :: ps => Some (String.concat "." (rev (p :: ps))) | _ => None end.
Definition child (m : string) : string := default "" (list.last (dot_parts m)).
Definition top_level (m : string) : string := default "" (head (dot_parts m)).

Definition loaded (m : string) (st : interp) : bool := match attr_lookup m (sys_modules st) with Some _ => true | None => false end.
Definition names_of (m : string) (st : interp) : list (string * obj) :=
  match attr_lookup m (sys_modules st) with Some s => ms_names s | None => [] end.
Definition attr_of (m n : string) (st : interp) : option obj := attr_lookup n (names_of m st).
Definition all_of (m : string) (st : interp) : option (list string) := attr_lookup m (sys_modules st) ≫= ms_all.

Definition update_module (m : string) (f : module_state -> module_state) (st : interp) : interp :=
  match attr_lookup m (sys_modules st) with
  | Some s => mkInterp (dict_set m (f s) (sys_modules st)) (calls st)
  | None => st
  end.
Definition bind_names (m : string) (ns : list (string * obj)) (st : interp) : interp :=
  update_module m (fun s => mkModule (foldl (fun d p => dict_set p.1 p.2 d) (ms_names s) ns) (ms_all s)) st.
Definition bind_name (m n : string) (o : obj) (st : interp) : interp := bind_names m [(n, o)] st.
Definition set_all (m : string) (names : list string) (st : interp) : interp :=
  update_module m (fun s => mkModule (ms_names s) (Some names)) st.
Definition new_module (m : string) (st : interp) : interp :=
  mkInterp (dict_set m (mkModule [] None) (sys_modules st)) (calls st).
Definition bind_in_parent (m : string) (st : interp) : interp :=
  match parent m with Some p => bind_name p (child m) (Mod m) st | None => st end.

Fixpoint fold_out {A B} (f : B -> A -> outcome B) (b : B) (xs : list A) : outcome B :=
  match xs with [] => Done b | x :: xs => b ← f b x; fold_out f b xs end.

Section system.
Context (package : list (string * list stmt)).

Section statements.
Context (import : string -> interp -> outcome interp).

(** The submodules a [from m import ...] has to load: names [m] does not have. *)
Definition handle_fromlist (m : string) (names : list string) (st : interp) : outcome interp :=
  fold_out (fun st n => if attr_of m n st then Done st
                        else match attr_lookup (dotted m n) package with
                             | Some _ => import (dotted m n) st
                             | None => Done st
                             end) st names.

Definition import_from (m n : string) (st : interp) : outcome obj :=
  match attr_of m n st with
  | Some o => Done o
  | None => if loaded (dotted m n) st then Done (Mod (dotted m n)) else Err (ImportError m n)
  end.

Definition is_public (n : string) : bool := match n with String c _ => negb (bool_decide (c = "_"%char)) | EmptyString => true end.
Definition star_names (m : string) (st : interp) : list string :=
  match all_of m st with Some ns => ns | None => List.filter is_public (names_of m st).*1 end.

Definition all_names (self : string) (items : list all_item) (st : interp) : outcome (list string) :=
  fold_out (fun acc i =>
    match i with
    | AllNames ns => Done (acc ++ ns)
    | AllFrom var except =>
        match attr_of self var st with
        | Some (Mod m) =>
            match all_of m st with
            | Some ns => Done (acc ++ List.filter (fun n => negb (bool_decide (n ∈ except))) ns)
            | None => Err (AttributeError m "__all__")
            end
        | Some _ => Err (AttributeError var "__all__")
        | None => Err (NameError var)
        end
    end) [] items.

Definition exec_stmt (self : string) (st : interp) (s : stmt) : outcome interp :=
  match s with
  | From m names =>
      st ← import m st;
      st ← handle_fromlist m names.*1 st;
      fold_out (fun st p => o ← import_from m p.1 st; Done (bind_name self p.2 o st)) st names
  | FromStar m =>
      st ← import m st;
      st ← handle_fromlist m (default [] (all_of m st)) st;
      fold_out (fun st n => match attr_of m n st with
                            | Some o => Done (bind_name self n o st)
                            | None => Err (AttributeError m n)
                            end) st (star_names m st)
  | Import m =>
      st ← import m st;
      Done (bind_name self (top_level m) (Mod (top_level m)) st)
  | Extern m names => Done (bind_names self ((fun n => (n, Ext m n)) <$> names) st)
  | Define names => Done (bind_names self ((fun n => (n, Def self n)) <$> names) st)
  | Assign n v => match attr_of self v st with Some o => Done (bind_name self n o st) | None => Err (NameError v) end
  | Call f =>
      match attr_of self (top_level f) st with
      | Some _ => Done (mkInterp (sys_modules st) (calls st ++ [(self, f)]))
      | None => Err (NameError f)
      end
  | SetAll items => ns ← all_names self items st; Done (set_all self ns st)
  end.

Definition exec_body (self : string) (body : list stmt) (st : interp) : outcome interp := fold_out (exec_stmt self) st body.
End statements.

(** The fuel bounds the depth of imports in progress. *)
Fixpoint import_module (fuel : nat) (name : string) (st : interp) : outcome interp :=
  match fuel with
  | O => Err OutOfFuel
  | S fuel =>
      if loaded name st then Done st
      else
        match attr_lookup name package with
        | None => Err (ModuleNotFoundError name)
        | Some body =>
            st ← match parent name with Some p => import_module fuel p st | None => Done st end;
            if loaded name st then Done st
            else st ← exec_body (import_module fuel) name body (new_module name st); Done (bind_in_parent name st)
        end
  end.
End system.

(** ** The modules *)

(** [wake_sol/__init__.py]. *)
Definition wake_sol_body : list stmt :=
   [Extern "random" ["_random"];
    Extern "ordered_set" ["OrderedSet"];
    Extern "rich.console" ["_Console"]] ++
   defines ["_console"; "print"] ++
   [From_ "wake_sol._native" ["Account"; "AccountMeta"; "CallTrace"; "Clock"; "EpochRewards"; "EpochSchedule";
      "FeeStructure"; "Instruction"; "LiteSVM"; "Pubkey"; "Rent"; "TracedInstruction"; "TransactionResult";
      "readonly"; "signer"; "writable"; "writable_signer"];
    From "wake_sol._native" [("default_svm", "_default_svm")];
    From_ "wake_sol" ["_codec"];
    FromStar "wake_sol._codec";
    From_ "wake_sol" ["_addresses"];
    FromStar "wake_sol._addresses";
    From_ "wake_sol" ["_units"];
    From_ "wake_sol._units" ["LAMPORTS_PER_SOL"; "sol"];
    From_ "wake_sol" ["_labels"];
    From_ "wake_sol" ["_programs"];
    From_ "wake_sol" ["ed25519"];
    From_ "wake_sol" ["secp256k1"];
    From_ "wake_sol" ["secp256r1"];
    From_ "wake_sol._precompiles" ["Inline"; "Offsets"; "PrecompileInstruction"; "Ref"; "SignedMessage"];
    From "wake_sol" [("call_trace", "_call_trace")];
    From_ "wake_sol" ["coverage"];
    From_ "wake_sol._interface" ["DecodedInstruction"; "ReturnDataError"; "decode_instruction"];
    From_ "wake_sol.fuzzing" ["FuzzTest"; "flow"; "invariant"];
    From_ "wake_sol._errors" ["AnchorError"; "ProgramError"; "SolanaError"; "SystemProgramError"; "TokenError";
      "TransactionFailed"; "UnknownError"; "may_fail"; "must_fail"; "register_errors"]] ++
   defines ["svm"; "random"] ++
   [SetAll [AllNames ["Account"; "AccountMeta"; "AnchorError"; "CallTrace"; "Clock"; "DecodedInstruction";
      "EpochRewards"; "EpochSchedule"; "FeeStructure"; "FuzzTest"; "Instruction"; "LAMPORTS_PER_SOL"; "LiteSVM";
      "Inline"; "Offsets"; "OrderedSet"; "PrecompileInstruction"; "Ref"; "SignedMessage"; "ed25519"; "secp256k1";
      "secp256r1"; "ProgramError"; "Pubkey"; "Rent"; "ReturnDataError"; "SolanaError"; "SystemProgramError";
      "TokenError"; "TracedInstruction"; "TransactionFailed"; "TransactionResult"; "UnknownError";
      "decode_instruction"; "flow"; "invariant"; "coverage"; "may_fail"; "must_fail"; "register_errors"; "print";
      "random"; "readonly"; "signer"; "sol"; "svm"; "writable"; "writable_signer"];
      AllFrom "_codec" ["ProgramError"]; AllFrom "_addresses" []]].

(** [wake_sol/_addresses.py]. *)
Definition _addresses_body : list stmt :=
   [From_ "wake_sol._native" ["Pubkey"]] ++
   defines ["SYSTEM_PROGRAM_ID"; "TOKEN_PROGRAM_ID"; "TOKEN_2022_PROGRAM_ID"; "ASSOCIATED_TOKEN_PROGRAM_ID";
      "ED25519_PROGRAM_ID"; "SECP256K1_PROGRAM_ID"; "SECP256R1_PROGRAM_ID"; "RENT_SYSVAR"; "CLOCK_SYSVAR";
      "INSTRUCTIONS_SYSVAR"; "RECENT_BLOCKHASHES_SYSVAR"; "SLOT_HASHES_SYSVAR"; "STAKE_HISTORY_SYSVAR";
      "EPOCH_SCHEDULE_SYSVAR"; "REWARDS_SYSVAR"] ++
   [SetAll [AllNames ["SYSTEM_PROGRAM_ID"; "TOKEN_PROGRAM_ID"; "TOKEN_2022_PROGRAM_ID";
      "ASSOCIATED_TOKEN_PROGRAM_ID"; "ED25519_PROGRAM_ID"; "SECP256K1_PROGRAM_ID"; "SECP256R1_PROGRAM_ID";
      "RENT_SYSVAR"; "CLOCK_SYSVAR"; "INSTRUCTIONS_SYSVAR"; "RECENT_BLOCKHASHES_SYSVAR"; "SLOT_HASHES_SYSVAR";
      "STAKE_HISTORY_SYSVAR"; "EPOCH_SCHEDULE_SYSVAR"; "REWARDS_SYSVAR"]]].

(** [wake_sol/_codec/__init__.py]. *)
Definition _codec_body : list stmt :=
   [From_ "wake_sol._codec.aliases" ["u8"; "u16"; "u32"; "u64"; "u128"; "u256"; "i8"; "i16"; "i32"; "i64"; "i128";
      "i256"; "f32"; "f64"; "char"; "pubkey"; "int_spec"; "float_spec"];
    From_ "wake_sol._codec.carriers" ["BorshEnum"; "BorshEnumMeta"; "COption"; "Opt"; "variant"];
    From_ "wake_sol._codec.meta" ["AccountFlagOverride"; "AccountSlot"; "BorshMeta"; "GenError"; "IdlPda";
      "InstructionMeta"; "Kind"; "ProgramError"; "RefuseToDecode"; "SerKind"; "Serialization"; "Seed";
      "anchor_discriminator"; "event"; "instruction"];
    From_ "wake_sol._codec.codec" ["MAX_DECODE_DEPTH"; "BorshError"; "Cursor"; "Mode"; "decode"; "encode"];
    From_ "wake_sol._codec.ir" ["compile_field"; "compile_layout"; "compile_type"; "option_inner"];
    From_ "wake_sol._codec.builder" ["BorshStruct"; "BytesLike"; "MetaLike"; "as_meta";
      "build_interface_from_module"; "build_metas"; "encode_ix"; "encode_ix_layout"; "make_borsh_decoder";
      "mangle"; "mangle_back"; "slot"];
    SetAll [AllNames ["u8"; "u16"; "u32"; "u64"; "u128"; "u256"; "i8"; "i16"; "i32"; "i64"; "i128"; "i256"; "f32";
      "f64"; "char"; "pubkey"; "int_spec"; "float_spec"; "Opt"; "COption"; "variant"; "BorshEnum";
      "BorshEnumMeta"; "Serialization"; "SerKind"; "Kind"; "BorshMeta"; "AccountSlot"; "Seed"; "IdlPda";
      "InstructionMeta"; "instruction"; "event"; "ProgramError"; "AccountFlagOverride"; "GenError";
      "RefuseToDecode"; "anchor_discriminator"; "BorshError"; "Cursor"; "Mode"; "decode"; "encode";
      "MAX_DECODE_DEPTH"; "compile_type"; "compile_field"; "compile_layout"; "option_inner"; "encode_ix";
      "encode_ix_layout"; "build_metas"; "slot"; "as_meta"; "make_borsh_decoder"; "mangle"; "mangle_back";
      "build_interface_from_module"; "BorshStruct"; "MetaLike"; "BytesLike"]]].

(** [wake_sol/_codec/aliases.py]. *)
Definition _codec_aliases_body : list stmt :=
   [Extern "typing" ["TYPE_CHECKING"];
    From_ "wake_sol._native" ["Pubkey"]] ++
   defines ["_Int"; "_int_alias"; "_Float"; "_float_alias"; "u8"; "u16"; "u32"; "u64"; "u128"; "u256"; "i8";
      "i16"; "i32"; "i64"; "i128"; "i256"; "f32"; "f64"; "char"] ++
   [Assign "pubkey" "Pubkey"] ++
   defines ["_INT_SPECS"; "_FLOAT_SPECS"; "int_spec"; "float_spec"].

(** [wake_sol/_codec/builder.py]. *)
Definition _codec_builder_body : list stmt :=
   [Extern "inspect" ["inspect"];
    Extern "keyword" ["keyword"];
    Extern "warnings" ["warnings"];
    Extern "typing" ["TypeVar"];
    From_ "wake_sol._interface" ["ProgramInterface"];
    From_ "wake_sol._native" ["Account"; "AccountMeta"; "Pubkey"];
    From_ "wake_sol._native" ["Instruction"];
    From_ "wake_sol._codec.codec" ["BorshError"; "Cursor"; "Mode"];
    From "wake_sol._codec.codec" [("decode", "_decode")];
    From "wake_sol._codec.codec" [("encode", "_encode")];
    From_ "wake_sol._codec.ir" ["compile_field"; "compile_type"];
    From_ "wake_sol._codec.meta" ["AccountFlagOverride"; "Kind"; "Serialization"]] ++
   defines ["_RESERVED"; "MetaLike"; "BytesLike"; "_S"; "BorshStruct"; "mangle"; "mangle_back"; "encode_ix";
      "encode_ix_layout"; "as_meta"; "slot"; "build_metas"; "make_borsh_decoder"; "make_returns_decoder";
      "_POSITIONAL_OR_KEYWORD"; "_KEYWORD_ONLY"; "_public_methods"; "build_interface_from_module"].

(** [wake_sol/_codec/carriers.py]. *)
Definition _codec_carriers_body : list stmt :=
   [Extern "typing" ["Generic"; "TypeVar"]] ++
   defines ["_T"; "Opt"; "COption"; "variant"; "BorshEnumMeta"; "BorshEnum"].

(** [wake_sol/_codec/codec.py]. *)
Definition _codec_codec_body : list stmt :=
   [Extern "enum" ["enum"];
    Extern "contextlib" ["contextmanager"]] ++
   defines ["MAX_DECODE_DEPTH"; "BorshError"; "Mode"; "Cursor"; "decode"; "encode"].

(** [wake_sol/_codec/ir.py]. *)
Definition _codec_ir_body : list stmt :=
   [Extern "dataclasses" ["dataclasses"];
    Extern "struct" ["struct"];
    Extern "types" ["_types"];
    Extern "typing" ["typing"];
    Extern "enum" ["IntEnum"];
    From_ "wake_sol._codec.aliases" ["float_spec"; "int_spec"];
    From "wake_sol._codec.aliases" [("pubkey", "_pubkey")];
    From_ "wake_sol._codec.carriers" ["COption"; "Opt"; "BorshEnumMeta"];
    From_ "wake_sol._codec.codec" ["BorshError"];
    From_ "wake_sol._codec.meta" ["GenError"]] ++
   defines ["_NoneType"; "_UNION_TYPE"; "_is_union"; "option_inner"; "_Node"; "IntNode"; "FloatNode"; "BoolNode";
      "_read_seq_len"; "StrNode"; "BytesNode"; "FixedBytesNode"; "PubkeyNode"; "OptionNode"; "OptNode"; "VecNode";
      "FixedArrayNode"; "StructNode"; "IntEnumNode"; "BorshEnumNode"; "_TYPE_CACHE"; "_dataclass_fields";
      "compile_type"; "compile_field"; "compile_layout"].

(** [wake_sol/_codec/meta.py]. *)
Definition _codec_meta_body : list stmt :=
   [Extern "hashlib" ["hashlib"];
    Extern "dataclasses" ["dataclass"];
    Extern "enum" ["Enum"];
    Extern "typing" ["Optional"]] ++
   defines ["Serialization"] ++
   [Assign "SerKind" "Serialization"] ++
   defines ["Kind"; "BorshMeta"; "Seed"; "IdlPda"; "AccountSlot"; "InstructionMeta"; "instruction"; "event";
      "ProgramError"; "AccountFlagOverride"; "GenError"; "RefuseToDecode"; "_DISC_PREFIX"; "anchor_discriminator"].

(** [wake_sol/_debug.py]. *)
Definition _debug_body : list stmt :=
   [Extern "sys" ["sys"];
    Extern "pathlib" ["Path"];
    Extern "types" ["TracebackType"];
    Extern "typing" ["Callable"; "Optional"; "Type"];
    Extern "rich" ["rich_print"]] ++
   defines ["_PKG_DIR"; "_ExceptionHandler"; "_exception_handler"; "_exception_handled"; "set_exception_handler";
      "get_exception_handler"; "reset_exception_handled"; "_stdio_is_tty"; "_init_pdb"; "breakpoint_handler";
      "default_handler"; "make_custom_pdb"; "attach_debugger"; "_is_relative_to"].

(** [wake_sol/_errors.py]. *)
Definition _errors_body : list stmt :=
   [Extern "contextlib" ["contextmanager"];
    Extern "typing" ["Iterator"];
    From_ "wake_sol._addresses" ["SYSTEM_PROGRAM_ID"; "TOKEN_2022_PROGRAM_ID"; "TOKEN_PROGRAM_ID"];
    From_ "wake_sol._errors_base" ["AnchorError"; "ProgramError"; "SolanaError"; "SystemProgramError";
      "TokenError"; "TransactionFailed"; "UnknownError"];
    From "wake_sol._errors_catalog.anchor" [("BY_CODE", "_ANCHOR_BY_CODE")];
    From "wake_sol._errors_catalog.solana" [("BY_NAME", "_SOLANA_BY_NAME")];
    From "wake_sol._errors_catalog.system" [("BY_CODE", "_SYSTEM_BY_CODE")];
    From "wake_sol._errors_catalog.token" [("BY_CODE", "_TOKEN_BY_CODE")]] ++
   defines ["ANCHOR_USER_ERROR_OFFSET"; "_attach_leaves"] ++
   [Call "_attach_leaves"] ++
   defines ["_BUILTIN_BY_PROGRAM"; "_PROGRAM_BY_CODE"; "register_errors"; "build"; "ExceptionWrapper";
      "_split_expected"; "_matches"; "must_fail"; "may_fail"].

(** [wake_sol/_errors_base.py]. *)
Definition _errors_base_body : list stmt :=
   [Extern "typing" ["TYPE_CHECKING"]] ++
   defines ["TransactionFailed"; "SolanaError"; "AnchorError"; "ProgramError"; "UnknownError";
      "SystemProgramError"; "TokenError"].

(** [wake_sol/_errors_catalog/__init__.py]. *)
Definition _errors_catalog_body : list stmt :=
   [].

(** [wake_sol/_errors_catalog/anchor.py]. *)
Definition _errors_catalog_anchor_body : list stmt :=
   [From_ "wake_sol._errors_base" ["AnchorError"]] ++
   defines (cs_name <$> anchor_classes) ++ defines ["BY_CODE"].

(** [wake_sol/_errors_catalog/solana.py]. *)
Definition _errors_catalog_solana_body : list stmt :=
   [From_ "wake_sol._errors_base" ["SolanaError"]] ++
   defines (cs_name <$> solana_classes) ++ defines ["BY_NAME"].

(** [wake_sol/_errors_catalog/system.py]. *)
Definition _errors_catalog_system_body : list stmt :=
   [From_ "wake_sol._errors_base" ["SystemProgramError"]] ++
   defines (cs_name <$> system_classes) ++ defines ["BY_CODE"].

(** [wake_sol/_errors_catalog/token.py]. *)
Definition _errors_catalog_token_body : list stmt :=
   [From_ "wake_sol._errors_base" ["TokenError"]] ++
   defines (cs_name <$> token_classes) ++ defines ["BY_CODE"].

(** [wake_sol/_gen/__init__.py]. *)
Definition _gen_body : list stmt :=
   defines ["GENERATOR_VERSION"; "SCHEMA_VERSION"] ++
   [From_ "wake_sol._gen.run" ["run_gen"];
    SetAll [AllNames ["run_gen"; "GENERATOR_VERSION"; "SCHEMA_VERSION"]]].

(** [wake_sol/_gen/emit.py]. *)
Definition _gen_emit_body : list stmt :=
   [From_ "wake_sol._codec" ["GenError"; "mangle"];
    From_ "wake_sol._gen" ["wellknown"];
    From_ "wake_sol._gen.types" ["Usage"; "map_type"]] ++
   defines ["BANNER"; "NOTE_EVENTS"; "_ALIAS_ORDER"; "_ENGINE_ORDER"; "_TYPING_ORDER"; "_pascal";
      "_bytes_literal"; "_field_lines"; "ModuleEmitter"; "_section"; "emit_module"].

(** [wake_sol/_gen/errors_catalog.py]. *)
Definition _gen_errors_catalog_body : list stmt :=
   [Extern "argparse" ["argparse"];
    Extern "re" ["re"];
    Extern "sys" ["sys"];
    Extern "pathlib" ["Path"];
    Extern "typing" ["Sequence"]] ++
   defines ["_SOLANA_NAMES"; "_ANCHOR_TABLE"; "_SYSTEM_ERRORS"; "_TOKEN_ERRORS"; "_HEADER"; "_catalog_module";
      "_emit_solana"; "_emit_anchor"; "_emit_coded_msg"; "_emit_init"; "_CATEGORIES"; "_member_block";
      "_fill_member_blocks"; "_planned_outputs"; "regenerate"; "main"].

(** [wake_sol/_gen/idl.py]. *)
Definition _gen_idl_body : list stmt :=
   [Extern "hashlib" ["hashlib"];
    Extern "json" ["json"];
    Extern "dataclasses" ["dataclass"; "field"];
    Extern "typing" ["Optional"];
    From_ "wake_sol._codec" ["GenError"; "anchor_discriminator"]] ++
   defines ["Field"; "Variant"; "TypeDef"; "AccountDecl"; "EventDecl"; "IxArg"; "IxAccount"; "Instruction";
      "ErrorDef"; "Idl"; "_disc"; "_norm_type_node"; "_fields"; "_typedef"; "_flatten_accounts";
      "_resolve_address"; "_B58_ALPHABET"; "_is_base58_address"; "load_idl"].

(** [wake_sol/_gen/run.py]. *)
Definition _gen_run_body : list stmt :=
   [Extern "json" ["json"];
    Extern "shutil" ["shutil"];
    Extern "sys" ["sys"];
    Extern "datetime" ["datetime"; "timezone"];
    Extern "pathlib" ["Path"];
    From_ "wake_sol._gen" ["GENERATOR_VERSION"; "SCHEMA_VERSION"];
    From_ "wake_sol._codec" ["GenError"];
    From_ "wake_sol._gen.emit" ["emit_module"];
    From_ "wake_sol._gen.idl" ["load_idl"]] ++
   defines ["_REFUSAL_REASON"; "_log"; "_warn"; "_collect"; "_discover"; "_slugify"; "_assign_modules";
      "_provenance"; "_refusing_stub"; "_emit_prov_literal"; "_init_module"; "_build_files"; "_write_package";
      "_strip_generated_at"; "_check"; "run_gen"].

(** [wake_sol/_gen/source.py]. *)
Definition _gen_source_body : list stmt :=
   [Extern "re" ["re"];
    Extern "pathlib" ["Path"]] ++
   defines ["_DECLARE_ID_RE"; "_PUB_FN_RE"; "_read"; "index_crates"; "handler_uris"].

(** [wake_sol/_gen/types.py]. *)
Definition _gen_types_body : list stmt :=
   [From_ "wake_sol._codec" ["GenError"]] ++
   defines ["_SCALARS"; "_ALIAS_NAMES"; "_REJECTED_SCALARS"; "Usage"; "_is_option"; "map_type"; "_map_option";
      "_map_opt_chain"; "_map_array"].

(** [wake_sol/_gen/wellknown.py]. *)
Definition _gen_wellknown_body : list stmt :=
   [From_ "wake_sol._addresses" ["ASSOCIATED_TOKEN_PROGRAM_ID"; "CLOCK_SYSVAR"; "EPOCH_SCHEDULE_SYSVAR";
      "INSTRUCTIONS_SYSVAR"; "RECENT_BLOCKHASHES_SYSVAR"; "RENT_SYSVAR"; "REWARDS_SYSVAR"; "SLOT_HASHES_SYSVAR";
      "STAKE_HISTORY_SYSVAR"; "SYSTEM_PROGRAM_ID"; "TOKEN_2022_PROGRAM_ID"; "TOKEN_PROGRAM_ID"]] ++
   defines ["NAME_TO_ADDRESS"; "_norm"; "resolve"].

(** [wake_sol/_interface.py]. *)
Definition _interface_body : list stmt :=
   [Extern "dataclasses" ["dataclass"; "field"];
    Extern "typing" ["Callable"; "Optional"]] ++
   defines ["DecodedInstruction"; "InstructionDef"; "ProgramInterface"; "RefusingInterface"; "REGISTRY";
      "register"; "decode_instruction"; "ReturnDataError"; "decode_return_value"; "UnknownEvent"; "decode_events";
      "decode_return_as"].

(** [wake_sol/_labels.py]. *)
Definition _labels_body : list stmt :=
   [Extern "typing" ["Optional"]] ++
   defines ["WELL_KNOWN"; "_LABELS"; "_FULL_ADDRESSES"; "set_full_addresses"; "set_label"; "get_label";
      "clear_labels"; "program_name"; "resolve_label"].

(** [wake_sol/_mp_serial.py]. *)
Definition _mp_serial_body : list stmt :=
   [Extern "pickle" ["pickle"];
    Extern "typing" ["Tuple"];
    Extern "pytest" ["pytest"]] ++
   defines ["REPORT_PICKLE"; "REPORT_JSON"; "dump_report"; "load_report"].

(** [wake_sol/_mp_server.py]. *)
Definition _mp_server_body : list stmt :=
   [Extern "multiprocessing" ["multiprocessing"];
    Extern "os" ["os"];
    Extern "pickle" ["pickle"];
    Extern "shutil" ["shutil"];
    Extern "signal" ["signal"];
    Extern "sys" ["sys"];
    Extern "contextlib" ["nullcontext"];
    Extern "pathlib" ["Path"];
    Extern "typing" ["Callable"; "Dict"; "List"; "Optional"; "Tuple"; "Union"];
    Extern "pytest" ["pytest"];
    From_ "wake_sol._mp_serial" ["REPORT_JSON"; "REPORT_PICKLE"; "load_report"]] ++
   defines ["PytestPluginMultiprocessServer"].

(** [wake_sol/_mp_worker.py]. *)
Definition _mp_worker_body : list stmt :=
   [Extern "atexit" ["atexit"];
    Extern "inspect" ["inspect"];
    Extern "logging" ["logging"];
    Extern "multiprocessing.connection" ["multiprocessing"];
    Extern "multiprocessing.queues" ["multiprocessing"];
    Extern "os" ["os"];
    Extern "pickle" ["pickle"];
    Extern "signal" ["signal"];
    Extern "sys" ["sys"];
    Extern "contextlib" ["redirect_stderr"; "redirect_stdout"];
    Extern "pathlib" ["Path"];
    Extern "types" ["TracebackType"];
    Extern "typing" ["List"; "Optional"; "Type"];
    Extern "pytest" ["pytest"];
    Extern "pytest" ["Session"];
    From_ "wake_sol._mp_serial" ["dump_report"]] ++
   defines ["PytestPluginMultiprocessWorker"; "_source_snippet"].

(** [wake_sol/_precompiles.py]. *)
Definition _precompiles_body : list stmt :=
   [Extern "dataclasses" ["dataclasses"];
    Extern "struct" ["struct"];
    Extern "dataclasses" ["dataclass"];
    Extern "typing" ["Optional"; "Sequence"; "Union"];
    From_ "wake_sol._interface" ["DecodedInstruction"; "ProgramInterface"; "register"];
    From_ "wake_sol._native" ["Instruction"; "Pubkey"]] ++
   defines ["CURRENT_INSTRUCTION"; "SIGNATURE_SIZE"; "Inline"; "INLINE"; "Ref"; "Placement"; "SignedMessage";
      "Offsets"; "CurveSpec"; "_pack_offsets"; "_signature_blob"; "_check_claim"; "_has_refs"; "_resolve_ref";
      "build_instruction_data"; "build_verify"; "pack"; "PrecompileInstruction"; "materialize";
      "_PrecompileInterface"; "register_precompile"].

(** [wake_sol/_programs/__init__.py]. *)
Definition _programs_body : list stmt :=
   [From_ "wake_sol._programs" ["ata"; "system"; "token"]].

(** [wake_sol/_programs/ata.py]. *)
Definition _programs_ata_body : list stmt :=
   [From_ "wake_sol._interface" ["ProgramInterface"; "register"]] ++
   defines ["ATA_PROGRAM"; "_CREATE_ACCOUNTS"; "_iface"] ++
   [Call "_iface.add";
    Call "_iface.add";
    Call "_iface.add";
    Call "register"].

(** [wake_sol/_programs/system.py]. *)
Definition _programs_system_body : list stmt :=
   [Extern "struct" ["struct"];
    Extern "typing" ["Sequence"];
    From_ "wake_sol._codec" ["AccountSlot"; "InstructionMeta"; "MetaLike"; "Serialization"; "as_meta";
      "build_interface_from_module"; "build_metas"; "instruction"; "pubkey"; "slot"; "u64"];
    From_ "wake_sol._interface" ["register"];
    From_ "wake_sol._native" ["Instruction"; "Pubkey"]] ++
   defines ["SYSTEM_PROGRAM"; "PROGRAM_ID"; "_tag"; "_pk"; "_create_account"; "_assign"; "_transfer"; "_allocate";
      "_create_account_with_seed"; "System"; "_OVERRIDES"; "_iface"] ++
   [Call "_iface.add";
    Call "_iface.add";
    Call "_iface.add";
    Call "_iface.add";
    Call "_iface.add";
    Call "register"].

(** [wake_sol/_programs/token.py]. *)
Definition _programs_token_body : list stmt :=
   [Extern "struct" ["struct"];
    Extern "typing" ["Optional"; "Sequence"];
    From_ "wake_sol._codec" ["AccountSlot"; "InstructionMeta"; "MetaLike"; "Serialization"; "as_meta";
      "build_interface_from_module"; "build_metas"; "instruction"; "pubkey"; "slot"; "u8"; "u64"];
    From_ "wake_sol._interface" ["register"];
    From_ "wake_sol._native" ["AccountMeta"; "Instruction"; "Pubkey"]] ++
   defines ["TOKEN_PROGRAM"; "TOKEN_2022_PROGRAM"; "ATA_PROGRAM"; "SYSTEM_PROGRAM"; "_pk"; "_none"; "_amount";
      "_amount_decimals"; "_initialize_mint"; "_owner"; "Token"; "_OVERRIDES"; "_make_iface"] ++
   [Call "_make_iface";
    Call "_make_iface"].

(** [wake_sol/_pytest_plugin.py]. *)
Definition _pytest_plugin_body : list stmt :=
   [Extern "argparse" ["argparse"];
    Extern "hashlib" ["hashlib"];
    Extern "io" ["io"];
    Extern "os" ["os"];
    Extern "sys" ["sys"];
    Extern "importlib.machinery" ["PathFinder"];
    Extern "pathlib" ["Path"];
    Extern "typing" ["Callable"; "List"; "Optional"; "Tuple"];
    Extern "pytest" ["pytest"];
    Extern "_pytest.config" ["Config"];
    Import "wake_sol";
    From_ "wake_sol" ["_debug"; "fuzzing"]] ++
   defines ["_SEED_KEY"; "_COVERAGE_ALL"; "_DEFAULT_COVERAGE_REPORT"; "_DEFAULT_COVERAGE_SYNC";
      "_crash_dir_override"; "_crash_sink"; "_crash_logs"; "_worker_index"; "_live_exporter"; "_fuzz_failures";
      "set_crash_dir"; "set_worker_index"; "collect_coverage"; "set_crash_log_sink"; "_stolen_paths";
      "_CoverageCountAction"; "_cov_alias_free"; "pytest_addoption"; "_ROOTPATH_ADDED";
      "pytest_load_initial_conftests"; "_default_breakpoints_to_ipdb"; "_coverage_roots";
      "coverage_sync_interval"; "start_live_coverage"; "coverage_proc_count"; "_coverage_wanted";
      "coverage_report_path"; "_restore_stolen_paths"; "pytest_configure"; "pytest_sessionstart";
      "pytest_runtest_setup"; "pytest_exception_interact"; "pytest_terminal_summary"; "_write_coverage";
      "_write_flow_stats"; "_render_lines"; "_sanitize"; "_write_fuzz_crash_log"].

(** [wake_sol/_tee.py]. *)
Definition _tee_body : list stmt :=
   [Extern "sys" ["sys"];
    Extern "abc" ["abstractmethod"]] ++
   defines ["Tee"; "StdoutTee"; "StderrTee"].

(** [wake_sol/_units.py]. *)
Definition _units_body : list stmt :=
   [Extern "decimal" ["Decimal"; "InvalidOperation"]] ++
   defines ["LAMPORTS_PER_SOL"; "_SCALE"; "sol"] ++
   [SetAll [AllNames ["LAMPORTS_PER_SOL"; "sol"]]].

(** [wake_sol/call_trace.py]. *)
Definition call_trace_body : list stmt :=
   [Extern "dataclasses" ["dataclasses"];
    Extern "io" ["io"];
    Extern "re" ["re"];
    Extern "typing" ["Optional"];
    Extern "rich.console" ["Console"; "Group"; "RenderableType"];
    Extern "rich.text" ["Text"];
    Extern "rich.tree" ["Tree"];
    From_ "wake_sol._interface" ["UnknownEvent"; "decode_instruction"];
    From_ "wake_sol._labels" ["resolve_label"];
    From_ "wake_sol._native" ["Pubkey"]] ++
   defines ["_PROGRAM"; "_INSTRUCTION"; "_UNKNOWN"; "_ROLE"; "_REPR"; "_NUMBER"; "_FLAG"; "_PUNCT"; "_LOG";
      "_ERROR"; "_CU"; "_RETURN"; "_EVENT"; "_STATUS"; "_CUSTOM_ERR_RE"; "_fmt_value"; "_header"; "_account_line";
      "_log_line"; "_is_error_log"; "_decode_return"; "_custom_error_code"; "_propagates_child_error";
      "_decode_error"; "_event_line"; "_undecodable_header"; "_node_renderable"; "_add_node"; "_any_failed";
      "_rich"; "_to_str"].

(** [wake_sol/cli.py]. *)
Definition cli_body : list stmt :=
   [Extern "sys" ["sys"];
    Extern "pathlib" ["Path"];
    Extern "typing" ["Optional"];
    Extern "click" ["click"]] ++
   defines ["cli"; "_strip_seed"; "_PLUGIN_OPTIONAL_VALUE"; "_PLUGIN_OPTIONS"; "_is_int"; "_strip_plugin_opts";
      "_coverage_count"; "_option_value"; "test"; "_GEN_OPTIONS"; "_gen_options"; "gen"; "gen_run"; "gen_check";
      "gen_list"; "coverage"; "coverage_merge"; "main"].

(** [wake_sol/coverage.py]. *)
Definition coverage_body : list stmt :=
   [Extern "json" ["json"];
    Extern "re" ["re"];
    Extern "sys" ["sys"];
    Extern "threading" ["threading"];
    Extern "os" ["fspath"];
    Extern "pathlib" ["Path"];
    Extern "typing" ["Callable"; "Dict"; "List"; "Optional"; "Union"];
    From_ "wake_sol" ["_native"];
    SetAll [AllNames ["add_debug_elf"; "disable"; "enable"; "enabled"; "format_lcov"; "LiveExporter"; "merge_lcov";
      "merge_reports"; "parse_lcov"; "report"; "reset"; "summary"; "write_lcov"]]] ++
   defines ["FileLines"; "enable"; "disable"; "enabled"; "reset"; "add_debug_elf"; "_CRATE_SEARCH_DEPTH";
      "_PACKAGE_NAME"; "_crate_name"; "_ROOTS_CACHE"; "_roots"; "report"; "write_lcov"; "LiveExporter";
      "_meta_path"; "_write_meta"; "merge_reports"; "parse_lcov"; "format_lcov"; "merge_lcov"; "_read_meta";
      "_check_builds"; "summary"; "_display"; "_pct"].

(** [wake_sol/ed25519.py]. *)
Definition ed25519_body : list stmt :=
   [Extern "typing" ["Sequence"];
    From_ "wake_sol._addresses" ["ED25519_PROGRAM_ID"];
    From_ "wake_sol._native" ["Instruction"];
    From "wake_sol._precompiles" [("CURRENT_INSTRUCTION", "CURRENT_INSTRUCTION"); ("CurveSpec", "CurveSpec");
      ("Offsets", "Offsets"); ("PrecompileInstruction", "PrecompileInstruction");
      ("SignedMessage", "SignedMessage"); ("build_verify", "build_verify"); ("pack", "_pack");
      ("register_precompile", "register_precompile")];
    Assign "PROGRAM_ID" "ED25519_PROGRAM_ID"] ++
   defines ["_SPEC"; "verify"; "pack"] ++
   [Call "register_precompile"].

(** [wake_sol/fuzzing.py]. *)
Definition fuzzing_body : list stmt :=
   [Extern "collections" ["defaultdict"];
    Extern "typing" ["Callable"; "DefaultDict"; "Dict"; "List"; "Optional"]] ++
   defines ["flow"; "invariant"; "FuzzTest"; "_methods_with"; "_run"; "build_stats_table"; "_session_stats";
      "_last_fuzz_failure"; "_merge_flow_leaves"; "record_run_stats"; "get_session_stats"; "merge_session_stats";
      "clear_last_fuzz_failure"; "_set_last_fuzz_failure"; "get_last_fuzz_failure"].

(** [wake_sol/secp256k1.py]. *)
Definition secp256k1_body : list stmt :=
   [Extern "typing" ["Sequence"];
    From_ "wake_sol._addresses" ["SECP256K1_PROGRAM_ID"];
    From_ "wake_sol._native" ["Instruction"];
    From "wake_sol._native" [("secp256k1_eth_address", "_eth_address")];
    From "wake_sol._native" [("secp256k1_secret_from_seed", "_secret_from_seed")];
    From "wake_sol._native" [("secp256k1_sign", "_sign")];
    From "wake_sol._precompiles" [("CurveSpec", "CurveSpec"); ("Offsets", "Offsets");
      ("PrecompileInstruction", "PrecompileInstruction"); ("SignedMessage", "SignedMessage"); ("pack", "_pack");
      ("register_precompile", "register_precompile")];
    Assign "PROGRAM_ID" "SECP256K1_PROGRAM_ID"] ++
   defines ["_SPEC"; "Key"; "verify"; "pack"] ++
   [Call "register_precompile"].

(** [wake_sol/secp256r1.py]. *)
Definition secp256r1_body : list stmt :=
   [Extern "typing" ["Sequence"];
    From_ "wake_sol._addresses" ["SECP256R1_PROGRAM_ID"];
    From_ "wake_sol._native" ["Instruction"];
    From "wake_sol._native" [("secp256r1_public_key", "_public_key")];
    From "wake_sol._native" [("secp256r1_secret_from_seed", "_secret_from_seed")];
    From "wake_sol._native" [("secp256r1_sign", "_sign")];
    From "wake_sol._precompiles" [("CURRENT_INSTRUCTION", "CURRENT_INSTRUCTION"); ("CurveSpec", "CurveSpec");
      ("Offsets", "Offsets"); ("PrecompileInstruction", "PrecompileInstruction");
      ("SignedMessage", "SignedMessage"); ("build_verify", "build_verify"); ("pack", "_pack");
      ("register_precompile", "register_precompile")];
    Assign "PROGRAM_ID" "SECP256R1_PROGRAM_ID"] ++
   defines ["_SPEC"; "Key"; "verify"; "pack"] ++
   [Call "register_precompile"].

(** The names the extension module is created with ([lib.rs], and the
    [register] functions of [signing.rs], [perf.rs] and [coverage.rs]). *)
Definition _native_body : list stmt :=
   defines ["LiteSVM"; "FeeStructure"; "Pubkey"; "TransactionResult"; "Account"; "AddressLookupTable"; "Instruction";
      "AccountMeta"; "TracedInstruction"; "CallTrace"; "Clock"; "Rent"; "EpochSchedule"; "EpochRewards"; "signer"; "writable";
      "readonly"; "writable_signer"; "default_svm"] ++
   defines ["secp256k1_secret_from_seed"; "secp256k1_eth_address"; "secp256k1_sign"; "secp256r1_secret_from_seed";
      "secp256r1_public_key"; "secp256r1_sign"] ++
   defines ["perf_snapshot"; "perf_reset"] ++
   defines ["coverage_enable"; "coverage_disable"; "coverage_enabled"; "coverage_reset"; "coverage_add_debug_elf";
      "coverage_report"; "coverage_lcov"].

Definition wake_sol_package : list (string * list stmt) :=
  [("wake_sol", wake_sol_body);
   ("wake_sol._addresses", _addresses_body);
   ("wake_sol._codec", _codec_body);
   ("wake_sol._codec.aliases", _codec_aliases_body);
   ("wake_sol._codec.builder", _codec_builder_body);
   ("wake_sol._codec.carriers", _codec_carriers_body);
   ("wake_sol._codec.codec", _codec_codec_body);
   ("wake_sol._codec.ir", _codec_ir_body);
   ("wake_sol._codec.meta", _codec_meta_body);
   ("wake_sol._debug", _debug_body);
   ("wake_sol._errors", _errors_body);
   ("wake_sol._errors_base", _errors_base_body);
   ("wake_sol._errors_catalog", _errors_catalog_body);
   ("wake_sol._errors_catalog.anchor", _errors_catalog_anchor_body);
   ("wake_sol._errors_catalog.solana", _errors_catalog_solana_body);
   ("wake_sol._errors_catalog.system", _errors_catalog_system_body);
   ("wake_sol._errors_catalog.token", _errors_catalog_token_body);
   ("wake_sol._gen", _gen_body);
   ("wake_sol._gen.emit", _gen_emit_body);
   ("wake_sol._gen.errors_catalog", _gen_errors_catalog_body);
   ("wake_sol._gen.idl", _gen_idl_body);
   ("wake_sol._gen.run", _gen_run_body);
   ("wake_sol._gen.source", _gen_source_body);
   ("wake_sol._gen.types", _gen_types_body);
   ("wake_sol._gen.wellknown", _gen_wellknown_body);
   ("wake_sol._interface", _interface_body);
   ("wake_sol._labels", _labels_body);
   ("wake_sol._mp_serial", _mp_serial_body);
   ("wake_sol._mp_server", _mp_server_body);
   ("wake_sol._mp_worker", _mp_worker_body);
   ("wake_sol._precompiles", _precompiles_body);
   ("wake_sol._programs", _programs_body);
   ("wake_sol._programs.ata", _programs_ata_body);
   ("wake_sol._programs.system", _programs_system_body);
   ("wake_sol._programs.token", _programs_token_body);
   ("wake_sol._pytest_plugin", _pytest_plugin_body);
   ("wake_sol._tee", _tee_body);
   ("wake_sol._units", _units_body);
   ("wake_sol.call_trace", call_trace_body);
   ("wake_sol.cli", cli_body);
   ("wake_sol.coverage", coverage_body);
   ("wake_sol.ed25519", ed25519_body);
   ("wake_sol.fuzzing", fuzzing_body);
   ("wake_sol.secp256k1", secp256k1_body);
   ("wake_sol.secp256r1", secp256r1_body);
   ("wake_sol._native", _native_body)].

(** ** The addresses ([_addresses.py]) *)

(** The constants and the text each is made from. *)
Definition ADDRESSES : list (string * string) := [
  ("SYSTEM_PROGRAM_ID", "11111111111111111111111111111111");
  ("TOKEN_PROGRAM_ID", "TokenkegQfeZyiNwAJbNbGKPFXCWuBvf9Ss623VQ5DA");
  ("TOKEN_2022_PROGRAM_ID", "TokenzQdBNbLqP5VEhdkAS6EPFLC1PHnBqCXEpPxuEb");
  ("ASSOCIATED_TOKEN_PROGRAM_ID", "ATokenGPvbdGVxr1b2hvZbsiqW5xWH25efTNsLJA8knL");
  ("ED25519_PROGRAM_ID", "Ed25519SigVerify111111111111111111111111111");
  ("SECP256K1_PROGRAM_ID", "KeccakSecp256k11111111111111111111111111111");
  ("SECP256R1_PROGRAM_ID", "Secp256r1SigVerify1111111111111111111111111");
  ("RENT_SYSVAR", "SysvarRent111111111111111111111111111111111");
  ("CLOCK_SYSVAR", "SysvarC1ock11111111111111111111111111111111");
  ("INSTRUCTIONS_SYSVAR", "Sysvar1nstructions1111111111111111111111111");
  ("RECENT_BLOCKHASHES_SYSVAR", "SysvarRecentB1ockHashes11111111111111111111");
  ("SLOT_HASHES_SYSVAR", "SysvarS1otHashes111111111111111111111111111");
  ("STAKE_HISTORY_SYSVAR", "SysvarStakeHistory1111111111111111111111111");
  ("EPOCH_SCHEDULE_SYSVAR", "SysvarEpochSchedu1e111111111111111111111111");
  ("REWARDS_SYSVAR", "SysvarRewards111111111111111111111111111111")].
