(* ===== verification/ImportsProps.v ===== *)
(** * What loading the package establishes

    Importing runs every module at most once, whatever the import graph; every
    module of the package can be the first one imported, in spite of its import
    cycles; the public names are bound to the objects meant; and the imports of
    a generated module find the engine's symbols. *)

From Stdlib Require Import ZArith Lia.
From Stdlib Require Import Strings.Ascii Strings.Byte.
From stdpp Require Import base decidable option list gmap strings numbers.
From S2P Require Import Prelude.
From S2P Require Import Values.
From S2P Require Import ErrorsBase.
From S2P Require Import ErrorsCatalog.
From S2P Require Import Labels.
From S2P Require Import GenIdl.
From S2P Require Import GenEmit.
From S2P Require Import GenEmitProps.
From S2P Require Import GenRunProps.
From S2P Require Import Imports.

#[local] Open Scope string_scope.
#[local] Open Scope list_scope.

(** ** Modules run once *)

Abbreviation keys st := ((sys_modules st).*1).

Section once.
Context (package : list (string * list stmt)).

(** [st'] has loaded more than [st], modules of the package, in order and each module once; the calls
    made in between are those of modules that [st] had not loaded, or that
    [still] says were running. *)
Record grows (still : string -> Prop) (st st' : interp) : Prop := {
  grows_keys : exists more, keys st' = keys st ++ more /\ Forall (fun m => m ∈ package.*1) more;
  grows_nodup : NoDup (keys st) -> NoDup (keys st');
  grows_calls : exists new, calls st' = calls st ++ new /\ Forall (fun c => still c.1 \/ c.1 ∉ keys st) new;
}.

Lemma grows_refl still st : grows still st st.
Proof. split; [exists []; by rewrite app_nil_r|done|exists []; by rewrite app_nil_r]. Qed.

Lemma grows_trans still st st' st'' : grows still st st' -> grows still st' st'' -> grows still st st''.
Proof.
  intros [(m1 & K1 & P1) N1 (c1 & C1 & F1)] [(m2 & K2 & P2) N2 (c2 & C2 & F2)]. split.
  - exists (m1 ++ m2). split; [by rewrite K2, K1, app_assoc|by apply Forall_app].
  - auto.
  - exists (c1 ++ c2). split; [by rewrite C2, C1, app_assoc|]. apply Forall_app. split; [done|].
    eapply list.Forall_impl; [exact F2|]. intros c [?|Hc]; [by left|]. right. rewrite K1 in Hc. set_solver.
Qed.

Lemma grows_weaken (P Q : string -> Prop) st st' : (forall m, P m -> Q m) -> grows P st st' -> grows Q st st'.
Proof.
  intros HPQ [K N (c & C & F)]. split; [done|done|]. exists c. split; [done|].
  eapply list.Forall_impl; [exact F|]. naive_solver.
Qed.

Lemma dict_set_known {K A} `{EqDecision K} (k : K) (v : A) d : k ∈ d.*1 -> (dict_set k v d).*1 = d.*1.
Proof.
  induction d as [|[k' v'] d IH]; intros Hk; [by apply elem_of_nil in Hk|]. cbn [dict_set]. destruct (decide (k' = k)) as [->|Hne]; [done|].
  rewrite !fmap_cons in *. apply elem_of_cons in Hk as [->|Hk]; [done|]. by rewrite IH.
Qed.

Lemma attr_lookup_keys {K A} `{EqDecision K} (k : K) (d : list (K * A)) : is_Some (attr_lookup k d) <-> k ∈ d.*1.
Proof.
  induction d as [|[k' v] d IH]; cbn [attr_lookup].
  - split; [by intros [? ?]|by intros ?%elem_of_nil].
  - rewrite fmap_cons, elem_of_cons, <- IH. cbn [fst]. destruct (decide (k' = k)) as [->|Hne]; [naive_solver|].
    split; [by right|]. intros [->|?]; done.
Qed.

Lemma loaded_keys m st : loaded m st = true <-> m ∈ keys st.
Proof. rewrite <- attr_lookup_keys. unfold loaded. destruct (attr_lookup m (sys_modules st)); naive_solver. Qed.

Lemma update_module_grows P m f st : grows P st (update_module m f st).
Proof.
  unfold update_module. destruct (attr_lookup m (sys_modules st)) eqn:E; [|apply grows_refl].
  assert (Hk : keys (mkInterp (dict_set m (f m0) (sys_modules st)) (calls st)) = keys st).
  { cbn [sys_modules]. apply dict_set_known. apply loaded_keys. unfold loaded. by rewrite E. }
  split; [exists []; by rewrite app_nil_r, Hk|by rewrite Hk|]. exists []. by rewrite app_nil_r.
Qed.

Lemma bind_name_grows P m n o st : grows P st (bind_name m n o st).
Proof. apply update_module_grows. Qed.

Lemma fold_out_grows {A} P (f : interp -> A -> outcome interp) xs : (forall st x st', f st x = Done st' -> grows P st st') ->
  forall st st', fold_out f st xs = Done st' -> grows P st st'.
Proof.
  intros Hf. induction xs as [|x xs IH]; intros st st'; simpl; [intros [= <-]; apply grows_refl|].
  destruct (f st x) as [st1|] eqn:E; [|done]. simpl. intros Hr. eapply grows_trans; [by eapply Hf|by apply IH].
Qed.

Section body.
Context (import : string -> interp -> outcome interp).
Context (Himport : forall m st st', import m st = Done st' -> grows (fun _ => False) st st').

Lemma import_grows P m st st' : import m st = Done st' -> grows P st st'.
Proof using Himport. intros Hi. eapply grows_weaken; [|by eapply Himport]. by intros ? []. Qed.

Lemma handle_fromlist_grows P m names st st' : handle_fromlist package import m names st = Done st' -> grows P st st'.
Proof using Himport.
  apply fold_out_grows. intros st1 n st2. destruct (attr_of m n st1); [intros [= <-]; apply grows_refl|].
  destruct (attr_lookup (dotted m n) package); [|intros [= <-]; apply grows_refl]. apply import_grows.
Qed.

Lemma exec_stmt_grows self st s st' : exec_stmt package import self st s = Done st' -> grows (eq self) st st'.
Proof using Himport.
  destruct s as [m names|m|m|m names|names|n v|f|items]; cbn [exec_stmt]; unfold mbind, outcome_bind.
  - destruct (import m st) as [st1|] eqn:E1; [|done]. destruct (handle_fromlist _ _ _ _ st1) as [st2|] eqn:E2; [|done].
    intros Hf. eapply grows_trans; [by eapply import_grows|]. eapply grows_trans; [by eapply handle_fromlist_grows|].
    eapply fold_out_grows; [|exact Hf]. intros st3 p st4. cbn beta. destruct (import_from m p.1 st3); [|done]. intros [= <-]. apply bind_name_grows.
  - destruct (import m st) as [st1|] eqn:E1; [|done]. destruct (handle_fromlist _ _ _ _ st1) as [st2|] eqn:E2; [|done].
    intros Hf. eapply grows_trans; [by eapply import_grows|]. eapply grows_trans; [by eapply handle_fromlist_grows|].
    eapply fold_out_grows; [|exact Hf]. intros st3 n st4. cbn beta. destruct (attr_of m n st3); [|done]. intros [= <-]. apply bind_name_grows.
  - destruct (import m st) as [st1|] eqn:E1; [|done]. intros [= <-]. eapply grows_trans; [by eapply import_grows|apply bind_name_grows].
  - intros [= <-]. apply update_module_grows.
  - intros [= <-]. apply update_module_grows.
  - destruct (attr_of self v st); [|done]. intros [= <-]. apply bind_name_grows.
  - destruct (attr_of self (top_level f) st); [|done]. intros [= <-].
    split; [exists []; by rewrite app_nil_r|done|]. exists [(self, f)]. split; [done|]. by repeat constructor.
  - destruct (all_names self items st); [|done]. intros [= <-]. apply update_module_grows.
Qed.
End body.

Lemma new_module_grows m st : m ∈ package.*1 -> m ∉ keys st -> grows (fun _ => False) st (new_module m st) /\ m ∈ keys (new_module m st).
Proof.
  intros Hpk Hm. assert (Hk : keys (new_module m st) = keys st ++ [m]).
  { unfold new_module. cbn [sys_modules]. by rewrite dict_set_fresh, fmap_app by done. }
  split; [|rewrite Hk; set_solver]. split; [exists [m]; by repeat constructor| |by exists []; rewrite app_nil_r].
  rewrite Hk. intros Hn. apply list.NoDup_app. split_and!; [done| |by apply list.NoDup_singleton].
  intros x Hx Hx'. apply list_elem_of_singleton in Hx' as ->. done.
Qed.

Lemma import_module_grows fuel : forall m st st', import_module package fuel m st = Done st' ->
  grows (fun _ => False) st st' /\ m ∈ keys st'.
Proof.
  induction fuel as [|fuel IH]; intros m st st'; [done|]. cbn [import_module]. destruct (loaded m st) eqn:El.
  { intros [= <-]. split; [apply grows_refl|by apply loaded_keys]. }
  destruct (attr_lookup m package) as [body|] eqn:Eb0; [|done]. unfold mbind, outcome_bind.
  destruct (match parent m with Some p => import_module package fuel p st | None => Done st end) as [st1|] eqn:Ep; [|done].
  assert (H1 : grows (fun _ => False) st st1).
  { destruct (parent m); [by eapply IH|]. injection Ep as <-. apply grows_refl. }
  destruct (loaded m st1) eqn:El1; [intros [= <-]; split; [done|by apply loaded_keys]|].
  assert (Hm : m ∉ keys st1) by (intros ?%loaded_keys; congruence).
  assert (Hpk : m ∈ package.*1) by (apply attr_lookup_keys; by eexists).
  destruct (new_module_grows m st1 Hpk Hm) as [H2 Hin]. destruct (exec_body _ _ _ _ _) as [st2|] eqn:Eb; [|done]. intros [= <-].
  assert (H3 : grows (eq m) (new_module m st1) st2).
  { eapply fold_out_grows; [|exact Eb]. intros. eapply exec_stmt_grows; [|done]. intros. by eapply IH. }
  assert (H4 : grows (eq m) st2 (bind_in_parent m st2)).
  { unfold bind_in_parent. destruct (parent m); [apply bind_name_grows|apply grows_refl]. }
  pose proof (grows_trans _ _ _ _ H3 H4) as H5. split.
  - eapply grows_trans; [exact H1|]. destruct H2 as [(k2 & K2 & P2) N2 (c2 & C2 & F2)], H5 as [(k5 & K5 & P5) N5 (c5 & C5 & F5)]. split.
    + exists (k2 ++ k5). split; [by rewrite K5, K2, app_assoc|by apply Forall_app].
    + auto.
    + exists (c2 ++ c5). split; [by rewrite C5, C2, app_assoc|]. apply Forall_app. split; [done|].
      eapply list.Forall_impl; [exact F5|]. intros c [Hc|Hc]; right; [by subst|]. rewrite K2 in Hc. set_solver.
  - destruct H5 as [(k5 & K5 & _) _ _]. rewrite K5. set_solver.
Qed.

(** Whatever modules import each other, also in a cycle, a module is loaded
    once.  An import that succeeds leaves the loaded modules in place and adds
    others, each once, the imported one among them; the bodies of modules that
    were loaded do not run again; and importing it again changes nothing. *)
Theorem modules_load_once fuel m st st' :
  import_module package fuel m st = Done st' -> NoDup (keys st) ->
  NoDup (keys st') /\ m ∈ keys st' /\
  (exists more, keys st' = keys st ++ more /\ Forall (fun m => m ∈ package.*1) more) /\
  (exists new, calls st' = calls st ++ new /\ forall c, c ∈ new -> c.1 ∉ keys st) /\
  (forall fuel', import_module package (S fuel') m st' = Done st').
Proof.
  intros Hi Hn. destruct (import_module_grows _ _ _ _ Hi) as [[Hk Hnd (new & Hc & Hf)] Hm]. split_and!; [auto|done|done| |].
  - exists new. split; [done|]. intros c Hin. rewrite list.Forall_forall in Hf. by destruct (Hf c Hin).
  - intros fuel'. cbn [import_module]. by rewrite (proj2 (loaded_keys m st') Hm).
Qed.

(** Fuel: a deeper limit gives the same result. *)
Lemma exec_stmt_mono (imp imp' : string -> interp -> outcome interp) :
  (forall m st st', imp m st = Done st' -> imp' m st = Done st') ->
  forall self st s st', exec_stmt package imp self st s = Done st' -> exec_stmt package imp' self st s = Done st'.
Proof.
  intros Hi.
  assert (Hf : forall m names st st', handle_fromlist package imp m names st = Done st' -> handle_fromlist package imp' m names st = Done st').
  { intros m names. unfold handle_fromlist. induction names as [|n names IH]; intros st st'; [done|]. simpl.
    destruct (attr_of m n st); [apply IH|]. destruct (attr_lookup (dotted m n) package); [|apply IH].
    destruct (imp (dotted m n) st) eqn:E; [|done]. rewrite (Hi _ _ _ E). simpl. apply IH. }
  intros self st s st'. destruct s; cbn [exec_stmt]; unfold mbind, outcome_bind; try done.
  - destruct (imp module st) as [st1|] eqn:E1; [|done]. rewrite (Hi _ _ _ E1).
    destruct (handle_fromlist package imp _ _ st1) as [st2|] eqn:E2; [|done]. by rewrite (Hf _ _ _ _ E2).
  - destruct (imp module st) as [st1|] eqn:E1; [|done]. rewrite (Hi _ _ _ E1).
    destruct (handle_fromlist package imp _ _ st1) as [st2|] eqn:E2; [|done]. by rewrite (Hf _ _ _ _ E2).
  - destruct (imp module st) as [st1|] eqn:E1; [|done]. by rewrite (Hi _ _ _ E1).
Qed.

Lemma import_module_mono fuel : forall fuel' m st st', (fuel <= fuel')%nat ->
  import_module package fuel m st = Done st' -> import_module package fuel' m st = Done st'.
Proof.
  induction fuel as [|fuel IH]; intros fuel' m st st' Hle; [done|]. destruct fuel' as [|fuel']; [lia|]. cbn [import_module].
  destruct (loaded m st); [done|]. destruct (attr_lookup m package) as [body|]; [|done]. unfold mbind, outcome_bind.
  destruct (match parent m with Some p => import_module package fuel p st | None => Done st end) as [st1|] eqn:Ep; [|done].
  assert (Hp : match parent m with Some p => import_module package fuel' p st | None => Done st end = Done st1).
  { destruct (parent m); [|done]. apply IH; [lia|done]. }
  rewrite Hp. destruct (loaded m st1); [done|].
  destruct (exec_body package (import_module package fuel) _ _ _) as [st2|] eqn:Eb; [|done].
  assert (Hb : forall bd s1 s2, exec_body package (import_module package fuel) m bd s1 = Done s2 -> exec_body package (import_module package fuel') m bd s1 = Done s2).
  { unfold exec_body. induction bd as [|s bd IHb]; intros s1 s2; [done|]. simpl.
    destruct (exec_stmt package (import_module package fuel) m s1 s) as [s3|] eqn:Es; [|done].
    rewrite (exec_stmt_mono _ (import_module package fuel') ltac:(intros; apply IH; [lia|done]) _ _ _ _ Es). simpl. apply IHb. }
  by rewrite (Hb _ _ _ Eb).
Qed.
End once.

(** ** The package loads *)

(** What [from wake_sol import *] gives. *)
Definition public (st : interp) : option (list (string * option obj)) :=
  match all_of "wake_sol" st with Some ns => Some (map (fun n => (n, attr_of "wake_sol" n st)) ns) | None => None end.

(** The calls made while the package loads: the tables of the builtin programs
    are filled and registered, then the precompiles, then the error classes are
    attached. *)
Definition loading_calls : list (string * string) :=
  replicate 3 ("wake_sol._programs.ata", "_iface.add") ++ [("wake_sol._programs.ata", "register")] ++
  replicate 5 ("wake_sol._programs.system", "_iface.add") ++ [("wake_sol._programs.system", "register")] ++
  replicate 2 ("wake_sol._programs.token", "_make_iface") ++
  [("wake_sol.ed25519", "register_precompile"); ("wake_sol.secp256k1", "register_precompile");
   ("wake_sol.secp256r1", "register_precompile"); ("wake_sol._errors", "_attach_leaves")].

Section chain.
Context (package : list (string * list stmt)).

(** Importing a module is importing its parent and then the module. *)
Lemma import_parent_first f p m st st1 st2 :
  parent m = Some p -> loaded m st = false -> is_Some (attr_lookup m package) ->
  import_module package f p st = Done st1 -> import_module package (S f) m st1 = Done st2 -> import_module package (S f) m st = Done st2.
Proof.
  intros Hp Hl [body Hb] Hi. destruct (import_module_grows _ _ _ _ _ Hi) as [_ Hin%loaded_keys].
  assert (Hi1 : import_module package f p st1 = Done st1) by (destruct f; [done|cbn [import_module]; by rewrite Hin]).
  cbn [import_module]. rewrite Hl, Hb, Hp. unfold mbind, outcome_bind. rewrite Hi, Hi1. by destruct (loaded m st1).
Qed.
(** The two classes called [ProgramError]. *)
Definition exception_names (st : interp) : option obj * option obj :=
  (attr_of "wake_sol" "ProgramError" st, attr_of "wake_sol._codec" "ProgramError" st).
Definition expected_names : option obj * option obj :=
  (Some (Def "wake_sol._errors_base" "ProgramError"), Some (Def "wake_sol._codec.meta" "ProgramError")).

(** What a generated module imports from the package. *)
Definition engine_names : list (string * string) :=
  ((fun n => ("wake_sol._codec", n)) <$> (_ALIAS_ORDER ++ _ENGINE_ORDER)) ++
  [("wake_sol._interface", "register"); ("wake_sol._errors", "ProgramError"); ("wake_sol._errors", "register_errors");
   ("wake_sol._native", "Instruction"); ("wake_sol._native", "Pubkey")].
Definition engine_ok (st : interp) : bool := forallb (fun p => loaded p.1 st && bool_decide (is_Some (attr_of p.1 p.2 st))) engine_names.

(** Ten imports in progress are enough for each package or module of a chain. *)
Definition import_next (m : string) (st : interp) : outcome interp := import_module package 10 m st.

(** The state after the parents of [m], two at most. *)
Definition import_parents (m : string) (st0 : interp) : outcome interp :=
  match parent m with
  | None => Err OutOfFuel
  | Some p =>
      if bool_decide (p = "wake_sol") then Done st0
      else if bool_decide (parent p = Some "wake_sol") && bool_decide (p ∈ package.*1) then import_next p st0
      else Err OutOfFuel
  end.
Definition parents_loaded (m : string) (st0 : interp) : bool :=
  match parent m with None => false | Some p => bool_decide (p = "wake_sol") || loaded p st0 end.

Definition entry_ok (st0 : interp) (pub0 : option (list (string * option obj))) (m : string) : bool :=
  bool_decide (m = "wake_sol") ||
  match import_parents m st0 with
  | Done st1 =>
      (loaded m st0 && parents_loaded m st0) ||
      match import_next m st1 with
      | Done st => bool_decide (calls st = calls st0) && bool_decide (public st = pub0)
      | Err _ => false
      end
  | Err _ => false
  end.

Definition root_ok (o : outcome interp) : bool :=
  match o with
  | Done st0 =>
      bool_decide (calls st0 = loading_calls) &&
      bool_decide (exception_names st0 = expected_names) && engine_ok st0 &&
      match public st0 with
      | Some names => bool_decide (NoDup names.*1) && forallb (fun p => bool_decide (is_Some p.2)) names
      | None => false
      end && forallb (entry_ok st0 (public st0)) package.*1
  | Err _ => false
  end.


(** The nesting that is always enough. *)
Definition depth : nat := 12.

Lemma import_next_depth n m st st' : (10 <= n)%nat -> import_next m st = Done st' -> import_module package n m st = Done st'.
Proof. intros Hn. by apply import_module_mono. Qed.

Lemma import_loaded n m st : loaded m st = true -> import_module package (S n) m st = Done st.
Proof. intros Hl. cbn [import_module]. by rewrite Hl. Qed.

(** Every module, through its parents. *)
Lemma parents_import m p st0 st1 :
  import_next "wake_sol" fresh = Done st0 -> parent m = Some p -> import_parents m st0 = Done st1 ->
  import_module package 11 p fresh = Done st1 /\ (parents_loaded m st0 = true -> st1 = st0).
Proof.
  intros H0 Hp. unfold import_parents, parents_loaded. rewrite Hp. case_bool_decide as Hw.
  - intros [= <-]. subst p. split; [apply import_next_depth; [lia|done]|done].
  - destruct (_ && _) eqn:E; [|done]. apply andb_true_iff in E as [E1%bool_decide_eq_true E2%bool_decide_eq_true]. intros Hi. split.
    + eapply (import_parent_first 10 "wake_sol" p fresh st0); [done|done|by apply attr_lookup_keys|exact H0|]. by apply import_next_depth; [lia|].
    + simpl. intros Hl. unfold import_next in Hi. rewrite import_loaded in Hi by done. by injection Hi as <-.
Qed.

Lemma entry_loads st0 m :
  import_next "wake_sol" fresh = Done st0 -> m ∈ package.*1 -> entry_ok st0 (public st0) m = true ->
  exists st, import_module package depth m fresh = Done st /\ calls st = calls st0 /\ public st = public st0.
Proof.
  intros H0 Hm. unfold entry_ok. case_bool_decide as Hw.
  { intros _. subst m. exists st0. split; [apply import_next_depth; [unfold depth; lia|done]|done]. }
  cbn [orb]. destruct (import_parents m st0) as [st1|] eqn:Ep; [|done]. intros Hok.
  destruct (parent m) as [p|] eqn:Hp; [|by unfold import_parents in Ep; rewrite Hp in Ep].
  destruct (parents_import m p st0 st1 H0 Hp Ep) as [Hi Hsame].
  assert (Hlast : forall st, import_module package depth m st1 = Done st -> import_module package depth m fresh = Done st).
  { intros st Hst. eapply (import_parent_first 11 p m fresh st1); [done|done|by apply attr_lookup_keys|exact Hi|exact Hst]. }
  apply orb_true_iff in Hok as [Hok|Hok].
  - apply andb_true_iff in Hok as [Hl Hpl]. rewrite (Hsame Hpl) in Hlast. exists st0. split; [|done]. apply Hlast. by apply import_loaded.
  - destruct (import_next m st1) as [st|] eqn:En; [|done]. apply andb_true_iff in Hok as [Hc%bool_decide_eq_true Hpu%bool_decide_eq_true].
    exists st. split; [|done]. apply Hlast. apply import_next_depth; [unfold depth; lia|done].
Qed.

(** The state a first import of [m] leaves. *)
Definition loads_well (m : string) : Prop :=
  exists st names, (forall fuel, (depth <= fuel)%nat -> import_module package fuel m fresh = Done st) /\
    m ∈ keys st /\ calls st = loading_calls /\
    public st = Some names /\ NoDup names.*1 /\ (forall n o, (n, o) ∈ names -> is_Some o) /\
    (forall st0, import_module package depth "wake_sol" fresh = Done st0 -> public st0 = Some names /\ exception_names st0 = expected_names).

Lemma checked_engine st0 : root_ok (import_next "wake_sol" fresh) = true -> import_module package depth "wake_sol" fresh = Done st0 ->
  engine_ok st0 = true.
Proof.
  intros Hok Hd. unfold root_ok in Hok. destruct (import_next "wake_sol" fresh) as [st|] eqn:H0; [|done].
  rewrite (import_next_depth depth _ _ _ ltac:(unfold depth; lia) H0) in Hd. injection Hd as <-.
  rewrite !andb_true_iff in Hok. by destruct Hok as [[[_ He] _] _].
Qed.

Lemma checked_package_loads m : root_ok (import_next "wake_sol" fresh) = true -> m ∈ package.*1 -> loads_well m.
Proof.
  intros Hok Hm. unfold root_ok in Hok. destruct (import_next "wake_sol" fresh) as [st0|] eqn:H0; [|done].
  rewrite !andb_true_iff, !bool_decide_eq_true in Hok. destruct Hok as [[[[Hc He] _] Hpub] Hall].
  rewrite forallb_forall in Hall. specialize (Hall m (proj1 (list_elem_of_In _ _) Hm)).
  destruct (entry_loads st0 m H0 Hm Hall) as (st & Hi & Hcs & Hps). clear Hall. destruct (public st0) as [names|] eqn:Hp0; [|done].
  apply andb_true_iff in Hpub as [Hnd%bool_decide_eq_true Hb]. rewrite forallb_forall in Hb. exists st, names.
  split; [intros fuel Hf; by eapply import_module_mono|]. split; [by apply import_module_grows in Hi as [_ ?]|].
  split; [by rewrite Hcs|]. split; [done|]. split; [done|]. split.
  - intros n o Hin%list_elem_of_In. apply Hb in Hin. by apply bool_decide_eq_true in Hin.
  - intros st0' H0'. rewrite (import_next_depth depth _ _ _ ltac:(unfold depth; lia) H0) in H0'. by injection H0' as <-.
Qed.
End chain.

Lemma package_checks : root_ok wake_sol_package (import_next wake_sol_package "wake_sol" fresh) = true.
Proof. vm_compute. reflexivity. Qed.

(** C24: any module of the package can be imported first.  In spite of the cycles
    between them every module loads in a fresh interpreter, at any recursion
    limit from 12 on; the decoders of the builtin programs and precompiles have
    then been registered, once each; and the public names of the package are the
    same objects whatever came first, all of them bound, none listed twice,
    [ProgramError] being the exception and not the codec's record. *)
Theorem package_loads : Forall (loads_well wake_sol_package) wake_sol_package.*1.
Proof. apply list.Forall_forall. intros m. apply checked_package_loads, package_checks. Qed.

(** A cycle: [a] imports [b], which imports [a] back before it is complete. *)
Definition demo_cycle : list (string * list stmt) :=
  [("a", [Define ["x"]; From_ "b" ["y"]; Call "y"]); ("b", [From_ "a" ["x"]; Define ["y"]; Call "x"])].

Lemma modules_load_once_witness :
  exists st, import_module demo_cycle 3 "a" fresh = Done st /\ NoDup (keys st) /\ calls st = [("b", "x"); ("a", "y")] /\
    import_module demo_cycle 1 "a" st = Done st.
Proof.
  destruct (import_module demo_cycle 3 "a" fresh) as [st|] eqn:E; [|vm_compute in E; discriminate E]. exists st. split; [done|].
  destruct (modules_load_once demo_cycle 3 "a" fresh st E) as (Hn & _ & _ & _ & Hi); [constructor|].
  split; [exact Hn|]. split; [vm_compute in E; injection E as <-; reflexivity|apply Hi].
Defined.

(** ** The imports of a generated module *)

Definition stdlib_imports (e : emitter) : list stmt :=
  (if em_dataclass e then [Extern "dataclasses" ["dataclass"]] else []) ++
  (if em_intenum e then [Extern "enum" ["IntEnum"]] else []) ++
  match typing_used e with [] => [] | ts => [Extern "typing" ts] end.

Definition engine_froms (idl : Idl) (e : emitter) : list (string * list string) :=
  [("wake_sol._codec", codec_syms e); ("wake_sol._interface", ["register"])] ++
  match idl_errors idl with [] => [] | _ => [("wake_sol._errors", ["ProgramError"; "register_errors"])] end ++
  [("wake_sol._native", match idl_instructions idl with [] => [] | _ => ["Instruction"] end ++ ["Pubkey"])].
Definition engine_imports (idl : Idl) (e : emitter) : list stmt := (fun p => From_ p.1 p.2) <$> engine_froms idl e.

(** The text of a statement of these two forms. *)
Definition stmt_text (s : stmt) : string :=
  match s with
  | From m names => _from_import m names.*1
  | Extern m names => _from_import m names
  | _ => ""
  end.

Lemma stmt_text_From_ m names : stmt_text (From_ m names) = _from_import m names.
Proof. unfold stmt_text, From_. rewrite <- list_fmap_compose. by rewrite list_fmap_id. Qed.

Lemma typing_used_short e : (length (typing_used e) <= 3)%nat.
Proof. unfold typing_used. etrans; [apply filter_length_le|]. done. Qed.

(** The import block is these statements, one after the other. *)
Lemma imports_text idl e :
  _imports idl e =
  lines (["from __future__ import annotations"; ""] ++ (stmt_text <$> stdlib_imports e) ++
         match stdlib_imports e with [] => [] | _ => [""] end ++ (stmt_text <$> engine_imports idl e)).
Proof.
  assert (Ht : forall t ts, typing_used e = t :: ts -> _from_import "typing" (t :: ts) = "from typing import " +:+ commas (t :: ts)).
  { intros t ts Et. unfold _from_import. pose proof (typing_used_short e) as Hl. rewrite Et in Hl.
    by rewrite (proj2 (Nat.leb_le _ _) Hl). }
  unfold _imports, stdlib_imports, engine_imports, engine_froms. rewrite !fmap_app, !fmap_cons, !fmap_nil. cbn [fst snd]. rewrite !stmt_text_From_.
  destruct (typing_used e) as [|t ts]; [|specialize (Ht t ts eq_refl)];
    destruct (em_dataclass e), (em_intenum e), (idl_errors idl), (idl_instructions idl);
    rewrite ?fmap_cons, ?fmap_nil; cbn [fst snd]; rewrite ?stmt_text_From_; cbn [stmt_text app]; rewrite ?Ht; reflexivity.
Qed.

(** Statements that only bind names of [self]. *)
Definition binds (self : string) (ps : list (string * obj)) (st st' : interp) : Prop :=
  keys st' = keys st /\ calls st' = calls st /\
  (forall m, m <> self -> attr_lookup m (sys_modules st') = attr_lookup m (sys_modules st)) /\
  forall n, attr_of self n st' = match attr_lookup n ps with Some o => Some o | None => attr_of self n st end.

Lemma lookup_dict_sets (ps d : list (string * obj)) n : NoDup ps.*1 ->
  attr_lookup n (foldl (fun d p => dict_set p.1 p.2 d) d ps) = match attr_lookup n ps with Some o => Some o | None => attr_lookup n d end.
Proof.
  revert d. induction ps as [|[k o] ps IH]; intros d Hn; [done|]. rewrite fmap_cons in Hn. apply list.NoDup_cons in Hn as [Hk Hn].
  cbn [foldl attr_lookup fst snd]. rewrite IH by done. destruct (decide (k = n)) as [->|Hne].
  - rewrite (attr_lookup_fresh n ps) by done. rewrite lookup_dict_set. by rewrite decide_True.
  - destruct (attr_lookup n ps); [done|]. rewrite lookup_dict_set. by rewrite decide_False.
Qed.

Lemma bind_names_binds self ps st : loaded self st = true -> NoDup ps.*1 -> binds self ps st (bind_names self ps st).
Proof.
  intros Hl Hn. unfold bind_names, update_module. pose proof (proj1 (loaded_keys _ _) Hl) as Hin. unfold loaded in Hl.
  destruct (attr_lookup self (sys_modules st)) as [s|] eqn:E; [|done]. repeat split.
  - cbn [sys_modules]. by apply dict_set_known.
  - intros m Hm. cbn [sys_modules]. rewrite lookup_dict_set. by rewrite decide_False.
  - intros n. unfold attr_of, names_of. cbn [sys_modules]. rewrite lookup_dict_set, decide_True, E by done. cbn [ms_names].
    by apply lookup_dict_sets.
Qed.

Lemma binds_refl self st : binds self [] st st.
Proof. by repeat split. Qed.

Lemma attr_lookup_app {A} (n : string) (xs ys : list (string * A)) :
  attr_lookup n (xs ++ ys) = match attr_lookup n xs with Some o => Some o | None => attr_lookup n ys end.
Proof. induction xs as [|[k v] xs IH]; [done|]. cbn [app attr_lookup]. by destruct (decide (k = n)). Qed.

Lemma binds_trans self ps qs st st' st'' : binds self ps st st' -> binds self qs st' st'' -> binds self (qs ++ ps) st st''.
Proof.
  intros (K1 & C1 & M1 & G1) (K2 & C2 & M2 & G2). split_and!; [congruence|congruence|by intros m Hm; rewrite M2, M1|].
  intros n. rewrite G2, G1, attr_lookup_app. by destruct (attr_lookup n qs).
Qed.

Lemma binds_getattr self ps st st' m n : binds self ps st st' -> m <> self -> attr_of m n st' = attr_of m n st.
Proof. intros (_ & _ & M & _) Hm. unfold attr_of, names_of. by rewrite M. Qed.

Lemma binds_loaded self ps st st' m : binds self ps st st' -> loaded m st' = loaded m st.
Proof. intros (K & _). apply eq_bool_prop_intro. rewrite !Is_true_true, !loaded_keys. by rewrite K. Qed.

(** A statement that imports from a module already loaded, or from another
    distribution, and what it binds, the last name first. *)
Definition importable (self : string) (st : interp) (s : stmt) : Prop :=
  match s with
  | From m names => m <> self /\ loaded m st = true /\ Forall (fun p => is_Some (attr_of m p.1 st)) names
  | Extern m names => NoDup names
  | _ => False
  end.
Definition provided (st : interp) (s : stmt) : list (string * obj) :=
  match s with
  | From m names => rev (omap (fun p => o ← attr_of m p.1 st; Some (p.2, o)) names)
  | Extern m names => (fun n => (n, Ext m n)) <$> names
  | _ => []
  end.

Lemma provided_ext st st' m (names : list (string * string)) : (forall n, attr_of m n st' = attr_of m n st) ->
  omap (fun p => o ← attr_of m p.1 st; Some (p.2, o)) names = omap (fun p => o ← attr_of m p.1 st'; Some (p.2, o)) names.
Proof. intros Hg. apply list_omap_ext, Forall_Forall2_diag, list.Forall_true. intros p. by rewrite Hg. Qed.

Section generated.
Context (package : list (string * list stmt)) (self : string).

Lemma import_names_binds m names : forall st, m <> self -> loaded self st = true -> Forall (fun p => is_Some (attr_of m p.1 st)) names ->
  exists st', fold_out (fun st p => o ← import_from m p.1 st; Done (bind_name self p.2 o st)) st names = Done st' /\
    binds self (provided st (From m names)) st st'.
Proof.
  induction names as [|[n a] names IH]; intros st Hm Hl Hall; [exists st; split; [done|apply binds_refl]|].
  apply list.Forall_cons in Hall as [[o Ho] Hall]. cbn [fst] in Ho.
  pose proof (bind_names_binds self [(a, o)] st Hl ltac:(by apply list.NoDup_singleton)) as Hb.
  assert (Hg : forall n', attr_of m n' (bind_name self a o st) = attr_of m n' st) by (intros; by eapply binds_getattr).
  destruct (IH (bind_name self a o st)) as (st' & Hf & Hb'); [done|by unfold bind_name; rewrite (binds_loaded _ _ _ _ _ Hb)| |].
  { eapply list.Forall_impl; [exact Hall|]. intros p. by rewrite Hg. }
  exists st'. cbn [fold_out fst snd].
  assert (Hif : import_from m n st = Done o) by (unfold import_from; by rewrite Ho). rewrite Hif. split; [exact Hf|].
  pose proof (binds_trans _ _ _ _ _ _ Hb Hb') as Ht. cbn [provided] in *. cbn [omap list_omap fst snd]. rewrite Ho. cbn [mbind option_bind rev].
  by rewrite (provided_ext st (bind_name self a o st) m names Hg).
Qed.

Lemma exec_stmt_binds fuel st s : loaded self st = true -> importable self st s ->
  exists st', exec_stmt package (import_module package (S fuel)) self st s = Done st' /\ binds self (provided st s) st st'.
Proof.
  intros Hl. destruct s as [m names|m|m|m names|names|n v|f|items]; cbn [importable]; try done.
  - intros (Hm & Hlm & Hall). cbn [exec_stmt import_module]. rewrite Hlm. cbn [mbind outcome_bind].
    assert (Hh : handle_fromlist package (import_module package (S fuel)) m names.*1 st = Done st).
    { unfold handle_fromlist. clear -Hall. induction Hall as [|p names [o Ho] Hall IH]; [done|]. cbn [fmap list_fmap fold_out]. by rewrite Ho. }
    cbn [import_module] in Hh. rewrite Hh. by apply import_names_binds.
  - intros Hn. eexists. split; [done|]. apply bind_names_binds; [done|]. by rewrite <- list_fmap_compose, list_fmap_id.
Qed.

Lemma importable_stable ps st st' s : binds self ps st st' -> importable self st s -> importable self st' s /\ provided st' s = provided st s.
Proof.
  intros Hb. destruct s as [m names|m|m|m names|names|n v|f|items]; cbn [importable provided]; try done. intros (Hm & Hlm & Hall).
  assert (Hg : forall n', attr_of m n' st' = attr_of m n' st) by (intros; by eapply binds_getattr). split; [split_and!|].
  - done.
  - by rewrite (binds_loaded _ _ _ _ _ Hb).
  - eapply list.Forall_impl; [exact Hall|]. intros p. by rewrite Hg.
  - f_equal. symmetry. by apply provided_ext.
Qed.

Lemma exec_body_binds fuel ss : forall st, loaded self st = true -> Forall (importable self st) ss ->
  exists st', exec_body package (import_module package (S fuel)) self ss st = Done st' /\
    binds self (flat_map (provided st) (rev ss)) st st'.
Proof.
  induction ss as [|s ss IH]; intros st Hl Hall; [exists st; split; [done|apply binds_refl]|]. apply list.Forall_cons in Hall as [Hs Hall].
  destruct (exec_stmt_binds fuel st s Hl Hs) as (st1 & E1 & B1).
  destruct (IH st1) as (st2 & E2 & B2).
  { by rewrite (binds_loaded _ _ _ _ _ B1). }
  { eapply list.Forall_impl; [exact Hall|]. intros s' Hs'. by eapply importable_stable. }
  exists st2. split; [unfold exec_body in *; cbn [fold_out]; rewrite E1; exact E2|].
  cbn [rev]. rewrite flat_map_app. cbn [flat_map]. rewrite app_nil_r. replace (flat_map (provided st) (rev ss)) with (flat_map (provided st1) (rev ss)).
  - by eapply binds_trans.
  - assert (Hall' : Forall (importable self st) (rev ss)) by (by apply Forall_rev). clear -Hall' B1. induction Hall' as [|s' ss' Hs' _ IH']; [done|].
    cbn [flat_map]. rewrite IH'. f_equal. by eapply importable_stable.
Qed.
End generated.

Lemma provided_lookup st m names n :
  attr_lookup n (provided st (From_ m names)) = if decide (n ∈ names) then attr_of m n st else None.
Proof.
  assert (Hin : forall o, (n, o) ∈ provided st (From_ m names) <-> n ∈ names /\ attr_of m n st = Some o).
  { intros o. cbn [provided From_]. rewrite list_elem_of_In, <- in_rev, <- list_elem_of_In, list_elem_of_omap. split.
    - intros (p & Hp & Ho). apply list_elem_of_fmap in Hp as (x & -> & Hx). cbn [fst snd] in Ho. destruct (attr_of m x st) eqn:E; [|done]. injection Ho as -> ->. done.
    - intros [Hn Ho]. exists (n, n). split; [apply list_elem_of_fmap; by exists n|]. cbn [fst snd]. by rewrite Ho. }
  destruct (attr_lookup n _) as [o|] eqn:E.
  - apply attr_lookup_elem, Hin in E as [Hn Ho]. by rewrite decide_True.
  - case_decide as Hn; [|done]. destruct (attr_of m n st) as [o|] eqn:Ho; [|done]. exfalso.
    assert (Hk : n ∈ (provided st (From_ m names)).*1) by (apply list_elem_of_fmap; exists (n, o); split; [done|by apply Hin]).
    apply attr_lookup_keys in Hk as [? Hk]. congruence.
Qed.

Lemma codec_sym_engine e s : s ∈ codec_syms e -> ("wake_sol._codec", s) ∈ engine_names.
Proof.
  intros Hs. apply elem_of_app. left. apply list_elem_of_fmap. exists s. split; [done|].
  unfold codec_syms in Hs. apply elem_of_app in Hs as [Hs|Hs]; apply list_elem_of_In, filter_In in Hs as [Hs _]; apply list_elem_of_In in Hs;
    apply elem_of_app; [by left|by right].
Qed.

Lemma codec_syms_nonempty e : codec_syms e <> [].
Proof.
  assert (Hin : "build_interface_from_module" ∈ codec_syms e); [|by intros E; rewrite E in Hin; apply elem_of_nil in Hin].
  unfold codec_syms. apply elem_of_app. right. apply list_elem_of_In, filter_In. split.
  - apply list_elem_of_In. apply (bool_decide_unpack _). vm_compute. exact I.
  - apply bool_decide_eq_true. unfold engine_set. set_solver.
Qed.

(** No two of these names are alike. *)
Lemma engine_names_distinct m m' n : (m, n) ∈ engine_names -> (m', n) ∈ engine_names -> m = m'.
Proof.
  assert (Hn : NoDup engine_names.*2) by (apply (bool_decide_unpack _); vm_compute; exact I). revert Hn. generalize engine_names as l.
  induction l as [|[m1 n1] l IH]; intros Hn H1 H2; [by apply elem_of_nil in H1|]. rewrite fmap_cons in Hn. apply list.NoDup_cons in Hn as [Hn1 Hn].
  assert (Hkey : forall x, (x, n) ∈ l -> n ∈ l.*2) by (intros x Hx; apply list_elem_of_fmap; by exists (x, n)).
  apply elem_of_cons in H1 as [H1|H1], H2 as [H2|H2]; simplify_eq; [done| | |by eapply IH]; exfalso; apply Hn1; by eapply Hkey.
Qed.

Definition in_engine (p : string * list string) : Prop := p.2 <> [] /\ Forall (fun n => (p.1, n) ∈ engine_names) p.2.

Lemma engine_froms_in idl e : Forall in_engine (engine_froms idl e).
Proof.
  assert (Hmem : forall (p : string * string), bool_decide (p ∈ engine_names) = true -> p ∈ engine_names) by (intros p; apply bool_decide_eq_true).
  unfold engine_froms. rewrite !Forall_app. split_and!.
  - constructor; [|constructor; [|constructor]]; split; [apply codec_syms_nonempty|apply list.Forall_forall, codec_sym_engine|done|].
    repeat constructor; by apply Hmem.
  - destruct (idl_errors idl); constructor; [|constructor]. split; [done|]. repeat constructor; by apply Hmem.
  - constructor; [|constructor]. destruct (idl_instructions idl); (split; [done|]; repeat constructor; by apply Hmem).
Qed.

Lemma engine_lookup st (l : list (string * list string)) rest m names n :
  Forall in_engine l -> (m, names) ∈ l -> n ∈ names -> is_Some (attr_of m n st) ->
  attr_lookup n (flat_map (provided st) ((fun p => From_ p.1 p.2) <$> l) ++ rest) = attr_of m n st.
Proof.
  intros Hall Hin Hn [o Ho]. assert (Hmn : (m, n) ∈ engine_names).
  { rewrite list.Forall_forall in Hall. destruct (Hall _ Hin) as [_ Hf]. rewrite list.Forall_forall in Hf. by apply Hf. }
  induction Hall as [|[m' names'] l [_ Hh] _ IH]; [by apply elem_of_nil in Hin|]. rewrite fmap_cons. cbn [flat_map fst snd].
  rewrite <- app_assoc, attr_lookup_app, provided_lookup. case_decide as Hd.
  - rewrite list.Forall_forall in Hh. specialize (Hh n Hd). cbn [fst] in Hh. rewrite (engine_names_distinct m' m n) by done. by rewrite Ho.
  - apply IH. apply elem_of_cons in Hin as [Hin|Hin]; [by simplify_eq|done].
Qed.

Section resolve.
Context (name : string) (st0 : interp).
Context (Hok : engine_ok st0 = true) (Hname : name ∉ keys st0).

Lemma engine_bound m n : (m, n) ∈ engine_names -> loaded m (new_module name st0) = true /\ m <> name /\ is_Some (attr_of m n (new_module name st0)) /\
  attr_of m n (new_module name st0) = attr_of m n st0.
Proof using Hok Hname.
  intros Hin%list_elem_of_In. unfold engine_ok in Hok. rewrite forallb_forall in Hok. specialize (Hok _ Hin). cbn [fst snd] in Hok.
  apply andb_true_iff in Hok as [Hl Hs%bool_decide_eq_true].
  assert (Hne : m <> name) by (intros ->; by apply loaded_keys in Hl).
  assert (Hlk : attr_lookup m (sys_modules (new_module name st0)) = attr_lookup m (sys_modules st0)).
  { unfold new_module. cbn [sys_modules]. rewrite lookup_dict_set. by rewrite decide_False. }
  assert (Hg : attr_of m n (new_module name st0) = attr_of m n st0) by (unfold attr_of, names_of; by rewrite Hlk).
  split_and!; [unfold loaded in *; by rewrite Hlk|done|by rewrite Hg|done].
Qed.

Lemma engine_import m names : names <> [] -> Forall (fun n => (m, n) ∈ engine_names) names -> importable name (new_module name st0) (From_ m names).
Proof using Hok Hname.
  intros Hne Hall. destruct names as [|n names]; [done|]. pose proof Hall as [Hn _]%list.Forall_cons.
  destruct (engine_bound m n Hn) as (Hl & Hm & _). split_and!; [done|done|].
  apply list.Forall_fmap. eapply list.Forall_impl; [exact Hall|]. intros x Hx. cbn. by destruct (engine_bound m x Hx) as (_ & _ & ? & _).
Qed.

Lemma generated_importable idl e : Forall (importable name (new_module name st0)) (stdlib_imports e ++ engine_imports idl e).
Proof using Hok Hname.
  apply Forall_app. split.
  - unfold stdlib_imports. rewrite !Forall_app. split_and!.
    + destruct (em_dataclass e); [constructor; [apply list.NoDup_singleton|]|]; constructor.
    + destruct (em_intenum e); [constructor; [apply list.NoDup_singleton|]|]; constructor.
    + destruct (typing_used e) as [|t ts] eqn:E; constructor; [|constructor]. cbn [importable]. rewrite <- E. unfold typing_used.
      apply NoDup_ListNoDup, List.NoDup_filter, NoDup_ListNoDup. apply (bool_decide_unpack _). vm_compute. exact I.
  - unfold engine_imports. apply list.Forall_fmap. eapply list.Forall_impl; [apply engine_froms_in|]. intros [m names] [Hne Hall]. by apply engine_import.
Qed.
End resolve.



(** ** Addresses *)

(** Each constant is made from a text of its own, has a display name whatever
    labels are assigned, and the generator's table of account names refers to
    these constants only. *)
Lemma addresses_named :
  NoDup ADDRESSES.*2 /\ Forall (fun a => is_Some (attr_lookup a.2 WELL_KNOWN)) ADDRESSES /\
  Forall (fun e => e.2 ∈ ADDRESSES.*2) NAME_TO_ADDRESS.
Proof. split_and!; apply (bool_decide_unpack _); vm_compute; exact I. Qed.
