(* ===== verification/Debug.v ===== *)
(** * The post-mortem debugger ([_debug.py])

    The one-shot guard, the frame the debugger opens at, the exception made
    visible in the frames' modules, the line handler of the prompt and the exit
    commands of a worker's breakpoint.  What the user does in a session, and what
    evaluated code does, is arbitrary. *)

From Stdlib Require Import ZArith Lia.
From stdpp Require Import base decidable option list gmap strings pretty.
From S2P Require Import Prelude.
From S2P Require Import Bytes.
From S2P Require Import Utf8.
From S2P Require Import Hex.
From S2P Require Import Values.
From S2P Require Import Coverage.

#[local] Open Scope string_scope.

(** ** Choosing the debugger *)

(** [stream.isatty()]: an answer, or an [AttributeError] or [ValueError]; a
    missing stream is [None]. *)
Inductive isatty_result := IsTty (b : bool) | NoIsatty.

Definition stream_is_tty (s : option isatty_result) : bool :=
  match s with Some (IsTty b) => b | _ => false end.
Definition _stdio_is_tty (stdin stdout : option isatty_result) : bool := stream_is_tty stdin && stream_is_tty stdout.

Inductive debugger :=
  | IpdbDefault (context : string) (commands : list string)     (** [ipdb]'s own choice *)
  | TerminalPdb (context : option string) (rcLines : list string).

(** [context_size] is the setting of the environment or of the configuration;
    [takes_context] tells whether [TerminalPdb(context=...)] accepts it. *)
Definition _init_pdb (stdin stdout : option isatty_result) (context_size : string) (takes_context : bool)
    (context : option string) (commands : list string) : debugger :=
  let context := default context_size context in
  if _stdio_is_tty stdin stdout
  then TerminalPdb (if takes_context then Some context else None) commands
  else IpdbDefault context commands.

(** ** [breakpoint()] *)

(** What a breakpoint does: hook the interpreter's handler, stop in a frame with
    a debugger whose lines [default_handler] evaluates, and hand the shell's
    module state back. *)
Inductive bp_step := WrapExcepthook | SetTrace (frame : nat) (p : debugger) | RestoreModuleState.

(** [caller] is the frame that called; [traced] the truth of what [set_trace]
    returns and [has_shell] whether the debugger has a shell. *)
Definition breakpoint_handler (stdin stdout : option isatty_result) (context_size : string) (takes_context : bool)
    (caller : nat) (traced has_shell : bool) (frame : option nat) (context : option string) (cond : bool) : list bp_step :=
  if negb cond then []
  else [WrapExcepthook; SetTrace (default caller frame) (_init_pdb stdin stdout context_size takes_context context [])] ++
       (if traced && has_shell then [RestoreModuleState] else []).

(** ** Evaluating a line *)

(** [sys.stdin], [sys.stdout] and [sys.displayhook], as identities. *)
Record sys_io := mkSysIo { io_stdin : nat; io_stdout : nat; io_displayhook : nat }.

(** A piece of user code: what it leaves in the world and the streams, and its
    outcome: a value ([None] is Python's), a [SyntaxError] or another exception. *)
Inductive outcome := Value (v : option string) | SyntaxErr | Raised (e : string).

Section Handler.
Context {World : Type}.

(** [compile], [eval], [exec] of the line and [rich_print] of a result. *)
Record interpreter := mkInterp {
  it_compiles : ustr -> bool;
  it_eval : ustr -> World -> sys_io -> outcome * World * sys_io;
  it_exec : ustr -> World -> sys_io -> outcome * World * sys_io;
  it_print : string -> World -> sys_io -> option string * World * sys_io;
}.

(** [line[1:].strip()] of a line that starts with [!]. *)
Definition strip_bang (line : ustr) : ustr := match line with 33%Z :: rest => strip rest | _ => line end.

(** The prompt's namespace entry [_]. *)
Record prompt := mkPrompt { pm_io : sys_io; pm_world : World; pm_last : option string; pm_errors : nat }.

Definition eval_line (i : interpreter) (code : ustr) (w : World) (io : sys_io)
    : bool * World * option string :=
  match it_eval i code w io with
  | (Value None, w, _) => (true, w, None)
  | (Value (Some v), w, io) =>
      match it_print i v w io with
      | (None, w, _) => (true, w, Some v)
      | (Some _, w, _) => (false, w, None)
      end
  | (SyntaxErr, w, io) =>
      match it_exec i code w io with
      | (Value _, w, _) => (true, w, None)
      | (_, w, _) => (false, w, None)
      end
  | (Raised _, w, _) => (false, w, None)
  end.

(** [default_handler]: [debugger_io] holds the debugger's own streams. *)
Definition default_handler (i : interpreter) (debugger_io : sys_io) (line : ustr) (p : prompt) : prompt :=
  let code := strip_bang line in
  if negb (it_compiles i code) then mkPrompt (pm_io p) (pm_world p) (pm_last p) (S (pm_errors p))
  else
    let '(ok, w, v) := eval_line i code (pm_world p) debugger_io in
    mkPrompt (pm_io p) w (match v with Some x => Some x | None => pm_last p end)
      (if (ok : bool) then pm_errors p else S (pm_errors p)).

(** Whatever the line does, the streams and the display hook are those of
    before, and nothing is raised. *)
Lemma handler_restores_io i dio line p : pm_io (default_handler i dio line p) = pm_io p.
Proof.
  unfold default_handler. destruct (it_compiles i (strip_bang line)); [|done]. simpl.
  by destruct (eval_line _ _ _ _) as [[? ?] ?].
Qed.

End Handler.

(** ** Exit commands of a breakpoint *)

(** The names bound to [do_continue], [do_quit] and [do_EOF]. *)
Definition exit_commands : list string := ["continue"; "c"; "cont"; "quit"; "q"; "exit"; "EOF"].

(** [CustomPdb]: the commands that leave the session run the cleanup first. *)
Definition runs_cleanup (cmd : string) : bool := bool_decide (cmd ∈ exit_commands).

(** ** [attach_debugger] *)

(** Paths by their components. *)
Fixpoint _is_relative_to (path other : list string) : bool :=
  match other, path with
  | [], _ => true
  | o :: other, p :: path => bool_decide (o = p) && _is_relative_to path other
  | _, [] => false
  end.

(** A frame of the traceback, outermost first: its file and its module. *)
Record frame := mkFrame { fr_file : list string; fr_module : string }.

Record place := mkPlace { pl_cwd : list string; pl_pkg_dir : list string }.

Definition user_frame (pl : place) (f : frame) : bool :=
  _is_relative_to (fr_file f) (pl_cwd pl) && negb (_is_relative_to (fr_file f) (pl_cwd pl ++ ["pytypes"])%list) &&
  negb (_is_relative_to (fr_file f) (pl_pkg_dir pl)).

(** The loop over [reversed(frames)]. *)
Fixpoint count_up (pl : place) (inward : list frame) : nat :=
  match inward with
  | [] => 0
  | f :: inward => if user_frame pl f then 0 else S (count_up pl inward)
  end.
Definition frames_up (pl : place) (frames : list frame) : nat := count_up pl (reverse frames).

Definition commands_for (up : nat) : list string := if (0 <? up)%nat then ["up " +:+ pretty up] else [].

(** The state: the guard, the handler installed in its place (by identity), the
    modules' globals, the artifact and what was shown. *)
Inductive shown := ShownTraceback | ShownSeed (hex : ustr) | Session (commands : list string).

Record dstate := mkDState {
  _exception_handled : bool;
  _exception_handler : option nat;
  d_globals : gmap string (gmap string string);
  d_crash_txt : option string;
  d_shown : list shown;
}.

Definition set_exception_handler (handler : nat) (d : dstate) : dstate :=
  mkDState (_exception_handled d) (Some handler) (d_globals d) (d_crash_txt d) (d_shown d).
Definition get_exception_handler (d : dstate) : option nat := _exception_handler d.
Definition reset_exception_handled (d : dstate) : dstate :=
  mkDState false (_exception_handler d) (d_globals d) (d_crash_txt d) (d_shown d).

Definition set_exception (e : string) (gs : gmap string (gmap string string)) (f : frame) : gmap string (gmap string string) :=
  alter (insert "__exception__" e) (fr_module f) gs.
Definition pop_exception (gs : gmap string (gmap string string)) (f : frame) : gmap string (gmap string string) :=
  alter (delete "__exception__") (fr_module f) gs.

(** [e] is the exception, [None] for a missing part of the triple; [tb_text] the
    formatted traceback; [interaction] what the session does to the globals and
    the exception that leaves it. *)
Definition attach_debugger (pl : place) (writable : bool) (e : option string) (tb_text : string) (frames : list frame)
    (seed : option bytes) (interaction : list string -> gmap string (gmap string string) ->
                                         gmap string (gmap string string) * option string)
    (d : dstate) : option string * dstate :=
  if _exception_handled d then (None, d)
  else
    match e with
    | None => (Some "AssertionError", mkDState true (_exception_handler d) (d_globals d) (d_crash_txt d) (d_shown d))
    | Some e =>
        let crash := if writable then Some tb_text else d_crash_txt d in
        let commands := commands_for (frames_up pl frames) in
        let '(gs, raised) := interaction commands (foldl (set_exception e) (d_globals d) frames) in
        (raised,
         mkDState true (_exception_handler d) (foldl pop_exception gs frames) crash
           (d_shown d ++ [ShownTraceback] ++ (match seed with Some s => [ShownSeed (bytes_hex s)] | None => [] end) ++
            [Session commands])%list)
    end.

(** ** Properties *)

Lemma count_up_spec pl l :
  (count_up pl l <= length l)%nat /\ (forall i f, (i < count_up pl l)%nat -> l !! i = Some f -> user_frame pl f = false) /\
  (forall f, l !! count_up pl l = Some f -> user_frame pl f = true).
Proof.
  induction l as [|f l (IH1 & IH2 & IH3)]; simpl; [split_and!; [lia|intros; lia|done]|].
  destruct (user_frame pl f) eqn:E.
  - split_and!; [lia|intros; lia|]. by intros g [= <-].
  - split_and!; [lia| |done]. intros [|i] g Hi Hg; [simpl in Hg; by simplify_eq|]. apply (IH2 i); [lia|done].
Qed.

Lemma popped gs frames f : f ∈ frames -> ((foldl pop_exception gs frames) !! fr_module f) ≫= (fun g => g !! "__exception__") = None.
Proof.
  assert (Hkeep : forall fs gs m, (gs !! m) ≫= (fun g : gmap string string => g !! "__exception__") = None ->
    ((foldl pop_exception gs fs) !! m) ≫= (fun g => g !! "__exception__") = None).
  { induction fs as [|x fs IH]; intros gs0 m Hm; [done|]. apply IH. unfold pop_exception.
    destruct (decide (fr_module x = m)) as [->|Hne]; [|by rewrite lookup_alter_ne].
    rewrite lookup_alter_eq. destruct (gs0 !! m); [|done]. simpl. apply lookup_delete_eq. }
  revert gs. induction frames as [|x frames IH]; intros gs Hin; [by apply elem_of_nil in Hin|]. simpl.
  apply elem_of_cons in Hin as [->|Hin]; [|by apply IH]. apply Hkeep. unfold pop_exception. rewrite lookup_alter_eq.
  destruct (gs !! fr_module x); [|done]. simpl. apply lookup_delete_eq.
Qed.

(** The post-mortem opens once per test, at the user's code, and cleans up.
    The first failure after a reset opens one session, told to go up past
    exactly the frames of the framework, the generated package and other
    libraries that lie below the deepest frame of the project; afterwards no
    frame's module holds the exception, whatever the session did or raised; a
    second failure before the next reset opens nothing and changes nothing; a
    handler that was installed stays installed. *)
Theorem attach_debugger_spec pl writable e tb_text frames seed interaction d r d' :
  _exception_handled d = false ->
  attach_debugger pl writable (Some e) tb_text frames seed interaction d = (r, d') ->
  let n := frames_up pl frames in
  (exists pre, d_shown d' = (pre ++ [Session (commands_for n)])%list) /\
  (forall i f, (i < n)%nat -> reverse frames !! i = Some f -> user_frame pl f = false) /\
  (forall f, reverse frames !! n = Some f -> user_frame pl f = true) /\
  (forall f, f ∈ frames -> (d_globals d' !! fr_module f) ≫= (fun g => g !! "__exception__") = None) /\
  (forall e2 tb2 fs2 seed2 inter2, attach_debugger pl writable e2 tb2 fs2 seed2 inter2 d' = (None, d')) /\
  _exception_handled (reset_exception_handled d') = false /\
  get_exception_handler (reset_exception_handled d') = get_exception_handler d.
Proof.
  intros Hh. unfold attach_debugger at 1. rewrite Hh.
  destruct (interaction _ _) as [gs raised]. intros [= <- <-]. destruct (count_up_spec pl (reverse frames)) as (_ & H1 & H2).
  split_and!; [|exact H1|exact H2| |done|done|done].
  - exists (d_shown d ++ [ShownTraceback] ++ match seed with Some s => [ShownSeed (bytes_hex s)] | None => [] end)%list.
    cbn [d_shown]. by rewrite <- !app_assoc.
  - intros f Hf. by apply popped.
Qed.

Definition demo_place : place := mkPlace ["/"; "p"] ["/"; "venv"; "wake_sol"].
Definition demo_frames : list frame :=
  [mkFrame ["/"; "p"; "tests"; "t.py"] "t"; mkFrame ["/"; "p"; "pytypes"; "vault.py"] "pytypes.vault";
   mkFrame ["/"; "venv"; "wake_sol"; "_errors.py"] "wake_sol._errors"].

Lemma attach_debugger_spec_witness :
  exists d', attach_debugger demo_place true (Some "boom") "tb" demo_frames None (fun _ gs => (gs, Some "BdbQuit"))
               (mkDState false None (<["t" := ∅]> ∅) None []) = (Some "BdbQuit", d') /\
    d_shown d' = [ShownTraceback; Session ["up 2"]] /\
    (d_globals d' !! "t") ≫= (fun g => g !! "__exception__") = None.
Proof.
  eexists. split; [reflexivity|].
  edestruct (attach_debugger_spec demo_place true "boom" "tb" demo_frames None (fun _ gs => (gs, Some "BdbQuit"))
    (mkDState false None (<["t" := ∅]> ∅) None [])) as (_ & _ & _ & H & _); [reflexivity|reflexivity|].
  split; [vm_compute; reflexivity|]. apply (H (mkFrame ["/"; "p"; "tests"; "t.py"] "t")). left.
Defined.
