(* ===== verification/Units.v ===== *)
(** * SOL to lamports ([_units.py])

    [sol] computes in decimal arithmetic: a finite decimal is a sign, a
    coefficient and an exponent, and products are rounded to the 28 digits of
    the default context.  Digits are those of ASCII. *)

From Stdlib Require Import ZArith Lia.
From stdpp Require Import base decidable option list strings.
From S2P Require Import Prelude.
From S2P Require Import Utf8.
From S2P Require Import Values.
From S2P Require Import Coverage.
#[local] Open Scope Z_scope.

(** ** [decimal.Decimal] *)

Inductive decimal :=
  | DFinite (negative : bool) (coefficient exponent : Z)
  | DInfinite (negative : bool)
  | DNaN.

(** The default context. *)
Definition prec : Z := 28.
Definition Emax : Z := 999999.
Definition Emin : Z := -999999.
Definition Etiny : Z := Emin - prec + 1.
Definition Etop : Z := Emax - prec + 1.

(** The number of digits of a positive integer. *)
Fixpoint ndigits_from (fuel : nat) (n : Z) : Z :=
  match fuel with
  | O => 0
  | S fuel => if n <? 10 then 1 else 1 + ndigits_from fuel (n / 10)
  end.
Definition ndigits (n : Z) : Z := ndigits_from (S (Z.to_nat (Z.log2 n))) n.

(** [c / 10^k] rounded half to even. *)
Definition round_div (c k : Z) : Z :=
  let d := 10 ^ k in
  let q := c / d in
  let r := c mod d in
  if (d <? 2 * r) || ((d =? 2 * r) && Z.odd q) then q + 1 else q.

(** [Decimal._fix]; [None] is the exception [Overflow]. *)
Definition fix_ (c e : Z) : option (Z * Z) :=
  if c =? 0 then Some (0, Z.min (Z.max e Etiny) Emax)
  else
    let exp_min := ndigits c + e - prec in
    if Etop <? exp_min then None
    else
      let exp_min := Z.max exp_min Etiny in
      if e <? exp_min then
        let q := round_div c (exp_min - e) in
        (* a carry into one more digit *)
        let '(q, exp_min) := if prec <? ndigits q then (q / 10, exp_min + 1) else (q, exp_min) in
        if Etop <? exp_min then None else Some (q, exp_min)
      else Some (c, e).

(** ** [Decimal(text)] *)

Definition is_digit_char (c : Z) : bool := (48 <=? c) && (c <=? 57).
Definition digits_value (s : ustr) : Z := fold_left (fun acc c => acc * 10 + (c - 48)) s 0.
Fixpoint span_of (f : Z -> bool) (s : ustr) : ustr * ustr :=
  match s with
  | c :: s' => if f c then let '(a, b) := span_of f s' in (c :: a, b) else ([], s)
  | [] => ([], [])
  end.

(** [[-+]?\d+] to the end. *)
Definition exponent_value (s : ustr) : option Z :=
  let '(neg, s) := match s with 45 :: t => (true, t) | 43 :: t => (false, t) | _ => (false, s) end in
  match s with
  | [] => None
  | _ => if forallb is_digit_char s then Some (if (neg : bool) then - digits_value s else digits_value s) else None
  end.

(** Digits with an optional fraction, or a fraction, and an exponent. *)
Definition finite_value (negative : bool) (s : ustr) : option decimal :=
  let '(i, s1) := span_of is_digit_char s in
  let '(f, s2) := match s1 with 46 :: t => span_of is_digit_char t | _ => ([], s1) end in
  match i, f with
  | [], [] => None
  | _, _ =>
      let value (e : Z) := DFinite negative (digits_value (i ++ f)) (e - Z.of_nat (length f)) in
      match s2 with
      | [] => Some (value 0)
      | c :: t => if (c =? 101) || (c =? 69) then value <$> exponent_value t else None
      end
  end.

Definition lower_char (c : Z) : Z := if (65 <=? c) && (c <=? 90) then c + 32 else c.

Definition special_value (negative : bool) (s : ustr) : option decimal :=
  let s := lower_char <$> s in
  if decide (s = u "inf"%string) then Some (DInfinite negative)
  else if decide (s = u "infinity"%string) then Some (DInfinite negative)
  else
    match removeprefix (u "nan"%string) (match s with 115 :: t => t | _ => s end) with
    | Some payload => if forallb is_digit_char payload then Some DNaN else None
    | None => None
    end.

Definition parse_decimal (text : ustr) : option decimal :=
  let s := List.filter (fun c => negb (c =? 95)) (strip text) in
  let '(negative, body) := match s with 45 :: t => (true, t) | 43 :: t => (false, t) | _ => (false, s) end in
  match finite_value negative body with
  | Some d => Some d
  | None => special_value negative body
  end.

(** ** [sol] *)

Definition LAMPORTS_PER_SOL : Z := 1000000000.

(** What [sol] may be called with. *)
Inductive amount :=
  | AInt (z : Z)
  | AStr (s : ustr)
  | ADecimal (d : decimal)
  | AFloat
  | AOther.        (** a value [Decimal] does not take *)

Definition as_decimal (a : amount) : option decimal :=
  match a with
  | AInt z => Some (DFinite (z <? 0) (Z.abs z) 0)
  | AStr s => parse_decimal s
  | ADecimal d => Some d
  | AFloat | AOther => None
  end.

(** [x == x.to_integral_value()] and [int(x)]. *)
Definition integral (c e : Z) : bool := (0 <=? e) || (c mod 10 ^ (- e) =? 0).
Definition to_int (c e : Z) : Z := if 0 <=? e then c * 10 ^ e else c / 10 ^ (- e).

Definition signed (negative : bool) (n : Z) : Z := if negative then - n else n.

Definition sol (a : amount) : res Z :=
  match a with
  | AFloat => Raise (TypeError "sol() does not take floats"%string)
  | _ =>
      match as_decimal a with
      | None => Raise (ValueError "cannot read as an amount of SOL"%string)
      | Some (DFinite negative c e) =>
          match fix_ (c * LAMPORTS_PER_SOL) e with
          | None => Raise OverflowError
          | Some (c, e) =>
              if integral c e then Ok (signed negative (to_int c e))
              else Raise (ValueError "not a whole number of lamports"%string)
          end
      | Some _ => Raise (ValueError "not a finite amount of SOL"%string)
      end
  end.

(** ** Properties *)

Lemma ndigits_from_spec fuel n : 0 < n < 2 ^ Z.of_nat fuel ->
  1 <= ndigits_from fuel n /\ 10 ^ (ndigits_from fuel n - 1) <= n < 10 ^ ndigits_from fuel n.
Proof.
  revert n. induction fuel as [|fuel IH]; intros n Hn; [simpl in Hn; lia|]. cbn [ndigits_from].
  assert (Hp : 2 ^ Z.of_nat (S fuel) = 2 * 2 ^ Z.of_nat fuel) by (rewrite Nat2Z.inj_succ, Z.pow_succ_r; lia).
  destruct (n <? 10) eqn:E; zify_bools; [simpl; lia|].
  destruct (IH (n / 10)) as (H1 & H2).
  { split; [apply Z.div_str_pos; lia|apply Z.div_lt_upper_bound; lia]. }
  set (k := ndigits_from fuel (n / 10)) in *. split; [lia|].
  replace (1 + k - 1) with (Z.succ (k - 1)) by lia. replace (1 + k) with (Z.succ k) by lia.
  rewrite !Z.pow_succ_r by lia. pose proof (Z.div_mod n 10 ltac:(lia)). pose proof (Z.mod_pos_bound n 10 ltac:(lia)). lia.
Qed.

Lemma ndigits_spec n : 0 < n -> 1 <= ndigits n /\ 10 ^ (ndigits n - 1) <= n < 10 ^ ndigits n.
Proof.
  intros Hn. apply ndigits_from_spec. rewrite Nat2Z.inj_succ, Z2Nat.id by apply Z.log2_nonneg.
  split; [done|]. by apply Z.log2_spec.
Qed.

Lemma ndigits_le n k : 0 < n -> n < 10 ^ k -> ndigits n <= k.
Proof.
  intros Hn Hk. destruct (ndigits_spec n Hn) as (H1 & H2 & _).
  destruct (Z_le_gt_dec (ndigits n) k); [done|].
  assert (10 ^ k <= 10 ^ (ndigits n - 1)) by (apply Z.pow_le_mono_r; lia). lia.
Qed.

(** Rounding drops only zeros. *)
Lemma round_div_exact q k : 0 <= k -> round_div (q * 10 ^ k) k = q.
Proof.
  intros Hk. unfold round_div. assert (0 < 10 ^ k) by (apply Z.pow_pos_nonneg; lia).
  rewrite Z.div_mul, Z.mod_mul by lia. change (2 * 0) with 0.
  replace (10 ^ k <? 0) with false by lia. by replace (10 ^ k =? 0) with false by lia.
Qed.

(** A coefficient of at most 28 digits times the scale is not changed. *)
Lemma fix_scaled c e :
  0 < c < 10 ^ prec -> Etiny <= e <= Etop - 9 ->
  exists k, 0 <= k <= 9 /\ fix_ (c * LAMPORTS_PER_SOL) e = Some (c * 10 ^ (9 - k), e + k).
Proof.
  intros Hc He. unfold fix_, Etiny, Etop, Emax, Emin, prec in *.
  change LAMPORTS_PER_SOL with (10 ^ 9). assert (Hpos : 0 < c * 10 ^ 9) by lia.
  replace (c * 10 ^ 9 =? 0) with false by lia.
  assert (Hd : ndigits (c * 10 ^ 9) <= 37) by (apply ndigits_le; [done|]; change (10 ^ 37) with (10 ^ 28 * 10 ^ 9); nia).
  set (n := ndigits (c * 10 ^ 9)) in *. destruct (ndigits_spec _ Hpos) as (H1 & H2 & H3). fold n in H1, H2, H3.
  rewrite (proj2 (Z.ltb_ge (999999 - 28 + 1) (n + e - 28))) by lia.
  destruct (e <? Z.max (n + e - 28) (-999999 - 28 + 1)) eqn:E; zify_bools.
  - assert (Hk : exists k, Z.max (n + e - 28) (-999999 - 28 + 1) = e + k /\ k = n - 28 /\ 0 < k <= 9) by (exists (n - 28); lia).
    destruct Hk as (k & -> & Hkn & Hk). replace (e + k - e) with k by lia.
    assert (Hsplit : c * 10 ^ 9 = (c * 10 ^ (9 - k)) * 10 ^ k).
    { rewrite <- Z.mul_assoc, <- Z.pow_add_r by lia. do 2 f_equal. lia. }
    rewrite Hsplit, round_div_exact by lia.
    assert (ndigits (c * 10 ^ (9 - k)) <= 28) as Hd2.
    { apply ndigits_le; [assert (0 < 10 ^ (9 - k)) by (apply Z.pow_pos_nonneg; lia); nia|].
      replace n with (28 + k) in H3 by lia. rewrite Z.pow_add_r in H3 by lia. rewrite Hsplit in H3.
      assert (0 < 10 ^ k) by (apply Z.pow_pos_nonneg; lia). nia. }
    replace (28 <? ndigits (c * 10 ^ (9 - k))) with false by lia.
    replace (999999 - 28 + 1 <? e + k) with false by lia. exists k. split; [lia|done].
  - exists 0. rewrite Z.sub_0_r, Z.add_0_r. split; [lia|done].
Qed.

(** The value of a decimal in lamports, when it is a whole number: [c * 10^(e+9)]. *)
Definition lamports_of (c e n : Z) : Prop :=
  if 0 <=? e + 9 then n = c * 10 ^ (e + 9) else n * 10 ^ (- (e + 9)) = c.

Lemma integral_spec c k e : 0 < c -> 0 <= k <= 9 ->
  (integral (c * 10 ^ (9 - k)) (e + k) = true -> lamports_of c e (to_int (c * 10 ^ (9 - k)) (e + k))) /\
  (integral (c * 10 ^ (9 - k)) (e + k) = false -> forall n, ~ lamports_of c e n).
Proof.
  intros Hc Hk. unfold integral, to_int, lamports_of.
  destruct (0 <=? e + k) eqn:E; cbn [orb]; zify_bools.
  - split; [|done]. intros _. replace (0 <=? e + 9) with true by lia.
    rewrite <- Z.mul_assoc, <- Z.pow_add_r by lia. do 2 f_equal. lia.
  - assert (Hp : 0 < 10 ^ (- (e + k))) by (apply Z.pow_pos_nonneg; lia).
    destruct (0 <=? e + 9) eqn:E9; zify_bools.
    + (* the exponent is brought to zero by the factor *)
      assert (Hs : c * 10 ^ (9 - k) = (c * 10 ^ (e + 9)) * 10 ^ (- (e + k))).
      { rewrite <- Z.mul_assoc, <- Z.pow_add_r by lia. do 2 f_equal. lia. }
      rewrite Hs, Z.mod_mul, Z.div_mul by lia. by split.
    + assert (Hs : 10 ^ (- (e + k)) = 10 ^ (- (e + 9)) * 10 ^ (9 - k)).
      { rewrite <- Z.pow_add_r by lia. f_equal. lia. }
      assert (Hq : 0 < 10 ^ (9 - k)) by (apply Z.pow_pos_nonneg; lia).
      assert (Hr : 0 < 10 ^ (- (e + 9))) by (apply Z.pow_pos_nonneg; lia).
      rewrite Hs, Z.mul_mod_distr_r, Z.div_mul_cancel_r by lia. split; intros Hm; zify_bools.
      * pose proof (Z.div_mod c (10 ^ (- (e + 9))) ltac:(lia)). nia.
      * intros n Hn. apply Hm. rewrite <- Hn. rewrite Z.mod_mul by lia. done.
Qed.

(** [sol] is exact on every amount of at most 28 significant digits, which
    holds for all amounts of the chain: it returns the number of lamports the
    decimal stands for, with its sign, and raises [ValueError] when that is not a
    whole number. *)
Theorem sol_exact negative c e :
  0 < c < 10 ^ prec -> Etiny <= e <= Etop - 9 ->
  match sol (ADecimal (DFinite negative c e)) with
  | Ok n => exists m, n = signed negative m /\ lamports_of c e m
  | Raise x => x = ValueError "not a whole number of lamports"%string /\ forall m, ~ lamports_of c e m
  end.
Proof.
  intros Hc He. destruct (fix_scaled c e Hc He) as (k & Hk & Hf). unfold sol, as_decimal. rewrite Hf.
  destruct (integral_spec c k e (proj1 Hc) Hk) as [H1 H2]. destruct (integral _ _); [|by split; auto].
  eexists. split; [done|auto].
Qed.

(** One lamport, written out. *)
Lemma sol_exact_witness : sol (AStr (u "0.000000001"%string)) = Ok 1 /\ exists m, 1 = signed false m /\ lamports_of 1 (-9) m.
Proof.
  split; [vm_compute; reflexivity|].
  apply (sol_exact false 1 (-9)); [vm_compute; split; reflexivity|vm_compute; split; discriminate].
Defined.

(** Beyond 28 digits the product is rounded before the test: an amount that is
    not a whole number of lamports is accepted. *)
Lemma sol_rounds_silently :
  sol (AStr (u "1.0000000000000000000000000001"%string)) = Ok 1000000000 /\
  forall m, ~ lamports_of 10000000000000000000000000001 (-28) m.
Proof.
  split; [vm_compute; reflexivity|]. intros m. unfold lamports_of. cbn -[Z.mul Z.pow]. intros Hm.
  apply (f_equal (fun x => x mod 10)) in Hm. change (- (-28 + 9)) with 19 in Hm.
  replace (m * 10 ^ 19) with ((m * 10 ^ 18) * 10) in Hm by lia. rewrite Z.mod_mul in Hm by lia. discriminate Hm.
Qed.
